(* ===== verification/_CoqProject ===== *)
-Q . S2P
Prelude.v
Lock.v
StdMap.v
Status.v
Hex.v
Json.v
JsonParse.v
JsonText.v
Host.v
JsonHeap.v
AppJsonHeap.v
State.v
Demo.v
Merkle.v
Persist.v
Schedule.v
Workload.v
Report.v
Srd.v
Storage.v
Validator.v
Identity.v
Upgrade.v
Attest.v
Invariant.v
Ecalls.v
EnclaveLocks.v
AppLocks.v
AppJson.v
AppData.v
AppTask.v
AppEcalls.v
AppSrd.v
AppText.v
AppChain.v
AppReport.v
AppApi.v
AppNetwork.v
AppProcess.v
AppSgx.v
AppLog.v
AppFiles.v
AppPieces.v
AppWeb.v
AppHttp.v
AppFormat.v
AppHandover.v
