(* ===== verification/Prelude.v ===== *)
(** * Crust sWorker: a verification library

    The sWorker is the storage node of the Crust chain.  An SGX enclave proves to
    the chain how much disk space the node provides; an untrusted application
    around it does the input and output.  This library models the enclave
    (src/src/enclave) and the application (src/src/app) down to its network
    libraries, and proves what their parts promise to each other.

    ** The program

    - The node fills free disk space with _sealed random data_, one gigabyte at a
      time (srd/Srd.cpp).  The enclave keeps the hash of each gigabyte, by disk.
    - Users' _meaningful files_ come as Merkle trees of blocks.  Each block is
      sealed, the tree is rebuilt above the sealed blocks, and the file waits to
      be confirmed (storage/Storage.cpp).
    - From time to time a random sample of both is checked against the disks
      (validator/Validator.cpp).  Bad random data is deleted twofold, bad files
      are lost until they are found again.
    - Once per era a signed _work report_ tells the chain the space and the files
      (report/Report.cpp).  What the chain accepted is remembered per file.
    - All of this is state of one object, the _workload_ (workload/Workload.cpp),
      saved and restored as text through the application's database
      (persistence/Persistence.cpp), the text being JSON (utils/EJson.h).
    - Long loops give their lock away when a more urgent task runs
      (schedule/Schedule.cpp).
    - The enclave has a key pair, an account and a measurement, saves itself and
      comes back after a restart, hands its state to the next version of itself,
      and proves to the chain that it is what it says (identity/Identity.cpp).
    - The application calls the enclave through the entry points of Enclave.cpp.
      A queue limits and orders the calls (app/ecalls/ECalls.cpp).
    - Around it, the application keeps the enclave's data in LevelDB
      (app/database, app/ocalls), spreads random data over the disks
      (app/process/Srd.cpp), reports once per era (app/process/WorkReport.cpp),
      talks to the chain (app/chain) and answers requests of the owner
      (app/http/ApiHandler.h).  It can start as the successor of a running version
      and take over from it (app/process/Process.cpp).

    ** The files of the library

    - [Prelude]: bytes, machine integers with their wrap-around, decimal text,
      tactics.  [StdMap]: [std::map] and [std::set] as sorted lists.
    - [Status]: crust_status_t, the parameters of include/Parameter.h.
    - [Hex]: the byte helpers of utils/EUtils.cpp.  [Json], [JsonParse]: the class
      JSON, its printer and its two parsers.  [JsonText]: what the parsers make of
      printed text.  [JsonHeap]: the same class as objects in memory, with what it
      allocates, shares and frees, in a logic of separate heaps; [AppJsonHeap]: the
      application's copy of it.
    - [Lock]: mutexes, the scoped lock SafeLock, functions seen as what they lock,
      unlock and use ([prog], [sem]), threads that run them at the same time ([step]),
      and a check of a whole function by computation ([flow], [obeys]).
      [EnclaveLocks]: every function and entry point of the enclave seen so;
      [AppLocks]: the application around it, with the calls from one into the other.
    - [Host]: the calls out of the enclave (class [Host]), the laws theorems
      assume of them ([HostLaws], [SealLaws]; [DbLaws], what a write of the database
      that succeeds has done, and [DbHealthy], that none fails), the monad [M S A] =
      [S → res (A * S)] of enclave code with its reasoning rules [wp] and [twp].
    - [State]: the record [workload] of Workload.h, the record [enclave] of all
      globals with the outside world, lenses, [outside] for computations that only
      talk to the host, and [Threads] for what others do meanwhile.
    - [Demo]: a small concrete host that satisfies all laws, for the witnesses.
    - [Merkle], [Persist], [Schedule], [Workload], [Report], [Srd], [Storage],
      [Validator]: one file per component of the enclave, with the names of the
      source.
    - [Identity] (metadata, keys, account), [Upgrade] (export and import of the
      state), [Attest] (verification and upload of an attestation report): the
      three parts of identity/Identity.cpp.
    - [Invariant]: what a well-formed workload is ([typed]), how it may change
      ([evolves]), and that every operation keeps it so.  [Ecalls]: the entry points,
      any sequence of them ([run_ecalls]), one turn of the main loop.
    - [AppTask]: the queue of the application as a step relation over any number of
      threads, with calls made from within calls ([do_event], [reachable]);
      [AppEcalls]: one call through its wrapper, around the entry points of [Ecalls],
      and the calls made from within it ([calls_back], [in_enclave_back]).
    - [AppJson]: the application's own copy of the JSON library, Json.hpp.  The parser
      of [JsonParse] is one definition with a [reader] for each of the three
      versions of [Load]: the enclave's for text and for buffers, and this one.
    - [AppData]: DataBase over LevelDB (which may fail: [LevelDbLaws], and
      [LevelDbHealthy] where it does not), EnclaveData, and the ocalls for storing,
      which make the application a [Host] of the enclave.  [AppSrd]: a srd task from the
      distribution over disks to the calls of the enclave.
    - [AppText]: urls, request parameters, Merkle trees as JSON, seeds.  [AppChain]:
      the configuration and the chain, over a class [HttpClient].  [AppReport]: the
      work report loop and what becomes of a report.
    - [AppApi]: one HTTP request, from its checks through its route to the answer.
      [AppPieces]: the same as the sequence of its accesses to the node, between which
      other threads act; left to itself it is the request of [AppApi] ([http_alone]).
      [AppNetwork]: entering the network.  [AppProcess]: the start of the process, the
      upgrade on the side of the new version, and the loop that watches the tasks.
    - [AppSgx]: the check that the host can run an enclave.  [AppLog]: logging, in the
      enclave and outside.
    - [AppFiles]: files on the disk and the storage peer.  [AppWeb]: connections and
      sessions as completion handlers, on three threads ([server_step]).  [AppHttp]: the HTTP client and IPFS.
      [AppFormat]: hexadecimal text.
    - [AppHandover]: an upgrade across both processes and both enclaves.

    ** Conventions

    - A C++ string or buffer is a list of bytes, [std::map] a sorted association
      list, [std::vector] a list.  Integers are [Z], and the width is written where
      arithmetic can leave it ([u32], [u64], [i32], [i64]).
    - [res]: [Ok] a value, [UB] undefined behaviour (a read or write out of
      bounds, a NULL dereference, division by zero), [Throw] an uncaught exception,
      [NoFuel] not enough fuel.  Fuel occurs where C++ recurses over a value or a
      text: the parser (twice the length of the text, [load_terminates]), the
      Merkle validator (the height of the value, [merkle_validate_terminates]), the
      sealing recursion (the same), the choice of entries to delete (the longest
      path, part of [srd_decrease_spec]).
    - A mutex excludes other threads, so what happens between lock and unlock is
      one step of the state; that the enclave locks as it should is [EnclaveLocks].
      Where the lock is given away midway, [others_run] of
      [Threads] stands for an arbitrary change, restricted in the theorems that
      need it.
    - [wp m Q e]: [m] started in [e] is not out of fuel, and if it returns, [Q]
      holds; undefined behaviour ends a run.  [twp m Q e]: it does return, and [Q]
      holds.
    - [malloc] may fail at every call; enc_malloc's repeated attempts see the same
      heap.  Allocation inside small helpers (hex strings, containers) succeeds.
    - Calls of other parts of the world are classes next to the component that makes
      them: [IdHost], [UpgradeHost], [AttestHost] (OpenSSL, base64, the SGX library),
      [AppThreads] (the other threads of the application).  [Demo] and the ends of
      the files instantiate them.
    - The main loop never ends; [ecall_main_loop] is any number of its turns.  The
      loop that looks for the last era gets the distance of the heights as fuel
      ([era_height_spec]); the loop that waits for the enclave gets any fuel, four
      turns being enough when nothing stands in the way ([wrapper_transparent]).
      A stranger's request makes at most six accesses ([stranger_harmless]).
      Deleting a directory gets the depth of the file system ([delete_confined]);
      loops that wait for the chain, for another process or for a restart get any
      fuel, their theorems being about runs that end.
    - Reading a missing key of a JSON object creates it in the source; the model
      creates it where that can be observed (paths of the srd map, counters), and
      relies on the entries of files having all their fields, as
      [storage_seal_file] and [restore_file] make them.

    ** What is proved

    - _Work reports_: [report_scan_correct] gives the contents of a report from
      the files, [report_accounting] that accepted ordinary reports add up,
      [gen_work_report_gate] when a report is made, [report_sign_spec] what is
      signed, [purge_exact] and [report_limit] the bounds of its lists.
    - _Validation_: [validate_srd_honest] an honest disk is never punished,
      [validate_srd_dishonest] a lost disk always is, [validate_files_spec] which
      status changes are possible, [validate_num_spec] the size of the sample.
    - _Merkle trees_: [merkle_validate_correct], [merkle_binding],
      [merkle_validate_terminates].
    - _Files_: [storage_seal_spec], [unseal_confined], [storage_confirm_spec],
      [storage_delete_spec].
    - _Persistence_: [persist_unsafe_roundtrip], [persist_sealed_roundtrip],
      [persist_del_spec], [files_roundtrip], [srd_roundtrip], [json_roundtrip],
      [load_terminates], [hex_inverse], [store_large_data_rebuilds].
    - _Memory_: [objects_are_values] JSON objects in memory do what the values of the
      other files do, with nothing shared or freed twice; [hashes_leak] what is not
      given back; [self_assignment_undefined]; [same_class] the application's class does
      the same, [app_objects_are_values].
    - _Mutexes_: [scoped_lock]; [enclave_deadlock_free] the entry points never wait for
      one another for ever, [enclave_race_free] which variables are safe,
      [node_deadlock_free] and [node_race_free] the same of the whole node, and, where
      the code is not, [two_updates_deadlock], [failed_report_deadlocks],
      [metadata_race], [decrease_race], [change_srd_race], [workload_race],
      [id_info_race], [counter_race], [running_num_race], [timeout_race].
    - _Random data_: [srd_decrease_spec], [srd_increase_adds_one],
      [set_srd_change_limit], [srd_turns_complete], [set_srd_info_floor].
    - _Workload_: [handle_report_result_spec], [set_wl_spec_conserves],
      [validated_proof_two], [try_report_work_spec].
    - _Scheduler_: [sched_check_yields].
    - _Identity_: [metadata_roundtrip], [cmp_account_prefix], [gen_key_pair_once],
      [upload_identity_genuine].
    - _Upgrade_: [upgrade_roundtrip] the new version takes over what the old one
      exported, [restore_upgrade_verified] and nothing that is not signed,
      [pieces_equal_whole], [era_height_spec].
    - _Entry points_: [ecalls_well_typed] the workload is well-formed after any
      sequence of calls, [identity_stays], [upgrade_refuses], [enabled_upgrade_ready].
    - _Queue_: [enclave_threads_bounded] with what calls from within cost,
      [upgrade_ecalls_exact], [slot_taken_in_order], [low_priority_gives_up],
      [blocked_call_never_enters]; [wrapper_transparent] a call through the queue is
      the call of the enclave, [refused_call_untouched].
    - _Application_: [application_stores] what its database does with a value, and
      that it does what the enclave relies on while LevelDB does not fail
      ([unsafe_reports_record] and [piece_lost]: what is not noticed otherwise); [increase_plan] a task is spread over the disks as it should be;
      [check_reserved_asks] the check of the reserved space asks for the right
      deletions; [shared_roundtrip] enclave and application read each other's texts;
      [report_wait_bounds], [reports_once_per_era], [report_posted] when a report is
      made and what the chain is told.
    - _Requests_: [pipelined_in_order] every connection gets its answers in order while
      handlers of several run at once, [request_addressed] where the node's own
      requests go, [only_the_owner] a request alone and [strangers_change_nothing]
      among others: who may do anything; [changes_mixed_up] two that disturb each
      other,
      [upgrade_gate] when nobody may, [seal_request] how a tree reaches the enclave,
      [form_roundtrip] and a file IPFS.
    - _Replacing a running version_: [handover] the new version works with what the
      old one had, [takes_over_whole] as if handed over at once, [complete_understood]
      both agree on the outcome, [upgrade_times_out] and it does not last for ever.
    - _Disk and peer_: [delete_confined], [replace_file_replaces], [file_fits],
      [block_asked].
    - _Host and log_: [enclave_needs_device], [support_kept], [quote_size_first_library];
      [log_bounds] how much can be logged, [enclave_log_safe] the enclave never logs
      more, [failed_log_blocks].

    Examples record where the code does not do what it means to: the counters of
    confirmed and deleted files, files of two gigabytes and more, stored values
    above four megabytes that survive deletion, null and exponents in JSON, foreign
    keys in the metadata, long mount paths, short srd hashes, slots of the queue
    that are lost or given back twice, a capacity that grows when it should shrink.
    Races, deadlocks, leaks and reads too far are theorems of their own, named above.

    ** What is not modelled

    - The freeing of memory, other than of JSON objects.
    - Inside OpenSSL, base64, the SGX library, LevelDB and boost: certificates,
      signatures, sealing, stored values and answers of servers are parameters.
    - Of the application: streams, TLS and messages of boost, and the thread pool.
      What the enclave relies on is in [Host] and its laws.  In [AppApi] a request is
      one step; [AppPieces] and [AppWeb] take it apart down to single accesses, a
      call of the enclave being one of them; what runs during such a call is in
      [AppLocks].
    - Symbolic links, and a file that changes while it is read. *)
From Stdlib Require Export Ascii ZArith Lia.
From stdpp Require Export base tactics strings numbers sets list.

#[global] Open Scope Z_scope.

(** ** Bytes and C++ strings

    [std::string], [char *] with a length and [uint8_t *] with a length are all
    lists of bytes; the code casts freely between them. *)
Abbreviation bytes := (list ascii).

(** String literals of the source. *)
Definition str (s : String.string) : bytes := String.list_ascii_of_string s.
Arguments str !s /.

(** The numeric value of a byte, as [unsigned char]. *)
Definition code (c : ascii) : Z := Z.of_N (N_of_ascii c).
Definition chr (z : Z) : ascii := ascii_of_N (Z.to_N (z mod 256)).

(** [.size()] of a container, as an unbounded integer. *)
Definition zlen {A} (l : list A) : Z := Z.of_nat (List.length l).

Lemma zlen_nil {A} : zlen ([] : list A) = 0.
Proof. done. Qed.
Lemma zlen_cons {A} (x : A) l : zlen (x :: l) = 1 + zlen l.
Proof. unfold zlen; cbn [List.length]; lia. Qed.
Lemma zlen_app {A} (l1 l2 : list A) : zlen (l1 ++ l2) = zlen l1 + zlen l2.
Proof. unfold zlen; rewrite length_app; lia. Qed.
Lemma zlen_nonneg {A} (l : list A) : 0 <= zlen l.
Proof. unfold zlen; lia. Qed.
Lemma zlen_map {A B} (f : A → B) l : zlen (map f l) = zlen l.
Proof. unfold zlen; by rewrite length_map. Qed.

Lemma code_range c : 0 <= code c < 256.
Proof.
  unfold code. pose proof (N_ascii_bounded c). lia.
Qed.
Lemma chr_code c : chr (code c) = c.
Proof.
  unfold chr, code. pose proof (N_ascii_bounded c).
  rewrite Z.mod_small by lia. by rewrite N2Z.id, ascii_N_embedding.
Qed.
Lemma code_chr z : code (chr z) = z mod 256.
Proof.
  unfold chr, code. pose proof (Z.mod_pos_bound z 256 ltac:(lia)).
  rewrite N_ascii_embedding by lia. lia.
Qed.
Lemma code_inj c d : code c = code d → c = d.
Proof. intros H. by rewrite <- (chr_code c), H, chr_code. Qed.

(** A property of all bytes is decided by the 256 cases. *)
Lemma byte_cases (P : ascii → Prop) :
  (∀ n, 0 <= n < 256 → P (chr n)) → ∀ c, P c.
Proof. intros H c. rewrite <- (chr_code c). apply H, code_range. Qed.

(** ** Machine integers, wrap-around written out *)
Definition u8 (z : Z) : Z := z mod 2 ^ 8.
Definition u32 (z : Z) : Z := z mod 2 ^ 32.
Definition u64 (z : Z) : Z := z mod 2 ^ 64.
Definition i32 (z : Z) : Z := (z + 2 ^ 31) mod 2 ^ 32 - 2 ^ 31.
Definition i64 (z : Z) : Z := (z + 2 ^ 63) mod 2 ^ 64 - 2 ^ 63.

Arguments u8 : simpl never.
Arguments u32 : simpl never.
Arguments u64 : simpl never.
Arguments i32 : simpl never.
Arguments i64 : simpl never.

Lemma u32_small z : 0 <= z < 2 ^ 32 → u32 z = z.
Proof. apply Z.mod_small. Qed.
Lemma u64_small z : 0 <= z < 2 ^ 64 → u64 z = z.
Proof. apply Z.mod_small. Qed.
Lemma i64_small z : - 2 ^ 63 <= z < 2 ^ 63 → i64 z = z.
Proof. intros. unfold i64. rewrite Z.mod_small; lia. Qed.
Lemma i32_small z : - 2 ^ 31 <= z < 2 ^ 31 → i32 z = z.
Proof. intros. unfold i32. rewrite Z.mod_small; lia. Qed.
Lemma u64_range z : 0 <= u64 z < 2 ^ 64.
Proof. apply Z.mod_pos_bound. lia. Qed.
Lemma i64_range z : - 2 ^ 63 <= i64 z < 2 ^ 63.
Proof. unfold i64. pose proof (Z.mod_pos_bound (z + 2 ^ 63) (2 ^ 64) ltac:(lia)). lia. Qed.
(** Subtraction below zero wraps to the top of the range. *)
Lemma u64_neg z : - 2 ^ 64 <= z < 0 → u64 z = z + 2 ^ 64.
Proof.
  intros H. unfold u64.
  rewrite <- (Z.mod_small (z + 2 ^ 64) (2 ^ 64)) by lia.
  rewrite <- (Z_mod_plus_full z 1 (2 ^ 64)). f_equal; lia.
Qed.

Create HintDb sworker.
Create Rewrite HintDb sworker.
#[export] Hint Rewrite @zlen_nil @zlen_cons @zlen_app @zlen_map : sworker.
#[export] Hint Rewrite chr_code : sworker.

(** Linear arithmetic with division and remainder by constants. *)
Ltac divlia := Z.to_euclidean_division_equations; lia.

(** [len] normalises every [zlen] and closes the remaining arithmetic. *)
Ltac zlen_pos l :=
  lazymatch goal with
  | _ : 0 <= zlen l |- _ => fail
  | _ => pose proof (zlen_nonneg l)
  end.
Ltac zlen_facts :=
  repeat match goal with
  | |- context [zlen ?l] => zlen_pos l
  | H : context [zlen ?l] |- _ => zlen_pos l
  end.
Ltac len := autorewrite with sworker in *; zlen_facts; lia.

(** ** State-passing computations, with stdpp's do-notation *)
Definition ST (S A : Type) : Type := S → A * S.
#[global] Instance st_ret S : MRet (ST S) := λ A a s, (a, s).
#[global] Instance st_bind S : MBind (ST S) := λ A B f m s,
  let '(a, s') := m s in f a s'.
Definition st_get {S} : ST S S := λ s, (s, s).
Definition st_put {S} (s : S) : ST S unit := λ _, (tt, s).
Definition st_modify {S} (f : S → S) : ST S unit := λ s, (tt, f s).
Definition st_gets {S A} (f : S → A) : ST S A := λ s, (f s, s).

(** A [for] loop over a list that threads the state. *)
Fixpoint st_iter {S A} (f : A → ST S unit) (l : list A) : ST S unit :=
  match l with
  | [] => mret tt
  | x :: l => f x;; st_iter f l
  end.

Lemma st_iter_inv {S A} (I : S → Prop) (f : A → ST S unit) l :
  (∀ x s, x ∈ l → I s → I (snd (f x s))) → ∀ s, I s → I (snd (st_iter f l s)).
Proof.
  induction l as [|x l IH]; intros Hf s Hs; [done|].
  cbn. unfold mbind, st_bind. destruct (f x s) as [[] s'] eqn:E.
  apply IH; [intros; apply Hf; [by right|done]|].
  pose proof (Hf x s ltac:(left) Hs) as H. by rewrite E in H.
Qed.

(** Elements with a separator between them, as the loops that skip the separator
    on the first (or last) round build it. *)
Fixpoint join {A} (sep : list A) (l : list (list A)) : list A :=
  match l with
  | [] => []
  | [x] => x
  | x :: l => x ++ sep ++ join sep l
  end.

Lemma join_cons {A} (sep x y : list A) l : join sep (x :: y :: l) = x ++ sep ++ join sep (y :: l).
Proof. done. Qed.

(** ** Decimal text: [std::to_string] and [std::stol] *)
Definition digit (d : Z) : ascii := chr (48 + d).
Definition is_digit (c : ascii) : bool := (48 <=? code c) && (code c <=? 57).

Fixpoint dec_digits (fuel : nat) (n : Z) (acc : bytes) : bytes :=
  match fuel with
  | O => acc
  | S fuel =>
      let acc := digit (n mod 10) :: acc in
      if n <? 10 then acc else dec_digits fuel (n / 10) acc
  end.

(** Enough fuel for any non-negative integer: one round per binary digit. *)
Definition dec_fuel (n : Z) : nat := S (Z.to_nat (Z.log2 n)).
Definition to_string_u (n : Z) : bytes := dec_digits (dec_fuel n) n [].
(** [std::to_string] on an integer. *)
Definition to_string (z : Z) : bytes :=
  if z <? 0 then chr 45 :: to_string_u (- z) else to_string_u z.

(** The value of a run of decimal digits. *)
Definition dec_value (l : bytes) : Z :=
  fold_left (λ a c, 10 * a + (code c - 48)) l 0.

Lemma code_digit d : 0 <= d < 10 → code (digit d) = 48 + d.
Proof. intros. unfold digit. rewrite code_chr, Z.mod_small; lia. Qed.
Lemma is_digit_digit d : 0 <= d < 10 → is_digit (digit d) = true.
Proof. intros. unfold is_digit. rewrite code_digit by lia. lia. Qed.

Lemma dec_digits_step fuel n acc :
  dec_digits (S fuel) n acc =
  if n <? 10 then digit (n mod 10) :: acc
  else dec_digits fuel (n / 10) (digit (n mod 10) :: acc).
Proof. done. Qed.

Lemma dec_fuel_div n : 10 <= n → (S (dec_fuel (n / 10)) <= dec_fuel n)%nat.
Proof.
  intros H. unfold dec_fuel.
  enough (Z.log2 (n / 10) + 1 <= Z.log2 n) by (pose proof (Z.log2_nonneg (n / 10)); lia).
  assert (0 < n / 10) by (apply Z.div_str_pos; lia).
  apply Z.log2_le_pow2; [lia|].
  rewrite Z.pow_add_r by (try lia; apply Z.log2_nonneg).
  pose proof (Z.log2_spec (n / 10) ltac:(lia)) as [Hl _].
  pose proof (Z.mul_div_le n 10 ltac:(lia)). lia.
Qed.

(** The shape of the digits: everything before [acc] is a digit, and prefixing
    digits to [acc] shifts its value. *)
Lemma dec_digits_spec fuel n acc :
  0 <= n → (dec_fuel n <= fuel)%nat →
  ∃ ds, dec_digits fuel n acc = ds ++ acc ∧ Forall (λ c, is_digit c = true) ds ∧
        ds ≠ [] ∧ dec_value ds = n.
Proof.
  revert n acc. induction fuel as [|fuel IH]; intros n acc Hn Hf; [unfold dec_fuel in Hf; lia|].
  rewrite dec_digits_step.
  pose proof (Z.mod_pos_bound n 10 ltac:(lia)).
  destruct (Z.ltb_spec n 10).
  - exists [digit (n mod 10)]. split_and!; [done| |done|].
    + constructor; [by apply is_digit_digit|constructor].
    + cbn. rewrite code_digit, Z.mod_small by lia. lia.
  - pose proof (dec_fuel_div n ltac:(lia)).
    destruct (IH (n / 10) (digit (n mod 10) :: acc)) as (ds & -> & Hd & Hne & Hv);
      [apply Z.div_pos; lia|lia|].
    exists (ds ++ [digit (n mod 10)]). split_and!.
    + by rewrite <- app_assoc.
    + apply Forall_app; split; [done|constructor; [by apply is_digit_digit|constructor]].
    + by destruct ds.
    + unfold dec_value in *. rewrite fold_left_app, Hv. cbn. rewrite code_digit by lia.
      pose proof (Z.div_mod n 10 ltac:(lia)). lia.
Qed.

Lemma to_string_u_spec n :
  0 <= n →
  Forall (λ c, is_digit c = true) (to_string_u n) ∧ to_string_u n ≠ [] ∧
  dec_value (to_string_u n) = n.
Proof.
  intros Hn. unfold to_string_u.
  destruct (dec_digits_spec (dec_fuel n) n [] Hn ltac:(lia)) as (ds & -> & ? & ? & ?).
  by rewrite app_nil_r.
Qed.

Lemma to_string_u_inj n m : 0 <= n → 0 <= m → to_string_u n = to_string_u m → n = m.
Proof.
  intros Hn Hm H.
  destruct (to_string_u_spec n Hn) as (_ & _ & <-).
  destruct (to_string_u_spec m Hm) as (_ & _ & <-). by rewrite H.
Qed.

(** A decimal number below [10 ^ k] takes at most [k] digits. *)
Lemma dec_digits_length fuel n acc k :
  0 <= n < 10 ^ Z.of_nat k → (0 < k)%nat →
  (List.length (dec_digits fuel n acc) <= k + List.length acc)%nat.
Proof.
  revert n acc k. induction fuel as [|fuel IH]; intros n acc k Hn Hk; [cbn; lia|].
  rewrite dec_digits_step. destruct (Z.ltb_spec n 10); [cbn; lia|].
  destruct k as [|[|k]]; [lia|cbn in Hn; lia|].
  etrans; [apply (IH _ _ (S k))|cbn; lia]; [|lia].
  split; [apply Z.div_pos; lia|]. apply Z.div_lt_upper_bound; [lia|].
  rewrite <- Z.pow_succ_r by lia. rewrite <- Nat2Z.inj_succ. lia.
Qed.

Lemma to_string_length z k :
  0 <= z < 10 ^ Z.of_nat k → (0 < k)%nat → zlen (to_string z) <= Z.of_nat k.
Proof.
  intros Hz Hk. unfold to_string. destruct (Z.ltb_spec z 0); [lia|].
  unfold zlen, to_string_u.
  pose proof (dec_digits_length (dec_fuel z) z [] k Hz Hk). cbn in *. lia.
Qed.
