(* ===== verification/Lock.v ===== *)
(** * Mutexes (enclave/utils/SafeLock.cpp, app/utils/SafeLock.cpp)

    The scoped lock, what a function does to mutexes and to the variables they guard,
    and any number of threads that do it at the same time.

    A function is looked at as a [prog]: its locks, unlocks and uses of guarded
    variables, its branches and loops, with what a branch depends on left open.
    [sem] gives its traces; a thread runs a trace; [step] interleaves threads, and a
    thread that wants a mutex another one holds waits.  [flow] follows all traces of
    a [prog] at once, and is what makes the theorems about whole functions checkable
    by computation. *)
From stdpp Require Import relations.
From S2P Require Import Prelude.

Section lock.
(** [num] numbers the mutexes, so that what is held has one form. *)
Context {mutex field : Type} `{!EqDecision mutex, !EqDecision field} (num : mutex → nat).

Inductive act := Acq (m : mutex) | Rel (m : mutex) | Use (w : bool) (x : field).
#[global] Instance act_eq_dec : EqDecision act.
Proof. solve_decision. Defined.

(** ** [SafeLock] *)
Record SafeLock := { _mutex : mutex; lock_time : Z }.
#[global] Instance SafeLock_eq_dec : EqDecision SafeLock.
Proof. solve_decision. Defined.
Definition SafeLock_new (m : mutex) : SafeLock := {| _mutex := m; lock_time := 0 |}.
Definition SafeLock_lock (l : SafeLock) : list act * SafeLock :=
  if lock_time l =? 0 then ([Acq (_mutex l)], {| _mutex := _mutex l; lock_time := i32 (lock_time l + 1) |}) else ([], l).
Definition SafeLock_unlock (l : SafeLock) : list act * SafeLock :=
  if lock_time l >? 0 then ([Rel (_mutex l)], {| _mutex := _mutex l; lock_time := i32 (lock_time l - 1) |}) else ([], l).
Definition SafeLock_destroy (l : SafeLock) : list act :=
  if lock_time l >? 0 then [Rel (_mutex l)] else [].

(** ** What a function does *)
Inductive prog :=
| Skip | Do (a : act) | Seq (p q : prog) | Choose (p q : prog) | Loop (p : prog)
| Exit                            (* return, or goto cleanup *)
| Call (p : prog)                 (* where an [Exit] inside [p] leads to *)
| Scoped (m : mutex) (p : prog)   (* a scope with a [SafeLock] of [m] *)
| Lock | Unlock.                  (* of the innermost [SafeLock] *)

(** [sem p s t s' b]: with the scoped locks [s], [p] may do [t], end with [s'], and leave
    by an [Exit] when [b]. *)
Inductive sem : prog → list SafeLock → list act → list SafeLock → bool → Prop :=
| sem_skip s : sem Skip s [] s false
| sem_do a s : sem (Do a) s [a] s false
| sem_exit s : sem Exit s [] s true
| sem_seq p q s t s1 t2 s2 b : sem p s t s1 false → sem q s1 t2 s2 b → sem (Seq p q) s (t ++ t2) s2 b
| sem_seq_exit p q s t s1 : sem p s t s1 true → sem (Seq p q) s t s1 true
| sem_left p q s t s1 b : sem p s t s1 b → sem (Choose p q) s t s1 b
| sem_right p q s t s1 b : sem q s t s1 b → sem (Choose p q) s t s1 b
| sem_loop_end p s : sem (Loop p) s [] s false
| sem_loop_turn p s t s1 t2 s2 b : sem p s t s1 false → sem (Loop p) s1 t2 s2 b → sem (Loop p) s (t ++ t2) s2 b
| sem_loop_exit p s t s1 : sem p s t s1 true → sem (Loop p) s t s1 true
| sem_call p s t s1 b : sem p s t s1 b → sem (Call p) s t s1 false
| sem_scoped m p s t l s1 b : sem p (SafeLock_new m :: s) t (l :: s1) b → sem (Scoped m p) s (t ++ SafeLock_destroy l) s1 b
| sem_lock l s : sem Lock (l :: s) (SafeLock_lock l).1 ((SafeLock_lock l).2 :: s) false
| sem_unlock l s : sem Unlock (l :: s) (SafeLock_unlock l).1 ((SafeLock_unlock l).2 :: s) false.
(** A trace of a whole call *)
Definition trace_of (p : prog) (t : list act) : Prop := ∃ s b, sem (Call p) [] t s b.

(** ** What a scoped lock promises

    [alternates m h t]: [t] locks [m] only when it is not held and unlocks it only when it
    is, beginning with [h]; the answer is whether it is held in the end. *)
Fixpoint alternates (m : mutex) (h : bool) (t : list act) : option bool :=
  match t with
  | [] => Some h
  | Acq m' :: t => if decide (m' = m) then if h then None else alternates m true t else alternates m h t
  | Rel m' :: t => if decide (m' = m) then if h then alternates m false t else None else alternates m h t
  | Use _ _ :: t => alternates m h t
  end.
(** [p] itself does nothing to [m]. *)
Fixpoint quiet (m : mutex) (p : prog) : bool :=
  match p with
  | Do (Acq m') | Do (Rel m') => bool_decide (m' ≠ m)
  | Seq p q | Choose p q => quiet m p && quiet m q
  | Loop p | Call p => quiet m p
  | Scoped m' p => bool_decide (m' ≠ m) && quiet m p
  | _ => true
  end.
Definition has (m : mutex) (l : SafeLock) : bool := bool_decide (_mutex l = m).
Definition taken (m : mutex) (s : list SafeLock) : bool := existsb (λ l, has m l && (lock_time l =? 1)) s.
Definition time_ok (l : SafeLock) : Prop := lock_time l = 0 ∨ lock_time l = 1.
(** Of the scoped locks around, one at most is of [m]. *)
Fixpoint once (m : mutex) (s : list SafeLock) : bool :=
  match s with [] => true | l :: s => (if has m l then negb (existsb (has m) s) else true) && once m s end.

Lemma alternates_app m h t t' : alternates m h (t ++ t') = h' ← alternates m h t; alternates m h' t'.
Proof. revert h. induction t as [|[m'|m'|w x] t IH]; intros h; cbn; [done|..]; try apply IH; case_decide; try apply IH; destruct h; try apply IH; done. Qed.
Lemma has_mutexes m s s' : map _mutex s' = map _mutex s → existsb (has m) s' = existsb (has m) s ∧ once m s' = once m s.
Proof.
  revert s'. induction s as [|l s IH]; intros [|l' s'] H; try done. cbn in H. injection H as Hl Hs. destruct (IH s' Hs) as [He Ho].
  assert (has m l' = has m l) as Hh by (unfold has; by rewrite Hl). cbn. by rewrite Hh, He, Ho.
Qed.
Lemma not_taken m s : existsb (has m) s = false → taken m s = false.
Proof. unfold taken. induction s as [|l s IH]; [done|]. cbn. intros [-> H]%orb_false_iff. by rewrite (IH H). Qed.

Lemma sem_locks m p s t s' b : sem p s t s' b → quiet m p = true → Forall time_ok s → once m s = true →
  map _mutex s' = map _mutex s ∧ Forall time_ok s' ∧ alternates m (taken m s) t = Some (taken m s').
Proof.
  induction 1 as [s|a s|s|p q s t s1 t2 s2 b _ IH1 _ IH2|p q s t s1 _ IH|p q s t s1 b _ IH|p q s t s1 b _ IH
    |p s|p s t s1 t2 s2 b _ IH1 _ IH2|p s t s1 _ IH|p s t s1 b _ IH|m' p s t l s1 b _ IH|l s|l s]; intros Hq Ht Ho; cbn [quiet] in Hq; try done.
  - split; [done|]. split; [done|]. destruct a as [m'|m'|w x]; cbn; [..|done]; rewrite decide_False; try done; by apply bool_decide_eq_true in Hq.
  - apply andb_prop in Hq as [Hp Hq]. destruct (IH1 Hp Ht Ho) as (Hm1 & Ht1 & Ha1).
    destruct IH2 as (Hm2 & Ht2 & Ha2); [done|done|by rewrite (proj2 (has_mutexes m _ _ Hm1))|].
    split; [congruence|]. split; [done|]. by rewrite alternates_app, Ha1.
  - apply andb_prop in Hq as [Hp Hq]. by apply IH.
  - apply andb_prop in Hq as [Hp Hq]. by apply IH.
  - apply andb_prop in Hq as [Hp Hq]. by apply IH.
  - destruct (IH1 Hq Ht Ho) as (Hm1 & Ht1 & Ha1).
    destruct IH2 as (Hm2 & Ht2 & Ha2); [done|done|by rewrite (proj2 (has_mutexes m _ _ Hm1))|].
    split; [congruence|]. split; [done|]. by rewrite alternates_app, Ha1.
  - by apply IH.
  - by apply IH.
  - apply andb_prop in Hq as [Hm' Hp]. apply bool_decide_eq_true in Hm'.
    destruct (IH Hp) as (Hm1 & Ht1 & Ha1); [constructor; [by left|done]|cbn; unfold has; by rewrite bool_decide_false|].
    cbn in Hm1. injection Hm1 as Hl Hm1. assert (has m l = false) as Hh by (unfold has; rewrite Hl; by apply bool_decide_false).
    assert (has m (SafeLock_new m') = false) as Hn by (by apply bool_decide_false).
    apply Forall_cons in Ht1 as [Htl Hts]. split; [done|]. split; [done|]. unfold taken in Ha1. cbn [existsb] in Ha1. rewrite Hh, Hn in Ha1.
    rewrite alternates_app. cbn in Ha1. fold (taken m s) (taken m s1) in Ha1. rewrite Ha1. cbn. unfold SafeLock_destroy.
    case_match; [|done]. cbn. by rewrite decide_False by congruence.
  - inversion Ht as [|? ? Htl Hts]; subst. cbn in Ho. apply andb_prop in Ho as [Ho1 Ho2]. unfold SafeLock_lock, has in *.
    destruct Htl as [E|E]; rewrite E; cbn; [|split; [done|]; split; [by constructor; [right|]|done]].
    split; [done|]. split; [constructor; [right; done|done]|]. unfold taken, has. cbn. rewrite E. cbn.
    case_decide as Hd; [|by rewrite (bool_decide_false _) by done].
    rewrite (bool_decide_true _) in Ho1 |- * by done. apply negb_true_iff in Ho1. cbn. apply not_taken in Ho1. unfold taken, has in Ho1. by rewrite Ho1.
  - inversion Ht as [|? ? Htl Hts]; subst. cbn in Ho. apply andb_prop in Ho as [Ho1 Ho2]. unfold SafeLock_unlock, has in *.
    destruct Htl as [E|E]; rewrite E; cbn; [split; [done|]; split; [by constructor; [left|]|done]|].
    split; [done|]. split; [constructor; [left; done|done]|]. unfold taken, has. cbn. rewrite E. cbn.
    case_decide as Hd; [|by rewrite (bool_decide_false _) by done].
    rewrite (bool_decide_true _) in Ho1 |- * by done. apply negb_true_iff in Ho1. cbn. apply not_taken in Ho1. unfold taken, has in Ho1. by rewrite Ho1.
Qed.

Lemma none_once m s : existsb (has m) s = false → once m s = true.
Proof. induction s as [|l s IH]; [done|]. cbn. intros [-> H]%orb_false_iff. by apply IH. Qed.
Lemma scoped_locks m p s t s' b :
  sem (Scoped m p) s t s' b → quiet m p = true → Forall time_ok s → existsb (has m) s = false →
  alternates m false t = Some false ∧ Forall time_ok s'.
Proof.
  intros H Hq Ht Hm. inversion H as [| | | | | | | | | | |? ? ? t0 l s1 b0 Hp| |]; subst.
  assert (has m (SafeLock_new m) = true) as Hn by (by apply bool_decide_true).
  destruct (sem_locks m p _ _ _ _ Hp Hq) as (Hm1 & Ht1 & Ha1); [constructor; [by left|done]|cbn [once]; rewrite Hn, Hm; by apply none_once|].
  cbn in Hm1. injection Hm1 as Hl Hm1. assert (has m l = true) as Hh by (unfold has; rewrite Hl; by apply bool_decide_true).
  apply Forall_cons in Ht1 as [Htl Hts]. split; [|done]. rewrite alternates_app. unfold taken in Ha1. cbn [existsb] in Ha1. rewrite Hh, Hn in Ha1.
  destruct (has_mutexes m _ _ Hm1) as [He _]. rewrite Hm in He. apply not_taken in Hm, He. fold (taken m s) (taken m s') in Ha1.
  rewrite Hm, He, orb_false_r in Ha1. cbn in Ha1. rewrite Ha1. cbn. unfold SafeLock_destroy.
  destruct Htl as [E|E]; rewrite E; [done|]. cbn. by rewrite decide_True.
Qed.

(** C35: However control leaves a scope with a [SafeLock] (at its end, or by a return or
    goto in the middle, after any [lock()]s and [unlock()]s), the mutex was locked
    only when the scope did not hold it, unlocked only when it did, and is not held by
    it in the end. *)
Theorem scoped_lock m p s t s' b :
  sem (Scoped m p) s t s' b → quiet m p = true → Forall time_ok s → existsb (has m) s = false →
  alternates m false t = Some false ∧ Forall time_ok s'.
Proof. apply scoped_locks. Qed.

(** ** Disciplines

    [follow held t]: the mutexes held after [t], if every action of it is good: what is
    locked was not held, what is unlocked was, and [ok] agrees. *)
Fixpoint insert_held (m : mutex) (held : list mutex) : list mutex :=
  match held with [] => [m] | m' :: held' => if (num m <=? num m')%nat then m :: held else m' :: insert_held m held' end.
Lemma elem_of_insert_held m x held : x ∈ insert_held m held ↔ x = m ∨ x ∈ held.
Proof.
  induction held as [|m' held IH]; cbn.
  - rewrite list_elem_of_singleton, elem_of_nil. tauto.
  - case_match; rewrite !elem_of_cons, ?IH; tauto.
Qed.
Section discipline.
Variable ok : list mutex → act → bool.
Definition good (held : list mutex) (a : act) : bool :=
  ok held a && match a with Acq m => bool_decide (m ∉ held) | Rel m => bool_decide (m ∈ held) | Use _ _ => true end.
Definition after (held : list mutex) (a : act) : list mutex :=
  match a with Acq m => insert_held m held | Rel m => list_difference held [m] | Use _ _ => held end.
Fixpoint follow (held : list mutex) (t : list act) : option (list mutex) :=
  match t with [] => Some held | a :: t => if good held a then follow (after held a) t else None end.

Abbreviation point := (list mutex * list SafeLock)%type.
Definition outcomes := option (list (point * bool)).
Definition flow_trace (held : list mutex) (t : list act) (s : list SafeLock) : outcomes :=
  held' ← follow held t; Some [((held', s), false)].
Fixpoint collect {X} (f : X → outcomes) (l : list X) : outcomes :=
  match l with [] => Some [] | x :: l => o ← f x; o' ← collect f l; Some (remove_dups (o ++ o')) end.
Fixpoint flow (p : prog) (c : point) : outcomes :=
  match p with
  | Skip => Some [(c, false)]
  | Do a => flow_trace c.1 [a] c.2
  | Exit => Some [(c, true)]
  | Seq p q => o ← flow p c; collect (λ x : point * bool, if x.2 then Some [x] else flow q x.1) o
  | Choose p q => o ← flow p c; o' ← flow q c; Some (remove_dups (o ++ o'))
  | Loop p => o ← flow p c;
      if forallb (λ x : point * bool, x.2 || bool_decide (x.1 = c)) o then Some ((c, false) :: o) else None
  | Call p => o ← flow p c; Some (remove_dups (map (λ x : point * bool, (x.1, false)) o))
  | Scoped m p => o ← flow p (c.1, SafeLock_new m :: c.2);
      collect (λ x : point * bool, match x.1.2 with
        | l :: s => held ← follow x.1.1 (SafeLock_destroy l); Some [((held, s), x.2)]
        | [] => None
        end) o
  | Lock => match c.2 with l :: s => flow_trace c.1 (SafeLock_lock l).1 ((SafeLock_lock l).2 :: s) | [] => None end
  | Unlock => match c.2 with l :: s => flow_trace c.1 (SafeLock_unlock l).1 ((SafeLock_unlock l).2 :: s) | [] => None end
  end.
(** Every way through [p] follows the discipline and gives back all it took. *)
Definition obeys (p : prog) : bool :=
  match flow (Call p) ([], []) with Some o => forallb (λ x : point * bool, bool_decide (x.1.1 = [])) o | None => false end.

Lemma follow_app held t t' : follow held (t ++ t') = held' ← follow held t; follow held' t'.
Proof. revert held. induction t as [|a t IH]; intros held; cbn; [done|]. case_match; [apply IH|done]. Qed.
Lemma collect_in {X} (f : X → outcomes) l o x y oy :
  collect f l = Some o → x ∈ l → f x = Some oy → y ∈ oy → y ∈ o.
Proof.
  revert o. induction l as [|x0 l IH]; intros o Hc Hx Hf Hy; [by apply not_elem_of_nil in Hx|]. cbn in Hc.
  destruct (f x0) as [o0|] eqn:E0; [|done]. destruct (collect f l) as [o1|] eqn:E1; [|done]. injection Hc as <-.
  apply elem_of_remove_dups, elem_of_app. apply elem_of_cons in Hx as [->|Hx]; [left; congruence|right; by eapply IH].
Qed.
Lemma collect_some {X} (f : X → outcomes) l o x : collect f l = Some o → x ∈ l → ∃ ox, f x = Some ox.
Proof.
  revert o. induction l as [|x0 l IH]; intros o Hc Hx; [by apply not_elem_of_nil in Hx|]. cbn in Hc.
  destruct (f x0) as [o0|] eqn:E0; [|done]. destruct (collect f l) as [o1|] eqn:E1; [|done].
  apply elem_of_cons in Hx as [->|Hx]; [by eexists|by eapply IH].
Qed.
Lemma flow_sound p s t s' b : sem p s t s' b → ∀ held o, flow p (held, s) = Some o →
  ∃ held', follow held t = Some held' ∧ ((held', s'), b) ∈ o.
Proof.
  induction 1 as [s|a s|s|p q s t s1 t2 s2 b _ IH1 _ IH2|p q s t s1 _ IH|p q s t s1 b _ IH|p q s t s1 b _ IH
    |p s|p s t s1 t2 s2 b _ IH1 _ IH2|p s t s1 _ IH|p s t s1 b _ IH|m p s t l s1 b _ IH|l s|l s]; intros held o Ho; cbn [flow fst snd] in Ho.
  - injection Ho as <-. exists held. split; [done|by left].
  - unfold flow_trace in Ho. destruct (follow held [a]) as [held'|] eqn:E; [|done]. injection Ho as <-. exists held'. split; [done|by left].
  - injection Ho as <-. exists held. split; [done|by left].
  - destruct (flow p (held, s)) as [o1|] eqn:E; [|done]. destruct (IH1 held o1 E) as (h1 & Ht & Hin). cbn in Ho.
    destruct (collect_some _ _ _ _ Ho Hin) as [o2 E2]. cbn in E2. destruct (IH2 h1 o2 E2) as (h2 & Ht2 & Hin2).
    exists h2. rewrite follow_app, Ht. split; [done|]. by eapply collect_in.
  - destruct (flow p (held, s)) as [o1|] eqn:E; [|done]. destruct (IH held o1 E) as (h1 & Ht & Hin). cbn in Ho.
    exists h1. split; [done|]. eapply collect_in; [exact Ho|exact Hin|done|by left].
  - destruct (flow p (held, s)) as [o1|] eqn:E; [|done]. destruct (flow q (held, s)) as [o2|] eqn:E2; [|done]. injection Ho as <-.
    destruct (IH held o1 E) as (h1 & Ht & Hin). exists h1. split; [done|]. apply elem_of_remove_dups, elem_of_app. by left.
  - destruct (flow p (held, s)) as [o1|] eqn:E; [|done]. destruct (flow q (held, s)) as [o2|] eqn:E2; [|done]. injection Ho as <-.
    destruct (IH held o2 E2) as (h1 & Ht & Hin). exists h1. split; [done|]. apply elem_of_remove_dups, elem_of_app. by right.
  - destruct (flow p (held, s)) as [o1|] eqn:E; [|done]. cbn in Ho. case_match; [|done]. injection Ho as <-. exists held. split; [done|by left].
  - assert (flow (Loop p) (held, s) = Some o) as Hl by exact Ho. destruct (flow p (held, s)) as [o1|] eqn:E; [|done]. cbn in Ho. case_match eqn:Ef; [|done].
    destruct (IH1 held o1 E) as (h1 & Ht & Hin). rewrite forallb_forall in Ef.
    specialize (Ef _ (proj1 (list_elem_of_In _ _) Hin)). cbn in Ef. apply bool_decide_eq_true in Ef. injection Ef as -> ->.
    destruct (IH2 held o Hl) as (h2 & Ht2 & Hin2).
    exists h2. rewrite follow_app, Ht. done.
  - destruct (flow p (held, s)) as [o1|] eqn:E; [|done]. cbn in Ho. case_match; [|done]. injection Ho as <-.
    destruct (IH held o1 E) as (h1 & Ht & Hin). exists h1. split; [done|by right].
  - destruct (flow p (held, s)) as [o1|] eqn:E; [|done]. injection Ho as <-. destruct (IH held o1 E) as (h1 & Ht & Hin).
    exists h1. split; [done|]. apply elem_of_remove_dups. apply list_elem_of_fmap. by exists ((h1, s1), b).
  - destruct (flow p (held, SafeLock_new m :: s)) as [o1|] eqn:E; [|done]. destruct (IH held o1 E) as (h1 & Ht & Hin). cbn in Ho.
    destruct (collect_some _ _ _ _ Ho Hin) as [o2 E2]. cbn in E2. destruct (follow h1 (SafeLock_destroy l)) as [h2|] eqn:E3; [|done].
    injection E2 as <-. exists h2. rewrite follow_app, Ht. split; [done|]. eapply collect_in; [exact Ho|exact Hin|cbn; by rewrite E3|by left].
  - unfold flow_trace in Ho. destruct (follow held (SafeLock_lock l).1) as [h1|] eqn:E; [|done]. injection Ho as <-. exists h1. split; [done|by left].
  - unfold flow_trace in Ho. destruct (follow held (SafeLock_unlock l).1) as [h1|] eqn:E; [|done]. injection Ho as <-. exists h1. split; [done|by left].
Qed.

Lemma obeys_sound p t : obeys p = true → trace_of p t → follow [] t = Some [].
Proof.
  unfold obeys. intros Ho (s & b & Ht). destruct (flow (Call p) ([], [])) as [o|] eqn:E; [|done].
  destruct (flow_sound _ _ _ _ _ Ht [] o E) as (held & Hf & Hin). rewrite forallb_forall in Ho.
  specialize (Ho _ (proj1 (list_elem_of_In _ _) Hin)). apply bool_decide_eq_true in Ho. cbn in Ho. by subst.
Qed.
End discipline.

(** ** Threads *)

(** What a thread holds, and what it has still to do *)
Abbreviation thread := (list mutex * list act)%type.
Definition free (T : list thread) (m : mutex) : Prop := Forall (λ p, m ∉ p.1) T.
Inductive step : list thread → list thread → Prop :=
| step_intro i T held a t :
    T !! i = Some (held, a :: t) → (∀ m, a = Acq m → free T m) → step T (<[i := (after held a, t)]> T).
Definition start (ts : list (list act)) : list thread := map (pair []) ts.
Definition finished (T : list thread) : Prop := Forall (λ p, p = ([], [])) T.
Definition todo (T : list thread) : nat := sum_list_with (λ p, List.length p.2) T.

Lemma step_work T T' : step T T' → (todo T' < todo T)%nat.
Proof.
  intros [i T0 held a t Hi _]. revert i Hi. unfold todo. induction T0 as [|p T0 IH]; intros [|i] Hi; cbn in *; try done.
  - injection Hi as ->. cbn. lia.
  - cbn. apply Nat.add_lt_mono_l. by apply IH.
Qed.
(** However the threads are interleaved, they do not go on forever. *)
Lemma steps_bounded T T' n : nsteps step n T T' → (n + todo T' <= todo T)%nat.
Proof. induction 1 as [|n T T1 T2 H1 H IH]; [lia|]. apply step_work in H1. lia. Qed.

(** The threads in turns, as [turns] decides *)
Fixpoint play (turns : list nat) (T : list thread) : option (list thread) :=
  match turns with
  | [] => Some T
  | i :: turns =>
      match T !! i with
      | Some (held, a :: t) =>
          if match a with Acq m => forallb (λ p : thread, bool_decide (m ∉ p.1)) T | _ => true end
          then play turns (<[i := (after held a, t)]> T) else None
      | _ => None
      end
  end.
Lemma play_steps turns : ∀ T T', play turns T = Some T' → rtc step T T'.
Proof.
  induction turns as [|i turns IH]; intros T T' H; cbn in H; [injection H as <-; constructor|].
  destruct (T !! i) as [[held [|a t]]|] eqn:Ei; [done| |done]. case_match eqn:Ea; [|done]. econstructor; [|by apply IH].
  econstructor; [done|]. intros m ->. unfold free. rewrite forallb_forall in Ea. apply Forall_forall. intros p Hp.
  by apply list_elem_of_In, Ea, bool_decide_eq_true in Hp.
Qed.
Lemma step_play T T' : step T T' → ∃ i, (i < List.length T)%nat ∧ play [i] T = Some T'.
Proof.
  intros [i T0 held a t Hi Hf]. exists i. split; [by eapply lookup_lt_Some|]. cbn. rewrite Hi. destruct a as [m|m|w x]; [|done..].
  assert (forallb (λ p : thread, bool_decide (m ∉ p.1)) T0 = true) as ->; [|done].
  specialize (Hf m eq_refl). unfold free in Hf. rewrite Forall_forall in Hf. apply forallb_forall. intros p Hp. apply bool_decide_eq_true, Hf. by apply list_elem_of_In.
Qed.
#[global] Instance step_dec T : Decision (∃ T', step T T').
Proof.
  destruct (omap (λ i, play [i] T) (seq 0 (List.length T))) as [|T' l] eqn:E.
  - right. intros [T' H]. destruct (step_play T T' H) as (i & Hi & Hp). apply (not_elem_of_nil (T' : list thread)). rewrite <- E.
    apply list_elem_of_omap. exists i. split; [|done]. apply elem_of_seq. lia.
  - left. assert (T' ∈ omap (λ i, play [i] T) (seq 0 (List.length T))) as H by (rewrite E; by left).
    apply list_elem_of_omap in H as (i & _ & Hp). exists T'. cbn in Hp. destruct (T !! i) as [[held [|a t]]|] eqn:Ei; [done| |done].
    case_match eqn:Ea; [|done]. injection Hp as <-. constructor; [done|]. intros m ->. unfold free. rewrite forallb_forall in Ea.
    apply Forall_forall. intros p Hp. by apply list_elem_of_In, Ea, bool_decide_eq_true in Hp.
Defined.

(** *** A mutex has one owner. *)
Definition owned_once (T : list thread) : Prop :=
  ∀ i j p q m, T !! i = Some p → T !! j = Some q → m ∈ p.1 → m ∈ q.1 → i = j.
Lemma step_owned T T' : step T T' → owned_once T → owned_once T'.
Proof.
  intros [i T0 held a t Hi Hf] H.
  assert (∀ j q m, j ≠ i → T0 !! j = Some q → m ∈ after held a → m ∈ q.1 → False) as Ho.
  { intros j q m Hne Hj Hm Hq. destruct a as [m'|m'|w x]; cbn in Hm.
    - rewrite elem_of_insert_held in Hm. destruct Hm as [->|Hm]; [|by apply Hne; eapply (H j i)].
      specialize (Hf m' eq_refl). unfold free in Hf. rewrite Forall_forall in Hf. apply (Hf q); [by eapply list_elem_of_lookup_2|done].
    - apply list_elem_of_difference in Hm as [Hm _]. apply Hne. by eapply (H j i).
    - apply Hne. by eapply (H j i). }
  intros j1 j2 p q m H1 H2 Hp Hq. assert (i < List.length T0)%nat as Hlt by by eapply lookup_lt_Some.
  destruct (decide (j1 = i)) as [->|Hne1], (decide (j2 = i)) as [->|Hne2]; [done| | |].
  - rewrite list_lookup_insert_eq in H1 by done. injection H1 as <-. rewrite list_lookup_insert_ne in H2 by done.
    exfalso. by eapply (Ho j2 q m).
  - rewrite list_lookup_insert_eq in H2 by done. injection H2 as <-. rewrite list_lookup_insert_ne in H1 by done.
    exfalso. by eapply (Ho j1 p m).
  - rewrite list_lookup_insert_ne in H1, H2 by done. by eapply H.
Qed.
Lemma start_owned ts : owned_once (start ts).
Proof.
  intros i j p q m Hi _ Hm _. unfold start in Hi. rewrite list_lookup_fmap in Hi. destruct (ts !! i); [|done].
  injection Hi as <-. by apply not_elem_of_nil in Hm.
Qed.
Lemma steps_owned T T' : rtc step T T' → owned_once T → owned_once T'.
Proof. induction 1; [done|]. intros. by eapply IHrtc, step_owned. Qed.

(** *** Threads that follow their disciplines keep to them. *)
Definition follows (ok : nat → list mutex → act → bool) (T : list thread) : Prop :=
  ∀ i held t, T !! i = Some (held, t) → follow (ok i) held t = Some [].
Lemma step_follows ok T T' : step T T' → follows ok T → follows ok T'.
Proof.
  intros [i T0 held a t Hi _] H j held' t' Hj. destruct (decide (j = i)) as [->|Hne].
  - rewrite list_lookup_insert_eq in Hj by by eapply lookup_lt_Some. injection Hj as <- <-.
    specialize (H i _ _ Hi). cbn in H. by case_match.
  - rewrite list_lookup_insert_ne in Hj by done. by apply H.
Qed.
Lemma start_follows ok ts : (∀ i t, ts !! i = Some t → follow (ok i) [] t = Some []) → follows ok (start ts).
Proof.
  intros H i held t Hi. unfold start in Hi. rewrite list_lookup_fmap in Hi. destruct (ts !! i) as [t0|] eqn:E; [|done].
  injection Hi as <- <-. by apply H.
Qed.
Lemma steps_follow ok T T' : rtc step T T' → follows ok T → follows ok T'.
Proof. induction 1; [done|]. intros. by eapply IHrtc, step_follows. Qed.

(** *** No deadlock

    Threads lock in the order of [rank].  One thread [u] may break it, locking below
    a mutex [s] it holds, as long as the others lock [s] with nothing in their hands. *)
Definition stuck (T : list thread) : Prop := ¬ finished T ∧ ∀ T', ¬ step T T'.
#[global] Instance finished_dec T : Decision (finished T).
Proof. unfold finished. apply Forall_dec. intros [h t]. apply _. Defined.
Lemma stuck_decide T : bool_decide (finished T) = false → bool_decide (∃ T', step T T') = false → stuck T.
Proof. intros Hf%bool_decide_eq_false_1 Hs%bool_decide_eq_false_1. split; [done|]. intros T' H. apply Hs. by exists T'. Qed.
Section order.
Context (rank : mutex → nat) (s : mutex) (u : nat).
Definition above (held : list mutex) (m : mutex) : bool := forallb (λ m', rank m' <? rank m)%nat held.
Definition in_order (held : list mutex) (a : act) : bool :=
  match a with Acq m => above held m && (bool_decide (m ≠ s) || bool_decide (held = [])) | _ => true end.
Definition in_order_but (held : list mutex) (a : act) : bool :=
  match a with Acq m => above (list_difference held [s]) m | _ => true end.
Definition ordered (i : nat) : list mutex → act → bool := if decide (i = u) then in_order_but else in_order.

Lemma above_spec held m m' : above held m = true → m' ∈ held → (rank m' < rank m)%nat.
Proof. unfold above. rewrite forallb_forall. intros H Hm. apply Nat.ltb_lt, H. by apply list_elem_of_In. Qed.

(** Who waits, and for what *)
Definition waits (T : list thread) (i : nat) (m : mutex) : Prop := ∃ held t, T !! i = Some (held, Acq m :: t).
Definition holds (T : list thread) (i : nat) (m : mutex) : Prop := ∃ held t, T !! i = Some (held, t) ∧ m ∈ held.

Lemma follows_nil T i held : follows ordered T → T !! i = Some (held, []) → held = [].
Proof. intros H Hi. specialize (H i held [] Hi). cbn in H. by injection H. Qed.
(** In a stuck state every thread that holds something or has something to do waits for
    a mutex that another one holds. *)
Lemma stuck_waits T i held t :
  follows ordered T → stuck T → T !! i = Some (held, t) → (held, t) ≠ ([], []) →
  ∃ m j, waits T i m ∧ holds T j m ∧ m ∉ held.
Proof.
  intros Hf [_ Hs] Hi Hne. destruct t as [|a t].
  { exfalso. apply Hne. by rewrite (follows_nil T i held Hf Hi). }
  assert (∀ m, a = Acq m → ¬ free T m → ∃ m j, waits T i m ∧ holds T j m ∧ m ∉ held) as Hb.
  { intros m -> Hm. pose proof (Hf i _ _ Hi) as Hg. cbn [follow] in Hg. destruct (good _ held (Acq m)) eqn:Eg; [|done].
    apply andb_prop in Eg as [_ Eg%bool_decide_eq_true]. unfold free in Hm. apply not_Forall_Exists in Hm; [|apply _].
    apply Exists_exists in Hm as (q & Hq & Hmq). apply list_elem_of_lookup in Hq as [j Hj]. exists m, j.
    split; [by exists held, t|]. split; [|done]. destruct q as [hq tq]. exists hq, tq. split; [done|]. by apply dec_stable. }
  assert (∀ m, a = Acq m → Decision (free T m)) as Hd by (intros; unfold free; apply _).
  destruct a as [m|m|w x]; [destruct (Hd m eq_refl) as [Hm|Hm]; [|by apply (Hb m)]|..];
    exfalso; (eapply Hs; apply (step_intro i T held); [exact Hi|]); intros m' [=]; by subst.
Qed.
Lemma holds_unfinished (T : list thread) i held t m : T !! i = Some (held, t) → m ∈ held → (held, t) ≠ ([], []).
Proof. intros _ Hm [= -> ->]. by apply not_elem_of_nil in Hm. Qed.
(** What a waiting thread holds is below what it waits for. *)
Lemma waiting_order (T : list thread) i m held t :
  follows ordered T → T !! i = Some (held, Acq m :: t) →
  (∀ m', m' ∈ held → m' ≠ s → (rank m' < rank m)%nat) ∧
  (i ≠ u → (∀ m', m' ∈ held → (rank m' < rank m)%nat) ∧ (m = s → held = [])).
Proof.
  intros Hf Hi. pose proof (Hf i _ _ Hi) as Hg. cbn [follow] in Hg. destruct (good _ held (Acq m)) eqn:Eg; [|done].
  apply andb_prop in Eg as [Eg _]. unfold ordered in Eg. case_decide as Hu.
  - split; [|done]. intros m' Hm Hs. eapply above_spec; [exact Eg|]. apply list_elem_of_difference. split; [done|]. by rewrite list_elem_of_singleton.
  - apply andb_prop in Eg as [Ha Eg]. split; [intros; by eapply above_spec|]. intros _. split; [intros; by eapply above_spec|].
    intros ->. apply orb_prop in Eg as [E|E]; by apply bool_decide_eq_true in E.
Qed.
Lemma wait_above T m i :
  follows ordered T → stuck T → waits T i m → m ≠ s → ∃ j m', waits T j m' ∧ m' ≠ s ∧ (rank m < rank m')%nat.
Proof.
  intros Hf Hs (held & t & Hi) Hm.
  destruct (stuck_waits T i held (Acq m :: t) Hf Hs Hi) as (m0 & j & (h0 & t0 & Hi') & (hj & tj & Hj & Hmj) & _); [done|].
  rewrite Hi in Hi'. injection Hi' as <- <- <-.
  destruct (stuck_waits T j hj tj Hf Hs Hj) as (mj & v & (h1 & t1 & Hj') & (hv & tv & Hv & Hsv) & Hnj); [by eapply holds_unfinished|].
  rewrite Hj in Hj'. injection Hj' as <- ->. destruct (waiting_order T j mj hj t1 Hf Hj) as [Ho Hu].
  destruct (decide (mj = s)) as [->|Hne]; [|exists j, mj; split; [by exists hj, t1|]; split; [done|by apply Ho]].
  destruct (decide (j = u)) as [->|Hju]; [|exfalso; destruct (Hu Hju) as [_ Hn]; rewrite Hn in Hmj by done; by apply not_elem_of_nil in Hmj].
  destruct (stuck_waits T v hv tv Hf Hs Hv) as (mv & w & (h2 & t2 & Hv') & _ & Hnv); [by eapply holds_unfinished|].
  rewrite Hv in Hv'. injection Hv' as <- ->. exists v, mv. split; [by exists hv, t2|].
  assert (v ≠ u) as Hvu. { intros ->. rewrite Hj in Hv. injection Hv as <- _ _. done. }
  destruct (waiting_order T v mv hv t2 Hf Hv) as [_ Hw]. destruct (Hw Hvu) as [Hw1 _].
  split; [intros ->; done|]. etrans; [by apply Ho|by apply Hw1].
Qed.
Definition level (p : thread) : nat := match p.2 with Acq m :: _ => rank m | _ => O end.
Lemma waits_level T i m : waits T i m → (rank m <= sum_list_with level T)%nat.
Proof.
  intros (held & t & Hi). change (rank m) with (level (held, Acq m :: t)). apply sum_list_with_in. by eapply list_elem_of_lookup_2.
Qed.
Lemma never_stuck T : follows ordered T → ¬ stuck T.
Proof.
  intros Hf Hs. assert (∃ i m, waits T i m ∧ m ≠ s) as (i0 & m0 & Hw0 & Hm0).
  { pose proof Hs as [Hn _]. unfold finished in Hn. apply not_Forall_Exists in Hn; [|intros [h t]; apply _].
    apply Exists_exists in Hn as ([held t] & Hp & Hne). apply list_elem_of_lookup in Hp as [i Hi].
    destruct (stuck_waits T i held t Hf Hs Hi Hne) as (m & j & Hw & (hj & tj & Hj & Hmj) & _).
    destruct (decide (m = s)) as [->|]; [|by exists i, m].
    destruct (stuck_waits T j hj tj Hf Hs Hj) as (mj & v & Hwj & _ & Hnj); [by eapply holds_unfinished|].
    exists j, mj. split; [done|]. by intros ->. }
  assert (∀ k, ∃ i m, waits T i m ∧ m ≠ s ∧ (k <= rank m)%nat) as H.
  { induction k as [|k (i & m & Hw & Hm & Hk)]; [exists i0, m0; split_and!; [done|done|lia]|].
    destruct (wait_above T m i Hf Hs Hw Hm) as (j & m' & Hw' & Hm' & Hr). exists j, m'. split_and!; [done|done|lia]. }
  destruct (H (S (sum_list_with level T))) as (i & m & Hw & _ & Hk). apply waits_level in Hw. lia.
Qed.
(** Any number of threads, whatever they find at their branches, always come to an end,
    with every mutex given back. *)
Lemma threads_end ts T :
  (∀ i t, ts !! i = Some t → follow (ordered i) [] t = Some []) → rtc step (start ts) T →
  finished T ∨ ∃ T', step T T'.
Proof.
  intros Hts Hr. destruct (decide (finished T)) as [Hd|Hd]; [by left|].
  right. apply dec_stable. intros Hn. apply (never_stuck T); [eapply steps_follow; [exact Hr|by apply start_follows]|].
  split; [done|]. intros T' H. apply Hn. by exists T'.
Qed.
End order.

(** *** No races

    Each variable is used only under the mutex that guards it. *)
Definition races (T : list thread) (x : field) : Prop :=
  ∃ i j h h' w w' t t', i ≠ j ∧ T !! i = Some (h, Use w x :: t) ∧ T !! j = Some (h', Use w' x :: t') ∧ w || w' = true.
Definition guarded (guard : field → mutex) (x : field) (held : list mutex) (a : act) : bool :=
  match a with Use _ y => bool_decide (y ≠ x) || bool_decide (guard x ∈ held) | _ => true end.
Lemma no_race guard x ts T :
  Forall (λ t, follow (guarded guard x) [] t = Some []) ts → rtc step (start ts) T → ¬ races T x.
Proof.
  intros Hts Hr (i & j & h & h' & w & w' & t & t' & Hne & Hi & Hj & _). apply Hne.
  assert (follows (λ _, guarded guard x) T) as Hf.
  { eapply steps_follow; [exact Hr|]. apply start_follows. intros k tk Hk. rewrite Forall_forall in Hts. apply Hts. by eapply list_elem_of_lookup_2. }
  assert (∀ i h w t, T !! i = Some (h, Use w x :: t) → guard x ∈ h) as Hg.
  { intros k hk wk tk Hk. specialize (Hf k _ _ Hk). cbn in Hf. unfold good, guarded in Hf.
    rewrite andb_true_r, (bool_decide_false (x ≠ x)) in Hf by (by intros Hx; apply Hx). cbn in Hf. case_bool_decide; done. }
  eapply (steps_owned _ _ Hr (start_owned ts) i j _ _ (guard x)); [exact Hi|exact Hj|by eapply Hg|by eapply Hg].
Qed.

(** *** Running

    One trace of a function, as [choices] decide its branches and loops *)
Fixpoint take_way (fuel : nat) (p : prog) (s : list SafeLock) (choices : list bool)
  : option (list act * list SafeLock * bool * list bool) :=
  match fuel with
  | O => None
  | S fuel =>
      match p with
      | Skip => Some ([], s, false, choices)
      | Do a => Some ([a], s, false, choices)
      | Exit => Some ([], s, true, choices)
      | Seq p q =>
          '(t, s, b, cs) ← take_way fuel p s choices;
          if b : bool then Some (t, s, true, cs) else '(t', s, b, cs) ← take_way fuel q s cs; Some (t ++ t', s, b, cs)
      | Choose p q => match choices with true :: cs => take_way fuel p s cs | false :: cs => take_way fuel q s cs | [] => take_way fuel q s [] end
      | Loop q =>
          match choices with
          | true :: cs => '(t, s, b, cs) ← take_way fuel q s cs;
              if b : bool then Some (t, s, true, cs) else '(t', s, b, cs) ← take_way fuel p s cs; Some (t ++ t', s, b, cs)
          | false :: cs => Some ([], s, false, cs)
          | [] => Some ([], s, false, [])
          end
      | Call p => '(t, s, _, cs) ← take_way fuel p s choices; Some (t, s, false, cs)
      | Scoped m p =>
          '(t, s, b, cs) ← take_way fuel p (SafeLock_new m :: s) choices;
          match s with l :: s => Some (t ++ SafeLock_destroy l, s, b, cs) | [] => None end
      | Lock => match s with l :: s => Some ((SafeLock_lock l).1, (SafeLock_lock l).2 :: s, false, choices) | [] => None end
      | Unlock => match s with l :: s => Some ((SafeLock_unlock l).1, (SafeLock_unlock l).2 :: s, false, choices) | [] => None end
      end
  end.
Lemma take_way_sem fuel : ∀ p s cs t s' b cs', take_way fuel p s cs = Some (t, s', b, cs') → sem p s t s' b.
Proof.
  induction fuel as [|fuel IH]; intros p s cs t s' b cs' H; [done|]. destruct p as [|a|p q|p q|p| |p|m p| |]; cbn [take_way] in H.
  - injection H as <- <- <- _. constructor.
  - injection H as <- <- <- _. constructor.
  - destruct (take_way fuel p s cs) as [[[[t1 s1] b1] cs1]|] eqn:E; [|done]. cbn in H. apply IH in E. destruct b1.
    + injection H as <- <- <- _. by constructor.
    + destruct (take_way fuel q s1 cs1) as [[[[t2 s2] b2] cs2]|] eqn:E2; [|done]. injection H as <- <- <- _. apply IH in E2. by econstructor.
  - destruct cs as [|[] cs]; apply IH in H; by constructor.
  - destruct cs as [|[] cs]; [injection H as <- <- <- _; constructor| |injection H as <- <- <- _; constructor].
    destruct (take_way fuel p s cs) as [[[[t1 s1] b1] cs1]|] eqn:E; [|done]. cbn in H. apply IH in E. destruct b1.
    + injection H as <- <- <- _. by apply sem_loop_exit.
    + destruct (take_way fuel (Loop p) s1 cs1) as [[[[t2 s2] b2] cs2]|] eqn:E2; [|done]. injection H as <- <- <- _. apply IH in E2. by eapply sem_loop_turn.
  - injection H as <- <- <- _. constructor.
  - destruct (take_way fuel p s cs) as [[[[t1 s1] b1] cs1]|] eqn:E; [|done]. injection H as <- <- <- _. apply IH in E. by econstructor.
  - destruct (take_way fuel p (SafeLock_new m :: s) cs) as [[[[t1 [|l s1]] b1] cs1]|] eqn:E; [done| |done]. injection H as <- <- <- _. apply IH in E. by constructor.
  - destruct s as [|l s]; [done|]. injection H as <- <- <- _. constructor.
  - destruct s as [|l s]; [done|]. injection H as <- <- <- _. constructor.
Qed.
Definition way (p : prog) (choices : list bool) : list act :=
  match take_way 1000 (Call p) [] choices with Some (t, _, _, _) => t | None => [] end.
Lemma way_trace p cs : is_Some (take_way 1000 (Call p) [] cs) → trace_of p (way p cs).
Proof. intros [[[[t s] b] cs'] E]. unfold way. rewrite E. exists s, b. by eapply take_way_sem. Qed.

(** Two threads, one after the other, up to a race or a deadlock: a run that shows it is
    found by evaluating. *)
Definition has_way (p : prog) (cs : list bool) : bool := match take_way 1000 (Call p) [] cs with Some _ => true | None => false end.
Definition two (p : prog) (cs : list bool) (q : prog) (cs' : list bool) (n n' : nat) : option (list thread) :=
  if has_way p cs && has_way q cs' then play (replicate n 0%nat ++ replicate n' 1%nat) (start [way p cs; way q cs']) else None.
Definition uses (x : field) (p : thread) : option bool :=
  match p.2 with Use w y :: _ => if decide (y = x) then Some w else None | _ => None end.
Definition shows_race (x : field) (T : list thread) : bool :=
  match T with [p; q] => match uses x p, uses x q with Some w, Some w' => w || w' | _, _ => false end | _ => false end.
Definition shows_deadlock (T : list thread) : bool := negb (bool_decide (finished T)) && negb (bool_decide (∃ T', step T T')).
Lemma two_run p cs q cs' n n' T :
  two p cs q cs' n n' = Some T →
  trace_of p (way p cs) ∧ trace_of q (way q cs') ∧ rtc step (start [way p cs; way q cs']) T.
Proof.
  unfold two, has_way. intros H. destruct (take_way 1000 (Call p) [] cs) eqn:E; [|done]. destruct (take_way 1000 (Call q) [] cs') eqn:E'; [|done].
  split; [apply way_trace; by rewrite E|]. split; [apply way_trace; by rewrite E'|]. exact (play_steps _ _ _ H).
Qed.
Lemma race_found p cs q cs' n n' x :
  match two p cs q cs' n n' with Some T => shows_race x T | None => false end = true →
  ∃ t t' T, trace_of p t ∧ trace_of q t' ∧ rtc step (start [t; t']) T ∧ races T x.
Proof.
  intros H. destruct (two p cs q cs' n n') as [T|] eqn:E; [|done]. destruct (two_run _ _ _ _ _ _ _ E) as (Hp & Hq & Hr).
  exists (way p cs), (way q cs'), T. split; [done|]. split; [done|]. split; [done|].
  destruct T as [|[h [|[?|?|w y] t]] [|[h' [|[?|?|w' y'] t']] [|]]]; cbn in H; try done; repeat case_decide; try done; subst.
  exists 0%nat, 1%nat, h, h', w, w', t, t'. by split.
Qed.
Lemma deadlock_found p cs q cs' n n' :
  match two p cs q cs' n n' with Some T => shows_deadlock T | None => false end = true →
  ∃ t t' T, trace_of p t ∧ trace_of q t' ∧ rtc step (start [t; t']) T ∧ stuck T.
Proof.
  intros H. destruct (two p cs q cs' n n') as [T|] eqn:E; [|done]. destruct (two_run _ _ _ _ _ _ _ E) as (Hp & Hq & Hr).
  exists (way p cs), (way q cs'), T. split; [exact Hp|]. split; [exact Hq|]. split; [exact Hr|].
  apply andb_prop in H as [Hf Hs]. apply stuck_decide; by apply negb_true_iff.
Qed.

(** A thread that does one thing after the other *)
Lemma follow_concat ok ts : Forall (λ t, follow ok [] t = Some []) ts → follow ok [] (concat ts) = Some [].
Proof. induction 1 as [|t ts H _ IH]; [done|]. cbn. by rewrite follow_app, H. Qed.
End lock.

(** A scope that locks, and leaves in the middle *)
Lemma scoped_lock_witness :
  alternates O false [Acq (field := nat) O; Use true 1%nat; Rel O] = Some false ∧ Forall (time_ok (mutex := nat)) [].
Proof.
  apply (scoped_lock O (Seq Lock (Seq (Do (Use true 1%nat)) (Seq Exit Unlock))) [] _ [] true).
  - eapply (take_way_sem 10 _ [] []). by vm_compute.
  - by vm_compute.
  - constructor.
  - reflexivity.
Defined.
