(* ===== verification/StdMap.v ===== *)
(** * [std::map] and [std::set] as the code iterates them

    A [std::map<std::string, V>] is an association list sorted by key: the code
    relies on the iteration order (root hashes, path indexes, dumps), so the
    order is part of the model.  [std::set<size_t>] is a sorted list of naturals.
    Nothing here is specific to sWorker; these are the containers of the C++
    standard library the other files share. *)
From Stdlib Require Import Sorting.Sorted.
From S2P Require Import Prelude.

(** ** The order of [std::string]: lexicographic on unsigned bytes *)
Fixpoint bytes_cmp (a b : bytes) : comparison :=
  match a, b with
  | [], [] => Eq
  | [], _ :: _ => Lt
  | _ :: _, [] => Gt
  | x :: a, y :: b =>
      match Z.compare (code x) (code y) with
      | Eq => bytes_cmp a b
      | c => c
      end
  end.

Definition key_lt (a b : bytes) : Prop := bytes_cmp a b = Lt.

Lemma bytes_cmp_refl a : bytes_cmp a a = Eq.
Proof. induction a as [|x a IH]; [done|]. cbn. by rewrite Z.compare_refl. Qed.

Lemma bytes_cmp_eq a b : bytes_cmp a b = Eq → a = b.
Proof.
  revert b. induction a as [|x a IH]; intros [|y b]; try done. cbn.
  destruct (Z.compare_spec (code x) (code y)); try done.
  intros ?. f_equal; [by apply code_inj|auto].
Qed.

Lemma bytes_cmp_antisym a b : bytes_cmp b a = CompOpp (bytes_cmp a b).
Proof.
  revert b. induction a as [|x a IH]; intros [|y b]; try done. cbn.
  rewrite (Z.compare_antisym (code x) (code y)).
  destruct (Z.compare (code x) (code y)); cbn; auto.
Qed.

Lemma key_lt_trans a b c : key_lt a b → key_lt b c → key_lt a c.
Proof.
  unfold key_lt. revert b c.
  induction a as [|x a IH]; intros [|y b] [|z c]; try done. cbn.
  destruct (Z.compare_spec (code x) (code y)) as [E|E|E]; try done;
  destruct (Z.compare_spec (code y) (code z)) as [F|F|F]; try done; intros Hab Hbc.
  - rewrite E, F, Z.compare_refl. eauto.
  - destruct (Z.compare_spec (code x) (code z)); [lia|done|lia].
  - destruct (Z.compare_spec (code x) (code z)); [lia|done|lia].
  - destruct (Z.compare_spec (code x) (code z)); [lia|done|lia].
Qed.

Lemma key_lt_irrefl a : ¬ key_lt a a.
Proof. unfold key_lt. by rewrite bytes_cmp_refl. Qed.

Lemma key_lt_ne a b : key_lt a b → a ≠ b.
Proof. intros H ->. by apply key_lt_irrefl in H. Qed.

#[global] Instance key_lt_transitive : Transitive key_lt.
Proof. intros ???. apply key_lt_trans. Qed.

(** ** The map *)
Section map.
Context {V : Type}.
Implicit Types (m : list (bytes * V)) (k : bytes) (v : V).

(** [find] *)
Fixpoint map_find k m : option V :=
  match m with
  | [] => None
  | (k', v) :: m => if decide (k = k') then Some v else map_find k m
  end.

(** insertion or assignment: [m[k] = v] *)
Fixpoint map_set k v m : list (bytes * V) :=
  match m with
  | [] => [(k, v)]
  | (k', v') :: m' =>
      match bytes_cmp k k' with
      | Lt => (k, v) :: m
      | Eq => (k, v) :: m'
      | Gt => (k', v') :: map_set k v m'
      end
  end.

(** [erase] by key *)
Fixpoint map_erase k m : list (bytes * V) :=
  match m with
  | [] => []
  | (k', v) :: m => if decide (k = k') then m else (k', v) :: map_erase k m
  end.

Definition map_has k m : bool :=
  match map_find k m with Some _ => true | None => false end.

(** [m[k]], which creates the entry when it is missing: the value and the map *)
Definition map_get (d : V) k m : V := default d (map_find k m).
Definition map_touch (d : V) k m : list (bytes * V) :=
  if map_has k m then m else map_set k d m.

(** The invariant of [std::map]: strictly increasing keys. *)
Definition map_ok m : Prop := StronglySorted key_lt (map fst m).

Lemma map_ok_nil : map_ok [].
Proof. constructor. Qed.

Lemma map_ok_cons k v m :
  map_ok ((k, v) :: m) ↔ Forall (λ p, key_lt k p.1) m ∧ map_ok m.
Proof.
  unfold map_ok. cbn. split.
  - intros H. inversion H as [|?? Hs Hf]; subst. split; [|done].
    by rewrite Forall_map in Hf.
  - intros [Hf Hs]. constructor; [done|]. by rewrite Forall_map.
Qed.

Lemma map_find_not_lt k m : Forall (λ p, key_lt k p.1) m → map_find k m = None.
Proof.
  induction 1 as [|[k' v'] m Hk _ IH]; [done|]. cbn.
  rewrite decide_False; [done|]. by apply key_lt_ne.
Qed.

Lemma map_find_set_eq k v m : map_find k (map_set k v m) = Some v.
Proof.
  induction m as [|[k' v'] m IH]; cbn; [by rewrite decide_True|].
  destruct (bytes_cmp k k') eqn:E; cbn; try by rewrite decide_True.
  rewrite decide_False; [done|]. intros ->. by rewrite bytes_cmp_refl in E.
Qed.

Lemma map_find_set_ne k k' v m : k ≠ k' → map_find k' (map_set k v m) = map_find k' m.
Proof.
  intros Hne. induction m as [|[k2 v2] m IH]; cbn; [by rewrite decide_False|].
  destruct (bytes_cmp k k2) eqn:E; cbn.
  - apply bytes_cmp_eq in E as ->. by rewrite !decide_False by done.
  - by rewrite (decide_False (P := k' = k)) by done.
  - by rewrite IH.
Qed.

Lemma map_find_set k k' v m :
  map_find k' (map_set k v m) = if decide (k = k') then Some v else map_find k' m.
Proof.
  case_decide; [subst; apply map_find_set_eq|by apply map_find_set_ne].
Qed.

Lemma map_set_forall (P : bytes → Prop) k v m :
  P k → Forall (λ p, P p.1) m → Forall (λ p, P p.1) (map_set k v m).
Proof.
  intros Hk Hm. induction Hm as [|[k' v'] m Hk' Hm IH]; cbn; [by repeat constructor|].
  destruct (bytes_cmp k k'); repeat constructor; auto.
Qed.

Lemma map_set_ok k v m : map_ok m → map_ok (map_set k v m).
Proof.
  induction m as [|[k' v'] m IH]; intros Hm; cbn.
  { apply map_ok_cons. split; [constructor|done]. }
  pose proof Hm as [Hf Hs]%map_ok_cons.
  destruct (bytes_cmp k k') eqn:E.
  - apply bytes_cmp_eq in E as ->. by apply map_ok_cons.
  - apply map_ok_cons. split; [|done]. constructor; [done|].
    eapply Forall_impl; [exact Hf|]. intros p Hp. by etrans.
  - apply map_ok_cons. split; [|by apply IH].
    apply (map_set_forall (key_lt k')); [|done].
    unfold key_lt. rewrite bytes_cmp_antisym, E. done.
Qed.

Lemma map_find_erase_ne k k' m : k ≠ k' → map_find k' (map_erase k m) = map_find k' m.
Proof.
  intros Hne. induction m as [|[k2 v2] m IH]; cbn; [done|].
  destruct (decide (k = k2)) as [->|]; cbn; [by rewrite decide_False by done|].
  by rewrite IH.
Qed.

Lemma map_find_erase_eq k m : map_ok m → map_find k (map_erase k m) = None.
Proof.
  induction m as [|[k2 v2] m IH]; intros Hm; cbn; [done|].
  apply map_ok_cons in Hm as [Hf Hs].
  destruct (decide (k = k2)) as [->|]; cbn; [by apply map_find_not_lt|].
  rewrite decide_False by done. auto.
Qed.

(** Two maps with the same lookups are equal. *)
Lemma map_ext m1 m2 :
  map_ok m1 → map_ok m2 → (∀ k, map_find k m1 = map_find k m2) → m1 = m2.
Proof.
  revert m2. induction m1 as [|[k1 v1] m1 IH]; intros [|[k2 v2] m2] H1 H2 H; [done| | |].
  - specialize (H k2). cbn in H. by rewrite decide_True in H.
  - specialize (H k1). cbn in H. by rewrite decide_True in H.
  - apply map_ok_cons in H1 as [Hf1 Hs1], H2 as [Hf2 Hs2].
    assert (k1 = k2) as <-.
    { pose proof (H k1) as Ha. pose proof (H k2) as Hb. cbn in Ha, Hb.
      rewrite decide_True in Ha by done. rewrite (decide_True (P := k2 = k2)) in Hb by done.
      destruct (decide (k1 = k2)) as [|Hne]; [done|].
      rewrite decide_False in Hb by congruence.
      destruct (bytes_cmp k1 k2) eqn:E.
      - by apply bytes_cmp_eq in E.
      - rewrite map_find_not_lt in Ha; [done|].
        eapply Forall_impl; [exact Hf2|]. intros p Hp. by apply (key_lt_trans _ k2).
      - rewrite map_find_not_lt in Hb; [done|].
        eapply Forall_impl; [exact Hf1|]. intros p Hp. apply (key_lt_trans _ k1); [|done].
        unfold key_lt. rewrite bytes_cmp_antisym, E. done. }
    pose proof (H k1) as Hv. cbn in Hv. rewrite !decide_True in Hv by done.
    simplify_eq. f_equal. apply IH; [done..|]. intros k. specialize (H k). cbn in H.
    case_decide; [|done]. subst. by rewrite !map_find_not_lt.
Qed.

Lemma map_set_fst k v m :
  map_has k m = true → map_ok m → map fst (map_set k v m) = map fst m.
Proof.
  unfold map_has. induction m as [|[k' v'] m IH]; cbn; [done|]. intros Hk Hm.
  apply map_ok_cons in Hm as [Hf Hs]. case_decide as Hd.
  - subst. by rewrite bytes_cmp_refl.
  - destruct (bytes_cmp k k') eqn:E; cbn.
    + by apply bytes_cmp_eq in E.
    + rewrite map_find_not_lt in Hk; [done|].
      eapply Forall_impl; [exact Hf|]. intros p Hp. by apply (key_lt_trans _ k').
    + by rewrite IH.
Qed.

Lemma map_find_elem k v m : map_find k m = Some v → (k, v) ∈ m.
Proof.
  induction m as [|[k' v'] m IH]; cbn; [done|]. case_decide; intros; simplify_eq; [left|right; auto].
Qed.

Lemma map_elem_find k v m : map_ok m → (k, v) ∈ m → map_find k m = Some v.
Proof.
  induction m as [|[k' v'] m IH]; intros Hm Hin; [by apply not_elem_of_nil in Hin|].
  apply map_ok_cons in Hm as [Hf Hs]. cbn.
  apply elem_of_cons in Hin as [|Hin]; [simplify_eq; by rewrite decide_True|].
  rewrite decide_False; [auto|]. intros ->.
  rewrite Forall_forall in Hf. apply Hf in Hin. by apply key_lt_irrefl in Hin.
Qed.

Lemma map_ok_app_l m1 m2 : map_ok (m1 ++ m2) → map_ok m1.
Proof.
  induction m1 as [|[k v] m1 IH]; [intros _; apply map_ok_nil|]. cbn. rewrite !map_ok_cons.
  intros [Hf Hm]. apply Forall_app in Hf as [Hf _]. auto.
Qed.

Lemma map_set_set k v v' m : map_ok m → map_set k v (map_set k v' m) = map_set k v m.
Proof.
  intros Hm. apply map_ext; [by repeat apply map_set_ok|by apply map_set_ok|].
  intros k'. rewrite !map_find_set. by case_decide.
Qed.

Lemma map_set_id k v m : map_ok m → map_find k m = Some v → map_set k v m = m.
Proof.
  intros Hm Hk. apply map_ext; [by apply map_set_ok|done|].
  intros k'. rewrite map_find_set. case_decide; by subst.
Qed.

(** A new key adds one entry. *)
Lemma map_set_new k v m : k ∉ map fst m → map_set k v m ≡ₚ (k, v) :: m.
Proof.
  induction m as [|[k' v'] m IH]; cbn [map_set map fst]; [done|]. rewrite not_elem_of_cons. intros [Hk Hm].
  destruct (bytes_cmp k k') eqn:E; [by apply bytes_cmp_eq in E|done|]. rewrite IH by done. apply Permutation_swap.
Qed.
End map.

#[export] Hint Resolve map_ok_nil map_set_ok : sworker.
#[export] Hint Rewrite @map_find_set_eq : sworker.

(** The total size of a map of vectors. *)
Fixpoint map_total {A} (m : list (bytes * list A)) : Z :=
  match m with
  | [] => 0
  | (_, v) :: m => zlen v + map_total m
  end.

Lemma map_total_set {A} k (v : list A) m :
  map_ok m →
  map_total (map_set k v m) = map_total m - zlen (map_get [] k m) + zlen v.
Proof.
  unfold map_get. induction m as [|[k' v'] m IH]; intros Hm; cbn -[zlen]; [len|].
  pose proof Hm as [Hf Hs]%map_ok_cons.
  destruct (bytes_cmp k k') eqn:E; cbn -[zlen].
  - apply bytes_cmp_eq in E as ->. rewrite decide_True by done. cbn -[zlen]. lia.
  - rewrite decide_False by by apply key_lt_ne.
    rewrite map_find_not_lt; [cbn -[zlen]; len|].
    eapply Forall_impl; [exact Hf|]. intros p Hp. by apply (key_lt_trans _ k').
  - rewrite decide_False by (intros ->; by rewrite bytes_cmp_refl in E).
    rewrite IH by done. lia.
Qed.

Lemma map_total_nonneg {A} (m : list (bytes * list A)) : 0 <= map_total m.
Proof.
  induction m as [|[k v] m IH]; cbn -[zlen]; [lia|]. pose proof (zlen_nonneg v). lia.
Qed.

(** ** [std::set<size_t>] *)
Fixpoint set_insert (i : nat) (s : list nat) : list nat :=
  match s with
  | [] => [i]
  | j :: s' =>
      if Nat.ltb i j then i :: s
      else if Nat.eqb i j then s
      else j :: set_insert i s'
  end.

Fixpoint set_erase (i : nat) (s : list nat) : list nat :=
  match s with
  | [] => []
  | j :: s' => if Nat.eqb i j then s' else j :: set_erase i s'
  end.

Definition set_mem (i : nat) (s : list nat) : bool := existsb (Nat.eqb i) s.

Definition set_ok (s : list nat) : Prop := StronglySorted lt s.

Lemma set_mem_elem i s : set_mem i s = true ↔ i ∈ s.
Proof.
  unfold set_mem. rewrite existsb_exists. setoid_rewrite <- list_elem_of_In. split.
  - intros (j & Hj & ->%Nat.eqb_eq). done.
  - intros. exists i. by rewrite Nat.eqb_refl.
Qed.

Lemma set_insert_elem i j s : j ∈ set_insert i s ↔ j = i ∨ j ∈ s.
Proof.
  induction s as [|k s IH]; cbn [set_insert]; [by rewrite elem_of_cons|].
  destruct (Nat.ltb_spec i k); [by rewrite elem_of_cons|].
  destruct (Nat.eqb_spec i k); rewrite !elem_of_cons; naive_solver.
Qed.

Lemma set_insert_ok i s : set_ok s → set_ok (set_insert i s).
Proof.
  unfold set_ok. induction 1 as [|k s Hs IH Hf]; cbn [set_insert]; [by repeat constructor|].
  destruct (Nat.ltb_spec i k).
  - constructor; [by constructor|]. constructor; [done|].
    eapply Forall_impl; [exact Hf|]. intros; cbn in *; lia.
  - destruct (Nat.eqb_spec i k); [by constructor|]. constructor; [done|].
    apply Forall_forall. intros j Hj. apply set_insert_elem in Hj as [->|Hj]; [lia|].
    rewrite Forall_forall in Hf. auto.
Qed.

Lemma set_erase_elem i j s : set_ok s → j ∈ set_erase i s ↔ j ≠ i ∧ j ∈ s.
Proof.
  unfold set_ok. induction 1 as [|k s Hs IH Hf]; cbn [set_erase].
  { rewrite elem_of_nil. naive_solver. }
  rewrite Forall_forall in Hf.
  destruct (Nat.eqb_spec i k) as [->|].
  - rewrite elem_of_cons. split; [|naive_solver].
    intros Hj. pose proof (Hf j Hj). split; [lia|by right].
  - rewrite !elem_of_cons, IH. naive_solver.
Qed.

Lemma set_erase_subset i j s : j ∈ set_erase i s → j ∈ s.
Proof.
  induction s as [|k s IH]; cbn [set_erase]; [done|].
  destruct (Nat.eqb_spec i k); rewrite !elem_of_cons; naive_solver.
Qed.

Lemma set_erase_ok i s : set_ok s → set_ok (set_erase i s).
Proof.
  unfold set_ok. induction 1 as [|k s Hs IH Hf]; cbn [set_erase]; [constructor|].
  destruct (Nat.eqb_spec i k); [done|]. constructor; [done|].
  apply Forall_forall. intros j Hj. rewrite Forall_forall in Hf. eauto using set_erase_subset.
Qed.

Lemma set_ok_NoDup s : set_ok s → NoDup s.
Proof.
  unfold set_ok. induction 1 as [|k s Hs IH Hf]; constructor; [|done].
  rewrite Forall_forall in Hf. intros Hk. specialize (Hf _ Hk). lia.
Qed.

(** A sorted set is determined by its elements. *)
Lemma set_ext s t : set_ok s → set_ok t → (∀ i, i ∈ s ↔ i ∈ t) → s = t.
Proof.
  unfold set_ok. intros Hs. revert t.
  induction Hs as [|i s Hs IH Hf]; intros t Ht H.
  - destruct t as [|j t]; [done|]. by pose proof (proj2 (H j) ltac:(left)) as ?%elem_of_nil.
  - destruct Ht as [|j t Ht Hg]; [by pose proof (proj1 (H i) ltac:(left)) as ?%elem_of_nil|].
    rewrite Forall_forall in Hf, Hg.
    assert (i = j) as <-.
    { pose proof (proj1 (H i) ltac:(left)) as [|Hi]%elem_of_cons; [done|].
      pose proof (proj2 (H j) ltac:(left)) as [|Hj]%elem_of_cons; [done|].
      pose proof (Hf j Hj). pose proof (Hg i Hi). lia. }
    f_equal. apply IH; [done|]. intros k. split; intros Hk.
    + pose proof (proj1 (H k) ltac:(by right)) as [->|]%elem_of_cons; [|done].
      specialize (Hf _ Hk). lia.
    + pose proof (proj2 (H k) ltac:(by right)) as [->|]%elem_of_cons; [|done].
      specialize (Hg _ Hk). lia.
Qed.
