(* ===== verification/Status.v ===== *)
(** * Status codes and constants

    [crust_status_t] (enclave/include/CrustStatus.h), the upgrade status of the
    enclave and the numeric and textual constants of enclave/include/Parameter.h
    and enclave/utils/EUtils.h.  The JSON field names are the literals the
    records are stored under. *)
From S2P Require Import Prelude.

(** The status every fallible operation returns. *)
Inductive crust_status :=
| CRUST_SUCCESS
| CRUST_BLOCK_HEIGHT_EXPIRED
| CRUST_FIRST_WORK_REPORT_AFTER_REPORT
| CRUST_WORK_REPORT_NOT_VALIDATED
| CRUST_NO_KARST
| CRUST_MALLOC_FAILED
| CRUST_SEAL_DATA_FAILED
| CRUST_UNSEAL_DATA_FAILED
| CRUST_STORE_DATA_TO_FILE_FAILED
| CRUST_GET_DATA_FROM_FILE_FAILED
| CRUST_BAD_SEAL_DATA
| CRUST_SGX_FAILED
| CRUST_DOUBLE_SET_VALUE
| CRUST_NOT_EQUAL
| CRUST_SGX_SIGN_FAILED
| CRUST_SGX_VERIFY_SIG_FAILED
| CRUST_UNEXPECTED_ERROR
| CRUST_INVALID_MERKLETREE
| CRUST_NOTFOUND_MERKLETREE
| CRUST_INVALID_SEALED_DATA
| CRUST_VERIFY_MEANINGFUL_FAILED
| CRUST_GET_FILE_BLOCK_FAILED
| CRUST_WRONG_FILE_BLOCK
| CRUST_SEAL_NOTCOMPLETE
| CRUST_DESER_MERKLE_TREE_FAILED
| CRUST_GET_MERKLETREE_FAILED
| CRUST_MERKLETREE_DUPLICATED
| CRUST_MALWARE_DATA_BLOCK
| CRUST_DUPLICATED_SEAL
| CRUST_OPEN_FILE_FAILED
| CRUST_WRITE_FILE_FAILED
| CRUST_DELETE_FILE_FAILED
| CRUST_RENAME_FILE_FAILED
| CRUST_RENAME_FILE_NOTFOUND
| CRUST_MKDIR_FAILED
| CRUST_ACCESS_FILE_FAILED
| CRUST_INVALID_META_DATA
| CRUST_METADATA_NOTFOUND
| CRUST_START_WEB_SERVICE_FAILED
| CRUST_ENTRY_NETWORK_FAILED
| CRUST_SEND_IDENTITY_FAILED
| CRUST_INIT_QUOTE_FAILED
| CRUST_SRD_NUMBER_EXCEED
| CRUST_FILE_NUMBER_EXCEED
| CRUST_PERSIST_ADD_FAILED
| CRUST_PERSIST_DEL_FAILED
| CRUST_PERSIST_SET_FAILED
| CRUST_PERSIST_GET_FAILED
| CRUST_IAS_QUERY_FAILED
| CRUST_IAS_OK
| CRUST_IAS_VERIFY_FAILED
| CRUST_IAS_BADREQUEST
| CRUST_IAS_UNAUTHORIZED
| CRUST_IAS_NOT_FOUND
| CRUST_IAS_UNEXPECTED_ERROR
| CRUST_IAS_SERVER_ERR
| CRUST_IAS_UNAVAILABLE
| CRUST_IAS_INTERNAL_ERROR
| CRUST_IAS_BAD_CERTIFICATE
| CRUST_IAS_BAD_SIGNATURE
| CRUST_IAS_BAD_BODY
| CRUST_IAS_REPORTDATA_NE
| CRUST_IAS_GET_REPORT_FAILED
| CRUST_IAS_BADMEASUREMENT
| CRUST_IAS_GETPUBKEY_FAILED
| CRUST_SIGN_PUBKEY_FAILED
| CRUST_GET_ACCOUNT_ID_BYTE_FAILED
| CRUST_STORAGE_FILE_NOTFOUND
| CRUST_STORAGE_SER_MERKLETREE_FAILED
| CRUST_STORAGE_UPDATE_FILE_FAILED
| CRUST_STORAGE_UNSEAL_FILE_FAILED
| CRUST_STORAGE_UNEXPECTED_FILE_BLOCK
| CRUST_STORAGE_NEW_FILE_NOTFOUND
| CRUST_STORAGE_NEW_FILE_SIZE_ERROR
| CRUST_VALIDATE_INIT_WSS_FAILED
| CRUST_VALIDATE_WSS_REQUEST_FAILED
| CRUST_VALIDATE_KARST_OFFLINE
| CRUST_UPGRADE_RESTORE_SRD_FAILED
| CRUST_UPGRADE_RESTORE_FILE_FAILED
| CRUST_UPGRADE_SEND_WORKREPORT_FAILED
| CRUST_UPGRADE_INVALID_WORKREPORT
| CRUST_UPGRADE_GET_BLOCK_HASH_FAILED
| CRUST_UPGRADE_GEN_WORKREPORT_FAILED
| CRUST_UPGRADE_WAIT_FOR_NEXT_ERA
| CRUST_UPGRADE_BAD_SRD
| CRUST_UPGRADE_BAD_FILE
| CRUST_UPGRADE_IS_UPGRADING
| CRUST_UPGRADE_NEED_LEFT_DATA
| CRUST_UPGRADE_BLOCK_EXPIRE
| CRUST_UPGRADE_NO_VALIDATE
| CRUST_UPGRADE_RESTART
| CRUST_UPGRADE_NO_FILE.

#[global] Instance crust_status_eq_dec : EqDecision crust_status.
Proof. solve_decision. Defined.

(** The code of a status, as it crosses the enclave boundary. *)
Definition crust_code (s : crust_status) : Z :=
  match s with
  | CRUST_SUCCESS => 0
  | CRUST_BLOCK_HEIGHT_EXPIRED => 8192
  | CRUST_FIRST_WORK_REPORT_AFTER_REPORT => 8193
  | CRUST_WORK_REPORT_NOT_VALIDATED => 8194
  | CRUST_NO_KARST => 8195
  | CRUST_MALLOC_FAILED => 16384
  | CRUST_SEAL_DATA_FAILED => 16385
  | CRUST_UNSEAL_DATA_FAILED => 16386
  | CRUST_STORE_DATA_TO_FILE_FAILED => 16387
  | CRUST_GET_DATA_FROM_FILE_FAILED => 16388
  | CRUST_BAD_SEAL_DATA => 16389
  | CRUST_SGX_FAILED => 16390
  | CRUST_DOUBLE_SET_VALUE => 16391
  | CRUST_NOT_EQUAL => 16392
  | CRUST_SGX_SIGN_FAILED => 16393
  | CRUST_SGX_VERIFY_SIG_FAILED => 16400
  | CRUST_UNEXPECTED_ERROR => 16401
  | CRUST_INVALID_MERKLETREE => 16402
  | CRUST_NOTFOUND_MERKLETREE => 16403
  | CRUST_INVALID_SEALED_DATA => 16404
  | CRUST_VERIFY_MEANINGFUL_FAILED => 16405
  | CRUST_GET_FILE_BLOCK_FAILED => 16406
  | CRUST_WRONG_FILE_BLOCK => 16407
  | CRUST_SEAL_NOTCOMPLETE => 16408
  | CRUST_DESER_MERKLE_TREE_FAILED => 16409
  | CRUST_GET_MERKLETREE_FAILED => 16416
  | CRUST_MERKLETREE_DUPLICATED => 16417
  | CRUST_MALWARE_DATA_BLOCK => 16418
  | CRUST_DUPLICATED_SEAL => 16419
  | CRUST_OPEN_FILE_FAILED => 16420
  | CRUST_WRITE_FILE_FAILED => 16421
  | CRUST_DELETE_FILE_FAILED => 16422
  | CRUST_RENAME_FILE_FAILED => 16423
  | CRUST_RENAME_FILE_NOTFOUND => 16424
  | CRUST_MKDIR_FAILED => 16425
  | CRUST_ACCESS_FILE_FAILED => 16432
  | CRUST_INVALID_META_DATA => 16433
  | CRUST_METADATA_NOTFOUND => 16434
  | CRUST_START_WEB_SERVICE_FAILED => 16435
  | CRUST_ENTRY_NETWORK_FAILED => 16436
  | CRUST_SEND_IDENTITY_FAILED => 16437
  | CRUST_INIT_QUOTE_FAILED => 16438
  | CRUST_SRD_NUMBER_EXCEED => 16439
  | CRUST_FILE_NUMBER_EXCEED => 16440
  | CRUST_PERSIST_ADD_FAILED => 24577
  | CRUST_PERSIST_DEL_FAILED => 24578
  | CRUST_PERSIST_SET_FAILED => 24579
  | CRUST_PERSIST_GET_FAILED => 24580
  | CRUST_IAS_QUERY_FAILED => 28673
  | CRUST_IAS_OK => 28674
  | CRUST_IAS_VERIFY_FAILED => 28675
  | CRUST_IAS_BADREQUEST => 28676
  | CRUST_IAS_UNAUTHORIZED => 28677
  | CRUST_IAS_NOT_FOUND => 28678
  | CRUST_IAS_UNEXPECTED_ERROR => 28679
  | CRUST_IAS_SERVER_ERR => 28680
  | CRUST_IAS_UNAVAILABLE => 28681
  | CRUST_IAS_INTERNAL_ERROR => 28688
  | CRUST_IAS_BAD_CERTIFICATE => 28689
  | CRUST_IAS_BAD_SIGNATURE => 28690
  | CRUST_IAS_BAD_BODY => 28691
  | CRUST_IAS_REPORTDATA_NE => 28692
  | CRUST_IAS_GET_REPORT_FAILED => 28693
  | CRUST_IAS_BADMEASUREMENT => 28694
  | CRUST_IAS_GETPUBKEY_FAILED => 28695
  | CRUST_SIGN_PUBKEY_FAILED => 28696
  | CRUST_GET_ACCOUNT_ID_BYTE_FAILED => 28697
  | CRUST_STORAGE_FILE_NOTFOUND => 32769
  | CRUST_STORAGE_SER_MERKLETREE_FAILED => 32770
  | CRUST_STORAGE_UPDATE_FILE_FAILED => 32771
  | CRUST_STORAGE_UNSEAL_FILE_FAILED => 32772
  | CRUST_STORAGE_UNEXPECTED_FILE_BLOCK => 32773
  | CRUST_STORAGE_NEW_FILE_NOTFOUND => 32774
  | CRUST_STORAGE_NEW_FILE_SIZE_ERROR => 32775
  | CRUST_VALIDATE_INIT_WSS_FAILED => 36865
  | CRUST_VALIDATE_WSS_REQUEST_FAILED => 36866
  | CRUST_VALIDATE_KARST_OFFLINE => 36867
  | CRUST_UPGRADE_RESTORE_SRD_FAILED => 65537
  | CRUST_UPGRADE_RESTORE_FILE_FAILED => 65538
  | CRUST_UPGRADE_SEND_WORKREPORT_FAILED => 65539
  | CRUST_UPGRADE_INVALID_WORKREPORT => 65540
  | CRUST_UPGRADE_GET_BLOCK_HASH_FAILED => 65541
  | CRUST_UPGRADE_GEN_WORKREPORT_FAILED => 65542
  | CRUST_UPGRADE_WAIT_FOR_NEXT_ERA => 65543
  | CRUST_UPGRADE_BAD_SRD => 65544
  | CRUST_UPGRADE_BAD_FILE => 65545
  | CRUST_UPGRADE_IS_UPGRADING => 65552
  | CRUST_UPGRADE_NEED_LEFT_DATA => 65553
  | CRUST_UPGRADE_BLOCK_EXPIRE => 65554
  | CRUST_UPGRADE_NO_VALIDATE => 65555
  | CRUST_UPGRADE_RESTART => 65556
  | CRUST_UPGRADE_NO_FILE => 65557
  end.

Definition crust_all : list crust_status :=
  [CRUST_SUCCESS; CRUST_BLOCK_HEIGHT_EXPIRED; CRUST_FIRST_WORK_REPORT_AFTER_REPORT; CRUST_WORK_REPORT_NOT_VALIDATED; CRUST_NO_KARST; CRUST_MALLOC_FAILED; CRUST_SEAL_DATA_FAILED; CRUST_UNSEAL_DATA_FAILED; CRUST_STORE_DATA_TO_FILE_FAILED; CRUST_GET_DATA_FROM_FILE_FAILED; CRUST_BAD_SEAL_DATA; CRUST_SGX_FAILED; CRUST_DOUBLE_SET_VALUE; CRUST_NOT_EQUAL; CRUST_SGX_SIGN_FAILED; CRUST_SGX_VERIFY_SIG_FAILED; CRUST_UNEXPECTED_ERROR; CRUST_INVALID_MERKLETREE; CRUST_NOTFOUND_MERKLETREE; CRUST_INVALID_SEALED_DATA; CRUST_VERIFY_MEANINGFUL_FAILED; CRUST_GET_FILE_BLOCK_FAILED; CRUST_WRONG_FILE_BLOCK; CRUST_SEAL_NOTCOMPLETE; CRUST_DESER_MERKLE_TREE_FAILED; CRUST_GET_MERKLETREE_FAILED; CRUST_MERKLETREE_DUPLICATED; CRUST_MALWARE_DATA_BLOCK; CRUST_DUPLICATED_SEAL; CRUST_OPEN_FILE_FAILED; CRUST_WRITE_FILE_FAILED; CRUST_DELETE_FILE_FAILED; CRUST_RENAME_FILE_FAILED; CRUST_RENAME_FILE_NOTFOUND; CRUST_MKDIR_FAILED; CRUST_ACCESS_FILE_FAILED; CRUST_INVALID_META_DATA; CRUST_METADATA_NOTFOUND; CRUST_START_WEB_SERVICE_FAILED; CRUST_ENTRY_NETWORK_FAILED; CRUST_SEND_IDENTITY_FAILED; CRUST_INIT_QUOTE_FAILED; CRUST_SRD_NUMBER_EXCEED; CRUST_FILE_NUMBER_EXCEED; CRUST_PERSIST_ADD_FAILED; CRUST_PERSIST_DEL_FAILED; CRUST_PERSIST_SET_FAILED; CRUST_PERSIST_GET_FAILED; CRUST_IAS_QUERY_FAILED; CRUST_IAS_OK; CRUST_IAS_VERIFY_FAILED; CRUST_IAS_BADREQUEST; CRUST_IAS_UNAUTHORIZED; CRUST_IAS_NOT_FOUND; CRUST_IAS_UNEXPECTED_ERROR; CRUST_IAS_SERVER_ERR; CRUST_IAS_UNAVAILABLE; CRUST_IAS_INTERNAL_ERROR; CRUST_IAS_BAD_CERTIFICATE; CRUST_IAS_BAD_SIGNATURE; CRUST_IAS_BAD_BODY; CRUST_IAS_REPORTDATA_NE; CRUST_IAS_GET_REPORT_FAILED; CRUST_IAS_BADMEASUREMENT; CRUST_IAS_GETPUBKEY_FAILED; CRUST_SIGN_PUBKEY_FAILED; CRUST_GET_ACCOUNT_ID_BYTE_FAILED; CRUST_STORAGE_FILE_NOTFOUND; CRUST_STORAGE_SER_MERKLETREE_FAILED; CRUST_STORAGE_UPDATE_FILE_FAILED; CRUST_STORAGE_UNSEAL_FILE_FAILED; CRUST_STORAGE_UNEXPECTED_FILE_BLOCK; CRUST_STORAGE_NEW_FILE_NOTFOUND; CRUST_STORAGE_NEW_FILE_SIZE_ERROR; CRUST_VALIDATE_INIT_WSS_FAILED; CRUST_VALIDATE_WSS_REQUEST_FAILED; CRUST_VALIDATE_KARST_OFFLINE; CRUST_UPGRADE_RESTORE_SRD_FAILED; CRUST_UPGRADE_RESTORE_FILE_FAILED; CRUST_UPGRADE_SEND_WORKREPORT_FAILED; CRUST_UPGRADE_INVALID_WORKREPORT; CRUST_UPGRADE_GET_BLOCK_HASH_FAILED; CRUST_UPGRADE_GEN_WORKREPORT_FAILED; CRUST_UPGRADE_WAIT_FOR_NEXT_ERA; CRUST_UPGRADE_BAD_SRD; CRUST_UPGRADE_BAD_FILE; CRUST_UPGRADE_IS_UPGRADING; CRUST_UPGRADE_NEED_LEFT_DATA; CRUST_UPGRADE_BLOCK_EXPIRE; CRUST_UPGRADE_NO_VALIDATE; CRUST_UPGRADE_RESTART; CRUST_UPGRADE_NO_FILE].

Lemma crust_all_complete s : s ∈ crust_all.
Proof. destruct s; repeat (first [left | right]). Qed.

(** [CRUST_SUCCESS == crust_status] *)
Definition is_success (s : crust_status) : bool :=
  match s with CRUST_SUCCESS => true | _ => false end.

Lemma is_success_true s : is_success s = true ↔ s = CRUST_SUCCESS.
Proof. by destruct s. Qed.
#[export] Hint Rewrite is_success_true : sworker.

(** [sgx_status_t], as far as the code tells the values apart *)
Inductive sgx_status := SGX_SUCCESS | SGX_ERROR_UNEXPECTED | SGX_ERROR_DEVICE_BUSY
  | SGX_ERROR_SERVICE_TIMEOUT | SGX_ERROR_OUT_OF_MEMORY | SGX_ERROR_OTHER (code : Z).

Definition sgx_ok (s : sgx_status) : bool :=
  match s with SGX_SUCCESS => true | _ => false end.

(** [enc_upgrade_status_t] *)
Inductive enc_upgrade_status :=
  ENC_UPGRADE_STATUS_NONE | ENC_UPGRADE_STATUS_PROCESS | ENC_UPGRADE_STATUS_SUCCESS.

#[global] Instance enc_upgrade_status_eq_dec : EqDecision enc_upgrade_status.
Proof. solve_decision. Defined.

(** ** Meaningful file status characters, and the three positions of a status *)
Definition FILE_STATUS_UNCONFIRMED : ascii := "0"%char.
Definition FILE_STATUS_VALID : ascii := "1"%char.
Definition FILE_STATUS_LOST : ascii := "2"%char.
Definition FILE_STATUS_DELETED : ascii := "3"%char.
Definition CURRENT_STATUS : nat := 0.
Definition WAITING_STATUS : nat := 1.
Definition ORIGIN_STATUS : nat := 2.

(** ** Limits *)
Definition OCALL_STORE_THRESHOLD : Z := 4194304.
Definition FILE_NUMBER_UPPER_LIMIT : Z := 200000.
Definition WORKREPORT_FILE_LIMIT : Z := 1000.
Definition WORKREPORT_REPORT_INTERVAL : Z := 10.
Definition ERA_LENGTH : Z := 300.
Definition BLOCK_TIME_BASE : Z := 6.
Definition SRD_MAX_PER_TURN : Z := 64.
Definition SRD_NUMBER_UPPER_LIMIT : Z := 204800.
Definition SRD_VALIDATE_MIN_NUM : Z := 64.
Definition MEANINGFUL_VALIDATE_MIN_NUM : Z := 64.
Definition MEANINGFUL_VALIDATE_MIN_BLOCK_NUM : Z := 1.
Definition SRD_PUNISH_FACTOR : Z := 2.
Definition HASH_LENGTH : Z := 32.
Definition ENCLAVE_MALLOC_TRYOUT : Z := 3.
Definition UPGRADE_WAIT_BLOCK_MAX : Z := 50.
Definition UPGRADE_WAIT_BLOCK_MIN : Z := 10.
Definition SRD_RAND_DATA_LENGTH : Z := 1048576.
Definition SRD_RAND_DATA_NUM : Z := 1024.

(** ** Names *)
Definition ID_METADATA : bytes := str "metadata".
Definition ID_FILE : bytes := str "files".
Definition ID_WORKLOAD : bytes := str "workload".
Definition ID_KEY_PAIR : bytes := str "id_key_pair".
Definition ID_PRE_PUB_KEY : bytes := str "pre_pub_key".
Definition ID_REPORT_HEIGHT : bytes := str "report_height".
Definition ID_CHAIN_ACCOUNT_ID : bytes := str "chain_account_id".
Definition FILE_HASH : bytes := str "hash".
Definition FILE_SIZE : bytes := str "size".
Definition FILE_OLD_SIZE : bytes := str "old_size".
Definition FILE_OLD_HASH : bytes := str "old_hash".
Definition FILE_BLOCK_NUM : bytes := str "block_num".
Definition FILE_STATUS : bytes := str "status".
Definition DB_SRD_INFO : bytes := str "srd_info".
Definition DB_WL_SPEC_INFO : bytes := str "wl_spec_info".
Definition MT_LINKS_NUM : bytes := str "links_num".
Definition MT_LINKS : bytes := str "links".
Definition MT_HASH : bytes := str "hash".
Definition MT_SIZE : bytes := str "size".
Definition WORKREPORT_PUB_KEY : bytes := str "pub_key".
Definition WORKREPORT_PRE_PUB_KEY : bytes := str "pre_pub_key".
Definition WORKREPORT_BLOCK_HEIGHT : bytes := str "block_height".
Definition WORKREPORT_BLOCK_HASH : bytes := str "block_hash".
Definition WORKREPORT_RESERVED : bytes := str "reserved".
Definition WORKREPORT_FILES_SIZE : bytes := str "files_size".
Definition WORKREPORT_RESERVED_ROOT : bytes := str "reserved_root".
Definition WORKREPORT_FILES_ROOT : bytes := str "files_root".
Definition WORKREPORT_FILES_ADDED : bytes := str "added_files".
Definition WORKREPORT_FILES_DELETED : bytes := str "deleted_files".
Definition WORKREPORT_SIG : bytes := str "sig".
Definition WL_SRD : bytes := str "srd".
Definition WL_SRD_DETAIL : bytes := str "detail".
Definition WL_SRD_ROOT_HASH : bytes := str "root_hash".
Definition WL_SRD_SPACE : bytes := str "space".
Definition WL_SRD_REMAINING_TASK : bytes := str "remaining_task".
Definition WL_FILES : bytes := str "files".
Definition WL_FILE_ROOT_HASH : bytes := str "file_root_hash".
Definition PERSIST_SUM : bytes := str "persist_sum".
Definition PERSIST_SIZE : bytes := str "persist_size".
Definition UPGRADE_PUBLIC_KEY : bytes := str "pub_key".
Definition UPGRADE_BLOCK_HEIGHT : bytes := str "block_height".
Definition UPGRADE_BLOCK_HASH : bytes := str "block_hash".
Definition UPGRADE_SRD : bytes := str "upgrade_srd".
Definition UPGRADE_SRD_ROOT : bytes := str "upgrade_srd_root".
Definition UPGRADE_FILE : bytes := str "upgrade_file".
Definition UPGRADE_FILE_ROOT : bytes := str "upgrade_file_root".
Definition UPGRADE_SIG : bytes := str "upgrade_sig".
Definition HASH_TAG : bytes := str "$&JT&$".
Definition SWORKER_PRIVATE_TAG : bytes := str "&+CRUSTSWORKERPRIVATE+&".
Definition SRD_M_HASHS : bytes := str "m-hashs.bin".
