(* ===== verification/Hex.v ===== *)
(** * Hex and byte helpers of enclave/utils/EUtils.cpp

    Bytes to lower-case hex text and back, character removal, and the chunked
    hand-over of large buffers to the application.  Allocation is taken to
    succeed in these helpers. *)
From S2P Require Import Prelude Status.

(** ** Characters *)

(** [char_to_int]: a hex digit of either case; anything else counts as 0. *)
Definition char_to_int (input : ascii) : Z :=
  let c := code input in
  if (48 <=? c) && (c <=? 57) then c - 48
  else if (65 <=? c) && (c <=? 70) then c - 65 + 10
  else if (97 <=? c) && (c <=? 102) then c - 97 + 10
  else 0.

(** [_hextable] *)
Definition _hextable : bytes := str "0123456789abcdef".
Definition hex_at (i : Z) : ascii := nth (Z.to_nat i) _hextable (chr 0).

(** ** Buffers *)

(** [hexstring_safe]: two table look-ups per byte. *)
Definition hexstring_safe (src : bytes) : bytes :=
  flat_map (λ c, [hex_at (Z.shiftr (code c) 4); hex_at (Z.land (code c) 15)]) src.

(** [byte_vec_to_string] *)
Definition byte_vec_to_string (v : bytes) : bytes := hexstring_safe v.

(** The decoding loop of [hex_string_to_bytes]: pairs of characters, each pair
    stored as [uint8_t]. *)
Fixpoint hex_pairs (src : bytes) : bytes :=
  match src with
  | a :: b :: src => chr (u8 (char_to_int a * 16 + char_to_int b)) :: hex_pairs src
  | _ => []
  end.

(** [hex_string_to_bytes] on a buffer of [len] characters; [None] is NULL. *)
Definition hex_string_to_bytes (src : bytes) : option bytes :=
  if negb (zlen src mod 2 =? 0) || (zlen src =? 0) then None
  else Some (hex_pairs src).

(** [unsigned_char_to_hex] and [unsigned_char_array_to_hex_string]: the same text
    computed by division. *)
Definition half_to_hex (d : Z) : ascii := if d <? 10 then chr (d + 48) else chr (d - 10 + 97).
Definition unsigned_char_to_hex (c : ascii) : bytes :=
  [half_to_hex (code c / 16); half_to_hex (code c mod 16)].
Definition unsigned_char_array_to_hex_string (src : bytes) : bytes :=
  flat_map unsigned_char_to_hex src.

(** [remove_char] *)
Definition remove_char (data : bytes) (c : ascii) : bytes :=
  filter (λ x, x ≠ c) data.

(** The three removals every dumped text goes through before it is stored. *)
Definition strip (data : bytes) : bytes :=
  remove_char (remove_char (remove_char data (chr 10)) (chr 92)) (chr 32).

(** [store_large_data]: pieces of at most OCALL_STORE_THRESHOLD bytes; only the
    first covers what was stored before. *)
Fixpoint store_parts (fuel : nat) (data : bytes) (cover : bool) : list (bytes * bool) :=
  match fuel with
  | O => []
  | S fuel =>
      if zlen data =? 0 then []
      else
        let part := Z.to_nat (Z.min (zlen data) OCALL_STORE_THRESHOLD) in
        (take part data, cover) :: store_parts fuel (drop part data) false
  end.
Definition store_large_data (data : bytes) : list (bytes * bool) :=
  if OCALL_STORE_THRESHOLD <? zlen data
  then store_parts (List.length data) data true
  else [(data, true)].

(** [ocall_store_upgrade_data] / [ocall_store_workload] (app/ocalls/OCalls.cpp):
    cover or append. *)
Definition ocall_store (stored : bytes) (call : bytes * bool) : bytes :=
  if call.2 then call.1 else stored ++ call.1.

(** ** Facts *)
Definition is_hex (c : ascii) : Prop := c ∈ _hextable.

Lemma hex_at_hex i : 0 <= i < 16 → is_hex (hex_at i) ∧ char_to_int (hex_at i) = i.
Proof.
  intros H. unfold is_hex, hex_at. split.
  - apply list_elem_of_In, nth_In. cbn. lia.
  - assert (∀ n, (n < 16)%nat → char_to_int (nth n _hextable (chr 0)) = Z.of_nat n) as Hn.
    { intros n Hn. do 16 (destruct n as [|n]; [done|]). lia. }
    rewrite Hn by lia. lia.
Qed.

Lemma nibbles c :
  0 <= Z.shiftr (code c) 4 < 16 ∧ 0 <= Z.land (code c) 15 < 16 ∧
  Z.shiftr (code c) 4 * 16 + Z.land (code c) 15 = code c.
Proof.
  pose proof (code_range c). rewrite Z.shiftr_div_pow2 by lia.
  change 15 with (Z.ones 4). rewrite Z.land_ones by lia. change (2 ^ 4) with 16.
  pose proof (Z.div_mod (code c) 16 ltac:(lia)).
  pose proof (Z.mod_pos_bound (code c) 16 ltac:(lia)).
  split_and!; lia.
Qed.

Lemma hexstring_safe_cons c s :
  hexstring_safe (c :: s) =
  hex_at (Z.shiftr (code c) 4) :: hex_at (Z.land (code c) 15) :: hexstring_safe s.
Proof. done. Qed.

Lemma hexstring_safe_app s t : hexstring_safe (s ++ t) = hexstring_safe s ++ hexstring_safe t.
Proof. apply flat_map_app. Qed.

Lemma hexstring_safe_length s : zlen (hexstring_safe s) = 2 * zlen s.
Proof.
  induction s as [|c s IH]; [done|]. rewrite hexstring_safe_cons. len.
Qed.
#[export] Hint Rewrite hexstring_safe_length hexstring_safe_app : sworker.

Lemma hexstring_safe_hex s : Forall is_hex (hexstring_safe s).
Proof.
  induction s as [|c s IH]; [constructor|]. rewrite hexstring_safe_cons.
  pose proof (nibbles c) as (? & ? & _). apply Forall_cons; split; [by apply hex_at_hex|].
  apply Forall_cons; split; [by apply hex_at_hex|done].
Qed.

Lemma hex_pairs_hexstring s : hex_pairs (hexstring_safe s) = s.
Proof.
  induction s as [|c s IH]; [done|]. rewrite hexstring_safe_cons. cbn [hex_pairs].
  pose proof (nibbles c) as (Hh & Hl & Hc).
  rewrite (proj2 (hex_at_hex _ Hh)), (proj2 (hex_at_hex _ Hl)), Hc, IH.
  unfold u8. pose proof (code_range c). rewrite Z.mod_small by lia. by rewrite chr_code.
Qed.

(** Encoding then decoding gives the bytes back; the empty buffer is the one
    input [hex_string_to_bytes] refuses. *)
Lemma hex_roundtrip s : s ≠ [] → hex_string_to_bytes (hexstring_safe s) = Some s.
Proof.
  intros Hs. unfold hex_string_to_bytes. rewrite hexstring_safe_length, hex_pairs_hexstring.
  rewrite Z.mul_comm, Z_mod_mult.
  destruct s; [done|]. destruct (Z.eqb_spec (zlen (a :: s) * 2) 0); [len|done].
Qed.

Lemma hex_string_to_bytes_length s b :
  hex_string_to_bytes s = Some b → zlen s = 2 * zlen b ∧ b ≠ [].
Proof.
  unfold hex_string_to_bytes.
  destruct (Z.eqb_spec (zlen s mod 2) 0) as [Hm|], (Z.eqb_spec (zlen s) 0); try done. cbn.
  intros [= <-]. apply Z.div_exact in Hm; [|lia].
  assert (∀ n s, (List.length s = 2 * n)%nat → List.length (hex_pairs s) = n) as Hl.
  { clear. induction n as [|n IH]; intros [|a [|b s]]; cbn; try lia. intros. rewrite IH; lia. }
  assert (List.length s = (2 * Z.to_nat (zlen s / 2))%nat) as Hs by (unfold zlen in *; lia).
  apply Hl in Hs. split; [unfold zlen in *; lia|]. intros E. rewrite E in Hs. cbn in Hs. unfold zlen in *. lia.
Qed.

(** Lower-case hex text of even length survives decoding and encoding. *)
Lemma hex_at_char_to_int c : is_hex c → hex_at (char_to_int c) = c ∧ 0 <= char_to_int c < 16.
Proof.
  unfold is_hex. cbn. rewrite !elem_of_cons, elem_of_nil.
  intros H. repeat destruct H as [->|H]; done.
Qed.

Lemma hexstring_pairs s n :
  List.length s = (2 * n)%nat → Forall is_hex s → hexstring_safe (hex_pairs s) = s.
Proof.
  revert s. induction n as [|n IH]; intros [|a [|b s]]; cbn [List.length hex_pairs]; try lia;
    intros Hn Hs; [done|].
  rewrite hexstring_safe_cons.
  apply Forall_cons in Hs as [Ha [Hb Hs]%Forall_cons].
  apply hex_at_char_to_int in Ha as [Ha Ra], Hb as [Hb Rb].
  rewrite IH by (done || lia).
  assert (code (chr (u8 (char_to_int a * 16 + char_to_int b))) =
          char_to_int a * 16 + char_to_int b) as ->
    by (unfold u8; rewrite code_chr, !Z.mod_small by (rewrite ?Z.mod_small; lia); lia).
  rewrite Z.shiftr_div_pow2 by lia. change 15 with (Z.ones 4). rewrite Z.land_ones by lia.
  change (2 ^ 4) with 16.
  replace ((char_to_int a * 16 + char_to_int b) / 16) with (char_to_int a) by divlia.
  replace ((char_to_int a * 16 + char_to_int b) mod 16) with (char_to_int b) by divlia.
  by rewrite Ha, Hb.
Qed.

(** The division-based encoder agrees with the table-based one. *)
Lemma half_to_hex_at d : 0 <= d < 16 → half_to_hex d = hex_at d.
Proof.
  intros. unfold hex_at.
  assert (∀ n, (n < 16)%nat → half_to_hex (Z.of_nat n) = nth n _hextable (chr 0)) as Hn.
  { intros n Hn. do 16 (destruct n as [|n]; [done|]). lia. }
  rewrite <- Hn by lia. f_equal. lia.
Qed.

Lemma unsigned_char_array_hex s : unsigned_char_array_to_hex_string s = hexstring_safe s.
Proof.
  induction s as [|c s IH]; [done|].
  change (unsigned_char_array_to_hex_string (c :: s))
    with (unsigned_char_to_hex c ++ unsigned_char_array_to_hex_string s).
  rewrite hexstring_safe_cons, IH. unfold unsigned_char_to_hex. cbn [app].
  pose proof (code_range c).
  rewrite !half_to_hex_at by (apply Z.mod_pos_bound || (split; [apply Z.div_pos|apply Z.div_lt_upper_bound]); lia).
  rewrite Z.shiftr_div_pow2 by lia. change 15 with (Z.ones 4). by rewrite Z.land_ones by lia.
Qed.

(** The pieces [store_large_data] hands over rebuild the data, each within the
    threshold, whatever was stored before. *)
Lemma ocall_store_append parts stored :
  Forall (λ p, p.2 = false) parts →
  fold_left ocall_store parts stored = stored ++ concat (map fst parts).
Proof.
  intros H. revert stored. induction H as [|[p b] ps Hp _ IH]; intros stored.
  - by rewrite app_nil_r.
  - cbn in *. subst. rewrite IH. unfold ocall_store. cbn. by rewrite <- app_assoc.
Qed.

Lemma store_parts_spec fuel data cover :
  (List.length data <= fuel)%nat →
  concat (map fst (store_parts fuel data cover)) = data ∧
  Forall (λ p, 0 < zlen p.1 <= OCALL_STORE_THRESHOLD) (store_parts fuel data cover) ∧
  Forall (λ p, p.2 = false) (tail (store_parts fuel data cover)) ∧
  (data ≠ [] → ∃ p ps, store_parts fuel data cover = (p, cover) :: ps).
Proof.
  revert data cover. induction fuel as [|fuel IH]; intros data cover Hf.
  { destruct data; [|cbn in Hf; lia]. cbn. split_and!; try constructor; done. }
  cbn [store_parts]. destruct (Z.eqb_spec (zlen data) 0) as [Hz|Hz].
  { destruct data; [|len]. cbn. split_and!; try constructor; done. }
  set (part := Z.to_nat _).
  assert (0 < Z.of_nat part <= zlen data ∧ Z.of_nat part <= OCALL_STORE_THRESHOLD) as Hp.
  { pose proof (zlen_nonneg data). unfold part, OCALL_STORE_THRESHOLD. lia. }
  unfold zlen in Hp.
  destruct (IH (drop part data) false) as (Hc & Hb & Ht & Hn); [rewrite length_drop; lia|].
  cbn [map concat fst tail]. split_and!.
  - by rewrite Hc, take_drop.
  - constructor; [|done]. cbn [fst]. unfold zlen. rewrite length_take. lia.
  - destruct (decide (drop part data = [])) as [E|E].
    + rewrite E. destruct fuel; constructor.
    + destruct (Hn E) as (p & ps & Hps). rewrite Hps in Ht |- *. by constructor.
  - intros _. eauto.
Qed.

Lemma remove_char_elem data c x : x ∈ remove_char data c ↔ x ≠ c ∧ x ∈ data.
Proof. unfold remove_char. by rewrite list_elem_of_filter. Qed.

Lemma remove_char_id data c : c ∉ data → remove_char data c = data.
Proof.
  unfold remove_char. induction data as [|x data IH]; intros Hc; [done|].
  assert (x ≠ c) by (intros ->; apply Hc; by left).
  rewrite filter_cons_True by done. f_equal. apply IH. intros ?. apply Hc. by right.
Qed.

Lemma remove_char_app a b c : remove_char (a ++ b) c = remove_char a c ++ remove_char b c.
Proof. unfold remove_char. by rewrite filter_app. Qed.

Lemma strip_app a b : strip (a ++ b) = strip a ++ strip b.
Proof. unfold strip. by rewrite !remove_char_app. Qed.

(** Text without newline, backslash and space is left alone by [strip]. *)
Definition plain (s : bytes) : Prop := Forall (λ c, c ≠ chr 10 ∧ c ≠ chr 92 ∧ c ≠ chr 32) s.

Lemma plain_remove s c :
  (c = chr 10 ∨ c = chr 92 ∨ c = chr 32) → plain s → remove_char s c = s.
Proof.
  intros Hc H. apply remove_char_id. intros Hin.
  unfold plain in H. rewrite Forall_forall in H. specialize (H _ Hin). naive_solver.
Qed.

Lemma strip_plain s : plain s → strip s = s.
Proof.
  intros H. unfold strip.
  rewrite (plain_remove s (chr 10)), (plain_remove s (chr 92)), (plain_remove s (chr 32)) by auto.
  done.
Qed.

Lemma store_large_data_stored data stored : fold_left ocall_store (store_large_data data) stored = data.
Proof.
  unfold store_large_data. destruct (Z.ltb_spec OCALL_STORE_THRESHOLD (zlen data)) as [Hl|]; [|done].
  destruct (store_parts_spec (List.length data) data true) as (Hc & _ & Ht & Hn); [done|].
  destruct (Hn ltac:(intros ->; done)) as (p & ps & E). rewrite E in Hc, Ht |- *. cbn [fold_left].
  cbn [map concat fst] in Hc. unfold ocall_store at 2. cbn [fst snd]. by rewrite ocall_store_append.
Qed.

(** ** Property *)

(** Bytes survive encoding and decoding; even-length lower-case hex text
    survives decoding and encoding; both encoders of the code agree. *)
Theorem hex_inverse :
  (∀ s, s ≠ [] → hex_string_to_bytes (hexstring_safe s) = Some s) ∧
  (∀ t b, Forall is_hex t → hex_string_to_bytes t = Some b → hexstring_safe b = t) ∧
  (∀ s, unsigned_char_array_to_hex_string s = hexstring_safe s).
Proof.
  split_and!; [apply hex_roundtrip| |apply unsigned_char_array_hex]. intros t b Ht Hb.
  pose proof (hex_string_to_bytes_length t b Hb) as [Hl _].
  unfold hex_string_to_bytes in Hb. destruct (_ || _); [done|]. injection Hb as <-.
  apply (hexstring_pairs t (List.length (hex_pairs t))); [unfold zlen in Hl; lia|done].
Qed.

(** The pieces in which a large buffer is handed to the application are at most
    OCALL_STORE_THRESHOLD bytes each, and storing them in order, whatever was
    stored before, leaves exactly the buffer. *)
Theorem store_large_data_rebuilds data stored :
  fold_left ocall_store (store_large_data data) stored = data ∧
  Forall (λ p, zlen p.1 <= OCALL_STORE_THRESHOLD) (store_large_data data).
Proof.
  split; [apply store_large_data_stored|]. unfold store_large_data.
  destruct (Z.ltb_spec OCALL_STORE_THRESHOLD (zlen data)) as [Hl|]; [|by constructor].
  destruct (store_parts_spec (List.length data) data true) as (_ & Hb & _); [done|].
  eapply Forall_impl; [exact Hb|]. cbn. lia.
Qed.
