(* ===== verification/Json.v ===== *)
(** * JSON values: the class [json::JSON] of enclave/utils/EJson.h

    The value type with the project's own [Hash] case, the accessors with their
    conversions (a subscript turns the value into an object or array and creates
    the missing entry), and [dump].  Copying a [JSON] copies the tree, so a value
    type is faithful; where a reference is kept and written through, the
    functions below return the updated container. *)
From S2P Require Import Prelude StdMap Status Hex.

(** A [double] is kept as the decimal text and the power of ten it is computed
    from; binary rounding is not modelled. *)
Record cdouble := CDouble { dbl_text : bytes; dbl_exp : Z }.

(** [JSON::Class] with the payload of each case *)
Inductive json :=
| JNull
| JObject (m : list (bytes * json))
| JArray (l : list json)
| JHash (h : bytes)
| JString (s : bytes)
| JFloating (d : cdouble)
| JIntegral (z : Z)
| JBoolean (b : bool).

(** The induction principle that reaches inside objects and arrays. *)
Section json_rect.
Variable P : json → Prop.
Hypothesis HNull : P JNull.
Hypothesis HObject : ∀ m, Forall (λ p, P p.2) m → P (JObject m).
Hypothesis HArray : ∀ l, Forall P l → P (JArray l).
Hypothesis HHash : ∀ h, P (JHash h).
Hypothesis HString : ∀ s, P (JString s).
Hypothesis HFloating : ∀ d, P (JFloating d).
Hypothesis HIntegral : ∀ z, P (JIntegral z).
Hypothesis HBoolean : ∀ b, P (JBoolean b).

Fixpoint json_nested_ind (j : json) : P j :=
  match j with
  | JNull => HNull
  | JObject m => HObject m
      ((fix go (m : list (bytes * json)) : Forall (λ p, P p.2) m :=
          match m with
          | [] => @List.Forall_nil _ _
          | p :: m => @List.Forall_cons _ _ p m (json_nested_ind p.2) (go m)
          end) m)
  | JArray l => HArray l
      ((fix go (l : list json) : Forall P l :=
          match l with
          | [] => @List.Forall_nil _ _
          | x :: l => @List.Forall_cons _ _ x l (json_nested_ind x) (go l)
          end) l)
  | JHash h => HHash h
  | JString s => HString s
  | JFloating d => HFloating d
  | JIntegral z => HIntegral z
  | JBoolean b => HBoolean b
  end.
End json_rect.

(** ** Construction from C++ values *)
Definition jint (z : Z) : json := JIntegral (i64 z).
(** Assignment from [uint8_t*] copies HASH_LENGTH bytes. *)
Definition jhash (p : bytes) : json := JHash (take 32 p).
(** [JSON::Make(Array)], [JSON::Make(Object)] *)
Definition jobject : json := JObject [].
Definition jarray : json := JArray [].

(** ** Subscripts *)

(** [SetType(Object)], [SetType(Array)]: another case is cleared first. *)
Definition as_object (j : json) : list (bytes * json) :=
  match j with JObject m => m | _ => [] end.
Definition as_array (j : json) : list json :=
  match j with JArray l => l | _ => [] end.

(** [operator[](const string &)]: the value read, the container afterwards, and
    the container after assigning through the reference. *)
Definition jkey (k : bytes) (j : json) : json := map_get JNull k (as_object j).
Definition jkey_touch (k : bytes) (j : json) : json :=
  JObject (map_touch JNull k (as_object j)).
Definition jkey_set (k : bytes) (v : json) (j : json) : json :=
  JObject (map_set k v (as_object j)).
Definition jkey_update (k : bytes) (f : json → json) (j : json) : json :=
  jkey_set k (f (jkey k j)) j.

(** [operator[](unsigned)]: the list is resized with nulls. *)
Definition resize (n : nat) (l : list json) : list json :=
  l ++ replicate (n - List.length l) JNull.
Definition jidx (i : nat) (j : json) : json := nth i (as_array j) JNull.
Definition jidx_set (i : nat) (v : json) (j : json) : json :=
  JArray (<[i := v]> (resize (S i) (as_array j))).
(** [append] *)
Definition jappend (v : json) (j : json) : json := JArray (as_array j ++ [v]).

(** ** Strings in place *)
Definition get_char (i : nat) (j : json) : ascii :=
  match j with
  | JString s => if Nat.leb (List.length s) i then chr 0 else nth i s (chr 0)
  | _ => chr 0
  end.
Definition set_char (i : nat) (c : ascii) (j : json) : json :=
  match j with
  | JString s =>
      if Nat.ltb (List.length s) i then j
      else if Nat.eqb i (List.length s) then JString (s ++ [c])
      else JString (<[i := c]> s)
  | _ => j
  end.

(** ** Inspection *)
Definition json_size (j : json) : Z :=
  match j with
  | JObject m => i32 (zlen m)
  | JArray l => i32 (zlen l)
  | JHash _ => 32
  | _ => -1
  end.
Definition json_length (j : json) : Z :=
  match j with JArray l => i32 (zlen l) | JHash _ => 32 | _ => -1 end.
Definition hasKey (k : bytes) (j : json) : bool :=
  match j with JObject m => map_has k m | _ => false end.
Definition is_object (j : json) : bool := match j with JObject _ => true | _ => false end.
Definition is_array (j : json) : bool := match j with JArray _ => true | _ => false end.

(** [json_escape] *)
Definition escape_char (c : ascii) : bytes :=
  let n := code c in
  if n =? 34 then [chr 92; chr 34]
  else if n =? 92 then [chr 92; chr 92]
  else if n =? 8 then [chr 92; "b"%char]
  else if n =? 12 then [chr 92; "f"%char]
  else if n =? 10 then [chr 92; "n"%char]
  else if n =? 13 then [chr 92; "r"%char]
  else if n =? 9 then [chr 92; "t"%char]
  else [c].
Definition json_escape (s : bytes) : bytes := flat_map escape_char s.

(** In the application [json_escape] goes on to put line breaks for a mark.  After a
    replacement the source searches on from its start; no mark starts in there. *)
Definition JSON_NL : bytes := str "%$&nl&$%".
Fixpoint replace_mark (mark det : bytes) (skip : nat) (s : bytes) : bytes :=
  match s, skip with
  | [], _ => []
  | _ :: s, S skip => replace_mark mark det skip s
  | c :: s', O =>
      if bool_decide (take (List.length mark) s = mark)
      then det ++ replace_mark mark det (List.length mark - 1) s'
      else c :: replace_mark mark det 0 s'
  end.
Definition str_replace (org det : bytes) (s : bytes) : bytes := replace_mark org det 0 s.
Definition app_json_escape (s : bytes) : bytes :=
  str_replace JSON_NL (chr 10 :: str "        ") (json_escape s).

(** [_hexstring], the copy of [hexstring_safe] in this file *)
Definition _hexstring (h : bytes) : bytes := hexstring_safe h.

Definition ToString (j : json) : bytes :=
  match j with
  | JString s => json_escape s
  | JHash h => _hexstring h
  | JIntegral z => to_string z
  | _ => []
  end.
(** [ToString] of the application *)
Definition app_ToString (j : json) : bytes :=
  match j with JString s => app_json_escape s | _ => [] end.
Definition ToBytes (j : json) : option bytes :=
  match j with JHash h => Some h | _ => None end.
Definition ToInt (j : json) : Z := match j with JIntegral z => z | _ => 0 end.
Definition ToBool (j : json) : bool := match j with JBoolean b => b | _ => false end.
(** [ObjectRange], [ArrayRange]: an empty range for the other cases *)
Definition ObjectRange (j : json) : list (bytes * json) := as_object j.
Definition ArrayRange (j : json) : list json := as_array j.

(** ** Decimal doubles *)

Fixpoint span_digits (l : bytes) : bytes * bytes :=
  match l with
  | c :: l' => if is_digit c then let '(d, r) := span_digits l' in (c :: d, r) else ([], l)
  | [] => ([], [])
  end.

(** [std::stol]: optional minus, then digits; [None] when it throws. *)
Definition stol (l : bytes) : option Z :=
  let '(neg, l) := match l with
                   | c :: r => if code c =? 45 then (true, r) else (false, l)
                   | [] => (false, []) end in
  let '(d, _) := span_digits l in
  match d with
  | [] => None
  | _ =>
      let v := if neg : bool then - dec_value d else dec_value d in
      if (- 2 ^ 63 <=? v) && (v <? 2 ^ 63) then Some v else None
  end.

(** Mantissa and scale of a decimal text such as [-12.5]; [None] when
    [std::stod] finds no digits. *)
Definition decimal (l : bytes) : option (bool * Z * Z) :=
  let '(neg, l) := match l with
                   | c :: r => if code c =? 45 then (true, r) else (false, l)
                   | [] => (false, []) end in
  let '(ip, r) := span_digits l in
  let fp := match r with
            | c :: r => if code c =? 46 then fst (span_digits r) else []
            | [] => [] end in
  match ip ++ fp with
  | [] => None
  | ds => Some (neg, dec_value ds, - zlen fp)
  end.

(** Half-even rounding of [m * 10 ^ e] to an integer. *)
Definition round10 (m e : Z) : Z :=
  if 0 <=? e then m * 10 ^ e
  else
    let p := 10 ^ (- e) in
    let q := m / p in
    let r := 2 * (m mod p) in
    if r <? p then q else if p <? r then q + 1 else if Z.even q then q else q + 1.

(** [std::to_string(double)]: six decimals. *)
Definition double_to_string (d : cdouble) : bytes :=
  match decimal (dbl_text d) with
  | None => []
  | Some (neg, m, e) =>
      let v := round10 m (e + dbl_exp d + 6) in
      let frac := to_string (v mod 10 ^ 6) in
      (if neg : bool then [chr 45] else []) ++ to_string (v / 10 ^ 6) ++ [chr 46]
        ++ replicate (6 - List.length frac) (chr 48) ++ frac
  end.

(** ** [dump] *)
Definition quote (s : bytes) : bytes := chr 34 :: s ++ [chr 34].
Definition pad (depth : nat) : bytes := replicate (2 * depth) (chr 32).

Fixpoint dump_at (depth : nat) (j : json) : bytes :=
  match j with
  | JNull => str "null"
  | JObject m =>
      [chr 123; chr 10]
      ++ join [chr 44; chr 10]
           (map (λ p, pad depth ++ quote p.1 ++ [chr 32; chr 58; chr 32]
                        ++ dump_at (S depth) p.2) m)
      ++ [chr 10] ++ drop 2 (pad depth) ++ [chr 125]
  | JArray l =>
      [chr 91] ++ join [chr 44; chr 32] (map (dump_at (S depth)) l) ++ [chr 93]
  | JHash h => quote (HASH_TAG ++ _hexstring h)
  | JString s => quote (json_escape s)
  | JFloating d => double_to_string d
  | JIntegral z => to_string z
  | JBoolean b => if b then str "true" else str "false"
  end.
Definition dump (j : json) : bytes := dump_at 1 j.

(** ** Well-formed values

    What the constructors of the class keep: sorted objects, hashes of
    HASH_LENGTH bytes, integers within [long long]. *)
Inductive json_ok : json → Prop :=
| ok_null : json_ok JNull
| ok_object m : map_ok m → Forall (λ p, json_ok p.2) m → json_ok (JObject m)
| ok_array l : Forall json_ok l → json_ok (JArray l)
| ok_hash h : List.length h = 32%nat → json_ok (JHash h)
| ok_string s : json_ok (JString s)
| ok_floating d : json_ok (JFloating d)
| ok_integral z : - 2 ^ 63 <= z < 2 ^ 63 → json_ok (JIntegral z)
| ok_boolean b : json_ok (JBoolean b).
#[export] Hint Constructors json_ok : sworker.

Lemma jkey_set_eq k v j : jkey k (jkey_set k v j) = v.
Proof. unfold jkey, jkey_set, map_get. cbn. by rewrite map_find_set_eq. Qed.

Lemma jkey_set_ne k k' v j : k ≠ k' → jkey k' (jkey_set k v j) = jkey k' j.
Proof. intros. unfold jkey, jkey_set, map_get. cbn. by rewrite map_find_set_ne. Qed.

Lemma jkey_update_eq k f j : jkey k (jkey_update k f j) = f (jkey k j).
Proof. apply jkey_set_eq. Qed.

Lemma jkey_update_ne k k' f j : k ≠ k' → jkey k' (jkey_update k f j) = jkey k' j.
Proof. apply jkey_set_ne. Qed.

Lemma json_ok_jint z : json_ok (jint z).
Proof. constructor. apply i64_range. Qed.

Lemma as_object_ok j : json_ok j → map_ok (as_object j) ∧ Forall (λ p, json_ok p.2) (as_object j).
Proof. destruct 1; cbn; split; try done; constructor. Qed.

Lemma as_array_ok j : json_ok j → Forall json_ok (as_array j).
Proof. destruct 1; cbn; try done; constructor. Qed.

Lemma map_set_forall_snd {V} (P : V → Prop) k v (m : list (bytes * V)) :
  P v → Forall (λ p, P p.2) m → Forall (λ p, P p.2) (map_set k v m).
Proof.
  intros Hv Hm. induction Hm as [|[k' v'] m Hp Hm IH]; cbn.
  - by constructor.
  - destruct (bytes_cmp k k'); repeat constructor; auto.
Qed.

Lemma jkey_set_ok k v j : json_ok v → json_ok j → json_ok (jkey_set k v j).
Proof.
  intros Hv [Hm Hf]%as_object_ok. constructor; [by apply map_set_ok|].
  by apply map_set_forall_snd.
Qed.

Lemma jkey_ok k j : json_ok j → json_ok (jkey k j).
Proof.
  intros [Hm Hf]%as_object_ok. unfold jkey, map_get.
  destruct (map_find k (as_object j)) as [v|] eqn:E; [|constructor].
  apply map_find_elem in E. rewrite Forall_forall in Hf. by apply Hf in E.
Qed.

Lemma jidx_ok i j : json_ok j → json_ok (jidx i j).
Proof.
  intros Hl%as_array_ok. unfold jidx. destruct (nth_in_or_default i (as_array j) JNull) as [H|H]; [|rewrite H; constructor].
  apply list_elem_of_In in H. rewrite Forall_forall in Hl. auto.
Qed.
#[export] Hint Resolve json_ok_jint jkey_set_ok jkey_ok jidx_ok : sworker.

(** Reading back a character that was set. *)
Lemma get_char_lookup i s : (i < List.length s)%nat → s !! i = Some (get_char i (JString s)).
Proof.
  intros Hi. cbn [get_char]. destruct (Nat.leb_spec (List.length s) i); [lia|].
  rewrite nth_lookup. by destruct (lookup_lt_is_Some_2 s i Hi) as [? ->].
Qed.

Lemma get_char_Some i s c : s !! i = Some c → get_char i (JString s) = c.
Proof.
  intros H. pose proof (lookup_lt_Some _ _ _ H) as Hi.
  rewrite (get_char_lookup _ _ Hi) in H. by simplify_eq.
Qed.

Lemma set_char_in i c s :
  (i < List.length s)%nat → set_char i c (JString s) = JString (<[i := c]> s).
Proof.
  intros Hi. unfold set_char. destruct (Nat.ltb_spec (List.length s) i); [lia|].
  by destruct (Nat.eqb_spec i (List.length s)); [lia|].
Qed.

Lemma get_set_char_eq i c s :
  (i < List.length s)%nat → get_char i (set_char i c (JString s)) = c.
Proof.
  intros Hi. rewrite set_char_in by done. apply get_char_Some.
  by apply list_lookup_insert_eq.
Qed.

Lemma get_set_char_ne i k c s :
  i ≠ k → (i < List.length s)%nat → (k < List.length s)%nat →
  get_char k (set_char i c (JString s)) = get_char k (JString s).
Proof.
  intros Hne Hi Hk. rewrite set_char_in by done. apply get_char_Some.
  rewrite list_lookup_insert_ne by done. by apply get_char_lookup.
Qed.
