(* ===== verification/JsonParse.v ===== *)
(** * The JSON parser of enclave/utils/EJson.h

    [JSON::Load] exists three times in the source: in the enclave over [std::string]
    and over a raw [uint8_t] buffer, and in the application (app/utils/Json.hpp) over
    [std::string]; [raw] selects the version.  A parse yields a value and the
    new offset, or undefined behaviour (a read outside the buffer), or an
    exception of [std::stol]/[std::stod].  The two loops and the recursion run on
    fuel; [Load] provides enough of it for every input ([load_total]). *)
From S2P Require Import Prelude StdMap Status Hex Json.

(** Outcome of a parsing step *)
Inductive res (A : Type) := Ok (a : A) | UB | Throw | NoFuel.
Arguments Ok {A} a.
Arguments UB {A}.
Arguments Throw {A}.
Arguments NoFuel {A}.

#[global] Instance res_ret : MRet res := @Ok.
#[global] Instance res_bind : MBind res := λ A B f r,
  match r with Ok a => f a | UB => UB | Throw => Throw | NoFuel => NoFuel end.

(** Who reads: the enclave a [std::string] or a raw buffer; or the application, whose
    JSON class (app/utils/Json.hpp) is the same without hashes. *)
Inductive reader := Text | Raw | AppText.
Definition is_raw (raw : reader) : bool := match raw with Raw => true | _ => false end.
Definition in_app (raw : reader) : bool := match raw with AppText => true | _ => false end.

(** An offset into the text: what is left from it on, or beyond the terminator. *)
Inductive cursor := At (rest : bytes) | Past.
Definition clen (c : cursor) : nat := match c with At l => List.length l | Past => 0 end.

(** [str[offset]]: a [std::string] can be read at its size and gives NUL there. *)
Definition peek (raw : reader) (c : cursor) : res ascii :=
  match c with
  | At (x :: _) => Ok x
  | At [] => if is_raw raw then UB else Ok (chr 0)
  | Past => UB
  end.
(** [++offset] *)
Definition advance (c : cursor) : cursor :=
  match c with At (_ :: r) => At r | _ => Past end.

Definition is_space (c : ascii) : bool :=
  let n := code c in ((9 <=? n) && (n <=? 13)) || (n =? 32).
Fixpoint skip_ws (l : bytes) : bytes :=
  match l with
  | c :: r => if is_space c then skip_ws r else l
  | [] => []
  end.
(** [consume_ws] *)
Definition consume_ws (raw : reader) (c : cursor) : res cursor :=
  match c with
  | At l => match skip_ws l with
            | [] => if is_raw raw then UB else Ok (At [])
            | l' => Ok (At l')
            end
  | Past => UB
  end.

(** ** Strings *)
Inductive str_res := SDone (val : bytes) (rest : bytes) | SBad (rest : bytes).
Definition sval (p : bytes) (r : res str_res) : res str_res :=
  match r with Ok (SDone v l) => Ok (SDone (p ++ v) l) | r => r end.
Definition is_hexdigit (c : ascii) : bool :=
  let n := code c in
  is_digit c || ((97 <=? n) && (n <=? 102)) || ((65 <=? n) && (n <=? 70)).

(** Do the four characters after a unicode escape all count as hex digits?
    [None] when one lies outside a raw buffer. *)
Fixpoint hex_ahead (raw : reader) (n : nat) (l : bytes) : option bool :=
  match n, l with
  | O, _ => Some true
  | S n, c :: l => if is_hexdigit c then hex_ahead raw n l else Some false
  | S _, [] => if is_raw raw then None else Some false
  end.

(** What an escape letter other than [u] stands for *)
Definition unescape (e : ascii) : bytes :=
  let n := code e in
  if n =? 34 then [chr 34]
  else if n =? 92 then [chr 92]
  else if n =? 47 then [chr 47]
  else if n =? 98 then [chr 8]
  else if n =? 102 then [chr 12]
  else if n =? 110 then [chr 10]
  else if n =? 114 then [chr 13]
  else if n =? 116 then [chr 9]
  else [chr 92].

(** The loop of [parse_string], from the character after the opening quote.
    Running off the end is an out-of-range read in both versions. *)
Fixpoint string_body (raw : reader) (l : bytes) : res str_res :=
  match l with
  | [] => UB
  | c :: l =>
      if code c =? 34 then Ok (SDone [] l)
      else if code c =? 92 then
        match l with
        | [] => UB
        | e :: l' =>
            if code e =? 117 then
              match hex_ahead raw 4 l' with
              | None => UB
              | Some false => Ok (SBad l)
              | Some true =>
                  match l' with
                  | x1 :: x2 :: x3 :: x4 :: l'' =>
                      sval [chr 92; "u"%char; x1; x2; x3; x4] (string_body raw l'')
                  | _ => UB
                  end
              end
            else sval (unescape e) (string_body raw l')
        end
      else sval [c] (string_body raw l)
  end.

(** The value of a string literal: tagged text is a hash, except in the application. *)
Definition string_value (raw : reader) (val : bytes) : res json :=
  if negb (in_app raw) && bool_decide (take 6 val = HASH_TAG) then
    let val := drop 6 val in
    match hex_string_to_bytes val with
    | Some h => if zlen h <? 32 then UB else Ok (jhash h)
    | None => Ok (JString val)
    end
  else Ok (JString val).

(** [parse_string]; the cursor is on the opening quote. *)
Definition parse_string (raw : reader) (c : cursor) : res (json * cursor) :=
  match advance c with
  | Past => UB
  | At l =>
      r ← string_body raw l;
      match r with
      | SBad rest => Ok (JString [], At rest)
      | SDone val rest => v ← string_value raw val; Ok (v, At rest)
      end
  end.

(** ** Numbers *)
Definition is_num_char (c : ascii) : bool := is_digit c || (code c =? 45) || (code c =? 46).
Fixpoint span_num (l : bytes) : bytes * bytes :=
  match l with
  | c :: l' => if is_num_char c then let '(v, r) := span_num l' in (c :: v, r) else ([], l)
  | [] => ([], [])
  end.
Definition is_terminator (c : ascii) : bool :=
  is_space c || (code c =? 44) || (code c =? 93) || (code c =? 125).
Definition to_floating (val : bytes) (exp : Z) (isDouble : bool) : res json :=
  if isDouble then match decimal val with None => Throw | Some _ => Ok (JFloating (CDouble val exp)) end
  else match stol val with None => Throw | Some _ => Ok (JFloating (CDouble val exp)) end.

(** [parse_number]; the first character after [e] is dropped unless it is a
    minus sign, and a minus sign swallows the character after it. *)
Definition parse_number (raw : reader) (c : cursor) : res (json * cursor) :=
  match c with
  | Past => UB
  | At l =>
      let '(val, l1) := span_num l in
      let isDouble := existsb (λ x, code x =? 46) val in
      x ← peek raw (At l1);
      if (code x =? 69) || (code x =? 101) then
        let c1 := advance (At l1) in
        y ← peek raw c1;
        let '(c2, sign) :=
          if code y =? 45 then (advance (advance c1), [chr 45]) else (advance c1, []) in
        match c2 with
        | Past => UB
        | At l2 =>
            let '(ds, l3) := span_digits l2 in
            z ← peek raw (At l3);
            if is_terminator z then
              match stol (sign ++ ds) with
              | None => Throw
              | Some exp => v ← to_floating val exp isDouble; Ok (v, At l3)
              end
            else Ok (JNull, advance (At l3))
        end
      else if is_terminator x then
        v ← (if isDouble then to_floating val 0 true
             else match stol val with None => Throw | Some n => Ok (JIntegral n) end);
        Ok (v, At l1)
      else Ok (JNull, advance (At l1))
  end.

(** ** Literals *)
Definition parse_bool (raw : reader) (c : cursor) : res (json * cursor) :=
  match c with
  | Past => UB
  | At l =>
      if is_raw raw && (zlen l <? 4) then UB
      else if bool_decide (take 4 l = str "true") then Ok (JBoolean true, At (drop 4 l))
      else if is_raw raw && (zlen l <? 5) then UB
      else if bool_decide (take 5 l = str "false") then Ok (JBoolean false, At (drop 5 l))
      else Ok (JNull, At l)
  end.

(** [parse_null]: the raw version has its comparison the wrong way round. *)
Definition parse_null (raw : reader) (c : cursor) : res (json * cursor) :=
  match c with
  | Past => UB
  | At l =>
      if is_raw raw then
        if zlen l <? 4 then UB
        else if bool_decide (take 4 l = str "null") then Ok (JNull, At l)
        else Ok (JNull, At (drop 4 l))
      else if bool_decide (take 4 l = str "null") then Ok (JNull, At (drop 4 l))
      else Ok (JNull, At l)
  end.

(** ** Objects and arrays *)
Definition key_text (raw : reader) (k : json) : bytes := if in_app raw then app_ToString k else ToString k.

(** [parse_next], and the loops of [parse_object] and [parse_array] *)
Fixpoint parse_next (fuel : nat) (raw : reader) (c : cursor) : res (json * cursor) :=
  match fuel with
  | O => NoFuel
  | S fuel =>
      c ← consume_ws raw c;
      value ← peek raw c;
      let v := code value in
      if v =? 91 then
        let c := advance c in
        c ← consume_ws raw c;
        x ← peek raw c;
        if code x =? 93 then Ok (JArray [], advance c) else array_loop fuel raw [] c
      else if v =? 123 then
        let c := advance c in
        c ← consume_ws raw c;
        x ← peek raw c;
        if code x =? 125 then Ok (JObject [], advance c) else object_loop fuel raw [] c
      else if v =? 34 then parse_string raw c
      else if (v =? 116) || (v =? 102) then parse_bool raw c
      else if v =? 110 then parse_null raw c
      else if is_digit value || (v =? 45) then parse_number raw c
      else Ok (JNull, c)
  end
with array_loop (fuel : nat) (raw : reader) (acc : list json) (c : cursor) : res (json * cursor) :=
  match fuel with
  | O => NoFuel
  | S fuel =>
      r ← parse_next fuel raw c;
      let acc := acc ++ [r.1] in
      c ← consume_ws raw r.2;
      x ← peek raw c;
      if code x =? 44 then array_loop fuel raw acc (advance c)
      else if code x =? 93 then Ok (JArray acc, advance c)
      else Ok (JArray [], c)
  end
with object_loop (fuel : nat) (raw : reader) (acc : list (bytes * json)) (c : cursor)
    : res (json * cursor) :=
  match fuel with
  | O => NoFuel
  | S fuel =>
      k ← parse_next fuel raw c;
      c ← consume_ws raw k.2;
      x ← peek raw c;
      if negb (code x =? 58) then Ok (JObject acc, c)
      else
        c ← consume_ws raw (advance c);
        r ← parse_next fuel raw c;
        let acc := map_set (key_text raw k.1) r.1 acc in
        c ← consume_ws raw r.2;
        x ← peek raw c;
        if code x =? 44 then object_loop fuel raw acc (advance c)
        else if code x =? 125 then Ok (JObject acc, advance c)
        else Ok (JObject acc, c)
  end.

(** [JSON::Load] *)
Definition Load (raw : reader) (s : bytes) : res json :=
  if zlen s =? 0 then Ok JNull
  else r ← parse_next (2 * List.length s + 1) raw (At s); Ok r.1.

(** The value of a text the program wrote itself; used where the source loads
    stored data and goes on with the result. *)
Definition load_str (s : bytes) : json := match Load Text s with Ok j => j | _ => JNull end.

(** An input evaluated: white space, escapes, keys sorted on insertion. *)
Example load_object :
  Load Text (str "{ " ++ quote (str "b") ++ str ":[1, -20]," ++ quote (str "a") ++ str ":"
              ++ quote (str "x\n") ++ str " }")
  = Ok (JObject [(str "a", JString (str "x" ++ [chr 10]));
                 (str "b", JArray [JIntegral 1; JIntegral (-20)])]).
Proof. reflexivity. Qed.

(** ** Termination

    [safe P r]: the step did not run out of fuel, and if it returned, [P] holds. *)
Definition safe {A} (P : A → Prop) (r : res A) : Prop :=
  match r with Ok a => P a | NoFuel => False | _ => True end.

Lemma safe_bind {A B} (P : A → Prop) (Q : B → Prop) (m : res A) (f : A → res B) :
  safe P m → (∀ a, P a → safe Q (f a)) → safe Q (m ≫= f).
Proof. destruct m; cbn; auto. Qed.

Lemma safe_impl {A} (P Q : A → Prop) m : safe P m → (∀ a, P a → Q a) → safe Q m.
Proof. destruct m; cbn; auto. Qed.

Lemma text_ind (P : bytes → Prop) :
  (∀ l, (∀ l', (List.length l' < List.length l)%nat → P l') → P l) → ∀ l, P l.
Proof. intros H. apply (induction_ltof1 _ (@List.length ascii)). exact H. Qed.

Lemma clen_advance c : (clen (advance c) <= clen c)%nat.
Proof. destruct c as [[|]|]; cbn; lia. Qed.

Lemma skip_ws_length l : (List.length (skip_ws l) <= List.length l)%nat.
Proof. induction l as [|c l IH]; cbn; [lia|]. destruct (is_space c); cbn; lia. Qed.

Lemma consume_ws_safe raw c : safe (λ c', (clen c' <= clen c)%nat) (consume_ws raw c).
Proof.
  destruct c as [l|]; cbn; [|done]. pose proof (skip_ws_length l).
  destruct (skip_ws l); [destruct (is_raw raw)|]; cbn in *; done || lia.
Qed.

(** Stepping over a character other than NUL makes progress. *)
Lemma peek_safe raw c :
  safe (λ x, code x ≠ 0 → (clen (advance c) < clen c)%nat) (peek raw c).
Proof. destruct c as [[|]|], raw; cbn; try done; lia. Qed.

Lemma string_body_safe raw l :
  safe (λ r, match r with SDone _ r | SBad r => (List.length r <= List.length l)%nat end)
       (string_body raw l).
Proof.
  induction l as [l IH] using text_ind. destruct l as [|c l]; [done|]. cbn [string_body].
  assert (∀ p l', (List.length l' <= List.length l)%nat →
    safe (λ r, match r with SDone _ r | SBad r => (List.length r <= List.length (c :: l))%nat end)
         (sval p (string_body raw l'))) as Hs.
  { intros p l' Hl. specialize (IH l' ltac:(cbn; lia)).
    destruct (string_body raw l') as [[]| | |]; cbn in *; lia || done. }
  destruct (code c =? 34); [cbn; lia|]. destruct (code c =? 92); [|by apply Hs].
  destruct l as [|e l]; [done|]. destruct (code e =? 117); [|apply Hs; cbn; lia].
  destruct (hex_ahead raw 4 l) as [[|]|]; [|cbn; lia|done].
  destruct l as [|x1 [|x2 [|x3 [|x4 l]]]]; try done. apply Hs. cbn. lia.
Qed.

Lemma string_value_safe raw val : safe (λ _, True) (string_value raw val).
Proof.
  unfold string_value. destruct (_ && _); [|done].
  destruct (hex_string_to_bytes _); [|done]. by destruct (_ <? _).
Qed.

Lemma parse_string_safe raw c : safe (λ r, (clen r.2 <= clen c)%nat) (parse_string raw c).
Proof.
  unfold parse_string. pose proof (clen_advance c). destruct (advance c) as [l|]; [|done].
  eapply safe_bind; [apply string_body_safe|]. intros [v r|r] Hr; cbn in *; [|lia].
  eapply safe_bind; [apply string_value_safe|]. intros; cbn; lia.
Qed.

Lemma span_num_length l : (List.length (span_num l).2 <= List.length l)%nat.
Proof.
  induction l as [|c l IH]; cbn; [lia|]. destruct (is_num_char c); [|cbn; lia].
  destruct (span_num l); cbn in *; lia.
Qed.
Lemma span_digits_length l : (List.length (span_digits l).2 <= List.length l)%nat.
Proof.
  induction l as [|c l IH]; cbn; [lia|]. destruct (is_digit c); [|cbn; lia].
  destruct (span_digits l); cbn in *; lia.
Qed.
Lemma to_floating_safe v e d : safe (λ _, True) (to_floating v e d).
Proof. unfold to_floating. by destruct d, (decimal v), (stol v). Qed.

Lemma parse_number_safe raw c : safe (λ r, (clen r.2 <= clen c)%nat) (parse_number raw c).
Proof.
  destruct c as [l|]; [|done]. cbn [parse_number].
  pose proof (span_num_length l) as Hl. destruct (span_num l) as [val l1]. cbn [snd] in Hl.
  eapply safe_bind; [apply peek_safe|]. intros x _.
  destruct ((code x =? 69) || (code x =? 101)).
  - eapply safe_bind; [apply peek_safe|]. intros y _.
    pose proof (clen_advance (At l1)). pose proof (clen_advance (advance (At l1))).
    pose proof (clen_advance (advance (advance (At l1)))).
    assert (∀ c2 sign, (clen c2 <= List.length l)%nat →
      safe (λ r : json * cursor, (clen r.2 <= List.length l)%nat)
        (match c2 with
         | At l2 => let '(ds, l3) := span_digits l2 in
            z ← peek raw (At l3);
            if is_terminator z then
              match stol (sign ++ ds) with
              | None => Throw
              | Some exp => v ← to_floating val exp (existsb (λ x, code x =? 46) val); Ok (v, At l3)
              end
            else Ok (JNull, advance (At l3))
         | Past => UB end)) as Hexp.
    { intros [l2|] sign Hc; [|done]. cbn in Hc.
      pose proof (span_digits_length l2) as Hd. destruct (span_digits l2) as [ds l3]. cbn [snd] in Hd.
      eapply safe_bind; [apply peek_safe|]. intros z _.
      pose proof (clen_advance (At l3)). cbn in *.
      destruct (is_terminator z); [|cbn; lia]. destruct (stol _); [|done].
      eapply safe_bind; [apply to_floating_safe|]. intros; cbn; lia. }
    destruct (code y =? 45); apply Hexp; cbn in *; lia.
  - destruct (is_terminator x).
    + eapply (safe_bind (λ _, True)); [|intros; cbn; lia].
      destruct (existsb _ val); [apply to_floating_safe|]. by destruct (stol val).
    + pose proof (clen_advance (At l1)). cbn in *. lia.
Qed.

Lemma parse_bool_safe raw c : safe (λ r, (clen r.2 <= clen c)%nat) (parse_bool raw c).
Proof.
  destruct c as [l|]; [|done]. unfold parse_bool.
  destruct (is_raw raw && (zlen l <? 4)); [done|]. case_bool_decide; [cbn [safe snd clen]; rewrite length_drop; lia|].
  destruct (is_raw raw && (zlen l <? 5)); [done|]. case_bool_decide; cbn [safe snd clen]; rewrite ?length_drop; lia.
Qed.
Lemma parse_null_safe raw c : safe (λ r, (clen r.2 <= clen c)%nat) (parse_null raw c).
Proof.
  destruct c as [l|]; [|done]. unfold parse_null.
  destruct (is_raw raw); [destruct (_ <? _); [done|]|]; case_bool_decide; cbn [safe snd clen];
    rewrite ?length_drop; lia.
Qed.

(** Twice the remaining length bounds the depth of calls: every two calls step
    over at least one character. *)
Lemma parse_safe raw n :
  (∀ c, (2 * clen c + 1 <= n)%nat → safe (λ r, (clen r.2 <= clen c)%nat) (parse_next n raw c)) ∧
  (∀ acc c, (2 * clen c + 2 <= n)%nat →
     safe (λ r, (clen r.2 <= clen c)%nat) (array_loop n raw acc c)) ∧
  (∀ acc c, (2 * clen c + 2 <= n)%nat →
     safe (λ r, (clen r.2 <= clen c)%nat) (object_loop n raw acc c)).
Proof.
  induction n as [|n (IHn & IHa & IHo)]; [split_and!; intros; lia|].
  split_and!; intros; cbn [parse_next array_loop object_loop].
  - eapply safe_bind; [apply consume_ws_safe|]. intros c1 Hc1. cbn beta in Hc1.
    eapply safe_bind; [apply peek_safe|]. intros x Hx. cbn beta zeta in Hx |- *.
    assert (∀ (close : Z) (v : json) (loop : cursor → res (json * cursor)), code x ≠ 0 →
      (∀ c', (2 * clen c' + 2 <= n)%nat → safe (λ r, (clen r.2 <= clen c')%nat) (loop c')) →
      safe (λ r : json * cursor, (clen r.2 <= clen c)%nat)
        (c' ← consume_ws raw (advance c1); y ← peek raw c';
         if code y =? close then Ok (v, advance c') else loop c')) as Hopen.
    { intros close v loop Hne Hloop. specialize (Hx Hne).
      eapply safe_bind; [apply consume_ws_safe|]. intros c2 Hc2. cbn beta in Hc2.
      eapply safe_bind; [apply peek_safe|]. intros y _. pose proof (clen_advance c2).
      destruct (code y =? close); [cbn; lia|].
      eapply safe_impl; [apply Hloop; lia|]. intros r Hr. cbn in *. lia. }
    destruct (Z.eqb_spec (code x) 91); [by apply Hopen; [lia|apply IHa]|].
    destruct (Z.eqb_spec (code x) 123); [by apply Hopen; [lia|apply IHo]|].
    assert (∀ m, safe (λ r : json * cursor, (clen r.2 <= clen c1)%nat) m →
                 safe (λ r, (clen r.2 <= clen c)%nat) m) as Hle.
    { intros m Hm. eapply safe_impl; [exact Hm|]. intros; cbn in *; lia. }
    destruct (code x =? 34); [apply Hle, parse_string_safe|].
    destruct (_ || _); [apply Hle, parse_bool_safe|].
    destruct (code x =? 110); [apply Hle, parse_null_safe|].
    destruct (is_digit x || _); [apply Hle, parse_number_safe|]. cbn. lia.
  - eapply safe_bind; [apply IHn; lia|]. intros r Hr. cbn beta in Hr.
    eapply safe_bind; [apply consume_ws_safe|]. intros c2 Hc2. cbn beta in Hc2.
    eapply safe_bind; [apply peek_safe|]. intros x Hx. cbn beta in Hx.
    pose proof (clen_advance c2).
    destruct (Z.eqb_spec (code x) 44).
    { eapply safe_impl; [apply IHa; lia|]. intros; cbn in *; lia. }
    destruct (code x =? 93); cbn; lia.
  - eapply safe_bind; [apply IHn; lia|]. intros k Hk. cbn beta in Hk.
    eapply safe_bind; [apply consume_ws_safe|]. intros c2 Hc2. cbn beta in Hc2.
    eapply safe_bind; [apply peek_safe|]. intros x Hx. cbn beta in Hx.
    pose proof (clen_advance c2). destruct (negb _); [cbn; lia|].
    eapply safe_bind; [apply consume_ws_safe|]. intros c3 Hc3. cbn beta in Hc3.
    eapply safe_bind; [apply IHn; lia|]. intros r Hr. cbn beta in Hr.
    eapply safe_bind; [apply consume_ws_safe|]. intros c4 Hc4. cbn beta in Hc4.
    eapply safe_bind; [apply peek_safe|]. intros y Hy. cbn beta in Hy.
    pose proof (clen_advance c4).
    destruct (Z.eqb_spec (code y) 44).
    { eapply safe_impl; [apply IHo; lia|]. intros; cbn in *; lia. }
    destruct (code y =? 125); cbn; lia.
Qed.

(** ** More fuel never changes a result *)
Definition refines {A} (r r' : res A) : Prop := r = NoFuel ∨ r = r'.

Lemma refines_bind {A B} (m m' : res A) (f f' : A → res B) :
  refines m m' → (∀ a, refines (f a) (f' a)) → refines (m ≫= f) (m' ≫= f').
Proof.
  intros [->| ->] Hf; [by left|]. destruct m'; cbn; auto; by right.
Qed.
Lemma refines_refl {A} (r : res A) : refines r r.
Proof. by right. Qed.
#[export] Hint Resolve refines_refl : sworker.

Lemma parse_mono raw n :
  (∀ m c, (n <= m)%nat → refines (parse_next n raw c) (parse_next m raw c)) ∧
  (∀ m acc c, (n <= m)%nat → refines (array_loop n raw acc c) (array_loop m raw acc c)) ∧
  (∀ m acc c, (n <= m)%nat → refines (object_loop n raw acc c) (object_loop m raw acc c)).
Proof.
  induction n as [|n (IHn & IHa & IHo)]; [split_and!; intros; by left|].
  split_and!; (intros [|m]; [lia|]); intros; cbn [parse_next array_loop object_loop].
  - apply refines_bind; [by right|]. intros c1. apply refines_bind; [by right|]. intros x.
    cbn zeta. destruct (code x =? 91); [|destruct (code x =? 123); [|by right]];
      (apply refines_bind; [by right|]; intros c2; apply refines_bind; [by right|]; intros y;
       destruct (_ =? _); [by right|]; auto with lia).
  - apply refines_bind; [auto with lia|]. intros r.
    apply refines_bind; [by right|]. intros c2. apply refines_bind; [by right|]. intros x.
    destruct (_ =? 44); [auto with lia|by right].
  - apply refines_bind; [auto with lia|]. intros r.
    apply refines_bind; [by right|]. intros c2. apply refines_bind; [by right|]. intros x.
    destruct (negb _); [by right|]. apply refines_bind; [by right|]. intros c3.
    apply refines_bind; [auto with lia|]. intros r'.
    apply refines_bind; [by right|]. intros c4. apply refines_bind; [by right|]. intros y.
    destruct (_ =? 44); [auto with lia|by right].
Qed.

(** A result found with any amount of fuel is what [Load] returns. *)
Lemma load_of_parse raw s n j c :
  s ≠ [] → parse_next n raw (At s) = Ok (j, c) → Load raw s = Ok j.
Proof.
  intros Hs Hp. unfold Load. destruct (Z.eqb_spec (zlen s) 0) as [Hz|_].
  { destruct s; [done|]. len. }
  set (k := (2 * List.length s + 1)%nat).
  pose proof (proj1 (parse_safe raw k) (At s) ltac:(cbn; lia)) as Hsafe.
  destruct (proj1 (parse_mono raw k) (max n k) (At s) ltac:(lia)) as [E|E];
    [by rewrite E in Hsafe|].
  destruct (proj1 (parse_mono raw n) (max n k) (At s) ltac:(lia)) as [E'|E'];
    [by rewrite E' in Hp|].
  rewrite E, <- E', Hp. done.
Qed.

(** [JSON::Load] terminates on every text, in both versions. *)
Lemma load_not_nofuel raw s : Load raw s ≠ NoFuel.
Proof.
  unfold Load. destruct (_ =? 0); [done|].
  pose proof (proj1 (parse_safe raw (2 * List.length s + 1)) (At s) ltac:(cbn; lia)) as Hsafe.
  by destruct (parse_next _ raw (At s)).
Qed.
