(* ===== verification/JsonText.v ===== *)
(** * Dumping and loading JSON

    [dump] and its stripped form are two layouts of one printer; for every layout
    made of white space, loading a rendered value gives the value back.  The
    condition [text_ok] says which values that holds for: no floating numbers, no
    string that looks like a tagged hash, keys without characters that need
    escaping, and, for the raw version, no null. *)
From S2P Require Import Prelude StdMap Status Hex Json JsonParse.

(** ** Layouts *)
Record layout := Layout {
  lo_field : nat → bytes;   (* before each field *)
  lo_close : nat → bytes;   (* before the closing brace *)
  lo_empty : bytes;         (* inside an empty object, before [lo_close] *)
  lo_colon : bytes;         (* on both sides of the colon *)
  lo_comma : bytes          (* after a comma in an array *)
}.

Fixpoint render (lo : layout) (d : nat) (j : json) : bytes :=
  match j with
  | JNull => str "null"
  | JObject m =>
      [chr 123]
      ++ match m with
         | [] => lo_empty lo
         | _ => join [chr 44]
                  (map (λ p, lo_field lo d ++ quote p.1 ++ lo_colon lo ++ [chr 58] ++ lo_colon lo
                               ++ render lo (S d) p.2) m)
         end
      ++ lo_close lo d ++ [chr 125]
  | JArray l => [chr 91] ++ join (chr 44 :: lo_comma lo) (map (render lo (S d)) l) ++ [chr 93]
  | JHash h => quote (HASH_TAG ++ _hexstring h)
  | JString s => quote (json_escape s)
  | JFloating x => double_to_string x
  | JIntegral z => to_string z
  | JBoolean b => if b then str "true" else str "false"
  end.

Definition pretty : layout :=
  Layout (λ d, chr 10 :: pad d) (λ d, chr 10 :: drop 2 (pad d)) [chr 10] [chr 32] [chr 32].
Definition compact : layout := Layout (λ _, []) (λ _, []) [] [] [].

Definition all_ws (s : bytes) : Prop := Forall (λ c, is_space c = true) s.
Class LayoutWs (lo : layout) : Prop := {
  ws_field d : all_ws (lo_field lo d);
  ws_close d : all_ws (lo_close lo d);
  ws_empty : all_ws (lo_empty lo);
  ws_colon : all_ws (lo_colon lo);
  ws_comma : all_ws (lo_comma lo)
}.

Lemma pad_ws d : all_ws (pad d).
Proof. apply Forall_replicate. done. Qed.

#[global] Instance pretty_ws : LayoutWs pretty.
Proof.
  constructor; cbn [pretty lo_field lo_close lo_empty lo_colon lo_comma];
    repeat constructor; try apply pad_ws.
  apply Forall_drop, pad_ws.
Qed.
#[global] Instance compact_ws : LayoutWs compact.
Proof. constructor; constructor. Qed.

(** ** Values whose text can be read back *)
Definition key_ok (k : bytes) : Prop :=
  Forall (λ c, escape_char c = [c]) k ∧ take 6 k ≠ HASH_TAG.

(** Literal keys *)
Ltac key_ok :=
  split; [cbn [fst]; repeat (apply List.Forall_cons; [done|]); apply List.Forall_nil|done].

(** A key is read back as it was written; the application replaces its marks. *)
Definition key_reads (raw : reader) (k : bytes) : Prop :=
  key_ok k ∧ (in_app raw = true → app_json_escape k = k).
Lemma key_reads_enclave raw k : in_app raw = false → key_ok k → key_reads raw k.
Proof. intros E ?. split; [done|]. by rewrite E. Qed.
Lemma key_text_reads raw k : key_reads raw k → key_text raw (JString k) = k.
Proof.
  intros [[Hk _] Ha]. unfold key_text. destruct (in_app raw) eqn:E; [by apply Ha|]. cbn [ToString].
  induction Hk as [|c s Hc _ IH]; [done|]. change (json_escape (c :: s)) with (escape_char c ++ json_escape s).
  rewrite Hc, IH; [done|]. intros F. congruence.
Qed.

Inductive text_ok (raw : reader) : json → Prop :=
| tx_null : is_raw raw = false → text_ok raw JNull
| tx_object m : map_ok m → Forall (λ p, key_reads raw p.1) m → Forall (λ p, text_ok raw p.2) m →
    text_ok raw (JObject m)
| tx_array l : Forall (text_ok raw) l → text_ok raw (JArray l)
| tx_hash h : in_app raw = false → List.length h = 32%nat → text_ok raw (JHash h)
| tx_string s : take 6 s ≠ HASH_TAG → text_ok raw (JString s)
| tx_integral z : - 2 ^ 63 <= z < 2 ^ 63 → text_ok raw (JIntegral z)
| tx_boolean b : text_ok raw (JBoolean b).

(** ** Tokens *)
Lemma skip_ws_app w l : all_ws w → skip_ws (w ++ l) = skip_ws l.
Proof. induction 1 as [|c w Hc _ IH]; [done|]. cbn. by rewrite Hc. Qed.

(** After white space the cursor is on the next token. *)
Lemma consume_ws_token raw w x l :
  all_ws w → is_space x = false → consume_ws raw (At (w ++ x :: l)) = Ok (At (x :: l)).
Proof. intros Hw Hx. cbn. rewrite skip_ws_app by done. cbn. by rewrite Hx. Qed.

Lemma consume_ws_token0 raw x l :
  is_space x = false → consume_ws raw (At (x :: l)) = Ok (At (x :: l)).
Proof. intros Hx. apply (consume_ws_token raw [] x l); [by apply List.Forall_nil|done]. Qed.

(** Every escaped character is read back as itself. *)
Lemma string_body_escape_char raw c l :
  string_body raw (escape_char c ++ l) = sval [c] (string_body raw l).
Proof.
  assert (∀ n, code c = n → c = chr n) as Hc by (intros n <-; by rewrite chr_code).
  unfold escape_char.
  repeat match goal with
  | |- context [code c =? ?n] =>
      lazymatch n with 34 => fail | 92 => fail | _ => idtac end;
      destruct (Z.eqb_spec (code c) n) as [E|?]; [rewrite (Hc _ E); done|]
  end.
  destruct (Z.eqb_spec (code c) 34) as [E|?]; [rewrite (Hc _ E); done|].
  destruct (Z.eqb_spec (code c) 92) as [E|?]; [rewrite (Hc _ E); done|].
  cbn. destruct (Z.eqb_spec (code c) 34); [done|]. by destruct (Z.eqb_spec (code c) 92).
Qed.

Lemma sval_app a b r : sval a (sval b r) = sval (a ++ b) r.
Proof. destruct r as [[]| | |]; cbn; by rewrite <- ?app_assoc. Qed.

Lemma string_body_escape raw s l :
  string_body raw (json_escape s ++ chr 34 :: l) = Ok (SDone s l).
Proof.
  induction s as [|c s IH]; [done|]. change (json_escape (c :: s)) with (escape_char c ++ json_escape s).
  by rewrite <- app_assoc, string_body_escape_char, IH.
Qed.

Lemma escape_id s : Forall (λ c, escape_char c = [c]) s → json_escape s = s.
Proof. induction 1 as [|c s Hc _ IH]; [done|].
  change (json_escape (c :: s)) with (escape_char c ++ json_escape s). by rewrite Hc, IH.
Qed.

Lemma hex_escape_id c : is_hex c → escape_char c = [c].
Proof.
  unfold is_hex. cbn. rewrite !elem_of_cons, elem_of_nil.
  intros H. repeat destruct H as [->|H]; done.
Qed.

Lemma parse_string_escape raw s l :
  parse_string raw (At (quote (json_escape s) ++ l)) =
  v ← string_value raw s; Ok (v, At l).
Proof.
  unfold quote, parse_string. cbn [advance app].
  rewrite <- app_assoc. cbn [app]. rewrite string_body_escape. done.
Qed.

Lemma string_value_plain raw s : take 6 s ≠ HASH_TAG → string_value raw s = Ok (JString s).
Proof. intros H. unfold string_value. by rewrite bool_decide_false, andb_false_r. Qed.

Lemma string_value_hash raw h : in_app raw = false → List.length h = 32%nat → string_value raw (HASH_TAG ++ hexstring_safe h) = Ok (JHash h).
Proof.
  intros E Hh. unfold string_value. rewrite E.
  rewrite bool_decide_true by done. cbn [drop app HASH_TAG str String.list_ascii_of_string].
  rewrite drop_0, hex_roundtrip by (by destruct h).
  unfold zlen. rewrite Hh. cbn. unfold jhash. by rewrite take_ge by lia.
Qed.

(** ** Numbers *)
Lemma is_digit_num c : is_digit c = true → is_num_char c = true.
Proof. intros H. unfold is_num_char. by rewrite H. Qed.

Lemma span_num_digits ds x l :
  Forall (λ c, is_num_char c = true) ds → is_num_char x = false →
  span_num (ds ++ x :: l) = (ds, x :: l).
Proof.
  intros H Hx. induction H as [|c ds Hc _ IH]; cbn; [by rewrite Hx|]. by rewrite Hc, IH.
Qed.

Lemma span_digits_all ds : Forall (λ c, is_digit c = true) ds → span_digits ds = (ds, []).
Proof. induction 1 as [|c ds Hc _ IH]; cbn; [done|]. by rewrite Hc, IH. Qed.

Lemma to_string_chars z : Forall (λ c, is_num_char c = true ∧ code c ≠ 46) (to_string z).
Proof.
  assert (∀ n, 0 <= n → Forall (λ c, is_num_char c = true ∧ code c ≠ 46) (to_string_u n)) as Hu.
  { intros n Hn. destruct (to_string_u_spec n Hn) as (Hd & _). eapply Forall_impl; [exact Hd|].
    intros c Hc. split; [by apply is_digit_num|]. unfold is_digit in Hc. lia. }
  unfold to_string. destruct (Z.ltb_spec z 0); [|apply Hu; lia].
  constructor; [by split|]. apply Hu. lia.
Qed.

Lemma stol_to_string z : - 2 ^ 63 <= z < 2 ^ 63 → stol (to_string z) = Some z.
Proof.
  intros Hz. unfold stol, to_string. destruct (Z.ltb_spec z 0).
  - change (code (chr 45) =? 45) with true. cbn iota.
    destruct (to_string_u_spec (- z) ltac:(lia)) as (Hd & Hne & Hv).
    rewrite span_digits_all by done. destruct (to_string_u (- z)); [done|].
    rewrite Hv. case_match eqn:E; [f_equal; lia|]. lia.
  - destruct (to_string_u_spec z ltac:(lia)) as (Hd & Hne & Hv).
    destruct (to_string_u z) as [|c r] eqn:Ez; [done|].
    assert (code c =? 45 = false) as ->.
    { apply Forall_cons in Hd as [Hc _]. unfold is_digit in Hc. lia. }
    rewrite span_digits_all by done. rewrite Hv. case_match eqn:E; [done|]. lia.
Qed.

Lemma terminator_not_num x :
  is_terminator x = true → is_num_char x = false ∧ (code x =? 69) || (code x =? 101) = false.
Proof. unfold is_terminator, is_num_char, is_digit, is_space. lia. Qed.

Lemma parse_number_to_string raw z x l :
  - 2 ^ 63 <= z < 2 ^ 63 → is_terminator x = true →
  parse_number raw (At (to_string z ++ x :: l)) = Ok (JIntegral z, At (x :: l)).
Proof.
  intros Hz Hx. unfold parse_number. pose proof (terminator_not_num x Hx) as [Hn He].
  pose proof (to_string_chars z) as Hc.
  rewrite span_num_digits; [|eapply Forall_impl; [exact Hc|naive_solver]|done].
  cbn [peek mbind res_bind]. rewrite He, Hx.
  assert (existsb (λ c, code c =? 46) (to_string z) = false) as ->.
  { apply not_true_iff_false. rewrite existsb_exists. intros (c & Hin & E).
    rewrite Forall_forall in Hc. apply list_elem_of_In, Hc in Hin. lia. }
  by rewrite stol_to_string.
Qed.

(** The first character of an integer's text *)
Lemma to_string_head z : ∃ c r, to_string z = c :: r ∧ (is_digit c = true ∨ code c = 45).
Proof.
  unfold to_string. destruct (Z.ltb_spec z 0); [eauto|].
  destruct (to_string_u_spec z ltac:(lia)) as (Hd & Hne & _).
  destruct (to_string_u z) as [|c r]; [done|]. apply Forall_cons in Hd as [Hc _]. eauto.
Qed.

(** ** The round trip *)

(** What must follow a value for it to be read alone *)
Definition ends_ok (j : json) (l : bytes) : Prop :=
  match j with JIntegral _ => ∃ x r, l = x :: r ∧ is_terminator x = true | _ => True end.

(** [reads raw s j]: from [s] followed by any suitable text the parser returns
    [j] and stops at that text. *)
Definition reads (raw : reader) (s : bytes) (j : json) : Prop :=
  ∀ w l, all_ws w → ends_ok j l →
    ∃ n, parse_next n raw (At (w ++ s ++ l)) = Ok (j, At l).

Lemma parse_next_more raw n m c r :
  parse_next n raw c = Ok r → (n <= m)%nat → parse_next m raw c = Ok r.
Proof.
  intros H Hm. destruct (proj1 (parse_mono raw n) m c Hm) as [E|E]; congruence.
Qed.
Lemma array_loop_more raw n m acc c r :
  array_loop n raw acc c = Ok r → (n <= m)%nat → array_loop m raw acc c = Ok r.
Proof.
  intros H Hm. destruct (proj1 (proj2 (parse_mono raw n)) m acc c Hm) as [E|E]; congruence.
Qed.
Lemma object_loop_more raw n m acc c r :
  object_loop n raw acc c = Ok r → (n <= m)%nat → object_loop m raw acc c = Ok r.
Proof.
  intros H Hm. destruct (proj2 (proj2 (parse_mono raw n)) m acc c Hm) as [E|E]; congruence.
Qed.

(** A token that is neither bracket nor brace is parsed in one step. *)
Lemma reads_token raw s j x r :
  s = x :: r → is_space x = false → code x ≠ 91 → code x ≠ 123 →
  (∀ l, ends_ok j l → 
     (if code x =? 34 then parse_string raw (At (s ++ l))
      else if (code x =? 116) || (code x =? 102) then parse_bool raw (At (s ++ l))
      else if code x =? 110 then parse_null raw (At (s ++ l))
      else if is_digit x || (code x =? 45) then parse_number raw (At (s ++ l))
      else Ok (JNull, At (s ++ l))) = Ok (j, At l)) →
  reads raw s j.
Proof.
  intros -> Hx H1 H2 Hp w l Hw Hl. exists 1%nat. cbn [parse_next app].
  rewrite consume_ws_token by done. cbn [mbind res_bind peek].
  destruct (Z.eqb_spec (code x) 91); [done|]. destruct (Z.eqb_spec (code x) 123); [done|].
  apply (Hp l Hl).
Qed.

Lemma zlen_app_ge {A} (s l : list A) k : k <= zlen s → (zlen (s ++ l) <? k) = false.
Proof. intros. apply Z.ltb_ge. len. Qed.

Lemma reads_string raw s : take 6 s ≠ HASH_TAG → reads raw (quote (json_escape s)) (JString s).
Proof.
  intros Hs. eapply reads_token; [done..|]. intros l _.
  change (code (chr 34) =? 34) with true. cbn iota.
  by rewrite parse_string_escape, string_value_plain.
Qed.

Lemma reads_hash raw h :
  in_app raw = false → List.length h = 32%nat → reads raw (quote (HASH_TAG ++ _hexstring h)) (JHash h).
Proof.
  intros Ea Hh. eapply reads_token; [done..|]. intros l _.
  change (code (chr 34) =? 34) with true. cbn iota.
  rewrite <- (escape_id (HASH_TAG ++ _hexstring h)).
  - by rewrite parse_string_escape, string_value_hash.
  - apply Forall_app. split; [by repeat constructor|].
    eapply Forall_impl; [apply hexstring_safe_hex|]. apply hex_escape_id.
Qed.

Lemma reads_integral raw z : - 2 ^ 63 <= z < 2 ^ 63 → reads raw (to_string z) (JIntegral z).
Proof.
  intros Hz. destruct (to_string_head z) as (x & r & E & Hx).
  assert (is_space x = false ∧ code x ≠ 91 ∧ code x ≠ 123 ∧ code x ≠ 34 ∧ code x ≠ 116 ∧
          code x ≠ 102 ∧ code x ≠ 110 ∧ is_digit x || (code x =? 45) = true) as Hc.
  { unfold is_space, is_digit in *. destruct Hx; split_and!; lia. }
  destruct Hc as (? & ? & ? & ? & ? & ? & ? & Hd).
  eapply reads_token; [exact E|done..|]. intros l (y & l' & -> & Hy).
  destruct (Z.eqb_spec (code x) 34), (Z.eqb_spec (code x) 116), (Z.eqb_spec (code x) 102),
    (Z.eqb_spec (code x) 110); try done. cbn [orb]. rewrite Hd.
  by apply parse_number_to_string.
Qed.

Lemma parse_bool_ok raw b l :
  parse_bool raw (At ((if b : bool then str "true" else str "false") ++ l)) =
  Ok (JBoolean b, At l).
Proof.
  unfold parse_bool.
  destruct b; rewrite (zlen_app_ge _ l 4), andb_false_r by (by vm_compute).
  - rewrite bool_decide_true by done. done.
  - rewrite bool_decide_false by done.
    rewrite (zlen_app_ge _ l 5), andb_false_r by (by vm_compute).
    rewrite bool_decide_true by done. done.
Qed.

Lemma reads_boolean raw (b : bool) : reads raw (if b then str "true" else str "false") (JBoolean b).
Proof.
  destruct b.
  - eapply reads_token; [done..|]. intros l _. exact (parse_bool_ok raw true l).
  - eapply reads_token; [done..|]. intros l _. exact (parse_bool_ok raw false l).
Qed.

Lemma reads_null raw : is_raw raw = false → reads raw (str "null") JNull.
Proof.
  intros Hr. eapply reads_token; [done..|]. intros l _. cbn -[code]. by rewrite Hr.
Qed.

(** ** Arrays and objects *)

(** The first character of a rendered value is its own: no white space and no
    closing bracket. *)
Definition starts (s : bytes) : Prop :=
  ∃ x r, s = x :: r ∧ is_space x = false ∧ code x ≠ 93 ∧ code x ≠ 125.

Lemma starts_app s l : starts s → starts (s ++ l).
Proof. intros (x & r & -> & ?). by exists x, (r ++ l). Qed.

Lemma render_starts raw lo d j : text_ok raw j → starts (render lo d j).
Proof.
  destruct 1 as [?|m ? ? ?|l ?|h ?|s ?|z ?|b]; cbn [render];
    [by repeat eexists..| |].
  - destruct (to_string_head z) as (x & r & -> & Hx). exists x, r.
    unfold is_space, is_digit in *. split_and!; [done|lia..].
  - destruct b; by repeat eexists.
Qed.

Lemma consume_ws_starts raw w s l :
  all_ws w → starts s → consume_ws raw (At (w ++ s ++ l)) = Ok (At (s ++ l)).
Proof. intros Hw (x & r & -> & Hx & _). by apply (consume_ws_token raw w x (r ++ l)). Qed.

Lemma array_loop_reads raw sep ss js l :
  all_ws sep → Forall2 (reads raw) ss js → ss ≠ [] → ∀ acc w, all_ws w →
  ∃ n, array_loop n raw acc (At (w ++ join (chr 44 :: sep) ss ++ chr 93 :: l))
       = Ok (JArray (acc ++ js), At l).
Proof.
  intros Hsep H. induction H as [|s j ss js Hs Hss IH]; [done|]. intros _ acc w Hw.
  destruct ss as [|s' ss].
  - inversion Hss; subst. cbn [join].
    destruct (Hs w (chr 93 :: l) Hw) as [n Hn]; [destruct j; cbn; eauto|].
    exists (S n). cbn [array_loop]. rewrite Hn. cbn [mbind res_bind fst snd].
    by rewrite consume_ws_token0.
  - rewrite join_cons, <- !app_assoc. cbn [app]. 
    set (rest := join _ _ ++ _).
    destruct (Hs w (chr 44 :: sep ++ rest) Hw) as [n Hn]; [destruct j; cbn; eauto|].
    destruct (IH ltac:(done) (acc ++ [j]) sep Hsep) as [n' Hn']. fold rest in Hn'.
    exists (S (n + n')). cbn [array_loop].
    rewrite (parse_next_more _ _ (n + n') _ _ Hn) by lia. cbn [mbind res_bind fst snd].
    rewrite consume_ws_token0 by done.
    cbn [mbind res_bind peek advance]. change (code (chr 44) =? 44) with true. cbn iota.
    rewrite (array_loop_more _ _ (n + n') _ _ _ Hn') by lia.
    by rewrite <- app_assoc.
Qed.

(** Inserting sorted entries in order rebuilds the map. *)
Lemma map_set_last {V} k (v : V) m :
  Forall (λ p, key_lt p.1 k) m → map_set k v m = m ++ [(k, v)].
Proof.
  induction 1 as [|[k' v'] m Hk _ IH]; [done|]. cbn.
  unfold key_lt in Hk. cbn in Hk. by rewrite bytes_cmp_antisym, Hk, IH.
Qed.

Lemma map_ok_app_inv {V} (m1 m2 : list (bytes * V)) k v :
  map_ok (m1 ++ (k, v) :: m2) → Forall (λ p, key_lt p.1 k) m1.
Proof.
  induction m1 as [|[k' v'] m1 IH]; [constructor|]. cbn. intros [Hf Hs]%map_ok_cons.
  constructor; [|auto]. apply Forall_app in Hf as [_ Hf]. by apply Forall_cons in Hf as [? _].
Qed.

(** A field of a rendered object *)
Definition field (lo : layout) (d : nat) (ks : bytes * bytes) : bytes :=
  lo_field lo d ++ quote ks.1 ++ lo_colon lo ++ [chr 58] ++ lo_colon lo ++ ks.2.

Lemma field_app lo d k s l :
  field lo d (k, s) ++ l =
  lo_field lo d ++ quote k ++ lo_colon lo ++ chr 58 :: lo_colon lo ++ s ++ l.
Proof. unfold field. cbn [fst snd]. rewrite <- !app_assoc. done. Qed.

Lemma object_step raw lo `{!LayoutWs lo} d k s j acc w tl w' x r n v :
  key_reads raw k → starts s → reads raw s j → ends_ok j tl → all_ws w →
  tl = w' ++ x :: r → all_ws w' → is_space x = false →
  (if code x =? 44 then object_loop n raw (map_set k j acc) (At r)
   else if code x =? 125 then Ok (JObject (map_set k j acc), At r)
   else Ok (JObject (map_set k j acc), At (x :: r))) = Ok v →
  ∃ n', object_loop n' raw acc (At (w ++ field lo d (k, s) ++ tl)) = Ok v.
Proof.
  intros Hkr Hst Hs He Hw Htl Hw' Hx Hn. pose proof Hkr as [[Hk Ht] _].
  rewrite field_app, (app_assoc w).
  destruct (reads_string raw k Ht (w ++ lo_field lo d)
    (lo_colon lo ++ chr 58 :: lo_colon lo ++ s ++ tl)) as [n1 Hn1];
    [apply Forall_app; split; [done|apply ws_field]|done|].
  rewrite escape_id in Hn1 by done.
  destruct (Hs [] tl (List.Forall_nil _) He) as [n2 Hn2]. cbn [app] in Hn2.
  exists (S (n + n1 + n2)). cbn [object_loop].
  rewrite (parse_next_more _ _ (n + n1 + n2) _ _ Hn1) by lia. cbn [mbind res_bind fst snd].
  rewrite consume_ws_token by (done || apply ws_colon).
  cbn [mbind res_bind peek advance]. change (negb (code (chr 58) =? 58)) with false. cbn iota.
  rewrite consume_ws_starts by (done || apply ws_colon). cbn [mbind res_bind].
  rewrite (parse_next_more _ _ (n + n1 + n2) _ _ Hn2) by lia. cbn [mbind res_bind fst snd].
  rewrite Htl, consume_ws_token by done. cbn [mbind res_bind peek advance].
  rewrite key_text_reads by done. destruct (code x =? 44); [|done].
  by rewrite (object_loop_more _ _ (n + n1 + n2) _ _ _ Hn) by lia.
Qed.

(** The object built by reading fields in any order *)
Definition map_build (acc m : list (bytes * json)) : list (bytes * json) :=
  foldl (λ acc p, map_set p.1 p.2 acc) acc m.

Lemma map_build_ok acc m : map_ok (acc ++ m) → map_build acc m = acc ++ m.
Proof.
  revert acc. induction m as [|[k j] m IH]; intros acc Hok; [by rewrite app_nil_r|].
  change (map_build acc ((k, j) :: m)) with (map_build (map_set k j acc) m).
  rewrite (map_set_last k j acc (map_ok_app_inv _ _ _ _ Hok)).
  rewrite IH; by rewrite <- app_assoc.
Qed.

Lemma object_loop_reads raw lo `{!LayoutWs lo} d ks js l :
  Forall2 (λ p q, p.1 = q.1 ∧ key_reads raw q.1 ∧ starts p.2 ∧ reads raw p.2 q.2) ks js →
  ks ≠ [] → ∀ acc w, all_ws w →
  ∃ n, object_loop n raw acc
         (At (w ++ join [chr 44] (map (field lo d) ks) ++ lo_close lo d ++ chr 125 :: l))
       = Ok (JObject (map_build acc js), At l).
Proof.
  intros H. induction H as [|[k s] [k' j] ks js Hs Hss IH]; [done|]. intros _ acc w Hw.
  destruct Hs as (Ek & Hk & Hst & Hs). cbn [fst snd] in *. subst k'.
  destruct ks as [|ks0 ks].
  - inversion Hss; subst. cbn [join map].
    apply (object_step raw lo d k s j acc w _ (lo_close lo d) (chr 125) l 0%nat);
      try done; try apply ws_close. all: try done.
    destruct j; cbn; try done. pose proof (ws_close d) as Hc.
    destruct (lo_close lo d) as [|c cs]; [by eexists _, _|].
    eexists _, _; split; [done|]. apply Forall_cons in Hc as [Hc _].
    unfold is_terminator. by rewrite Hc.
  - cbn [map]. rewrite join_cons, <- app_assoc. cbn [app].
    destruct (IH ltac:(done) (map_set k j acc) []) as [n Hn]; [by apply List.Forall_nil|].
    eapply (object_step raw lo d k s j acc w _ [] (chr 44) _ n);
      try done; [destruct j; cbn; eauto|by apply List.Forall_nil].
Qed.

(** ** Whole values *)
Lemma render_object lo d m :
  render lo d (JObject m) =
  chr 123 :: match m with [] => lo_empty lo | _ =>
               join [chr 44] (map (field lo d) (map (λ p, (p.1, render lo (S d) p.2)) m)) end
          ++ lo_close lo d ++ [chr 125].
Proof. cbn [render]. rewrite map_map. by destruct m. Qed.

Lemma field_starts_join lo d ks :
  ks ≠ [] → ∃ r, join [chr 44] (map (field lo d) ks) = lo_field lo d ++ chr 34 :: r.
Proof.
  destruct ks as [|[k s] [|ks0 ks]]; [done| |]; intros _; cbn [map];
    rewrite ?join_cons; unfold field at 1; cbn [fst snd]; unfold quote;
    repeat rewrite <- app_assoc; cbn [app]; eauto.
Qed.

Lemma object_loop_ws raw n acc w x r :
  all_ws w → is_space x = false →
  object_loop n raw acc (At (w ++ x :: r)) = object_loop n raw acc (At (x :: r)).
Proof.
  intros Hw Hx. destruct n as [|[|n]]; [done..|].
  cbn [object_loop parse_next]. by rewrite consume_ws_token, consume_ws_token0.
Qed.

Lemma reads_fields raw lo `{!LayoutWs lo} d ks m :
  Forall2 (λ p q, p.1 = q.1 ∧ key_reads raw q.1 ∧ starts p.2 ∧ reads raw p.2 q.2) ks m →
  reads raw (chr 123 :: match m with [] => lo_empty lo | _ => join [chr 44] (map (field lo d) ks) end
               ++ lo_close lo d ++ [chr 125]) (JObject (map_build [] m)).
Proof.
  intros Hk w l Hw _. cbn [app]. rewrite <- !app_assoc. cbn [app].
  assert (∀ n c, parse_next (S n) raw (At (w ++ chr 123 :: c)) =
    (c ← consume_ws raw (At c); x ← peek raw c;
     if code x =? 125 then Ok (JObject [], advance c) else object_loop n raw [] c)) as Hp.
  { intros n c. cbn [parse_next]. by rewrite consume_ws_token. }
  destruct m as [|p m].
  - exists 1%nat. rewrite Hp, (app_assoc (lo_empty lo)), consume_ws_token; [done| |done].
    apply Forall_app. split; [apply ws_empty|apply ws_close].
  - assert (ks ≠ []) as Hne by (intros ->; inversion Hk).
    destruct (field_starts_join lo d ks Hne) as [r Hr].
    destruct (object_loop_reads raw lo d ks (p :: m) l Hk Hne [] [] (List.Forall_nil _)) as [n Hn].
    cbn [app] in Hn. exists (S n). rewrite Hp. rewrite Hr, <- app_assoc in Hn |- *. cbn [app] in *.
    rewrite object_loop_ws in Hn by (done || apply ws_field).
    rewrite consume_ws_token by (done || apply ws_field). exact Hn.
Qed.

Lemma reads_object raw lo `{!LayoutWs lo} d ks m :
  map_ok m →
  Forall2 (λ p q, p.1 = q.1 ∧ key_reads raw q.1 ∧ starts p.2 ∧ reads raw p.2 q.2) ks m →
  reads raw (chr 123 :: match m with [] => lo_empty lo | _ => join [chr 44] (map (field lo d) ks) end
               ++ lo_close lo d ++ [chr 125]) (JObject m).
Proof. intros Hm Hk. pose proof (reads_fields raw lo d ks m Hk) as H. by rewrite map_build_ok in H. Qed.

Lemma reads_array raw sep ss js :
  all_ws sep → Forall starts ss → Forall2 (reads raw) ss js →
  reads raw (chr 91 :: join (chr 44 :: sep) ss ++ [chr 93]) (JArray js).
Proof.
  intros Hsep Hst Hss w l Hw _. cbn [app]. rewrite <- !app_assoc. cbn [app].
  assert (∀ n c, parse_next (S n) raw (At (w ++ chr 91 :: c)) =
    (c ← consume_ws raw (At c); x ← peek raw c;
     if code x =? 93 then Ok (JArray [], advance c) else array_loop n raw [] c)) as Hp.
  { intros n c. cbn [parse_next]. by rewrite consume_ws_token. }
  destruct ss as [|s ss].
  - inversion Hss; subst. exists 1%nat. cbn [join app]. by rewrite Hp, consume_ws_token0.
  - destruct (array_loop_reads raw sep (s :: ss) js l Hsep Hss ltac:(done) [] [] (List.Forall_nil _))
      as [n Hn]. cbn [app] in Hn. exists (S n). rewrite Hp.
    apply Forall_cons in Hst as [(x & r & -> & Hx & H93 & _) _].
    assert (∃ r', join (chr 44 :: sep) ((x :: r) :: ss) = x :: r') as [r' Hr'] by (destruct ss; cbn; eauto).
    rewrite Hr' in Hn |- *. cbn [app] in *. rewrite consume_ws_token0 by done.
    cbn [mbind res_bind peek]. by destruct (Z.eqb_spec (code x) 93).
Qed.

(** Parsing what any white-space layout printed gives the value back. *)
Lemma render_reads raw lo `{!LayoutWs lo} j :
  ∀ d, text_ok raw j → reads raw (render lo d j) j.
Proof.
  induction j as [|m IH|l IH|h|s|f|z|b] using json_nested_ind; intros d Hj; inversion Hj; subst;
    try (by apply reads_null || by apply reads_hash || by apply reads_string
         || by apply reads_integral || by apply reads_boolean).
  - rewrite render_object. destruct m as [|p m]; [by apply (reads_object raw lo d [])|].
    apply (reads_object raw lo d _ (p :: m)); [done|].
    apply Forall2_fmap_l, Forall_Forall2_diag.
    rewrite !Forall_forall in *. intros q Hq. cbn.
    split_and!; [done|auto|eapply render_starts; eauto|apply IH; auto].
  - cbn [render]. rewrite !Forall_forall in *. apply reads_array; [apply ws_comma| |].
    + apply Forall_fmap, Forall_forall. intros q Hq. eapply render_starts; eauto.
    + apply Forall2_fmap_l, Forall_Forall2_diag, Forall_forall. intros q Hq. apply IH; auto.
Qed.

(** ** [dump] and its stripped form *)
Lemma join_shift {A} (c x : A) l :
  l ≠ [] → x :: join [c; x] l = join [c] (map (cons x) l).
Proof.
  induction l as [|y [|z l] IH]; [done|done|]. intros _. rewrite join_cons. cbn [map].
  rewrite join_cons. cbn [map] in IH. rewrite <- IH by done. done.
Qed.

Lemma dump_at_render j : ∀ d, dump_at d j = render pretty d j.
Proof.
  induction j as [|m IH|l IH|h|s|f|z|b] using json_nested_ind; intros d; cbn [dump_at render]; try done.
  - cbn [lo_empty lo_field lo_close lo_colon pretty]. destruct m as [|p m]; [done|].
    cbn [app]. f_equal. rewrite app_comm_cons, join_shift, map_map by done.
    f_equal. f_equal. apply map_ext_in. intros q Hq. rewrite Forall_forall in IH.
    apply list_elem_of_In in Hq. by rewrite IH.
  - cbn [lo_comma pretty app]. do 3 f_equal. apply map_ext_in. intros q Hq.
    rewrite Forall_forall in IH. apply list_elem_of_In in Hq. by rewrite IH.
Qed.

(** Values whose dumped text has no white space of its own *)
Inductive plain_text : json → Prop :=
| pl_null : plain_text JNull
| pl_object m : Forall (λ p, plain p.1) m → Forall (λ p, plain_text p.2) m → plain_text (JObject m)
| pl_array l : Forall plain_text l → plain_text (JArray l)
| pl_hash h : plain_text (JHash h)
| pl_string s : plain (json_escape s) → plain_text (JString s)
| pl_integral z : plain_text (JIntegral z)
| pl_boolean b : plain_text (JBoolean b).

Lemma plain_app a b : plain a → plain b → plain (a ++ b).
Proof. intros. apply Forall_app. done. Qed.

Lemma num_char_plain c : is_num_char c = true → c ≠ chr 10 ∧ c ≠ chr 92 ∧ c ≠ chr 32.
Proof. intros H. split_and!; intros ->; done. Qed.

Lemma hex_plain c : is_hex c → c ≠ chr 10 ∧ c ≠ chr 92 ∧ c ≠ chr 32.
Proof. unfold is_hex. intros H. split_and!; intros ->; by cbn in H; rewrite !elem_of_cons, elem_of_nil in H; naive_solver. Qed.

Lemma hexstring_plain h : plain (hexstring_safe h).
Proof. eapply Forall_impl; [apply hexstring_safe_hex|]. apply hex_plain. Qed.

Lemma to_string_plain z : plain (to_string z).
Proof.
  eapply Forall_impl; [apply to_string_chars|]. intros c [Hc _]. by apply num_char_plain.
Qed.

Lemma quote_plain s : plain s → plain (quote s).
Proof.
  intros. unfold quote. apply Forall_cons. split; [done|]. apply plain_app; [done|].
  by apply Forall_singleton.
Qed.

Lemma strip_join sep l : strip (join sep l) = join (strip sep) (map strip l).
Proof.
  induction l as [|x [|y l] IH]; [done|done|]. cbn [map]. rewrite !join_cons, !strip_app.
  by rewrite IH.
Qed.

Lemma strip_spaces l : Forall (λ c, c = chr 32) l → strip l = [].
Proof. induction 1 as [|c l -> _ IH]; [done|].
  change (chr 32 :: l) with ([chr 32] ++ l). by rewrite strip_app, IH.
Qed.

Lemma strip_pad d : strip (pad d) = [].
Proof. apply strip_spaces. by apply Forall_replicate. Qed.
Lemma strip_pad_drop d n : strip (drop n (pad d)) = [].
Proof. apply strip_spaces. apply Forall_drop. by apply Forall_replicate. Qed.

Lemma strip_dump j : plain_text j → ∀ d d', strip (render pretty d j) = render compact d' j.
Proof.
  induction j as [|m IH|l IH|h|s|f|z|b] using json_nested_ind; intros Hj d d'; inversion Hj; subst.
  - done.
  - rewrite !render_object. cbn [lo_empty lo_close pretty compact].
    assert (∀ X, strip (chr 123 :: X ++ (chr 10 :: drop 2 (pad d)) ++ [chr 125]) = chr 123 :: strip X ++ [chr 125]) as E.
    { intros X. change (chr 123 :: ?a) with ([chr 123] ++ a). change (chr 10 :: ?a) with ([chr 10] ++ a).
      by rewrite !strip_app, strip_pad_drop. }
    rewrite E. do 2 f_equal. destruct m as [|p m]; [done|].
    rewrite strip_join. f_equal. rewrite !map_map. apply map_ext_in. intros q Hq.
    apply list_elem_of_In in Hq. rewrite !Forall_forall in *. unfold field. cbn [fst snd lo_field lo_colon pretty compact].
    change (chr 10 :: pad d) with ([chr 10] ++ pad d). rewrite !strip_app, strip_pad.
    rewrite (IH q Hq) with (d' := S d') by auto.
    by rewrite (strip_plain (quote q.1)) by (apply quote_plain; auto).
  - cbn [render lo_comma pretty compact]. rewrite !strip_app, strip_join. rewrite !map_map.
    do 2 f_equal. f_equal. apply map_ext_in. intros q Hq.
    apply list_elem_of_In in Hq. rewrite !Forall_forall in *. auto.
  - apply strip_plain, quote_plain, plain_app; [by repeat constructor|apply hexstring_plain].
  - by apply strip_plain, quote_plain.
  - apply strip_plain, to_string_plain.
  - by destruct b.
Qed.

(** The compact layout does not depend on the depth. *)
Lemma render_compact_depth j : ∀ d d', render compact d j = render compact d' j.
Proof.
  induction j as [|m IH|l IH|h|s|f|z|b] using json_nested_ind; intros d d'; cbn [render]; try done.
  - cbn [lo_empty lo_field lo_close lo_colon compact]. do 2 f_equal. destruct m as [|p m]; [done|].
    f_equal. apply map_ext_in. intros q Hq%list_elem_of_In. rewrite Forall_forall in IH.
    by rewrite (IH q Hq (S d) (S d')).
  - do 3 f_equal. apply map_ext_in. intros q Hq%list_elem_of_In. rewrite Forall_forall in IH. auto.
Qed.

(** A dumped value, stripped or not, loads back as itself in both versions of
    [Load]; numbers at the top level have no terminator after them and do not. *)
Definition not_number (j : json) : Prop := match j with JIntegral _ => False | _ => True end.

Lemma render_nonempty raw lo d j : text_ok raw j → render lo d j ≠ [].
Proof. intros H. by destruct (render_starts raw lo d j H) as (x & r & -> & _). Qed.

Lemma load_render raw lo `{!LayoutWs lo} d j :
  text_ok raw j → not_number j → Load raw (render lo d j) = Ok j.
Proof.
  intros Hj Hn. destruct (render_reads raw lo j d Hj [] []) as [n E];
    [by apply List.Forall_nil|by destruct j|].
  cbn [app] in E. rewrite app_nil_r in E.
  eapply load_of_parse; [by eapply render_nonempty|exact E].
Qed.

(** Fields printed in any order are read into a sorted object. *)
Lemma load_fields raw lo `{!LayoutWs lo} d m :
  Forall (λ p, key_reads raw p.1 ∧ text_ok raw p.2) m →
  Load raw (render lo d (JObject m)) = Ok (JObject (map_build [] m)).
Proof.
  intros Hm. rewrite render_object.
  destruct (reads_fields raw lo d (map (λ p, (p.1, render lo (S d) p.2)) m) m) with (w := [] : bytes) (l := [] : bytes)
    as [n E]; [|by apply List.Forall_nil|done|].
  - apply Forall2_fmap_l, Forall_Forall2_diag. eapply Forall_impl; [exact Hm|]. intros p [Hk Ht]. cbn.
    split_and!; [done..|by eapply render_starts|by apply render_reads].
  - cbn [app] in E. rewrite app_nil_r in E. eapply load_of_parse; [|exact E]. done.
Qed.

Lemma load_dump_ok raw j : text_ok raw j → not_number j → Load raw (dump j) = Ok j.
Proof. unfold dump. rewrite dump_at_render. apply load_render, _. Qed.

Lemma load_strip_dump_ok raw j :
  text_ok raw j → plain_text j → not_number j → Load raw (strip (dump j)) = Ok j.
Proof.
  unfold dump. intros ? Hp ?. rewrite dump_at_render, (strip_dump j Hp 1%nat 1%nat).
  by apply load_render; [apply _|..].
Qed.

(** ** Properties *)


(** [Load] returns on every text, with a value, an exception or, reading past
    the end, undefined behaviour: fuel of twice the length is always enough. *)
Theorem load_terminates raw s : Load raw s ≠ NoFuel.
Proof. apply load_not_nofuel. Qed.

Definition demo_json : json :=
  JObject [(str "a", JArray [JNull; JBoolean true; JIntegral (-5); JObject []]);
           (str "b", JString (str "x y")); (str "c", JHash (replicate 32 (chr 255)))].

(** A null inside a text kept as a raw buffer is refused by its own reader. *)
Example load_null_raw : Load Raw (dump (JArray [JNull])) ≠ Ok (JArray [JNull]).
Proof. vm_compute. discriminate. Qed.
(** An exponent loses its first digit: 1e12 is read as 1e2, and 1e-3 throws. *)
Example load_exponent :
  Load Text (str "[1e12]") = Ok (JArray [JFloating (CDouble (str "1") 2)]) ∧
  Load Text (str "[1e-3]") = Throw.
Proof. by vm_compute. Qed.
