(* ===== verification/Host.v ===== *)
(** * What surrounds the enclave

    The untrusted application and the SGX primitives are not part of the modelled
    code: [Host] lists the calls the enclave makes to them, as operations on an
    abstract world [W], and [HostLaws] the documented behaviour the theorems rely
    on.  The file also holds the monad the enclave code is written in: a state and
    an outcome that may be undefined behaviour or an uncaught exception. *)
From S2P Require Import Prelude StdMap Status Hex Json JsonParse.

(** ** Calls out of the enclave *)
Class Host (W : Type) := {
  (* SGX and the allocator *)
  sha256 : bytes → bytes;
  malloc : W → Z → bool;
  sgx_read_rand : nat → W → bytes * W;
  sgx_seal_data : bytes → W → (sgx_status * bytes) * W;
  sgx_seal_data_ex : bytes → W → (sgx_status * bytes) * W;
  sgx_calc_sealed_data_size : Z → Z;
  sgx_get_encrypt_txt_len : bytes → Z;
  sgx_unseal_data : bytes → option bytes;
  sgx_ecc256_open_context : W → sgx_status * W;
  sgx_ecdsa_sign : bytes → bytes → W → option bytes * W;
  (* the database *)
  ocall_persist_add : bytes → bytes → W → crust_status * W;
  ocall_persist_add_keys : bytes → bytes → W → crust_status * W;
  ocall_persist_del : bytes → W → crust_status * W;
  ocall_persist_del_keys : bytes → bytes → W → crust_status * W;
  ocall_persist_set : bytes → bytes → W → crust_status * W;
  ocall_persist_get : bytes → W → (crust_status * bytes) * W;
  ocall_free_outer_buffer : W → crust_status * W;
  (* files and directories *)
  ocall_create_dir : bytes → W → crust_status * W;
  ocall_rename_dir : bytes → bytes → W → crust_status * W;
  ocall_save_file : bytes → bytes → W → crust_status * W;
  ocall_get_file : bytes → W → (crust_status * option bytes) * W;
  ocall_get_storage_file : bytes → W → (crust_status * option bytes) * W;
  ocall_replace_file : bytes → bytes → bytes → W → crust_status * W;
  ocall_delete_folder_or_file : bytes → W → crust_status * W;
  (* work report, workload, sealed trees, storage peers *)
  ocall_upload_workreport : bytes → W → crust_status * W;
  ocall_store_workload : bytes → bool → W → W;
  ocall_store_sealed_merkletree : bytes → bytes → W → W;
  ocall_validate_init : W → crust_status * W;
  ocall_validate_close : W → W;
  ocall_validate_get_file : bytes → bytes → W → (crust_status * bytes) * W
}.

(** A SHA-256 digest has HASH_LENGTH bytes; an allocation of at least 2 ^ 63
    bytes, as a negative size becomes, is never granted. *)
Class HostLaws (W : Type) `{!Host W} : Prop := {
  sha256_length m : List.length (sha256 m) = 32%nat;
  malloc_huge w n : 2 ^ 63 <= n → malloc w n = false
}.

(** ** The monad *)
Definition M (S A : Type) : Type := S → res (A * S).
#[global] Instance m_ret S : MRet (M S) := λ A a s, Ok (a, s).
#[global] Instance m_bind S : MBind (M S) := λ A B f m s,
  match m s with
  | Ok (a, s') => f a s'
  | UB => UB | Throw => Throw | NoFuel => NoFuel
  end.

Section ops.
Context {S : Type}.
Definition get : M S S := λ s, Ok (s, s).
Definition gets {A} (f : S → A) : M S A := λ s, Ok (f s, s).
Definition modify (f : S → S) : M S unit := λ s, Ok (tt, f s).
Definition undefined {A} : M S A := λ _, UB.
Definition of_res {A} (r : res A) : M S A := λ s,
  match r with Ok a => Ok (a, s) | UB => UB | Throw => Throw | NoFuel => NoFuel end.
(** A step of the world, seen through a lens of the state *)
Definition zoom {T A} (view : S → T) (set : T → S → S) (f : T → A * T) : M S A :=
  λ s, let '(a, t) := f (view s) in Ok (a, set t s).

Fixpoint for_each {A} (l : list A) (f : A → M S unit) : M S unit :=
  match l with
  | [] => mret tt
  | x :: l => f x;; for_each l f
  end.
End ops.

(** ** Reasoning

    [wp m Q s]: from [s], [m] is not out of fuel and every state it returns in
    satisfies [Q]; undefined behaviour and exceptions end the run. *)
Definition wp {S A} (m : M S A) (Q : A → S → Prop) (s : S) : Prop :=
  match m s with
  | Ok (a, s') => Q a s'
  | UB | Throw => True
  | NoFuel => False
  end.

Section wp.
Context {S : Type}.
Implicit Types (s : S).

Lemma wp_ret {A} (a : A) Q s : Q a s → wp (mret a) Q s.
Proof. done. Qed.
Lemma wp_bind {A B} (m : M S A) (f : A → M S B) Q s :
  wp m (λ a, wp (f a) Q) s → wp (m ≫= f) Q s.
Proof. unfold wp, mbind, m_bind. by destruct (m s) as [[a s']| | |]. Qed.
Lemma wp_mono {A} (m : M S A) (Q Q' : A → S → Prop) s :
  wp m Q s → (∀ a s', Q a s' → Q' a s') → wp m Q' s.
Proof. unfold wp. destruct (m s) as [[a s']| | |]; auto. Qed.
Lemma wp_gets {A} (f : S → A) Q s : Q (f s) s → wp (gets f) Q s.
Proof. done. Qed.
Lemma wp_modify (f : S → S) Q s : Q tt (f s) → wp (modify f) Q s.
Proof. done. Qed.
Lemma wp_undefined {A} (Q : A → S → Prop) s : wp undefined Q s.
Proof. done. Qed.
Lemma wp_of_res {A} (r : res A) Q s :
  r ≠ NoFuel → (∀ a, r = Ok a → Q a s) → wp (of_res r) Q s.
Proof. unfold wp, of_res. destruct r; naive_solver. Qed.
Lemma wp_zoom {T A} view set (f : T → A * T) Q s :
  Q (f (view s)).1 (set (f (view s)).2 s) → wp (zoom view set f) Q s.
Proof. unfold wp, zoom. by destruct (f (view s)). Qed.

Lemma wp_run {A} (m : M S A) (Q : A → S → Prop) s a s' : wp m Q s → m s = Ok (a, s') → Q a s'.
Proof. unfold wp. intros H E. by rewrite E in H. Qed.

(** A loop keeps an invariant of the processed elements. *)
Lemma wp_for_each {A} (I : list A → S → Prop) (f : A → M S unit) done_ todo s :
  I done_ s →
  (∀ d x t s, done_ ++ todo = d ++ x :: t → I d s → wp (f x) (λ _, I (d ++ [x])) s) →
  wp (for_each todo f) (λ _, I (done_ ++ todo)) s.
Proof.
  revert done_ s. induction todo as [|x todo IH]; intros dn s Hs Hf.
  - rewrite app_nil_r. done.
  - cbn [for_each]. apply wp_bind.
    eapply wp_mono; [apply (Hf dn x todo); [done|exact Hs]|]. intros [] s' Hs'.
    replace (dn ++ x :: todo) with ((dn ++ [x]) ++ todo) by by rewrite <- app_assoc.
    apply IH; [done|]. intros d y t s2 E. apply (Hf d y t). by rewrite <- E, <- app_assoc.
Qed.

Lemma wp_for_each_inv {A} (I : S → Prop) (f : A → M S unit) l s :
  I s → (∀ x s, x ∈ l → I s → wp (f x) (λ _, I) s) → wp (for_each l f) (λ _, I) s.
Proof.
  intros Hs Hf. apply (wp_for_each (λ _, I) f [] l s Hs).
  intros d x t s' E Hs'. apply Hf; [|done]. cbn in E. rewrite E. apply elem_of_app. right. left.
Qed.
End wp.

(** [wp_step]: peel one operation off the front of a computation. *)
Ltac wp_step :=
  lazymatch goal with
  | |- wp (mbind _ _) _ _ => apply wp_bind
  | |- wp (mret _) _ _ => apply wp_ret
  | |- wp (gets _) _ _ => apply wp_gets
  | |- wp get _ _ => apply (wp_gets id)
  | |- wp (modify _) _ _ => apply wp_modify
  | |- wp (zoom _ _ _) _ _ => apply wp_zoom
  | |- wp undefined _ _ => apply wp_undefined
  | |- wp (if ?b then _ else _) _ _ => destruct b eqn:?
  | |- wp (match ?x with _ => _ end) _ _ => destruct x eqn:?
  | |- wp (let _ := _ in _) _ _ => cbv zeta
  end.
Ltac wp_steps := repeat (wp_step; cbv beta).

(** [twp m Q s]: from [s], [m] returns, in a state that satisfies [Q]. *)
Definition twp {S A} (m : M S A) (Q : A → S → Prop) (s : S) : Prop :=
  match m s with Ok (a, s') => Q a s' | _ => False end.

Section twp.
Context {S : Type}.
Implicit Types (s : S).
Lemma twp_bind {A B} (m : M S A) (f : A → M S B) Q s :
  twp m (λ a, twp (f a) Q) s → twp (m ≫= f) Q s.
Proof. unfold twp, mbind, m_bind. by destruct (m s) as [[a s']| | |]. Qed.
Lemma twp_mono {A} (m : M S A) (Q Q' : A → S → Prop) s :
  twp m Q s → (∀ a s', Q a s' → Q' a s') → twp m Q' s.
Proof. unfold twp. destruct (m s) as [[a s']| | |]; auto. Qed.
Lemma twp_of_res {A} (r : res A) a (Q : A → S → Prop) s : r = Ok a → Q a s → twp (of_res r) Q s.
Proof. by intros ->. Qed.
Lemma twp_zoom {T A} view set (f : T → A * T) Q s :
  Q (f (view s)).1 (set (f (view s)).2 s) → twp (zoom view set f) Q s.
Proof. unfold twp, zoom. by destruct (f (view s)). Qed.
Lemma wp_of_twp {A} (m : M S A) Q s : twp m Q s → wp m Q s.
Proof. unfold twp, wp. by destruct (m s) as [[a s']| | |]. Qed.
Lemma twp_run {A} (m : M S A) Q s : twp m Q s ↔ ∃ a s', m s = Ok (a, s') ∧ Q a s'.
Proof.
  unfold twp. split.
  - destruct (m s) as [[a s']| | |]; try done. eauto.
  - by intros (a & s' & -> & ?).
Qed.
End twp.

Ltac twp_step :=
  cbv beta;
  lazymatch goal with
  | |- twp (mbind _ _) _ _ => apply twp_bind
  | |- twp (mret ?a) ?Q ?s => change (Q a s); cbv beta
  | |- twp (gets ?f) ?Q ?s => change (Q (f s) s); cbv beta
  | |- twp (modify ?f) ?Q ?s => change (Q tt (f s)); cbv beta
  | |- twp (zoom _ _ _) _ _ => apply twp_zoom; cbv beta
  end.

(** ** Runs that return, read backwards *)
Section inversion.
Context {S : Type}.
Implicit Types (s : S).
Lemma bind_Ok {A B} (m : M S A) (f : A → M S B) s b s' :
  (m ≫= f) s = Ok (b, s') → ∃ a s1, m s = Ok (a, s1) ∧ f a s1 = Ok (b, s').
Proof. unfold mbind, m_bind. destruct (m s) as [[a s1]| | |]; try done. eauto. Qed.
Lemma bind_run {A B} (m : M S A) (f : A → M S B) s a s1 : m s = Ok (a, s1) → (m ≫= f) s = f a s1.
Proof. unfold mbind, m_bind. by intros ->. Qed.
Lemma ret_Ok {A} (a b : A) s s' : mret (M := M S) a s = Ok (b, s') → b = a ∧ s' = s.
Proof. by intros [= <- <-]. Qed.
Lemma gets_Ok {A} (f : S → A) b s s' : gets f s = Ok (b, s') → b = f s ∧ s' = s.
Proof. by intros [= <- <-]. Qed.
Lemma modify_Ok (f : S → S) (b : unit) s s' : modify f s = Ok (b, s') → s' = f s.
Proof. by intros [= _ <-]. Qed.
Lemma of_res_Ok {A} (r : res A) b s s' : of_res r s = Ok (b, s') → r = Ok b ∧ s' = s.
Proof. unfold of_res. destruct r; try done. by intros [= <- <-]. Qed.
Lemma zoom_Ok {T A} view set (f : T → A * T) b s s' :
  zoom view set f s = Ok (b, s') → b = (f (view s)).1 ∧ s' = set (f (view s)).2 s.
Proof. unfold zoom. destruct (f (view s)). by intros [= <- <-]. Qed.
End inversion.

(** ** A database that behaves

    What the persistence layer may count on: the four database calls act on a map
    [db], each on its own key; a write or a deletion that reports success has
    happened, one that fails leaves nothing known about its key; a granted buffer is
    given back; the heap has room. *)
Class DbLaws (W : Type) `{!Host W} := {
  db : W → bytes → option bytes;
  db_set k v w :
    ((ocall_persist_set k v w).1 = CRUST_SUCCESS → db (ocall_persist_set k v w).2 k = Some v) ∧
    ∀ k', k ≠ k' → db (ocall_persist_set k v w).2 k' = db w k';
  db_get k w :
    match db w k with
    | Some v => (ocall_persist_get k w).1 = (CRUST_SUCCESS, v)
    | None => (ocall_persist_get k w).1.1 ≠ CRUST_SUCCESS
    end ∧ ∀ k', db (ocall_persist_get k w).2 k' = db w k';
  db_del k w :
    ((ocall_persist_del k w).1 = CRUST_SUCCESS → db (ocall_persist_del k w).2 k = None) ∧
    ∀ k', k ≠ k' → db (ocall_persist_del k w).2 k' = db w k';
  db_free w :
    (ocall_free_outer_buffer w).1 = CRUST_SUCCESS ∧
    ∀ k', db (ocall_free_outer_buffer w).2 k' = db w k';
  db_malloc w n : 0 <= n < 2 ^ 63 → malloc w n = true
}.

(** A database that is well: no write and no deletion fails.  What was stored can only
    be relied on while it is: the code does not test every status. *)
Class DbHealthy (W : Type) `{!Host W} : Prop := {
  healthy_set k v w : (ocall_persist_set k v w).1 = CRUST_SUCCESS;
  healthy_del k w : (ocall_persist_del k w).1 = CRUST_SUCCESS
}.
Section healthy.
Context {W : Type} `{!Host W} `{!DbLaws W} `{!DbHealthy W}.
Lemma db_set_healthy k v w k' : db (ocall_persist_set k v w).2 k' = if decide (k = k') then Some v else db w k'.
Proof. destruct (db_set k v w) as [H1 H2]. case_decide as E; [subst; by apply H1, healthy_set|by apply H2]. Qed.
Lemma db_del_healthy k w k' : db (ocall_persist_del k w).2 k' = if decide (k = k') then None else db w k'.
Proof. destruct (db_del k w) as [H1 H2]. case_decide as E; [subst; by apply H1, healthy_del|by apply H2]. Qed.
End healthy.

(** Sealing that behaves: a sealed buffer has the announced size and unseals to
    what was sealed; the database is left alone. *)
Class SealLaws (W : Type) `{!Host W} `{!DbLaws W} : Prop := {
  seal_ok src w :
    (sgx_seal_data_ex src w).1.1 = SGX_SUCCESS →
    sgx_unseal_data (sgx_seal_data_ex src w).1.2 = Some src ∧
    zlen (sgx_seal_data_ex src w).1.2 = u32 (sgx_calc_sealed_data_size (u32 (zlen src)));
  seal_db src w k : db (sgx_seal_data_ex src w).2 k = db w k
}.
