(* ===== verification/JsonHeap.v ===== *)
(** * JSON objects in memory (class [json::JSON] of enclave/utils/EJson.h and
    app/utils/Json.hpp)

    The other files treat a [JSON] as a value.  Here it is what the class makes of it:
    a type and a pointer to memory the object owns, with constructors, assignments
    and a destructor that allocate and free.  The theorems justify the values: what
    the class does to its memory is what [Json] does to values, nothing is shared,
    nothing is freed twice, and what is not given back is named. *)
From AAC_tactics Require Import AAC.
From stdpp Require Import gmap.
From S2P Require Import Prelude StdMap Status Hex Json JsonParse Host.

(** ** Memory *)
Abbreviation loc := nat.
(** A [JSON] as it lies in memory: [Type] with the member of [Internal] it selects *)
Inductive obj := ONull | OObject (l : loc) | OArray (l : loc) | OHash (l : loc) | OString (l : loc)
  | OFloating (d : cdouble) | OIntegral (z : Z) | OBoolean (b : bool).
Inductive class := CNull | CObject | CArray | CHash | CString | CFloating | CIntegral | CBoolean.
#[global] Instance class_eq_dec : EqDecision class.
Proof. solve_decision. Defined.
Definition JSONType (o : obj) : class :=
  match o with
  | ONull => CNull | OObject _ => CObject | OArray _ => CArray | OHash _ => CHash | OString _ => CString
  | OFloating _ => CFloating | OIntegral _ => CIntegral | OBoolean _ => CBoolean
  end.
(** Blocks: a [JSON] that is a variable, and what objects own *)
Inductive block := BJSON (o : obj) | BMap (m : list (bytes * obj)) | BList (l : list obj) | BHash (h : bytes) | BString (s : bytes).
Abbreviation heap := (gmap loc block).
Abbreviation HM := (Host.M heap).

(** [new], a read, a write and [delete]; none but the first where there is nothing *)
Definition new (b : block) : HM loc := λ h, let l := fresh (dom h : gset loc) in Ok (l, <[l := b]> h).
Definition load (l : loc) : HM block := λ h, match h !! l with Some b => Ok (b, h) | None => UB end.
Definition store (l : loc) (b : block) : HM unit := λ h, match h !! l with Some _ => Ok (tt, <[l := b]> h) | None => UB end.
Definition free (l : loc) : HM unit := λ h, match h !! l with Some _ => Ok (tt, delete l h) | None => UB end.
Definition load_map (l : loc) : HM (list (bytes * obj)) := b ← load l; match b with BMap m => mret m | _ => undefined end.
Definition load_list (l : loc) : HM (list obj) := b ← load l; match b with BList os => mret os | _ => undefined end.
Definition load_hash (l : loc) : HM bytes := b ← load l; match b with BHash h => mret h | _ => undefined end.
Definition load_string (l : loc) : HM bytes := b ← load l; match b with BString s => mret s | _ => undefined end.

(** A reference: to a variable, to the value of a key, to an element *)
Inductive ref := RVar (l : loc) | RField (l : loc) (k : bytes) | RElem (l : loc) (i : nat).
Definition get_ref (r : ref) : HM obj :=
  match r with
  | RVar l => b ← load l; match b with BJSON o => mret o | _ => undefined end
  | RField l k => m ← load_map l; match map_find k m with Some o => mret o | None => undefined end
  | RElem l i => os ← load_list l; match os !! i with Some o => mret o | None => undefined end
  end.
Definition set_ref (r : ref) (o : obj) : HM unit :=
  match r with
  | RVar l => store l (BJSON o)
  | RField l k => m ← load_map l; store l (BMap (map_set k o m))
  | RElem l i => os ← load_list l; store l (BList (<[i := o]> os))
  end.

(** ** The class *)

(** [~JSON] and [ClearInternal] have the same body.  Nesting is no deeper than there
    are blocks. *)
Fixpoint destroy_at (fuel : nat) (o : obj) : HM unit :=
  match fuel with
  | O => of_res NoFuel
  | S fuel =>
      match o with
      | OObject l => m ← load_map l; for_each (map snd m) (destroy_at fuel);; free l
      | OArray l => os ← load_list l; for_each os (destroy_at fuel);; free l
      | OHash l => load_hash l;; free l
      | OString l => load_string l;; free l
      | _ => mret tt
      end
  end.
Definition destroy (o : obj) : HM unit := λ h, destroy_at (S (size h)) o h.
Definition ClearInternal : obj → HM unit := destroy.

(** [JSON(const JSON &)] *)
Fixpoint map_m {A B} (f : A → HM B) (l : list A) : HM (list B) :=
  match l with [] => mret [] | x :: l => y ← f x; ys ← map_m f l; mret (y :: ys) end.
Fixpoint copy_at (fuel : nat) (o : obj) : HM obj :=
  match fuel with
  | O => of_res NoFuel
  | S fuel =>
      match o with
      | OObject l =>
          m ← load_map l;
          m' ← map_m (λ p : bytes * obj, o ← copy_at fuel p.2; mret (p.1, o)) m;
          l' ← new (BMap m'); mret (OObject l')
      | OArray l => os ← load_list l; os' ← map_m (copy_at fuel) os; l' ← new (BList os'); mret (OArray l')
      | OHash l => v ← load_hash l; l' ← new (BHash v); mret (OHash l')
      | OString l => s ← load_string l; l' ← new (BString s); mret (OString l')
      | _ => mret o
      end
  end.
Definition copy_json (o : obj) : HM obj := λ h, copy_at (S (size h)) o h.

(** [SetType]: nothing, or another empty value.  A new hash is not set to anything. *)
Definition empty_of (c : class) (noise : bytes) : HM obj :=
  match c with
  | CNull => mret ONull
  | CObject => l ← new (BMap []); mret (OObject l)
  | CArray => l ← new (BList []); mret (OArray l)
  | CHash => l ← new (BHash noise); mret (OHash l)
  | CString => l ← new (BString []); mret (OString l)
  | CFloating => mret (OFloating (CDouble (str "0.0") 0))
  | CIntegral => mret (OIntegral 0)
  | CBoolean => mret (OBoolean false)
  end.
Definition SetType (c : class) (noise : bytes) (r : ref) : HM unit :=
  o ← get_ref r;
  if decide (c = JSONType o) then mret tt
  else ClearInternal o;; o' ← empty_of c noise; set_ref r o'.

(** [operator=(const JSON &)]: the other one is looked at after this one is cleared. *)
Definition assign (this other : ref) : HM unit :=
  o ← get_ref this; ClearInternal o;;
  o' ← get_ref other; c ← copy_json o'; set_ref this c.
(** [JSON(JSON &&)], [operator=(JSON &&)] *)
Definition move_new (other : ref) : HM obj := o ← get_ref other; set_ref other ONull;; mret o.
Definition assign_move (this other : ref) : HM unit :=
  o ← get_ref this; ClearInternal o;;
  o' ← get_ref other; set_ref this o';; set_ref other ONull.
Definition assign_int (this : ref) (i : Z) : HM unit := SetType CIntegral [] this;; set_ref this (OIntegral (i64 i)).
Definition assign_bool (this : ref) (b : bool) : HM unit := SetType CBoolean [] this;; set_ref this (OBoolean b).
Definition assign_string (this : ref) (s : bytes) : HM unit :=
  SetType CString [] this;; o ← get_ref this;
  match o with OString l => load_string l;; store l (BString s) | _ => undefined end.
(** From [uint8_t*]: memory is taken twice, and the first of it forgotten. *)
Definition assign_hash (noise : bytes) (this : ref) (v : bytes) : HM unit :=
  if (List.length v <? 32)%nat then undefined
  else SetType CHash noise this;; l ← new (BHash (take 32 v)); set_ref this (OHash l).

(** [operator[]], of a key and of an index *)
Definition subscript_key (this : ref) (k : bytes) : HM ref :=
  SetType CObject [] this;; o ← get_ref this;
  match o with
  | OObject l => m ← load_map l; store l (BMap (map_touch ONull k m));; mret (RField l k)
  | _ => undefined
  end.
Definition subscript_index (this : ref) (i : nat) : HM ref :=
  SetType CArray [] this;; o ← get_ref this;
  match o with
  | OArray l =>
      os ← load_list l;
      (if (List.length os <=? i)%nat then store l (BList (os ++ replicate (S i - List.length os) ONull)) else mret tt);;
      mret (RElem l i)
  | _ => undefined
  end.
(** [append] of a JSON: taken by value, and copied into the list *)
Definition append (this other : ref) : HM unit :=
  o ← get_ref other; arg ← copy_json o;
  SetType CArray [] this;; t ← get_ref this;
  match t with
  | OArray l => os ← load_list l; e ← copy_json arg; store l (BList (os ++ [e]));; destroy arg
  | _ => undefined
  end.
(** A variable in a scope *)
Definition declare : HM loc := new (BJSON ONull).
Definition leave_scope (x : loc) : HM unit := o ← get_ref (RVar x); destroy o;; free x.

(** ** Separation

    An assertion speaks of exactly the memory it needs; [∗∗] splits memory in two. *)
Definition hprop := heap → Prop.
Definition emp : hprop := λ h, h = ∅.
Definition points (l : loc) (b : block) : hprop := λ h, h = {[l := b]}.
Definition sep (P Q : hprop) : hprop := λ h, ∃ h1 h2, h = h1 ∪ h2 ∧ h1 ##ₘ h2 ∧ P h1 ∧ Q h2.
Definition hex {A} (P : A → hprop) : hprop := λ h, ∃ a, P a h.
Definition hand (φ : Prop) (P : hprop) : hprop := λ h, φ ∧ P h.
Declare Scope heap_scope.
Delimit Scope heap_scope with H.
Bind Scope heap_scope with hprop.
Notation "l ↦ b" := (points l b) (at level 20, b at level 50) : heap_scope.
Infix "∗∗" := sep (at level 80, right associativity) : heap_scope.
Notation "⌜ φ ⌝ ∧∧ P" := (hand φ P) (at level 85, φ at level 200, P at level 85) : heap_scope.
#[local] Open Scope heap_scope.

Definition hequiv : relation hprop := pointwise_relation heap iff.
Definition himpl : relation hprop := pointwise_relation heap impl.
#[global] Instance hequiv_equivalence : Equivalence hequiv.
Proof. unfold hequiv. apply _. Qed.
#[global] Instance himpl_preorder : PreOrder himpl.
Proof. unfold himpl. split; [by intros P h ?|]. intros P Q R H1 H2 h HP. by apply H2, H1. Qed.
#[global] Instance hequiv_himpl : subrelation hequiv himpl.
Proof. intros P Q H h HP. by apply H. Qed.
#[global] Instance hequiv_himpl_flip : subrelation hequiv (flip himpl).
Proof. intros P Q H h HP. by apply H. Qed.
#[global] Instance sep_himpl : Proper (himpl ==> himpl ==> himpl) sep.
Proof. intros P P' HP Q Q' HQ h (h1 & h2 & -> & Hd & H1 & H2). exists h1, h2. split_and!; [done|done|by apply HP|by apply HQ]. Qed.
#[global] Instance sep_himpl_flip : Proper (flip himpl ==> flip himpl ==> flip himpl) sep.
Proof. intros P P' HP Q Q' HQ. by apply sep_himpl. Qed.
#[global] Instance sep_hequiv : Proper (hequiv ==> hequiv ==> hequiv) sep.
Proof. intros P P' HP Q Q' HQ h. split; apply sep_himpl; [by rewrite HP|by rewrite HQ|by rewrite <- HP|by rewrite <- HQ]. Qed.

Lemma sep_comm P Q : hequiv (P ∗∗ Q) (Q ∗∗ P).
Proof.
  enough (∀ P Q, himpl (P ∗∗ Q) (Q ∗∗ P)) as H by (intros h; split; apply H).
  intros P' Q' h (h1 & h2 & -> & Hd & H1 & H2). exists h2, h1. by rewrite map_union_comm.
Qed.
Lemma sep_assoc P Q R : hequiv (P ∗∗ (Q ∗∗ R)) ((P ∗∗ Q) ∗∗ R).
Proof.
  intros h. split.
  - intros (h1 & h23 & -> & Hd & H1 & h2 & h3 & -> & Hd' & H2 & H3). apply map_disjoint_union_r in Hd as [Hd1 Hd2].
    exists (h1 ∪ h2), h3. rewrite map_union_assoc. split_and!; [done|by apply map_disjoint_union_l|by exists h1, h2|done].
  - intros (h12 & h3 & -> & Hd & (h1 & h2 & -> & Hd' & H1 & H2) & H3). apply map_disjoint_union_l in Hd as [Hd1 Hd2].
    exists h1, (h2 ∪ h3). rewrite map_union_assoc. split_and!; [done|by apply map_disjoint_union_r|done|by exists h2, h3].
Qed.
Lemma sep_swap P Q R : hequiv (P ∗∗ (Q ∗∗ R)) (Q ∗∗ (P ∗∗ R)).
Proof. by rewrite !sep_assoc, (sep_comm P Q). Qed.
Lemma emp_sep P : hequiv (emp ∗∗ P) P.
Proof.
  intros h. split; [intros (h1 & h2 & -> & _ & -> & H); by rewrite (left_id_L _ _)|].
  intros H. exists ∅, h. split_and!; [by rewrite (left_id_L _ _)|apply map_disjoint_empty_l|done|done].
Qed.
Lemma sep_emp P : hequiv (P ∗∗ emp) P.
Proof. by rewrite sep_comm, emp_sep. Qed.
#[global] Instance sep_aac_assoc : Associative hequiv sep := sep_assoc.
#[global] Instance sep_aac_comm : Commutative hequiv sep := sep_comm.
#[global] Instance sep_aac_unit : Unit hequiv sep emp := {| law_neutral_left := emp_sep; law_neutral_right := sep_emp |}.
#[global] Instance hequiv_lift : AAC_lift hequiv hequiv | 0.
Proof. split; [apply _|]. intros P P' HP Q Q' HQ. by rewrite HP, HQ. Qed.
(** Both sides have the same parts. *)
Lemma hequiv_impl P Q : hequiv P Q → himpl P Q.
Proof. intros H h HP. by apply (H h). Qed.
Ltac sep_ac := apply hequiv_impl; aac_reflexivity.

Lemma sep_hex {A} (P : A → hprop) Q : hequiv (hex P ∗∗ Q) (hex (λ a, P a ∗∗ Q)).
Proof.
  intros h. split.
  - intros (h1 & h2 & -> & Hd & [a H1] & H2). exists a, h1, h2. done.
  - intros (a & h1 & h2 & -> & Hd & H1 & H2). exists h1, h2. split_and!; [done|done|by exists a|done].
Qed.
#[global] Instance hand_hequiv φ : Proper (hequiv ==> hequiv) (hand φ).
Proof. intros P P' HP h. unfold hand. by rewrite (HP h). Qed.
#[global] Instance hand_himpl φ : Proper (himpl ==> himpl) (hand φ).
Proof. intros P P' HP h [Hφ H]. split; [done|]. by apply HP. Qed.
Lemma sep_hand φ P Q : hequiv ((⌜φ⌝ ∧∧ P) ∗∗ Q) (⌜φ⌝ ∧∧ (P ∗∗ Q)).
Proof.
  intros h. split.
  - intros (h1 & h2 & -> & Hd & [Hφ H1] & H2). split; [done|]. by exists h1, h2.
  - intros (Hφ & h1 & h2 & -> & Hd & H1 & H2). by exists h1, h2.
Qed.

(** [triple P m Q]: in any memory with a part as [P] says, [m] returns, leaves the rest
    alone, and what it makes of the part is as [Q] says. *)
Definition triple {A} (P : hprop) (m : HM A) (Q : A → hprop) : Prop :=
  ∀ h hf, P h → h ##ₘ hf → ∃ a h', m (h ∪ hf) = Ok (a, h' ∪ hf) ∧ h' ##ₘ hf ∧ Q a h'.

Lemma triple_conseq {A} P P' (m : HM A) Q Q' :
  himpl P P' → triple P' m Q' → (∀ a, himpl (Q' a) (Q a)) → triple P m Q.
Proof. intros HP H HQ h hf Hh Hd. destruct (H h hf) as (a & h' & E & Hd' & Hq); [by apply HP|done|]. exists a, h'. split_and!; [done|done|by apply HQ]. Qed.
#[global] Instance triple_pre {A} : Proper (hequiv ==> eq ==> eq ==> iff) (@triple A).
Proof.
  intros P P' HP m _ <- Q _ <-. split; intros H h hf Hh; apply H; by apply HP.
Qed.
Lemma triple_ret {A} (a : A) P Q : himpl P (Q a) → triple P (mret a) Q.
Proof. intros H h hf Hh Hd. exists a, h. split_and!; [done|done|by apply H]. Qed.
Lemma triple_bind {A B} (m : HM A) (f : A → HM B) P Q R :
  triple P m Q → (∀ a, triple (Q a) (f a) R) → triple P (m ≫= f) R.
Proof.
  intros Hm Hf h hf Hh Hd. destruct (Hm h hf Hh Hd) as (a & h1 & E & Hd1 & Hq).
  destruct (Hf a h1 hf Hq Hd1) as (b & h2 & E2 & Hd2 & Hr). exists b, h2. split_and!; [|done|done].
  unfold mbind, m_bind. by rewrite E.
Qed.
Lemma triple_frame {A} (m : HM A) P Q F : triple P m Q → triple (P ∗∗ F) m (λ a, Q a ∗∗ F).
Proof.
  intros Hm h hf (h1 & h2 & -> & Hd & H1 & H2) Hd2. apply map_disjoint_union_l in Hd2 as [Hd1 Hd2].
  destruct (Hm h1 (h2 ∪ hf) H1) as (a & h' & E & Hd' & Hq); [by apply map_disjoint_union_r|].
  apply map_disjoint_union_r in Hd' as [Hd3 Hd4]. exists a, (h' ∪ h2). rewrite <- !map_union_assoc.
  split_and!; [done|by apply map_disjoint_union_l|by exists h', h2].
Qed.
Lemma triple_hex {A B} (P : B → hprop) (m : HM A) Q : (∀ b, triple (P b) m Q) → triple (hex P) m Q.
Proof. intros H h hf [b Hb] Hd. by apply (H b). Qed.
Lemma triple_hand {A} φ P (m : HM A) Q : (φ → triple P m Q) → triple (⌜φ⌝ ∧∧ P) m Q.
Proof. intros H h hf [Hφ Hp] Hd. by apply H. Qed.
(** A call in front of the rest *)
Lemma triple_call {A B} (m : HM A) (f : A → HM B) P Q F R :
  triple P m Q → (∀ a, triple (Q a ∗∗ F) (f a) R) → triple (P ∗∗ F) (m ≫= f) R.
Proof. intros Hm Hf. eapply triple_bind; [by apply triple_frame|done]. Qed.

Lemma step_new {A} b (f : loc → HM A) P Q : (∀ l, triple (l ↦ b ∗∗ P) (f l) Q) → triple P (new b ≫= f) Q.
Proof.
  intros Hf h hf Hh Hd. set (l := fresh (dom (h ∪ hf) : gset loc)).
  assert ((h ∪ hf) !! l = None) as Hl by (apply not_elem_of_dom; apply is_fresh).
  apply lookup_union_None in Hl as [Hl1 Hl2].
  destruct (Hf l ({[l := b]} ∪ h) hf) as (a & h' & E & Hd' & Hq).
  - exists {[l := b]}, h. split_and!; [done|by apply map_disjoint_singleton_l|done|done].
  - apply map_disjoint_union_l. split; [by apply map_disjoint_singleton_l|done].
  - exists a, h'. split_and!; [|done|done]. unfold mbind, m_bind, new. fold l.
    by rewrite insert_union_singleton_l, map_union_assoc.
Qed.
Lemma points_lookup l b (h hf : heap) : ({[l := b]} ∪ h ∪ hf) !! l = Some b.
Proof. rewrite <- map_union_assoc. apply lookup_union_Some_l, lookup_singleton_eq. Qed.
Lemma step_load {A} l b (f : block → HM A) P Q : triple (l ↦ b ∗∗ P) (f b) Q → triple (l ↦ b ∗∗ P) (load l ≫= f) Q.
Proof.
  intros Hf h hf Hh Hd. destruct (Hf h hf Hh Hd) as (a & h' & E & ?). exists a, h'. split; [|done].
  destruct Hh as (h1 & h2 & -> & Hd1 & -> & H2). unfold mbind, m_bind, load. by rewrite points_lookup.
Qed.
Lemma triple_store l b b' : triple (l ↦ b) (store l b') (λ _, l ↦ b').
Proof.
  intros h hf Hh Hd. hnf in Hh. subst h. exists tt, {[l := b']}. unfold store. rewrite (lookup_union_Some_l _ _ l b) by apply lookup_singleton_eq.
  apply map_disjoint_singleton_l in Hd. split_and!; [|by apply map_disjoint_singleton_l|done].
  by rewrite insert_union_l, insert_singleton_eq.
Qed.
Lemma triple_free l b : triple (l ↦ b) (free l) (λ _, emp).
Proof.
  intros h hf Hh Hd. hnf in Hh. subst h. exists tt, ∅. unfold free. rewrite (lookup_union_Some_l _ _ l b) by apply lookup_singleton_eq.
  apply map_disjoint_singleton_l in Hd. split_and!; [|apply map_disjoint_empty_l|done].
  rewrite delete_union, delete_singleton_eq, (left_id_L ∅ _), (left_id_L ∅ _), delete_id by done. done.
Qed.
Lemma step_store {A} l b b' (f : unit → HM A) P Q : triple (l ↦ b' ∗∗ P) (f tt) Q → triple (l ↦ b ∗∗ P) (store l b' ≫= f) Q.
Proof. intros H. eapply triple_call; [apply triple_store|]. by intros []. Qed.
Lemma step_free {A} l b (f : unit → HM A) P Q : triple P (f tt) Q → triple (l ↦ b ∗∗ P) (free l ≫= f) Q.
Proof. intros H. eapply triple_call; [apply triple_free|]. intros []. by rewrite emp_sep. Qed.
(** [m] finds [x] and changes nothing. *)
Definition reads {A} (P : hprop) (m : HM A) (x : A) : Prop := triple P m (λ a, ⌜a = x⌝ ∧∧ P).
Lemma step_reads {A B} (m : HM A) x (f : A → HM B) P F Q :
  reads P m x → triple (P ∗∗ F) (f x) Q → triple (P ∗∗ F) (m ≫= f) Q.
Proof. intros Hm Hf. eapply triple_call; [exact Hm|]. intros a. rewrite sep_hand. apply triple_hand. by intros ->. Qed.
Lemma reads_load l b : reads (l ↦ b) (load l) b.
Proof.
  intros h hf Hh Hd. hnf in Hh. subst h. exists b, {[l := b]}. unfold load.
  rewrite (lookup_union_Some_l _ _ l b) by apply lookup_singleton_eq. by split_and!.
Qed.
Lemma reads_bind {A B} P (m : HM A) x (f : A → HM B) y : reads P m x → reads P (f x) y → reads P (m ≫= f) y.
Proof. intros Hm Hf. eapply triple_bind; [exact Hm|]. intros a. apply triple_hand. by intros ->. Qed.
Lemma reads_ret {A} P (a : A) : reads P (mret a) a.
Proof. by apply triple_ret. Qed.
Lemma reads_map l m : reads (l ↦ BMap m) (load_map l) m.
Proof. eapply reads_bind; [apply reads_load|apply reads_ret]. Qed.
Lemma reads_list l os : reads (l ↦ BList os) (load_list l) os.
Proof. eapply reads_bind; [apply reads_load|apply reads_ret]. Qed.
Lemma hash_block l v : reads (l ↦ BHash v) (load_hash l) v.
Proof. eapply reads_bind; [apply reads_load|apply reads_ret]. Qed.
Lemma string_block l s : reads (l ↦ BString s) (load_string l) s.
Proof. eapply reads_bind; [apply reads_load|apply reads_ret]. Qed.
Lemma reads_var x o : reads (x ↦ BJSON o) (get_ref (RVar x)) o.
Proof. eapply reads_bind; [apply reads_load|apply reads_ret]. Qed.

(** ** What an object owns *)
Section pairwise.
Context {X Y : Type} (R : X → Y → hprop).
Fixpoint pairwise (xs : list X) (ys : list Y) : hprop :=
  match xs, ys with
  | [], [] => emp
  | x :: xs, y :: ys => R x y ∗∗ pairwise xs ys
  | _, _ => λ _, False
  end.
End pairwise.
(** The memory that [o] owns, when it means the value [j] *)
Fixpoint owns (j : json) (o : obj) : hprop :=
  match j, o with
  | JNull, ONull => emp
  | JObject m, OObject l => hex (λ om, l ↦ BMap om ∗∗ pairwise (λ p q, ⌜p.1 = q.1⌝ ∧∧ owns p.2 q.2) m om)
  | JArray js, OArray l => hex (λ os, l ↦ BList os ∗∗ pairwise owns js os)
  | JHash v, OHash l => l ↦ BHash v
  | JString s, OString l => l ↦ BString s
  | JFloating d, OFloating d' => ⌜d = d'⌝ ∧∧ emp
  | JIntegral z, OIntegral z' => ⌜z = z'⌝ ∧∧ emp
  | JBoolean b, OBoolean b' => ⌜b = b'⌝ ∧∧ emp
  | _, _ => λ _, False
  end.
Abbreviation field := (λ (p : bytes * json) (q : bytes * obj), ⌜p.1 = q.1⌝ ∧∧ owns p.2 q.2).
Fixpoint height (j : json) : nat :=
  match j with
  | JObject m => S (list_max (map (λ p, height p.2) m))
  | JArray l => S (list_max (map height l))
  | _ => O
  end.
(** A variable *)
Definition var (x : loc) (j : json) : hprop := hex (λ o, x ↦ BJSON o ∗∗ owns j o).

Lemma pairwise_in {X Y} (R : X → Y → hprop) xs ys h x :
  pairwise R xs ys h → x ∈ xs → ∃ y h', R x y h' ∧ h' ⊆ h.
Proof.
  revert ys h. induction xs as [|x0 xs IH]; intros [|y ys] h Hp Hx; try done; [by apply not_elem_of_nil in Hx|].
  destruct Hp as (h1 & h2 & -> & Hd & H1 & H2). apply elem_of_cons in Hx as [->|Hx].
  - exists y, h1. split; [done|]. apply map_union_subseteq_l.
  - destruct (IH ys h2 H2 Hx) as (y' & h' & Hr & Hs). exists y', h'. split; [done|].
    etrans; [exact Hs|]. by apply map_union_subseteq_r.
Qed.
Lemma points_size l b (h : heap) : {[l := b]} ##ₘ h → size ({[l := b]} ∪ h) = S (size h).
Proof.
  intros Hd%map_disjoint_singleton_l. by rewrite <- insert_union_singleton_l, map_size_insert_None.
Qed.
Lemma list_max_bound (l : list nat) n : (∀ x, x ∈ l → (x <= n)%nat) → (list_max l <= n)%nat.
Proof. intros H. apply list_max_le, List.Forall_forall. intros x Hx. apply H. by apply list_elem_of_In. Qed.
Lemma owns_size j : ∀ o h, owns j o h → (height j <= size h)%nat.
Proof.
  induction j as [|m IH|l IH|v|s|f|z|b] using json_nested_ind; intros o h Ho; cbn [height]; try lia;
    destruct o; try done; destruct Ho as (om & h1 & h2 & -> & Hd & Hl & Hp); hnf in Hl; subst h1;
    rewrite points_size by done; apply le_n_S, list_max_bound; intros n Hn;
    apply list_elem_of_fmap in Hn as (x & -> & Hx); destruct (pairwise_in _ _ _ _ _ Hp Hx) as (y & h' & Hr & Hs);
    rewrite Forall_forall in IH; (etrans; [eapply (IH _ Hx); apply Hr|by apply map_subseteq_size]).
Qed.
Lemma triple_sized {A} j o P (m : nat → HM A) Q :
  (∀ n, (height j < n)%nat → triple (owns j o ∗∗ P) (m n) Q) →
  triple (owns j o ∗∗ P) (λ h, m (S (size h)) h) Q.
Proof.
  intros Hm h hf Hh Hd. apply Hm; [|done|done]. destruct Hh as (h1 & h2 & -> & Hd1 & H1 & _).
  apply owns_size in H1. apply le_n_S. etrans; [exact H1|]. apply map_subseteq_size. rewrite <- map_union_assoc. apply map_union_subseteq_l.
Qed.

(** ** Destruction and copies *)
Notation "P ⊢ₕ Q" := (himpl P Q) (at level 95, no associativity) : type_scope.
Lemma triple_weaken {A} P P' (m : HM A) Q : P ⊢ₕ P' → triple P' m Q → triple P m Q.
Proof. intros HP H. by eapply triple_conseq. Qed.
Ltac sep_turn Q := apply (triple_weaken _ (Q)%H); [sep_ac|].
#[global] Instance triple_himpl {A} : Proper (himpl ==> eq ==> eq ==> flip impl) (@triple A).
Proof. intros P P' HP m _ <- Q _ <- H. by eapply triple_weaken. Qed.
Lemma triple_post {A} P (m : HM A) Q Q' : triple P m Q' → (∀ a, Q' a ⊢ₕ Q a) → triple P m Q.
Proof. intros H HQ. by eapply triple_conseq. Qed.
Lemma triple_know {A} φ P (m : HM A) Q : (∀ h, P h → φ) → (φ → triple P m Q) → triple P m Q.
Proof. intros Hφ H h hf Hh. apply H; [by eapply Hφ|done]. Qed.
Lemma triple_false {A} P (m : HM A) Q : (∀ h, ¬ P h) → triple P m Q.
Proof. intros H h hf Hh. by destruct (H h). Qed.
Lemma step_undone {A B} (a : A) (f : A → HM B) P Q : triple P (f a) Q → triple P (mret a ≫= f) Q.
Proof. done. Qed.

Lemma pairwise_length {X Y} (R : X → Y → hprop) xs ys h : pairwise R xs ys h → List.length xs = List.length ys.
Proof.
  revert ys h. induction xs as [|x xs IH]; intros [|y ys] h; try done.
  intros (h1 & h2 & -> & _ & _ & H). cbn. f_equal. by eapply IH.
Qed.
Lemma triple_for_each {X Y Z} (R : X → Y → hprop) xs ys (g : Y → Z) (f : Z → HM unit) :
  (∀ x y, x ∈ xs → triple (R x y) (f (g y)) (λ _, emp)) → triple (pairwise R xs ys) (for_each (map g ys) f) (λ _, emp).
Proof.
  revert ys. induction xs as [|x xs IH]; intros [|y ys] Hf; try (by apply triple_false; intros h Hh).
  { by apply triple_ret. }
  cbn [pairwise map for_each]. eapply triple_call; [apply Hf; by left|]. intros []. rewrite emp_sep.
  apply IH. intros x' y' Hx. apply Hf. by right.
Qed.
Lemma triple_map_m {X Y} (R : X → Y → hprop) xs ys (f : Y → HM Y) :
  (∀ x y, x ∈ xs → triple (R x y) (f y) (λ y', R x y ∗∗ R x y')) →
  triple (pairwise R xs ys) (map_m f ys) (λ ys', pairwise R xs ys ∗∗ pairwise R xs ys').
Proof.
  revert ys. induction xs as [|x xs IH]; intros [|y ys] Hf; try (by apply triple_false; intros h Hh).
  { apply triple_ret. cbn. by rewrite emp_sep. }
  cbn [pairwise map_m]. eapply triple_call; [apply Hf; by left|]. intros y'. rewrite sep_comm.
  eapply triple_call; [apply IH; intros x' z Hx; apply Hf; by right|]. intros ys'. apply triple_ret.
  cbn [pairwise]. sep_ac.
Qed.

Lemma height_in {X} (f : X → nat) (l : list X) x n : x ∈ l → (S (list_max (map f l)) < S n)%nat → (f x < n)%nat.
Proof.
  intros Hx Hn. pose proof (proj1 (list_max_le (map f l) _) (le_n _)) as H. rewrite List.Forall_forall in H.
  specialize (H (f x)). assert (f x <= list_max (map f l))%nat; [|lia]. apply H. apply in_map. by apply list_elem_of_In.
Qed.
Lemma destroy_at_spec n : ∀ j o, (height j < n)%nat → triple (owns j o) (destroy_at n o) (λ _, emp).
Proof.
  induction n as [|n IH]; intros j o Hn; [lia|].
  destruct j as [|m|js|v|s|d|z|b], o as [|l|l|l|l|d'|z'|b']; try (by apply triple_false; intros h Hh); cbn [destroy_at owns height] in *;
    try (by apply triple_ret); try (apply triple_hand; intros _; by apply triple_ret).
  - apply triple_hex. intros om. eapply step_reads; [apply reads_map|]. rewrite sep_comm.
    eapply triple_call; [apply triple_for_each|intros []; rewrite emp_sep; apply triple_free].
    intros p q Hp. apply triple_hand. intros _. apply IH.
    by apply (height_in (λ p, height p.2) m).
  - apply triple_hex. intros os. eapply step_reads; [apply reads_list|]. rewrite sep_comm.
    pose proof (triple_for_each owns js os id (destroy_at n)) as H. rewrite map_id in H.
    eapply triple_call; [apply H|intros []; rewrite emp_sep; apply triple_free]. intros j o Hj. apply IH.
    by apply (height_in height js).
  - rewrite <- (sep_emp (l ↦ _)). eapply step_reads; [apply hash_block|]. rewrite sep_emp. apply triple_free.
  - rewrite <- (sep_emp (l ↦ _)). eapply step_reads; [apply string_block|]. rewrite sep_emp. apply triple_free.
Qed.
Lemma destroy_triple j o : triple (owns j o) (destroy o) (λ _, emp).
Proof.
  rewrite <- (sep_emp (owns j o)). unfold destroy. apply (triple_sized _ _ _ (λ n, destroy_at n o)). intros n Hn. rewrite sep_emp. by apply destroy_at_spec.
Qed.

Lemma field_copy p q n :
  triple (owns p.2 q.2) (copy_at n q.2) (λ o', owns p.2 q.2 ∗∗ owns p.2 o') →
  triple (field p q) (o ← copy_at n q.2; mret (q.1, o)) (λ q', field p q ∗∗ field p q').
Proof.
  intros H. apply triple_hand. intros Hk. eapply triple_bind; [exact H|]. intros o'. apply triple_ret.
  rewrite sep_hand, (sep_comm _ (hand _ _)), sep_hand, sep_comm. intros h Hh. split; [done|]. by split.
Qed.
Lemma hex_sep_hex {A B} (P : A → hprop) (Q : B → hprop) a b : (P a ∗∗ Q b) ⊢ₕ (hex P ∗∗ hex Q).
Proof. apply sep_himpl; intros h Hh; by eexists. Qed.
Lemma copy_at_spec n : ∀ j o, (height j < n)%nat → triple (owns j o) (copy_at n o) (λ o', owns j o ∗∗ owns j o').
Proof.
  assert (∀ φ : Prop, (⌜φ⌝ ∧∧ emp) ⊢ₕ ((⌜φ⌝ ∧∧ emp) ∗∗ (⌜φ⌝ ∧∧ emp))) as Hdup.
  { intros φ. rewrite sep_hand, emp_sep. by intros h [H1 H2]. }
  induction n as [|n IH]; intros j o Hn; [lia|].
  destruct j as [|m|js|v|s|d|z|b], o as [|l|l|l|l|d'|z'|b']; try (by apply triple_false; intros h Hh); cbn [copy_at height] in *.
  - apply triple_ret. cbn. by rewrite emp_sep.
  - apply triple_hex. intros om. eapply step_reads; [apply reads_map|]. rewrite sep_comm.
    eapply triple_call; [apply triple_map_m; intros p q Hp; apply field_copy, IH; by apply (height_in (λ p, height p.2) m)|].
    intros om'. apply step_new. intros l'. apply triple_ret. etrans; [|apply hex_sep_hex].
    instantiate (1 := om'). instantiate (1 := om). sep_ac.
  - apply triple_hex. intros os. eapply step_reads; [apply reads_list|]. rewrite sep_comm.
    eapply triple_call; [apply triple_map_m; intros j o Hj; apply IH; by apply (height_in height js)|].
    intros os'. apply step_new. intros l'. apply triple_ret. etrans; [|apply hex_sep_hex].
    instantiate (1 := os'). instantiate (1 := os). sep_ac.
  - rewrite <- (sep_emp (owns _ _)). eapply step_reads; [apply hash_block|]. apply step_new. intros l'. apply triple_ret. cbn [owns]. sep_ac.
  - rewrite <- (sep_emp (owns _ _)). eapply step_reads; [apply string_block|]. apply step_new. intros l'. apply triple_ret. cbn [owns]. sep_ac.
  - apply triple_ret, Hdup.
  - apply triple_ret, Hdup.
  - apply triple_ret, Hdup.
Qed.
Lemma copy_triple j o : triple (owns j o) (copy_json o) (λ o', owns j o ∗∗ owns j o').
Proof.
  rewrite <- (sep_emp (owns j o)) at 1. unfold copy_json. apply (triple_sized _ _ _ (λ n, copy_at n o)). intros n Hn. rewrite sep_emp. by apply copy_at_spec.
Qed.

(** ** Parts of a list, and of a map *)
Lemma pairwise_one {X Y} (R : X → Y → hprop) i : ∀ xs ys, (i < List.length xs)%nat → (i < List.length ys)%nat →
  ∃ P, ∀ x y, hequiv (pairwise R (<[i := x]> xs) (<[i := y]> ys)) (R x y ∗∗ P).
Proof.
  induction i as [|i IH]; intros [|x0 xs] [|y0 ys] Hx Hy; cbn in Hx, Hy; try lia; [by exists (pairwise R xs ys)|].
  destruct (IH xs ys) as [P HP]; [lia|lia|]. exists (R x0 y0 ∗∗ P). intros x y. cbn. rewrite HP. aac_reflexivity.
Qed.
Lemma pairwise_two {X Y} (R : X → Y → hprop) ys y y' : ∀ i i' xs, i ≠ i' →
  (i < List.length xs)%nat → (i' < List.length xs)%nat → ys !! i = Some y → ys !! i' = Some y' →
  ∃ P, ∀ x x', hequiv (pairwise R (<[i := x]> (<[i' := x']> xs)) ys) (R x y ∗∗ R x' y' ∗∗ P).
Proof.
  induction ys as [|y0 ys IH]; intros [|i] [|i'] [|x0 xs] Hne Hi Hi' Hy Hy'; cbn in *; try lia; try done.
  - injection Hy as ->. destruct (pairwise_one R i' xs ys) as [P HP]; [lia|by eapply lookup_lt_Some|].
    exists P. intros x x'. specialize (HP x' y'). rewrite (list_insert_id ys) in HP by done. rewrite HP. done.
  - injection Hy' as ->. destruct (pairwise_one R i xs ys) as [P HP]; [lia|by eapply lookup_lt_Some|].
    exists P. intros x x'. specialize (HP x y). rewrite (list_insert_id ys) in HP by done. rewrite HP. aac_reflexivity.
  - destruct (IH i i' xs) as [P HP]; [lia|lia|lia|done|done|]. exists (R x0 y0 ∗∗ P). intros x x'. rewrite HP. aac_reflexivity.
Qed.
Lemma pairwise_snoc {X Y} (R : X → Y → hprop) xs ys x y : (pairwise R xs ys ∗∗ R x y) ⊢ₕ pairwise R (xs ++ [x]) (ys ++ [y]).
Proof.
  revert ys. induction xs as [|x0 xs IH]; intros [|y0 ys]; cbn.
  - rewrite sep_emp, emp_sep. done.
  - intros h (h1 & h2 & _ & _ & [] & _).
  - intros h (h1 & h2 & _ & _ & [] & _).
  - rewrite <- IH. sep_ac.
Qed.
Lemma nth_replicate_null i n : nth i (replicate n JNull) JNull = JNull.
Proof. revert i. induction n as [|n IH]; intros [|i]; cbn; done. Qed.
Lemma pairwise_grow js os n : pairwise owns js os ⊢ₕ pairwise owns (js ++ replicate n JNull) (os ++ replicate n ONull).
Proof.
  revert js os. induction n as [|n IH]; intros js os; cbn [replicate]; [by rewrite !app_nil_r|].
  rewrite (cons_middle JNull), (cons_middle ONull), !app_assoc, <- IH, <- pairwise_snoc. cbn. by rewrite sep_emp.
Qed.
Lemma pairwise_split js os i : (i < List.length js)%nat → (i < List.length os)%nat →
  ∃ P, (pairwise owns js os ⊢ₕ (owns (nth i js JNull) (nth i os ONull) ∗∗ P)) ∧
    ∀ j o, (owns j o ∗∗ P) ⊢ₕ pairwise owns (<[i := j]> js) (<[i := o]> os).
Proof.
  intros Hj Ho. destruct (pairwise_one owns i js os Hj Ho) as [P HP]. exists P. split; [|intros j o; by rewrite HP].
  rewrite <- HP. rewrite !list_insert_id; [done| |]; rewrite nth_lookup.
  - by destruct (lookup_lt_is_Some_2 os i Ho) as [? ->].
  - by destruct (lookup_lt_is_Some_2 js i Hj) as [? ->].
Qed.

Ltac to_himpl := lazymatch goal with |- ∀ h, ?P h → ?Q h => change (himpl P Q) end.
Lemma field_keys m om h : pairwise field m om h → map fst m = map fst om.
Proof.
  revert om h. induction m as [|p m IH]; intros [|q om] h; try done.
  intros (h1 & h2 & _ & _ & [Hk _] & H). cbn. f_equal; [done|by eapply IH].
Qed.
Lemma field_split k m : ∀ om, pairwise field m om ⊢ₕ
  (owns (map_get JNull k m) (map_get ONull k om) ∗∗ pairwise field (map_erase k m) (map_erase k om)).
Proof.
  unfold map_get. induction m as [|[k1 v] m IH]; intros [|[k2 o] om]; [cbn; by rewrite emp_sep|by intros h []|by intros h []|].
  intros h H. pose proof (field_keys _ _ _ H) as Hk. injection Hk as <- Hk. revert h H. to_himpl. cbn. case_decide.
  - rewrite sep_hand. by intros h [_ H'].
  - cbn. rewrite IH. sep_ac.
Qed.
Lemma field_join k v o m : ∀ om, map_find k m = None →
  (owns v o ∗∗ pairwise field m om) ⊢ₕ pairwise field (map_set k v m) (map_set k o om).
Proof.
  assert (∀ P, (owns v o ∗∗ P) ⊢ₕ (field (k, v) (k, o) ∗∗ P)) as Hin.
  { intros P. rewrite sep_hand. by intros h H. }
  induction m as [|[k1 v1] m IH]; intros [|[k2 o2] om] Hk; try (by intros h (h1 & h2 & _ & _ & _ & [])); [apply Hin|].
  intros h H. assert (k1 = k2) as <-. { destruct H as (h1 & h2 & _ & _ & _ & Hf). by injection (field_keys _ _ _ Hf). }
  revert h H. to_himpl. cbn [map_set map_find] in *. destruct (decide (k = k1)) as [|Hne]; [done|]. destruct (bytes_cmp k k1) eqn:E.
  - by apply bytes_cmp_eq in E.
  - apply Hin.
  - cbn [pairwise]. rewrite <- IH by done. sep_ac.
Qed.
Lemma map_erase_none {V} k (m : list (bytes * V)) : map_find k m = None → map_erase k m = m.
Proof. induction m as [|[k' v] m IH]; [done|]. cbn. case_decide; [done|]. intros Hm. by rewrite IH. Qed.
Lemma map_erase_ok {V} k (m : list (bytes * V)) : map_ok m → map_ok (map_erase k m).
Proof.
  induction m as [|[k' v] m IH]; [done|]. intros Hm. pose proof Hm as [Hf Hs]%map_ok_cons. cbn. case_decide; [done|].
  apply map_ok_cons. split; [|by apply IH]. clear -Hf. induction m as [|[k2 v2] m IH]; [done|]. inversion Hf; subst. cbn. case_decide; [done|]. constructor; auto.
Qed.
Lemma map_set_erase {V} k (v : V) m : map_ok m → map_set k v (map_erase k m) = map_set k v m.
Proof.
  intros Hm. apply map_ext; [by apply map_set_ok, map_erase_ok|by apply map_set_ok|].
  intros k'. rewrite !map_find_set. case_decide; [done|]. by apply map_find_erase_ne.
Qed.
Lemma map_touch_set {V} (d : V) k m : map_ok m → map_touch d k m = map_set k (map_get d k m) m.
Proof.
  intros Hm. unfold map_touch, map_has, map_get. destruct (map_find k m) as [v|] eqn:E; [|done]. cbn. by rewrite map_set_id.
Qed.

(** ** References

    [lval r F j]: through [r] the value [j] is seen, and writing [j'] there leaves
    the memory as [F j'] says. *)
Definition refers (r : ref) (l : loc) (B : obj → block) : Prop :=
  ∀ o, reads (l ↦ B o) (get_ref r) o ∧ ∀ o', triple (l ↦ B o) (set_ref r o') (λ _, l ↦ B o').
(** The cell, and what its object owns *)
Definition cell (l : loc) (B : obj → block) (j : json) : hprop := hex (λ o, l ↦ B o ∗∗ owns j o).
Definition lval (r : ref) (F : json → hprop) (j : json) : hprop :=
  hex (λ l, hex (λ B, hex (λ P, ⌜refers r l B ∧ ∀ j', (cell l B j' ∗∗ P) ⊢ₕ F j'⌝ ∧∧ (cell l B j ∗∗ P)))).

Lemma lval_intro r l B F j P : refers r l B → (∀ j', (cell l B j' ∗∗ P) ⊢ₕ F j') → (cell l B j ∗∗ P) ⊢ₕ lval r F j.
Proof. intros Hr HF h Hh. by exists l, B, P. Qed.
Lemma lval_elim r F j : lval r F j ⊢ₕ F j.
Proof. intros h (l & B & P & [_ HF] & H). by apply HF. Qed.
Lemma lval_mono r F G j : (∀ j', F j' ⊢ₕ G j') → lval r F j ⊢ₕ lval r G j.
Proof. intros H h (l & B & P & [Hr HF] & Hh). exists l, B, P. split; [|done]. split; [done|]. intros j'. by rewrite HF. Qed.
(** Opening a reference *)
Lemma lval_open {A} r F j P (m : HM A) Q :
  (∀ l B R, refers r l B → (∀ j', (cell l B j' ∗∗ R) ⊢ₕ F j') → triple (cell l B j ∗∗ R ∗∗ P) m Q) → triple (lval r F j ∗∗ P) m Q.
Proof.
  intros H. unfold lval. rewrite sep_hex. apply triple_hex. intros l. rewrite sep_hex. apply triple_hex. intros B.
  rewrite sep_hex. apply triple_hex. intros R. rewrite sep_hand. apply triple_hand. intros [Hr HF].
  rewrite <- sep_assoc. by apply H.
Qed.
(** An operation that needs only the cell *)
Lemma lval_at {A} r F j j' (m : HM A) P :
  (∀ l B, refers r l B → triple (cell l B j) m (λ _, cell l B j' ∗∗ P)) → triple (lval r F j) m (λ _, lval r F j' ∗∗ P).
Proof.
  intros H. rewrite <- (sep_emp (lval r F j)). apply lval_open. intros l B R Hr HF. rewrite sep_emp.
  eapply triple_post; [apply triple_frame, H; exact Hr|]. intros a. cbn.
  rewrite <- (lval_intro r l B F j' R Hr HF). sep_ac.
Qed.
Lemma lval_to {A} r F j j' (m : HM A) :
  (∀ l B, refers r l B → triple (cell l B j) m (λ _, cell l B j')) → triple (lval r F j) m (λ _, lval r F j').
Proof.
  intros H. eapply triple_post; [apply (lval_at r F j j' m emp)|]; [|intros a; cbn; by rewrite sep_emp].
  intros l B Hr. eapply triple_post; [by apply H|]. intros a. cbn. by rewrite sep_emp.
Qed.
Lemma refers_var x : refers (RVar x) x BJSON.
Proof. intros o. split; [apply reads_var|]. intros o'. apply triple_store. Qed.
Lemma var_lval x j : var x j ⊢ₕ lval (RVar x) (var x) j.
Proof. rewrite <- (sep_emp (var x j)). apply lval_intro; [apply refers_var|]. intros j'. by rewrite sep_emp. Qed.
Lemma step_get {A} r l B o (f : obj → HM A) P Q :
  refers r l B → triple (l ↦ B o ∗∗ P) (f o) Q → triple (l ↦ B o ∗∗ P) (get_ref r ≫= f) Q.
Proof. intros Hr. apply step_reads. apply Hr. Qed.
Lemma triple_set r l B o o' P Q :
  refers r l B → (l ↦ B o' ∗∗ P) ⊢ₕ Q → triple (l ↦ B o ∗∗ P) (set_ref r o') (λ _, Q).
Proof. intros Hr HQ. eapply triple_post; [apply triple_frame, Hr|]. intros a. exact HQ. Qed.

(** *** [SetType], assignments *)
Definition jclass (j : json) : class :=
  match j with
  | JNull => CNull | JObject _ => CObject | JArray _ => CArray | JHash _ => CHash | JString _ => CString
  | JFloating _ => CFloating | JIntegral _ => CIntegral | JBoolean _ => CBoolean
  end.
Definition jempty (c : class) (noise : bytes) : json :=
  match c with
  | CNull => JNull | CObject => JObject [] | CArray => JArray [] | CHash => JHash noise | CString => JString []
  | CFloating => JFloating (CDouble (str "0.0") 0) | CIntegral => JIntegral 0 | CBoolean => JBoolean false
  end.
Definition retype (c : class) (noise : bytes) (j : json) : json := if decide (c = jclass j) then j else jempty c noise.

Lemma owns_class j o h : owns j o h → JSONType o = jclass j.
Proof. by destruct j, o. Qed.
Lemma hex_intro {A} (a : A) P (Q : A → hprop) : P ⊢ₕ Q a → P ⊢ₕ hex Q.
Proof. intros H h Hh. exists a. by apply H. Qed.
Lemma empty_triple c noise P : triple P (empty_of c noise) (λ o, owns (jempty c noise) o ∗∗ P).
Proof.
  destruct c; cbn [empty_of jempty]; try (apply step_new; intros l); apply triple_ret; cbn [owns]; rewrite ?sep_hand, ?emp_sep; try done;
    rewrite sep_hex; apply (hex_intro []); cbn [pairwise]; sep_ac.
Qed.
Lemma settype_cell c noise r l B j :
  refers r l B → triple (cell l B j) (SetType c noise r) (λ _, cell l B (retype c noise j)).
Proof.
  intros Hr. apply triple_hex. intros o. apply step_get; [done|].
  apply (triple_know (JSONType o = jclass j)). { intros h (h1 & h2 & _ & _ & _ & H). by eapply owns_class. }
  intros ->. unfold retype. case_decide; [apply triple_ret; intros h H'; by exists o|].
  rewrite sep_comm. eapply triple_call; [apply destroy_triple|]. intros []. rewrite emp_sep.
  eapply triple_bind; [apply empty_triple|]. intros o'. rewrite sep_comm. apply triple_set; [done|]. intros h Hh. by exists o'.
Qed.
Lemma settype_lval c noise r F j : triple (lval r F j) (SetType c noise r) (λ _, lval r F (retype c noise j)).
Proof. apply lval_to. intros l B Hr. by apply settype_cell. Qed.
Lemma retype_object noise j : retype CObject noise j = JObject (as_object j).
Proof. by destruct j. Qed.
Lemma retype_array noise j : retype CArray noise j = JArray (as_array j).
Proof. by destruct j. Qed.

(** After [SetType] the cell holds an object of that type. *)
Lemma retyped {A} c noise r l B j (f : unit → HM A) P Q :
  refers r l B →
  (∀ o, JSONType o = c → triple (l ↦ B o ∗∗ owns (retype c noise j) o ∗∗ P) (f tt) Q) →
  triple (cell l B j ∗∗ P) (SetType c noise r ≫= f) Q.
Proof.
  intros Hr H. eapply triple_call; [by apply settype_cell|]. intros []. unfold cell. rewrite sep_hex. apply triple_hex. intros o.
  rewrite <- sep_assoc. apply (triple_know (JSONType o = c)); [|by intros; apply H].
  intros h (h1 & h2 & _ & _ & _ & h3 & h4 & _ & _ & Ho & _). rewrite (owns_class _ _ _ Ho). unfold retype. case_decide; [done|]. by destruct c.
Qed.
Lemma assign_int_cell r l B j z : refers r l B → triple (cell l B j) (assign_int r z) (λ _, cell l B (jint z)).
Proof.
  intros Hr. rewrite <- sep_emp. apply retyped; [done|]. intros [] Ho; try done. apply triple_set; [done|].
  rewrite sep_emp. unfold retype. intros h H. exists (OIntegral (i64 z)). revert h H. to_himpl. cbn [owns jint].
  apply sep_himpl; [done|]. intros h H. split; [done|]. case_decide; [by destruct j; try done; destruct H|by destruct H].
Qed.
Lemma assign_bool_cell r l B j b : refers r l B → triple (cell l B j) (assign_bool r b) (λ _, cell l B (JBoolean b)).
Proof.
  intros Hr. rewrite <- sep_emp. apply retyped; [done|]. intros [] Ho; try done. apply triple_set; [done|].
  rewrite sep_emp. unfold retype. intros h H. exists (OBoolean b). revert h H. to_himpl. cbn [owns].
  apply sep_himpl; [done|]. intros h H. split; [done|]. case_decide; [by destruct j; try done; destruct H|by destruct H].
Qed.
Lemma assign_string_cell r l B j s : refers r l B → triple (cell l B j) (assign_string r s) (λ _, cell l B (JString s)).
Proof.
  intros Hr. rewrite <- sep_emp. apply retyped; [done|]. intros [] Ho; try done. rewrite sep_emp. apply step_get; [done|].
  assert (∃ s0, retype CString [] j = JString s0) as [s0 ->] by (destruct j; by eexists). cbn [owns]. rewrite sep_comm.
  eapply step_reads; [apply string_block|]. eapply triple_post; [apply triple_frame, triple_store|].
  intros []. apply (hex_intro (OString l0)). cbn [owns]. sep_ac.
Qed.
(** Blocks that nothing points to any more *)
Fixpoint lost (n : nat) : hprop := match n with O => emp | S n => hex (λ l, hex (λ v, l ↦ BHash v)) ∗∗ lost n end.
Lemma lost_add n m : hequiv (lost (n + m)) (lost n ∗∗ lost m).
Proof. induction n as [|n IH]; cbn; [by rewrite emp_sep|]. rewrite IH. aac_reflexivity. Qed.
Lemma assign_hash_cell noise r l B j v :
  refers r l B → (32 <= List.length v)%nat → triple (cell l B j) (assign_hash noise r v) (λ _, cell l B (jhash v) ∗∗ lost 1).
Proof.
  intros Hr Hv. rewrite <- sep_emp. unfold assign_hash. rewrite (proj2 (Nat.ltb_ge _ _)) by done.
  apply retyped; [done|]. intros [] Ho; try done. rewrite sep_emp.
  assert (∃ v0, retype CHash noise j = JHash v0) as [v0 ->] by (destruct j; by eexists). cbn [owns].
  apply step_new. intros l2. sep_turn (l ↦ B (OHash l0) ∗∗ l0 ↦ BHash v0 ∗∗ l2 ↦ BHash (take 32 v)). apply triple_set; [done|].
  unfold cell. rewrite sep_hex. apply (hex_intro (OHash l2)). cbn [owns jhash lost]. rewrite sep_emp.
  rewrite <- (hex_intro l0 _ _ (hex_intro v0 _ (λ v, l0 ↦ BHash v) (reflexivity _))). sep_ac.
Qed.

Lemma assign_lval r r' F G j j' : triple (lval r F j ∗∗ lval r' G j') (assign r r') (λ _, lval r F j' ∗∗ lval r' G j').
Proof.
  apply lval_open. intros l B R Hr HF. rewrite sep_assoc, sep_comm. apply lval_open. intros l' B' R' Hr' HG.
  sep_turn (cell l B j ∗∗ R ∗∗ cell l' B' j' ∗∗ R'). unfold cell at 1. rewrite sep_hex. apply triple_hex. intros o.
  rewrite <- sep_assoc. apply step_get; [done|]. sep_turn (owns j o ∗∗ l ↦ B o ∗∗ R ∗∗ cell l' B' j' ∗∗ R').
  eapply triple_call; [apply destroy_triple|]. intros []. rewrite emp_sep.
  sep_turn (cell l' B' j' ∗∗ l ↦ B o ∗∗ R ∗∗ R'). unfold cell at 1. rewrite sep_hex. apply triple_hex. intros o'.
  rewrite <- sep_assoc. apply step_get; [done|]. sep_turn (owns j' o' ∗∗ l' ↦ B' o' ∗∗ l ↦ B o ∗∗ R ∗∗ R').
  eapply triple_call; [apply copy_triple|]. intros c. sep_turn (l ↦ B o ∗∗ owns j' o' ∗∗ owns j' c ∗∗ l' ↦ B' o' ∗∗ R ∗∗ R').
  apply triple_set; [done|]. rewrite <- (lval_intro r l B F j' R), <- (lval_intro r' l' B' G j' R') by done.
  unfold cell. rewrite <- (hex_intro c _ _ (reflexivity _)), <- (hex_intro o' _ _ (reflexivity _)). sep_ac.
Qed.
Lemma assign_move_lval r r' F G j j' : triple (lval r F j ∗∗ lval r' G j') (assign_move r r') (λ _, lval r F j' ∗∗ lval r' G JNull).
Proof.
  apply lval_open. intros l B R Hr HF. rewrite sep_assoc, sep_comm. apply lval_open. intros l' B' R' Hr' HG.
  sep_turn (cell l B j ∗∗ R ∗∗ cell l' B' j' ∗∗ R'). unfold cell at 1. rewrite sep_hex. apply triple_hex. intros o.
  rewrite <- sep_assoc. apply step_get; [done|]. sep_turn (owns j o ∗∗ l ↦ B o ∗∗ R ∗∗ cell l' B' j' ∗∗ R').
  eapply triple_call; [apply destroy_triple|]. intros []. rewrite emp_sep.
  sep_turn (cell l' B' j' ∗∗ l ↦ B o ∗∗ R ∗∗ R'). unfold cell at 1. rewrite sep_hex. apply triple_hex. intros o'.
  rewrite <- sep_assoc. apply step_get; [done|]. sep_turn (l ↦ B o ∗∗ l' ↦ B' o' ∗∗ owns j' o' ∗∗ R ∗∗ R').
  eapply triple_bind; [apply triple_set; [exact Hr|reflexivity]|]. intros []. sep_turn (l' ↦ B' o' ∗∗ l ↦ B o' ∗∗ owns j' o' ∗∗ R ∗∗ R').
  apply triple_set; [done|]. rewrite <- (lval_intro r l B F j' R), <- (lval_intro r' l' B' G JNull R') by done.
  unfold cell. rewrite <- (hex_intro o' _ _ (reflexivity _)), <- (hex_intro ONull _ _ (reflexivity _)). cbn [owns]. sep_ac.
Qed.

(** *** Subscripts *)
Lemma refers_field l k m : map_ok m → refers (RField l k) l (λ o, BMap (map_set k o m)).
Proof.
  intros Hm o. split.
  - cbn [get_ref]. eapply reads_bind; [apply reads_map|]. rewrite map_find_set_eq. apply reads_ret.
  - intros o'. cbn [set_ref]. rewrite <- (sep_emp (l ↦ BMap (map_set k o m))). eapply step_reads; [apply reads_map|].
    rewrite sep_emp, map_set_set by done. apply triple_store.
Qed.
Lemma refers_elem l i os : (i < List.length os)%nat → refers (RElem l i) l (λ o, BList (<[i := o]> os)).
Proof.
  intros Hi o. split.
  - cbn [get_ref]. eapply reads_bind; [apply reads_list|]. rewrite list_lookup_insert_eq by done. apply reads_ret.
  - intros o'. cbn [set_ref]. rewrite <- (sep_emp (l ↦ BList (<[i := o]> os))). eapply step_reads; [apply reads_list|].
    rewrite sep_emp, list_insert_insert_eq. apply triple_store.
Qed.
Lemma subscript_key_lval r k F j : map_ok (as_object j) →
  triple (lval r F j) (subscript_key r k) (λ r', lval r' (λ v, F (jkey_set k v j)) (jkey k j)).
Proof.
  intros Hm. unfold jkey, jkey_set. rewrite <- (sep_emp (lval r F j)). apply lval_open. intros l B R Hr HF. rewrite sep_emp.
  apply retyped; [done|]. rewrite retype_object. intros o Ho. destruct o as [|l'| | | | | |]; try done. apply step_get; [done|].
  cbn [owns]. rewrite (sep_comm (l ↦ _)), sep_hex, sep_hex. apply triple_hex. intros om. rewrite <- !sep_assoc.
  eapply step_reads; [apply reads_map|]. apply (triple_know (map_ok om)).
  { intros h (h1 & h2 & _ & _ & _ & h3 & h4 & _ & _ & Hf & _). unfold map_ok. by rewrite <- (field_keys _ _ _ Hf). }
  intros Hom. apply step_store. apply triple_ret. rewrite map_touch_set by done.
  set (m := as_object j) in *. rewrite (field_split k m om). set (v := map_get JNull k m). set (c := map_get ONull k om).
  etrans; [|apply (lval_intro (RField l' k) l' _ _ v (pairwise field (map_erase k m) (map_erase k om) ∗∗ l ↦ B (OObject l') ∗∗ R) (refers_field l' k om Hom))].
  - unfold cell. rewrite <- (hex_intro c _ _ (reflexivity _)). sep_ac.
  - intros v'. unfold cell at 1. rewrite sep_hex. intros h [c' Hh]. apply HF. revert h Hh. to_himpl.
    unfold cell. rewrite <- (hex_intro (OObject l') _ _ (reflexivity _)). cbn [owns]. rewrite <- (hex_intro (map_set k c' om) _ _ (reflexivity _)).
    rewrite <- (map_set_erase k v' m Hm), <- (map_set_erase k c' om Hom), <- field_join by (by apply map_find_erase_eq). sep_ac.
Qed.
Lemma subscript_index_lval r i F j :
  triple (lval r F j) (subscript_index r i) (λ r', lval r' (λ v, F (jidx_set i v j)) (jidx i j)).
Proof.
  unfold jidx, jidx_set. rewrite <- (sep_emp (lval r F j)). apply lval_open. intros l B R Hr HF. rewrite sep_emp.
  apply retyped; [done|]. rewrite retype_array. intros o Ho. destruct o as [| |l'| | | | |]; try done. apply step_get; [done|].
  cbn [owns]. rewrite (sep_comm (l ↦ _)), sep_hex, sep_hex. apply triple_hex. intros os. rewrite <- !sep_assoc.
  eapply step_reads; [apply reads_list|]. apply (triple_know (List.length (as_array j) = List.length os)).
  { intros h (h1 & h2 & _ & _ & _ & h3 & h4 & _ & _ & Hf & _). by eapply pairwise_length. }
  intros Hlen. set (js := as_array j) in *. set (n := (S i - List.length os)%nat).
  apply (triple_bind _ _ _ (λ _, l' ↦ BList (os ++ replicate n ONull) ∗∗ pairwise owns js os ∗∗ R ∗∗ l ↦ B (OArray l'))).
  { destruct (Nat.leb_spec (List.length os) i); [by apply triple_frame, triple_store|]. apply triple_ret.
    subst n. replace (S i - List.length os)%nat with O by lia. cbn. by rewrite app_nil_r. }
  intros []. apply triple_ret. rewrite (pairwise_grow js os n). unfold resize. rewrite Hlen. fold n.
  set (js' := js ++ replicate n JNull). set (os' := os ++ replicate n ONull).
  assert (i < List.length js' ∧ i < List.length os')%nat as [Hj Ho'] by (subst js' os' n; rewrite !length_app, !length_replicate; lia).
  assert (nth i js JNull = nth i js' JNull) as ->.
  { subst js'. destruct (Nat.lt_ge_cases i (List.length js)); [by rewrite app_nth1|]. rewrite nth_overflow by done. rewrite app_nth2 by lia. symmetry. apply nth_replicate_null. }
  destruct (pairwise_split js' os' i Hj Ho') as (P & Hs & Hjn). rewrite Hs.
  etrans; [|apply (lval_intro (RElem l' i) l' _ _ (nth i js' JNull) (P ∗∗ l ↦ B (OArray l') ∗∗ R) (refers_elem l' i os' Ho'))].
  - unfold cell. rewrite <- (hex_intro (nth i os' ONull) _ _ (reflexivity _)). rewrite (list_insert_id os'); [sep_ac|].
    rewrite nth_lookup. by destruct (lookup_lt_is_Some_2 os' i Ho') as [? ->].
  - intros v'. unfold cell at 1. rewrite sep_hex. intros h [c' Hh]. apply HF. revert h Hh. to_himpl.
    unfold cell. rewrite <- (hex_intro (OArray l') _ _ (reflexivity _)). cbn [owns]. rewrite <- (hex_intro (<[i := c']> os') _ _ (reflexivity _)).
    rewrite <- Hjn. sep_ac.
Qed.
Lemma append_lval r r' F G j j' : triple (lval r F j ∗∗ lval r' G j') (append r r') (λ _, lval r F (jappend j' j) ∗∗ lval r' G j').
Proof.
  rewrite sep_comm. apply lval_open. intros l' B' R' Hr' HG. rewrite sep_assoc, sep_comm.
  sep_turn (cell l' B' j' ∗∗ lval r F j ∗∗ R'). unfold cell at 1. rewrite sep_hex. apply triple_hex. intros o'.
  rewrite <- sep_assoc. apply step_get; [done|]. sep_turn (owns j' o' ∗∗ l' ↦ B' o' ∗∗ lval r F j ∗∗ R').
  eapply triple_call; [apply copy_triple|]. intros arg. sep_turn (lval r F j ∗∗ owns j' arg ∗∗ l' ↦ B' o' ∗∗ owns j' o' ∗∗ R').
  apply lval_open. intros l B R Hr HF. apply retyped; [done|]. rewrite retype_array. intros o Ho.
  destruct o as [| |la| | | | |]; try done. apply step_get; [done|]. cbn [owns]. rewrite (sep_comm (l ↦ _)), sep_hex, sep_hex.
  apply triple_hex. intros os. rewrite <- !sep_assoc. eapply step_reads; [apply reads_list|]. set (js := as_array j).
  sep_turn (owns j' arg ∗∗ la ↦ BList os ∗∗ pairwise owns js os ∗∗ l ↦ B (OArray la) ∗∗ R ∗∗ l' ↦ B' o' ∗∗ owns j' o' ∗∗ R'). eapply triple_call; [apply copy_triple|]. intros e.
  sep_turn (la ↦ BList os ∗∗ owns j' arg ∗∗ owns j' e ∗∗ pairwise owns js os ∗∗ l ↦ B (OArray la) ∗∗ R ∗∗ l' ↦ B' o' ∗∗ owns j' o' ∗∗ R'). apply step_store.
  sep_turn (owns j' arg ∗∗ la ↦ BList (os ++ [e]) ∗∗ owns j' e ∗∗ pairwise owns js os ∗∗ l ↦ B (OArray la) ∗∗ R ∗∗ l' ↦ B' o' ∗∗ owns j' o' ∗∗ R'). eapply triple_post; [apply triple_frame, destroy_triple|]. intros []. cbn.
  rewrite emp_sep. rewrite <- (lval_intro r l B F (jappend j' j) R), <- (lval_intro r' l' B' G j' R') by done.
  unfold cell, jappend. rewrite <- (hex_intro (OArray la) _ _ (reflexivity _)), <- (hex_intro o' _ _ (reflexivity _)). cbn [owns].
  rewrite <- (hex_intro (os ++ [e]) _ _ (reflexivity _)), <- pairwise_snoc. fold js. sep_ac.
Qed.

(** ** Programs over variables

    What code does with [JSON]s: declare them, subscript them, assign to them, append
    to them and leave their scope.  [exec] runs a program on values, [run] on objects. *)
Inductive sub := SKey (k : bytes) | SIndex (i : nat).
Abbreviation path := (list sub).
Inductive stmt :=
| SSkip | SSeq (a b : stmt)
| SBlock (body : stmt)                        (* { JSON v; body }; variables are numbered inside out *)
| SAssign (x : nat) (p : path) (y : nat) (q : path)   (* x[p] = y[q] *)
| SMove (x : nat) (p : path) (y : nat) (q : path)     (* x[p] = std::move(y[q]) *)
| SAppend (x : nat) (p : path) (y : nat) (q : path)   (* x[p].append(y[q]) *)
| SInt (x : nat) (p : path) (z : Z) | SBool (x : nat) (p : path) (b : bool)
| SString (x : nat) (p : path) (s : bytes) | SHash (x : nat) (p : path) (noise v : bytes).

Definition jsub (s : sub) (j : json) : json := match s with SKey k => jkey k j | SIndex i => jidx i j end.
Definition jsub_set (s : sub) (v j : json) : json := match s with SKey k => jkey_set k v j | SIndex i => jidx_set i v j end.
Fixpoint jpath (p : path) (j : json) : json := match p with [] => j | s :: p => jpath p (jsub s j) end.
Fixpoint jpath_set (p : path) (v j : json) : json :=
  match p with [] => v | s :: p => jsub_set s (jpath_set p v (jsub s j)) j end.

Definition jvar (js : list json) (x : nat) : json := nth x js JNull.
Definition set_at (x : nat) (p : path) (f : json → json) (js : list json) : list json :=
  <[x := jpath_set p (f (jpath p (jvar js x))) (jvar js x)]> js.
Fixpoint exec (s : stmt) (js : list json) : list json :=
  match s with
  | SSkip => js
  | SSeq a b => exec b (exec a js)
  | SBlock body => tail (exec body (JNull :: js))
  | SAssign x p y q => let v := jpath q (jvar js y) in set_at x p (λ _, v) (set_at y q (λ v, v) js)
  | SMove x p y q => let v := jpath q (jvar js y) in set_at x p (λ _, v) (set_at y q (λ _, JNull) js)
  | SAppend x p y q => let v := jpath q (jvar js y) in set_at x p (jappend v) (set_at y q (λ v, v) js)
  | SInt x p z => set_at x p (λ _, jint z) js
  | SBool x p b => set_at x p (λ _, JBoolean b) js
  | SString x p s => set_at x p (λ _, JString s) js
  | SHash x p _ v => set_at x p (λ _, jhash v) js
  end.

Definition subscript (r : ref) (s : sub) : HM ref := match s with SKey k => subscript_key r k | SIndex i => subscript_index r i end.
Fixpoint subscripts (r : ref) (p : path) : HM ref :=
  match p with [] => mret r | s :: p => r ← subscript r s; subscripts r p end.
Definition lvalue (env : list loc) (x : nat) (p : path) : HM ref :=
  match env !! x with Some l => subscripts (RVar l) p | None => undefined end.
Fixpoint run (s : stmt) (env : list loc) : HM unit :=
  match s with
  | SSkip => mret tt
  | SSeq a b => run a env;; run b env
  | SBlock body => l ← declare; run body (l :: env);; leave_scope l
  | SAssign x p y q => r' ← lvalue env y q; r ← lvalue env x p; assign r r'
  | SMove x p y q => r' ← lvalue env y q; r ← lvalue env x p; assign_move r r'
  | SAppend x p y q => r' ← lvalue env y q; r ← lvalue env x p; append r r'
  | SInt x p z => r ← lvalue env x p; assign_int r z
  | SBool x p b => r ← lvalue env x p; assign_bool r b
  | SString x p s => r ← lvalue env x p; assign_string r s
  | SHash x p noise v => r ← lvalue env x p; assign_hash noise r v
  end.

(** [n] variables are there, an assignment is between two of them, and a hash is 32 bytes. *)
Fixpoint scoped (n : nat) (s : stmt) : bool :=
  match s with
  | SSkip => true
  | SSeq a b => scoped n a && scoped n b
  | SBlock body => scoped (S n) body
  | SAssign x _ y _ | SMove x _ y _ | SAppend x _ y _ => (x <? n)%nat && (y <? n)%nat && negb (x =? y)%nat
  | SInt x _ _ | SBool x _ _ | SString x _ _ => (x <? n)%nat
  | SHash x _ _ v => (x <? n)%nat && (32 <=? List.length v)%nat
  end.
(** How often a hash is assigned *)
Fixpoint hashes (s : stmt) : nat :=
  match s with SSeq a b => hashes a + hashes b | SBlock body => hashes body | SHash _ _ _ _ => 1 | _ => 0 end.
Definition vars (env : list loc) (js : list json) : hprop := pairwise (λ j x, var x j) js env.

Lemma jidx_set_ok i v j : json_ok v → json_ok j → json_ok (jidx_set i v j).
Proof.
  intros Hv Hl%as_array_ok. constructor. apply Forall_insert; [|done]. unfold resize. apply Forall_app. split; [done|].
  apply Forall_replicate. constructor.
Qed.
Lemma jsub_ok s j : json_ok j → json_ok (jsub s j).
Proof. destruct s; cbn; auto with sworker. Qed.
Lemma jpath_ok p : ∀ j, json_ok j → json_ok (jpath p j).
Proof. induction p as [|s p IH]; intros j Hj; [done|]. cbn. by apply IH, jsub_ok. Qed.
Lemma jpath_set_ok p v : json_ok v → ∀ j, json_ok j → json_ok (jpath_set p v j).
Proof.
  intros Hv. induction p as [|s p IH]; intros j Hj; [done|]. cbn. specialize (IH (jsub s j) (jsub_ok s j Hj)).
  destruct s; cbn; [by apply jkey_set_ok|by apply jidx_set_ok].
Qed.
Lemma jappend_ok v j : json_ok v → json_ok j → json_ok (jappend v j).
Proof. intros Hv Hl%as_array_ok. constructor. apply Forall_app. split; [done|by constructor]. Qed.
Lemma jvar_ok js x : Forall json_ok js → json_ok (jvar js x).
Proof.
  intros H. unfold jvar. destruct (nth_in_or_default x js JNull) as [Hx|Hx]; [|rewrite Hx; constructor].
  apply list_elem_of_In in Hx. rewrite Forall_forall in H. auto.
Qed.
Lemma set_at_ok x p f js : Forall json_ok js → (∀ v, json_ok v → json_ok (f v)) → Forall json_ok (set_at x p f js).
Proof.
  intros H Hf. apply Forall_insert; [done|]. apply jpath_set_ok; [|by apply jvar_ok]. by apply Hf, jpath_ok, jvar_ok.
Qed.
Lemma set_at_length x p f js : List.length (set_at x p f js) = List.length js.
Proof. apply length_insert. Qed.
Lemma hash_fits v : (32 <= List.length v)%nat → json_ok (jhash v).
Proof. intros H. constructor. rewrite length_take. lia. Qed.
Lemma exec_length s : ∀ js, List.length (exec s js) = List.length js.
Proof.
  induction s; intros js; cbn [exec]; rewrite ?set_at_length; try done; [by rewrite IHs2|].
  specialize (IHs (JNull :: js)). destruct (exec s (JNull :: js)); cbn in *; congruence.
Qed.
Lemma exec_ok s : ∀ js, scoped (List.length js) s = true → Forall json_ok js → Forall json_ok (exec s js).
Proof.
  induction s; intros js Hs Hj; cbn [exec scoped] in *; try done; try (repeat apply set_at_ok; intros; auto using jpath_ok, jvar_ok, jappend_ok, json_ok_jint, ok_null, ok_boolean, ok_string; done).
  - apply andb_prop in Hs as [H1 H2]. apply IHs2; [by rewrite exec_length|]. by apply IHs1.
  - assert (Forall json_ok (exec s (JNull :: js))) as H by (apply IHs; [done|]; by repeat constructor).
    destruct (exec s (JNull :: js)); [constructor|by inversion H].
  - apply andb_prop in Hs as [_ Hv%Nat.leb_le]. apply set_at_ok; [done|]. intros _ _. by apply hash_fits.
Qed.

Lemma subscripts_lval p : ∀ r F j, json_ok j →
  triple (lval r F j) (subscripts r p) (λ r', lval r' (λ v, F (jpath_set p v j)) (jpath p j)).
Proof.
  induction p as [|s p IH]; intros r F j Hj; [by apply triple_ret|]. cbn [subscripts jpath jpath_set].
  apply (triple_bind _ _ _ (λ r', lval r' (λ v, F (jsub_set s v j)) (jsub s j))).
  - destruct s; [apply subscript_key_lval, as_object_ok; done|apply subscript_index_lval].
  - intros r'. apply (IH r' (λ v, F (jsub_set s v j))). by apply jsub_ok.
Qed.
Lemma vars_one env js x l : env !! x = Some l → (x < List.length js)%nat →
  ∃ P, ∀ j, hequiv (vars env (<[x := j]> js)) (var l j ∗∗ P).
Proof.
  intros Hx Hj. destruct (pairwise_one (λ j x, var x j) x js env Hj) as [P HP]; [by eapply lookup_lt_Some|].
  exists P. intros j. specialize (HP j l). by rewrite (list_insert_id env) in HP.
Qed.
Lemma vars_length env js h : vars env js h → List.length env = List.length js.
Proof. intros H. symmetry. by eapply pairwise_length. Qed.
Lemma jvar_insert js x : <[x := jvar js x]> js = js.
Proof.
  destruct (Nat.lt_ge_cases x (List.length js)) as [Hx|Hx]; [|by apply list_insert_ge].
  apply list_insert_id. unfold jvar. rewrite nth_lookup. by destruct (lookup_lt_is_Some_2 js x Hx) as [? ->].
Qed.
(** One reference, and two *)
Lemma run_one x p f k (m : ref → HM unit) env js :
  (x < List.length js)%nat → Forall json_ok js →
  (∀ r F j, triple (lval r F j) (m r) (λ _, lval r F (f j) ∗∗ lost k)) →
  triple (vars env js) (r ← lvalue env x p; m r) (λ _, vars env (set_at x p f js) ∗∗ lost k).
Proof.
  intros Hx Hj Hm. apply (triple_know (List.length env = List.length js)). { intros h. apply vars_length. } intros Hl.
  destruct (lookup_lt_is_Some_2 env x) as [l E]; [lia|]. unfold lvalue. rewrite E.
  destruct (vars_one env js x l E Hx) as [P HP]. rewrite <- (jvar_insert js x) at 1. rewrite HP, (var_lval l (jvar js x)).
  eapply triple_call; [by apply subscripts_lval, jvar_ok|]. intros r. cbn.
  eapply triple_post; [apply triple_frame, Hm|]. intros a. unfold set_at. rewrite HP, lval_elim. sep_ac.
Qed.
Lemma vars_two env js x y l l' : env !! x = Some l → env !! y = Some l' → x ≠ y →
  (x < List.length js)%nat → (y < List.length js)%nat →
  ∃ P, ∀ j j', hequiv (vars env (<[x := j]> (<[y := j']> js))) (var l j ∗∗ var l' j' ∗∗ P).
Proof. intros Hx Hy Hne Hx' Hy'. by apply (pairwise_two (λ j x, var x j)). Qed.
Lemma jvar_set_ne x y p f js : x ≠ y → jvar (set_at y p f js) x = jvar js x.
Proof. intros H. unfold jvar, set_at. rewrite !nth_lookup, list_lookup_insert_ne; done. Qed.
Lemma run_two x p y q f g (m : ref → ref → HM unit) env js :
  (x < List.length js)%nat → (y < List.length js)%nat → x ≠ y → Forall json_ok js →
  (∀ r r' F G j j', triple (lval r F j ∗∗ lval r' G j') (m r r') (λ _, lval r F (f j' j) ∗∗ lval r' G (g j'))) →
  triple (vars env js) (r' ← lvalue env y q; r ← lvalue env x p; m r r')
    (λ _, vars env (set_at x p (f (jpath q (jvar js y))) (set_at y q g js))).
Proof.
  intros Hx Hy Hne Hj Hm. apply (triple_know (List.length env = List.length js)). { intros h. apply vars_length. } intros Hl.
  destruct (lookup_lt_is_Some_2 env x) as [l E]; [lia|]. destruct (lookup_lt_is_Some_2 env y) as [l' E']; [lia|].
  unfold lvalue. rewrite E, E'. destruct (vars_two env js x y l l' E E' Hne Hx Hy) as [P HP].
  rewrite <- (jvar_insert js x) at 1. rewrite <- (jvar_insert js y) at 2.
  rewrite HP, (var_lval l (jvar js x)), (var_lval l' (jvar js y)), sep_swap.
  eapply triple_call; [by apply subscripts_lval, jvar_ok|]. intros r'. cbn. rewrite sep_swap.
  eapply triple_call; [by apply subscripts_lval, jvar_ok|]. intros r. cbn. rewrite sep_assoc.
  eapply triple_post; [apply triple_frame, Hm|]. intros a. unfold set_at at 1. rewrite jvar_set_ne by done. unfold set_at.
  rewrite HP, !lval_elim. sep_ac.
Qed.
Lemma triple_declare P : triple P declare (λ l, var l JNull ∗∗ P).
Proof.
  change declare with (new (BJSON ONull) ≫= mret). apply step_new. intros l. apply triple_ret. unfold var. rewrite sep_hex.
  apply (hex_intro ONull). cbn [owns]. sep_ac.
Qed.
Lemma triple_leave x j : triple (var x j) (leave_scope x) (λ _, emp).
Proof.
  apply triple_hex. intros o. apply step_get; [apply refers_var|]. rewrite sep_comm.
  eapply triple_call; [apply destroy_triple|]. intros []. rewrite emp_sep. apply triple_free.
Qed.
Lemma lossless P (m : HM unit) Q : triple P m (λ _, Q) → triple P m (λ _, Q ∗∗ lost 0).
Proof. intros H. eapply triple_post; [exact H|]. intros a. cbn. by rewrite sep_emp. Qed.

(** A program does to objects what it does to values: the variables mean what they
    should, everything else is given back, but for 32 bytes at every assignment of
    a hash. *)
Lemma run_triple s : ∀ env js, scoped (List.length js) s = true → Forall json_ok js →
  triple (vars env js) (run s env) (λ _, vars env (exec s js) ∗∗ lost (hashes s)).
Proof.
  induction s; intros env js Hs Hj; cbn [scoped] in Hs; cbn [exec run hashes].
  - by apply lossless, triple_ret.
  - apply andb_prop in Hs as [H1 H2]. eapply triple_bind; [by apply IHs1|]. intros [].
    eapply triple_post; [apply triple_frame, IHs2; [by rewrite exec_length|by apply exec_ok]|]. intros []. cbn. rewrite lost_add. sep_ac.
  - eapply triple_bind; [apply triple_declare|]. intros l. cbn.
    change (var l JNull ∗∗ vars env js)%H with (vars (l :: env) (JNull :: js)).
    eapply triple_bind; [apply IHs; [done|by repeat constructor]|]. intros [].
    pose proof (exec_length s (JNull :: js)) as Hl. destruct (exec s (JNull :: js)) as [|j js']; [done|]. cbn [tail].
    change (vars (l :: env) (j :: js')) with (var l j ∗∗ vars env js')%H. rewrite <- sep_assoc.
    eapply triple_post; [apply triple_frame, triple_leave|]. intros []. cbn. by rewrite emp_sep.
  - apply andb_prop in Hs as [[Hx%Nat.ltb_lt Hy%Nat.ltb_lt]%andb_prop Hne%negb_true_iff%Nat.eqb_neq]. apply lossless.
    apply (run_two x p y q (λ v _, v) (λ v, v)); try done. intros. apply assign_lval.
  - apply andb_prop in Hs as [[Hx%Nat.ltb_lt Hy%Nat.ltb_lt]%andb_prop Hne%negb_true_iff%Nat.eqb_neq]. apply lossless.
    apply (run_two x p y q (λ v _, v) (λ _, JNull)); try done. intros. apply assign_move_lval.
  - apply andb_prop in Hs as [[Hx%Nat.ltb_lt Hy%Nat.ltb_lt]%andb_prop Hne%negb_true_iff%Nat.eqb_neq]. apply lossless.
    apply (run_two x p y q jappend (λ v, v)); try done. intros. apply append_lval.
  - apply Nat.ltb_lt in Hs. apply run_one; [done|done|]. intros r F j. apply lossless, lval_to. intros. by apply assign_int_cell.
  - apply Nat.ltb_lt in Hs. apply run_one; [done|done|]. intros r F j. apply lossless, lval_to. intros. by apply assign_bool_cell.
  - apply Nat.ltb_lt in Hs. apply run_one; [done|done|]. intros r F j. apply lossless, lval_to. intros. by apply assign_string_cell.
  - apply andb_prop in Hs as [Hx%Nat.ltb_lt Hv%Nat.leb_le]. apply run_one; [done|done|]. intros r F j. apply lval_at. intros. by apply assign_hash_cell.
Qed.

Lemma vars_nil env h : vars env [] h → env = [] ∧ h = ∅.
Proof. by destruct env; [intros ->|]. Qed.
Lemma lost_blocks n : ∀ h, lost n h → size h = n ∧ map_Forall (λ _ b, ∃ v, b = BHash v) h.
Proof.
  induction n as [|n IH]; intros h; cbn; [intros ->; by split|].
  intros (h1 & h2 & -> & Hd & (l & v & Hl) & H2). hnf in Hl. subst h1. destruct (IH h2 H2) as [Hs Hf]. split; [by rewrite points_size, Hs|].
  intros l' b. rewrite lookup_union_Some by done. intros [H|H]; [|by apply (Hf l')].
  apply lookup_singleton_Some in H as [<- <-]. by exists v.
Qed.
Lemma run_frame s env js h hf : scoped (List.length js) s = true → Forall json_ok js → vars env js h → h ##ₘ hf →
  ∃ h', run s env (h ∪ hf) = Ok (tt, h' ∪ hf) ∧ h' ##ₘ hf ∧ (vars env (exec s js) ∗∗ lost (hashes s))%H h'.
Proof. intros Hs Hj Hh Hd. destruct (run_triple s env js Hs Hj h hf Hh Hd) as ([] & h' & H). by exists h'. Qed.

(** C5: What code does with [JSON] objects is what [exec] does with values.  Take
    variables [env] that hold the values [js], each object owning what it points to, in
    any memory [h ∪ hf].  Any program over them (declarations, subscripts, copies,
    moves, appends, assignments, scopes) runs without touching memory that is not
    there or freeing anything twice, leaves the rest of memory [hf] as it was,
    and ends with the variables holding the values [exec] computes, again sharing
    nothing. *)
Theorem objects_are_values s env js h hf :
  scoped (List.length js) s = true → Forall json_ok js → vars env js h → h ##ₘ hf →
  ∃ h', run s env (h ∪ hf) = Ok (tt, h' ∪ hf) ∧ h' ##ₘ hf ∧ (vars env (exec s js) ∗∗ lost (hashes s))%H h'.
Proof. apply run_frame. Qed.

(** C36: When a scope is left, all of the memory that was taken inside is given back,
    except one block of 32 bytes for each time a hash was assigned: [operator=] of
    [uint8_t*] takes memory after [SetType] already did, and nothing frees the first. *)
Theorem hashes_leak s :
  scoped 0 s = true → ∃ h, run s [] ∅ = Ok (tt, h) ∧ size h = hashes s ∧ map_Forall (λ _ b, ∃ v, b = BHash v) h.
Proof.
  intros Hs. destruct (run_frame s [] [] ∅ ∅) as (h & E & _ & H); [done|done|done|apply map_disjoint_empty_l|].
  rewrite !(right_id_L ∅ _) in E. exists h. split; [done|]. apply lost_blocks.
  destruct H as (h1 & h2 & -> & _ & Hv & Hl). assert (exec s [] = []) as En by (apply nil_length_inv; by rewrite exec_length).
  rewrite En in Hv. apply vars_nil in Hv as [_ ->]. by rewrite (left_id_L ∅ _).
Qed.

(** ** An object assigned to itself

    [operator=] frees what it holds before it looks at the other object. *)
Definition keeps_block (j : json) : bool :=
  match j with JObject _ | JArray _ | JHash _ | JString _ => true | _ => false end.
Lemma owned_block j o h : keeps_block j = true → owns j o h →
  ∃ l b, h !! l = Some b ∧ (o = OObject l ∨ o = OArray l ∨ o = OHash l ∨ o = OString l).
Proof.
  assert (∀ l b P h, (l ↦ b ∗∗ P)%H h → h !! l = Some b) as Hp.
  { intros l b P h' (h1 & h2 & -> & _ & Hl & _). hnf in Hl. subst h1. apply lookup_union_Some_l, lookup_singleton_eq. }
  intros Hk Ho. destruct j as [|m|js|v|s|d|z|b], o as [|l|l|l|l|d'|z'|b']; try done; exists l.
  - destruct Ho as [om Ho]. exists (BMap om). split; [by eapply Hp|auto].
  - destruct Ho as [os Ho]. exists (BList os). split; [by eapply Hp|auto].
  - exists (BHash v). hnf in Ho. subst h. split; [apply lookup_singleton_eq|auto].
  - exists (BString s). hnf in Ho. subst h. split; [apply lookup_singleton_eq|auto].
Qed.
Lemma destroy_rest j o h hf : owns j o h → h ##ₘ hf → destroy o (h ∪ hf) = Ok (tt, hf).
Proof.
  intros Ho Hd. destruct (destroy_triple j o h hf Ho Hd) as ([] & h' & E & _ & He). hnf in He. subst h'. by rewrite (left_id_L ∅ _) in E.
Qed.
Lemma copy_freed o l (h : heap) : h !! l = None → (o = OObject l ∨ o = OArray l ∨ o = OHash l ∨ o = OString l) → copy_json o h = UB.
Proof.
  intros Hn Hc. unfold copy_json. destruct Hc as [->|[->|[->| ->]]]; cbn [copy_at];
    unfold load_map, load_list, load_hash, load_string, load, mbind, m_bind; by rewrite Hn.
Qed.
(** [j = j] is undefined for an object, an array, a hash or a string: the assignment
    frees what [j] holds and then copies from it. *)
Theorem self_assignment_undefined x j h :
  var x j h → keeps_block j = true → assign (RVar x) (RVar x) h = UB.
Proof.
  intros (o & h1 & h2 & -> & Hd & Hx & Ho) Hk. hnf in Hx. subst h1. destruct (owned_block j o h2 Hk Ho) as (l & b & Hl & Hc).
  assert (l ≠ x) as Hne. { intros ->. apply map_disjoint_singleton_l in Hd. congruence. }
  unfold assign, mbind, m_bind. cbn [get_ref]. unfold load. unfold mbind, m_bind.
  assert (({[x := BJSON o]} ∪ h2 : heap) !! x = Some (BJSON o)) as -> by (apply lookup_union_Some_l, lookup_singleton_eq).
  cbn -[ClearInternal copy_json union singletonM]. rewrite map_union_comm by done. unfold ClearInternal. rewrite (destroy_rest j) by done. rewrite lookup_singleton_eq. cbn -[copy_json singletonM].
  assert (({[x := BJSON o]} : heap) !! l = None) as Hn by (by rewrite lookup_singleton_ne by done).
  by rewrite (copy_freed o l).
Qed.

(** ** Concrete memory *)

(** [JSON a, b; b["k"][1] = "s"; b["h"] = hash; a.append(b["k"]); b = move(a)] in a scope
    of its own, over a variable [r] that takes the result *)
Definition demo_program : stmt :=
  SBlock (SSeq (SBlock (SSeq (SString 0 [SKey (str "k"); SIndex 1] (str "s"))
    (SSeq (SHash 0 [SKey (str "h")] (repeat (chr 0) 32) (repeat (chr 7) 32))
    (SSeq (SAppend 1 [] 0 [SKey (str "k")]) (SMove 0 [] 1 [])))))
    (SAssign 1 [SKey (str "r")] 0 [])).
Definition demo_heap : heap := {[ 5%nat := BJSON ONull ]}.
Definition demo_rest : heap := {[ 0%nat := BString (str "other") ]}.
Example demo_values :
  exec (SBlock (SSeq (SString 0 [SKey (str "k"); SIndex 1] (str "s")) (SAppend 1 [SKey (str "l")] 0 [SKey (str "k")]))) [JNull]
  = [JObject [(str "l", JArray [JArray [JNull; JString (str "s")]])]].
Proof. vm_compute. reflexivity. Qed.
Example demo_leaks : match run (SBlock demo_program) [] ∅ with Ok (tt, h) => size h = 1%nat | _ => False end.
Proof. vm_compute. reflexivity. Qed.
Example demo_self : run (SBlock (SSeq (SString 0 [] (str "s")) (SAssign 0 [] 0 []))) [] ∅ = UB.
Proof. vm_compute. reflexivity. Qed.
(** [j = j["k"]] reads through a reference into what was just freed. *)
Example demo_inner : run (SBlock (SSeq (SInt 0 [SKey (str "k")] 1) (SAssign 0 [] 0 [SKey (str "k")]))) [] ∅ = UB.
Proof. vm_compute. reflexivity. Qed.

Lemma objects_are_values_witness :
  ∃ h', run demo_program [5%nat] (demo_heap ∪ demo_rest) = Ok (tt, h' ∪ demo_rest) ∧ h' ##ₘ demo_rest ∧
    (vars [5%nat] (exec demo_program [JNull]) ∗∗ lost 1)%H h'.
Proof.
  apply (objects_are_values demo_program [5%nat] [JNull] demo_heap demo_rest).
  - reflexivity.
  - repeat constructor.
  - exists demo_heap, ∅. split; [reflexivity|]. split; [apply map_disjoint_empty_r|]. split; [|reflexivity].
    exists ONull, demo_heap, ∅. split; [reflexivity|]. split; [apply map_disjoint_empty_r|]. split; reflexivity.
  - apply map_disjoint_singleton_l. reflexivity.
Defined.
Lemma hashes_leak_witness :
  ∃ h, run (SBlock demo_program) [] ∅ = Ok (tt, h) ∧ size h = 1%nat ∧ map_Forall (λ _ b, ∃ v, b = BHash v) h.
Proof. apply (hashes_leak (SBlock demo_program)). reflexivity. Defined.
Lemma self_assignment_undefined_witness :
  assign (RVar 5) (RVar 5) ({[ 5%nat := BJSON (OString 6) ]} ∪ {[ 6%nat := BString (str "s") ]}) = UB.
Proof.
  apply (self_assignment_undefined 5 (JString (str "s"))); [|reflexivity].
  exists (OString 6), {[ 5%nat := BJSON (OString 6) ]}, {[ 6%nat := BString (str "s") ]}.
  split; [reflexivity|]. split; [|split; reflexivity]. apply map_disjoint_singleton_l. reflexivity.
Defined.
