(* ===== verification/AppJsonHeap.v ===== *)
(** * The application's JSON objects in memory (class [json::JSON] of app/utils/Json.hpp)

    The application has a class of its own, without hashes.  On memory without hashes it
    does exactly what the enclave's class of [JsonHeap] does, so what is proved there
    holds here, and nothing leaks. *)
From stdpp Require Import gmap.
From S2P Require Import Prelude StdMap Status Hex Json JsonParse Host.
From S2P Require Import JsonHeap.

Inductive app_class := ANull | AObject | AArray | AString | AFloating | AIntegral | ABoolean.
#[global] Instance app_class_eq_dec : EqDecision app_class.
Proof. solve_decision. Defined.
(** There is no object of another type. *)
Definition app_type (o : obj) : HM app_class :=
  match o with
  | ONull => mret ANull | OObject _ => mret AObject | OArray _ => mret AArray | OString _ => mret AString
  | OFloating _ => mret AFloating | OIntegral _ => mret AIntegral | OBoolean _ => mret ABoolean
  | OHash _ => undefined
  end.

(** ** The class *)
Fixpoint app_destroy_at (fuel : nat) (o : obj) : HM unit :=
  match fuel with
  | O => of_res NoFuel
  | S fuel =>
      t ← app_type o;
      match o with
      | OArray l => os ← load_list l; for_each os (app_destroy_at fuel);; free l
      | OObject l => m ← load_map l; for_each (map snd m) (app_destroy_at fuel);; free l
      | OString l => load_string l;; free l
      | _ => mret tt
      end
  end.
Definition app_destroy (o : obj) : HM unit := λ h, app_destroy_at (S (size h)) o h.
Definition app_ClearInternal : obj → HM unit := app_destroy.
Fixpoint app_copy_at (fuel : nat) (o : obj) : HM obj :=
  match fuel with
  | O => of_res NoFuel
  | S fuel =>
      t ← app_type o;
      match o with
      | OObject l =>
          m ← load_map l;
          m' ← map_m (λ p : bytes * obj, o ← app_copy_at fuel p.2; mret (p.1, o)) m;
          l' ← new (BMap m'); mret (OObject l')
      | OArray l => os ← load_list l; os' ← map_m (app_copy_at fuel) os; l' ← new (BList os'); mret (OArray l')
      | OString l => s ← load_string l; l' ← new (BString s); mret (OString l')
      | _ => mret o
      end
  end.
Definition app_copy_json (o : obj) : HM obj := λ h, app_copy_at (S (size h)) o h.
Definition app_empty_of (c : app_class) : HM obj :=
  match c with
  | ANull => mret ONull
  | AObject => l ← new (BMap []); mret (OObject l)
  | AArray => l ← new (BList []); mret (OArray l)
  | AString => l ← new (BString []); mret (OString l)
  | AFloating => mret (OFloating (CDouble (str "0.0") 0))
  | AIntegral => mret (OIntegral 0)
  | ABoolean => mret (OBoolean false)
  end.
Definition app_SetType (c : app_class) (r : ref) : HM unit :=
  o ← get_ref r; t ← app_type o;
  if decide (c = t) then mret tt
  else app_ClearInternal o;; o' ← app_empty_of c; set_ref r o'.
Definition app_assign (this other : ref) : HM unit :=
  o ← get_ref this; app_ClearInternal o;;
  o' ← get_ref other; c ← app_copy_json o'; set_ref this c.
Definition app_move_new (other : ref) : HM obj := o ← get_ref other; set_ref other ONull;; mret o.
Definition app_assign_move (this other : ref) : HM unit :=
  o ← get_ref this; app_ClearInternal o;;
  o' ← get_ref other; set_ref this o';; set_ref other ONull.
Definition app_assign_int (this : ref) (i : Z) : HM unit := app_SetType AIntegral this;; set_ref this (OIntegral (i64 i)).
Definition app_assign_bool (this : ref) (b : bool) : HM unit := app_SetType ABoolean this;; set_ref this (OBoolean b).
Definition app_assign_string (this : ref) (s : bytes) : HM unit :=
  app_SetType AString this;; o ← get_ref this;
  match o with OString l => load_string l;; store l (BString s) | _ => undefined end.
Definition app_subscript_key (this : ref) (k : bytes) : HM ref :=
  app_SetType AObject this;; o ← get_ref this;
  match o with
  | OObject l => m ← load_map l; store l (BMap (map_touch ONull k m));; mret (RField l k)
  | _ => undefined
  end.
Definition app_subscript_index (this : ref) (i : nat) : HM ref :=
  app_SetType AArray this;; o ← get_ref this;
  match o with
  | OArray l =>
      os ← load_list l;
      (if (List.length os <=? i)%nat then store l (BList (os ++ replicate (S i - List.length os) ONull)) else mret tt);;
      mret (RElem l i)
  | _ => undefined
  end.
Definition app_append (this other : ref) : HM unit :=
  o ← get_ref other; arg ← app_copy_json o;
  app_SetType AArray this;; t ← get_ref this;
  match t with
  | OArray l => os ← load_list l; e ← app_copy_json arg; store l (BList (os ++ [e]));; app_destroy arg
  | _ => undefined
  end.
Definition app_leave_scope (x : loc) : HM unit := o ← get_ref (RVar x); app_destroy o;; free x.

(** ** Programs over it *)
Definition app_subscript (r : ref) (s : sub) : HM ref :=
  match s with SKey k => app_subscript_key r k | SIndex i => app_subscript_index r i end.
Fixpoint app_subscripts (r : ref) (p : path) : HM ref :=
  match p with [] => mret r | s :: p => r ← app_subscript r s; app_subscripts r p end.
Definition app_lvalue (env : list loc) (x : nat) (p : path) : HM ref :=
  match env !! x with Some l => app_subscripts (RVar l) p | None => undefined end.
Fixpoint app_run (s : stmt) (env : list loc) : HM unit :=
  match s with
  | SSkip => mret tt
  | SSeq a b => app_run a env;; app_run b env
  | SBlock body => l ← declare; app_run body (l :: env);; app_leave_scope l
  | SAssign x p y q => r' ← app_lvalue env y q; r ← app_lvalue env x p; app_assign r r'
  | SMove x p y q => r' ← app_lvalue env y q; r ← app_lvalue env x p; app_assign_move r r'
  | SAppend x p y q => r' ← app_lvalue env y q; r ← app_lvalue env x p; app_append r r'
  | SInt x p z => r ← app_lvalue env x p; app_assign_int r z
  | SBool x p b => r ← app_lvalue env x p; app_assign_bool r b
  | SString x p s => r ← app_lvalue env x p; app_assign_string r s
  | SHash _ _ _ _ => undefined
  end.

(** ** Where there are no hashes *)
Definition plain_obj (o : obj) : Prop := match o with OHash _ => False | _ => True end.
Definition plain_block (b : block) : Prop :=
  match b with
  | BJSON o => plain_obj o | BMap m => Forall (λ p, plain_obj p.2) m | BList l => Forall plain_obj l
  | BHash _ => False | BString _ => True
  end.
Definition plain (h : heap) : Prop := map_Forall (λ _, plain_block) h.
(** Both do the same there, and leave no hash behind. *)
Definition agrees {A} (m' m : HM A) (P : A → Prop) : Prop :=
  ∀ h, plain h → m' h = m h ∧ ∀ a h', m h = Ok (a, h') → plain h' ∧ P a.

Section agrees.
Context {A B : Type}.
Implicit Types (P : A → Prop) (Q : B → Prop).
Lemma agrees_ret a P : P a → agrees (mret a) (mret a) P.
Proof. intros Ha h Hh. split; [done|]. by intros ? ? [= <- <-]. Qed.
Lemma agrees_undefined P : agrees undefined undefined P.
Proof. intros h Hh. by split. Qed.
Lemma agrees_bind (m' m : HM A) (f' f : A → HM B) P Q :
  agrees m' m P → (∀ a, P a → agrees (f' a) (f a) Q) → agrees (m' ≫= f') (m ≫= f) Q.
Proof.
  intros Hm Hf h Hh. destruct (Hm h Hh) as [E HP]. unfold mbind, m_bind. rewrite E.
  destruct (m h) as [[a h1]| | |]; [|by split..]. destruct (HP a h1 eq_refl) as [Hh1 Ha]. by apply Hf.
Qed.
Lemma agrees_weaken (m' m : HM A) P P' : agrees m' m P → (∀ a, P a → P' a) → agrees m' m P'.
Proof. intros H HP h Hh. destruct (H h Hh) as [E Hr]. split; [done|]. intros a h' Em. destruct (Hr a h' Em). auto. Qed.
End agrees.
Abbreviation any := (λ _, True).

Lemma agrees_new b : plain_block b → agrees (new b) (new b) any.
Proof. intros Hb h Hh. split; [done|]. intros l h' [= <- <-]. split; [|done]. by apply map_Forall_insert_2. Qed.
Lemma agrees_load l : agrees (load l) (load l) plain_block.
Proof. intros h Hh. split; [done|]. intros b h' E. unfold load in E. destruct (h !! l) eqn:El; [|done]. injection E as <- <-. split; [done|]. by apply (Hh l). Qed.
Lemma agrees_store l b : plain_block b → agrees (store l b) (store l b) any.
Proof. intros Hb h Hh. split; [done|]. intros [] h' E. unfold store in E. destruct (h !! l); [|done]. injection E as <-. split; [|done]. by apply map_Forall_insert_2. Qed.
Lemma agrees_free l : agrees (free l) (free l) any.
Proof. intros h Hh. split; [done|]. intros [] h' E. unfold free in E. destruct (h !! l); [|done]. injection E as <-. split; [|done]. by apply map_Forall_delete. Qed.
Lemma agrees_load_map l : agrees (load_map l) (load_map l) (Forall (λ p, plain_obj p.2)).
Proof. eapply agrees_bind; [apply agrees_load|]. intros [] Hb; first [by apply agrees_ret|apply agrees_undefined]. Qed.
Lemma agrees_load_list l : agrees (load_list l) (load_list l) (Forall plain_obj).
Proof. eapply agrees_bind; [apply agrees_load|]. intros [] Hb; first [by apply agrees_ret|apply agrees_undefined]. Qed.
Lemma agrees_load_string l : agrees (load_string l) (load_string l) any.
Proof. eapply agrees_bind; [apply agrees_load|]. intros [] Hb; first [by apply agrees_ret|apply agrees_undefined]. Qed.
Lemma plain_find k (m : list (bytes * obj)) o : Forall (λ p, plain_obj p.2) m → map_find k m = Some o → plain_obj o.
Proof. induction 1 as [|[k' v] m Hv _ IH]; cbn; [done|]. case_decide; [by intros [= <-]|done]. Qed.
Lemma agrees_get r : agrees (get_ref r) (get_ref r) plain_obj.
Proof.
  destruct r as [l|l k|l i]; cbn [get_ref].
  - eapply agrees_bind; [apply agrees_load|]. intros [] Hb; first [by apply agrees_ret|apply agrees_undefined].
  - eapply agrees_bind; [apply agrees_load_map|]. intros m Hm. destruct (map_find k m) eqn:E; [|apply agrees_undefined].
    apply agrees_ret. by eapply plain_find.
  - eapply agrees_bind; [apply agrees_load_list|]. intros os Ho. destruct (os !! i) eqn:E; [|apply agrees_undefined].
    apply agrees_ret. by eapply Forall_lookup_1.
Qed.
Lemma agrees_set r o : plain_obj o → agrees (set_ref r o) (set_ref r o) any.
Proof.
  intros Ho. destruct r as [l|l k|l i]; cbn [set_ref]; [by apply agrees_store|..].
  - eapply agrees_bind; [apply agrees_load_map|]. intros m Hm. apply agrees_store. by apply map_set_forall_snd.
  - eapply agrees_bind; [apply agrees_load_list|]. intros os Hs. apply agrees_store. by apply Forall_insert.
Qed.
Lemma agrees_type {A} o (m' m : HM A) P : plain_obj o → agrees m' m P → agrees (t ← app_type o; m') m P.
Proof. by destruct o. Qed.
Lemma agrees_each {A} (f' f : A → HM unit) (P : A → Prop) l :
  (∀ a, P a → agrees (f' a) (f a) any) → Forall P l → agrees (for_each l f') (for_each l f) any.
Proof. intros Hf. induction 1 as [|a l Ha _ IH]; cbn [for_each]; [by apply agrees_ret|]. eapply agrees_bind; [by apply Hf|]. intros _ _. apply IH. Qed.
Lemma agrees_map {A B} (f' f : A → HM B) (P : A → Prop) (Q : B → Prop) l :
  (∀ a, P a → agrees (f' a) (f a) Q) → Forall P l → agrees (map_m f' l) (map_m f l) (Forall Q).
Proof.
  intros Hf. induction 1 as [|a l Ha _ IH]; cbn [map_m]; [by apply agrees_ret|]. eapply agrees_bind; [by apply Hf|].
  intros b Hb. eapply agrees_bind; [exact IH|]. intros bs Hbs. apply agrees_ret. by constructor.
Qed.
Create HintDb agrees discriminated.
#[local] Hint Resolve agrees_load_map agrees_load_list agrees_load_string agrees_get agrees_free : agrees.

Lemma agrees_destroy_at n : ∀ o, plain_obj o → agrees (app_destroy_at n o) (destroy_at n o) any.
Proof.
  induction n as [|n IH]; intros o Ho; [intros h Hh; by split|]. cbn [app_destroy_at destroy_at]. apply agrees_type; [done|].
  destruct o as [|l|l|l|l| | |]; try done; try (by apply agrees_ret); (eapply agrees_bind; [eauto with agrees|intros v Hv]).
  - eapply agrees_bind; [|intros _ _; apply agrees_free]. apply (agrees_each _ _ plain_obj); [exact IH|]. by apply Forall_map.
  - eapply agrees_bind; [|intros _ _; apply agrees_free]. by apply (agrees_each _ _ plain_obj).
  - apply agrees_free.
Qed.
Lemma agrees_destroy o : plain_obj o → agrees (app_destroy o) (destroy o) any.
Proof. intros Ho h. exact (agrees_destroy_at (S (size h)) o Ho h). Qed.
Lemma agrees_copy_at n : ∀ o, plain_obj o → agrees (app_copy_at n o) (copy_at n o) plain_obj.
Proof.
  induction n as [|n IH]; intros o Ho; [intros h Hh; by split|]. cbn [app_copy_at copy_at]. apply agrees_type; [done|].
  destruct o as [|l|l|l|l| | |]; try done; try (by apply agrees_ret); (eapply agrees_bind; [eauto with agrees|intros v Hv]).
  - eapply agrees_bind; [apply (agrees_map _ _ (λ p : bytes * obj, plain_obj p.2) (λ p : bytes * obj, plain_obj p.2)); [|done]|].
    + intros p Hp. eapply agrees_bind; [by apply IH|]. intros o Ho'. by apply agrees_ret.
    + intros m Hm. eapply agrees_bind; [by apply agrees_new|]. intros l' _. by apply agrees_ret.
  - eapply agrees_bind; [by apply (agrees_map _ _ plain_obj plain_obj)|]. intros os Hos.
    eapply agrees_bind; [by apply agrees_new|]. intros l' _. by apply agrees_ret.
  - eapply agrees_bind; [by apply agrees_new|]. intros l' _. by apply agrees_ret.
Qed.
Lemma agrees_copy o : plain_obj o → agrees (app_copy_json o) (copy_json o) plain_obj.
Proof. intros Ho h. exact (agrees_copy_at (S (size h)) o Ho h). Qed.

(** The classes *)
Definition class_of (c : app_class) : class :=
  match c with
  | ANull => CNull | AObject => CObject | AArray => CArray | AString => CString | AFloating => CFloating | AIntegral => CIntegral | ABoolean => CBoolean
  end.
Lemma app_type_class o : plain_obj o → ∃ t, app_type o = mret t ∧ JSONType o = class_of t.
Proof. destruct o; try done; intros _; by eexists. Qed.
Lemma class_of_inj c c' : class_of c = class_of c' ↔ c = c'.
Proof. split; [|by intros ->]. by destruct c, c'. Qed.
Lemma agrees_empty c noise : agrees (app_empty_of c) (empty_of (class_of c) noise) plain_obj.
Proof.
  destruct c; cbn; try (by apply agrees_ret); (eapply agrees_bind; [apply agrees_new; first [done|constructor]|intros l _; by apply agrees_ret]).
Qed.
#[local] Hint Resolve agrees_destroy agrees_copy agrees_empty agrees_set : agrees.
Lemma agrees_SetType c noise r : agrees (app_SetType c r) (SetType (class_of c) noise r) any.
Proof.
  eapply agrees_bind; [apply agrees_get|]. intros o Ho. destruct (app_type_class o Ho) as (t & -> & ->).
  change (agrees (if decide (c = t) then mret tt else app_ClearInternal o;; o' ← app_empty_of c; set_ref r o')
    (if decide (class_of c = class_of t) then mret tt else ClearInternal o;; o' ← empty_of (class_of c) noise; set_ref r o') any).
  destruct (decide (c = t)) as [->|Hne]; [rewrite decide_True by done; by apply agrees_ret|].
  rewrite decide_False by (by rewrite class_of_inj). eapply agrees_bind; [by apply agrees_destroy|]. intros _ _.
  eapply agrees_bind; [apply agrees_empty|]. intros o' Ho'. by apply agrees_set.
Qed.
Lemma agrees_assign r r' : agrees (app_assign r r') (assign r r') any.
Proof.
  eapply agrees_bind; [apply agrees_get|]. intros o Ho. eapply agrees_bind; [by apply agrees_destroy|]. intros _ _.
  eapply agrees_bind; [apply agrees_get|]. intros o' Ho'. eapply agrees_bind; [by apply agrees_copy|]. intros c Hc. by apply agrees_set.
Qed.
Lemma agrees_assign_move r r' : agrees (app_assign_move r r') (assign_move r r') any.
Proof.
  eapply agrees_bind; [apply agrees_get|]. intros o Ho. eapply agrees_bind; [by apply agrees_destroy|]. intros _ _.
  eapply agrees_bind; [apply agrees_get|]. intros o' Ho'. eapply agrees_bind; [by apply agrees_set|]. intros _ _. by apply agrees_set.
Qed.
(** Another type first *)
Lemma agrees_typed {A} c r (f' f : unit → HM A) P :
  agrees (f' tt) (f tt) P → agrees (app_SetType c r ≫= f') (SetType (class_of c) [] r ≫= f) P.
Proof. intros H. eapply agrees_bind; [apply agrees_SetType|]. by intros [] _. Qed.
Lemma agrees_assign_int r i : agrees (app_assign_int r i) (assign_int r i) any.
Proof. apply (agrees_typed AIntegral). by apply agrees_set. Qed.
Lemma agrees_assign_bool r b : agrees (app_assign_bool r b) (assign_bool r b) any.
Proof. apply (agrees_typed ABoolean). by apply agrees_set. Qed.
Lemma agrees_assign_string r s : agrees (app_assign_string r s) (assign_string r s) any.
Proof.
  apply (agrees_typed AString). eapply agrees_bind; [apply agrees_get|]. intros [] Ho; try apply agrees_undefined; try done.
  eapply agrees_bind; [apply agrees_load_string|]. intros _ _. by apply agrees_store.
Qed.
Lemma plain_touch k (m : list (bytes * obj)) : Forall (λ p, plain_obj p.2) m → Forall (λ p, plain_obj p.2) (map_touch ONull k m).
Proof. intros H. unfold map_touch. case_match; [done|]. by apply map_set_forall_snd. Qed.
Lemma agrees_subscript r s : agrees (app_subscript r s) (subscript r s) any.
Proof.
  destruct s as [k|i].
  - apply (agrees_typed AObject). eapply agrees_bind; [apply agrees_get|]. intros [] Ho; try apply agrees_undefined; try done.
    eapply agrees_bind; [apply agrees_load_map|]. intros m Hm. eapply agrees_bind; [apply agrees_store; by apply plain_touch|]. intros _ _. by apply agrees_ret.
  - apply (agrees_typed AArray). eapply agrees_bind; [apply agrees_get|]. intros [] Ho; try apply agrees_undefined; try done.
    eapply agrees_bind; [apply agrees_load_list|]. intros os Hs. eapply (agrees_bind _ _ _ _ any); [|intros _ _; by apply agrees_ret].
    case_match; [|by apply agrees_ret]. apply agrees_store, Forall_app. split; [done|]. by apply Forall_replicate.
Qed.
Lemma agrees_append r r' : agrees (app_append r r') (append r r') any.
Proof.
  eapply agrees_bind; [apply agrees_get|]. intros o Ho. eapply agrees_bind; [by apply agrees_copy|]. intros arg Harg.
  apply (agrees_typed AArray). eapply agrees_bind; [apply agrees_get|]. intros [] Ht; try apply agrees_undefined; try done.
  eapply agrees_bind; [apply agrees_load_list|]. intros os Hs. eapply agrees_bind; [by apply agrees_copy|]. intros e He.
  eapply agrees_bind; [apply agrees_store, Forall_app; by auto|]. intros _ _. by apply agrees_destroy.
Qed.
Lemma agrees_leave x : agrees (app_leave_scope x) (leave_scope x) any.
Proof.
  eapply agrees_bind; [apply agrees_get|]. intros o Ho. eapply agrees_bind; [by apply agrees_destroy|]. intros _ _. apply agrees_free.
Qed.
Lemma agrees_lvalue env x p : agrees (app_lvalue env x p) (lvalue env x p) any.
Proof.
  unfold app_lvalue, lvalue. destruct (env !! x) as [l|]; [|apply agrees_undefined]. generalize (RVar l).
  induction p as [|s p IH]; intros r; [by apply agrees_ret|]. eapply agrees_bind; [apply agrees_subscript|]. intros r' _. apply IH.
Qed.
Lemma agrees_run s : ∀ env, hashes s = 0%nat → agrees (app_run s env) (run s env) any.
Proof.
  induction s; intros env Hs; cbn [app_run run hashes] in *; try done.
  - by apply agrees_ret.
  - eapply agrees_bind; [apply IHs1; lia|]. intros _ _. apply IHs2. lia.
  - eapply agrees_bind; [by apply agrees_new|]. intros l _. eapply agrees_bind; [by apply IHs|]. intros _ _. apply agrees_leave.
  - eapply agrees_bind; [apply agrees_lvalue|]. intros r' _. eapply agrees_bind; [apply agrees_lvalue|]. intros r _. apply agrees_assign.
  - eapply agrees_bind; [apply agrees_lvalue|]. intros r' _. eapply agrees_bind; [apply agrees_lvalue|]. intros r _. apply agrees_assign_move.
  - eapply agrees_bind; [apply agrees_lvalue|]. intros r' _. eapply agrees_bind; [apply agrees_lvalue|]. intros r _. apply agrees_append.
  - eapply agrees_bind; [apply agrees_lvalue|]. intros r _. apply agrees_assign_int.
  - eapply agrees_bind; [apply agrees_lvalue|]. intros r _. apply agrees_assign_bool.
  - eapply agrees_bind; [apply agrees_lvalue|]. intros r _. apply agrees_assign_string.
Qed.

(** C38: The application's class does on memory what the enclave's does, step for step, where
    there are no hashes: a program over it ends the same, in the same memory, defined or
    not. *)
Theorem same_class s env h : hashes s = 0%nat → plain h → app_run s env h = run s env h.
Proof. intros Hs Hh. exact (proj1 (agrees_run s env Hs h Hh)). Qed.
(** So its objects are values too, and when a scope is left nothing is lost. *)
Theorem app_objects_are_values s env js h hf :
  hashes s = 0%nat → plain (h ∪ hf) → scoped (List.length js) s = true → Forall json_ok js → vars env js h → h ##ₘ hf →
  ∃ h', app_run s env (h ∪ hf) = Ok (tt, h' ∪ hf) ∧ h' ##ₘ hf ∧ vars env (exec s js) h'.
Proof.
  intros Hn Hp Hs Hj Hv Hd. destruct (run_frame s env js h hf Hs Hj Hv Hd) as (h' & E & Hd' & H). exists h'.
  rewrite (proj1 (agrees_run s env Hn _ Hp)). split; [done|]. split; [done|]. rewrite Hn in H. cbn [lost] in H.
  by apply (sep_emp (vars env (exec s js))) in H.
Qed.

(** ** Evaluated *)
Definition demo_app : stmt :=
  SBlock (SSeq (SString 0 [SKey (str "k"); SIndex 1] (str "s")) (SSeq (SAppend 1 [SKey (str "l")] 0 [SKey (str "k")]) (SMove 0 [] 1 []))).
Definition demo_app_heap : heap := {[ 5%nat := BJSON ONull ]}.
Lemma demo_app_plain : plain demo_app_heap.
Proof. by apply map_Forall_singleton. Qed.
Lemma same_class_witness : app_run demo_app [5%nat] demo_app_heap = run demo_app [5%nat] demo_app_heap.
Proof. apply (same_class demo_app [5%nat] demo_app_heap); [reflexivity|exact demo_app_plain]. Defined.
Lemma app_objects_are_values_witness :
  ∃ h', app_run demo_app [5%nat] (demo_app_heap ∪ ∅) = Ok (tt, h' ∪ ∅) ∧ h' ##ₘ ∅ ∧ vars [5%nat] (exec demo_app [JNull]) h'.
Proof.
  apply (app_objects_are_values demo_app [5%nat] [JNull] demo_app_heap ∅).
  - reflexivity.
  - rewrite (right_id_L ∅ _). exact demo_app_plain.
  - reflexivity.
  - repeat constructor.
  - exists demo_app_heap, ∅. split; [reflexivity|]. split; [apply map_disjoint_empty_r|]. split; [|reflexivity].
    exists ONull, demo_app_heap, ∅. split; [reflexivity|]. split; [apply map_disjoint_empty_r|]. split; reflexivity.
  - apply map_disjoint_empty_r.
Defined.
