(* ===== verification/State.v ===== *)
(** * The state of the enclave

    The [Workload] singleton (enclave/workload/Workload.h) and the globals of the
    other files, gathered in one record with the world they talk to, and the
    lenses the operations use.  A mutex excludes other threads while it is held,
    so an operation between lock and unlock is one step on this state; where the
    code releases a lock midway ([sched_check]) other threads act through
    [Threads]. *)
From S2P Require Import Prelude StdMap Status Hex Json JsonParse Host.

(** [ecc_key_pair] *)
Record ecc_key_pair := EccKeyPair { pub_key : bytes; pri_key : bytes }.

(** [class Workload] *)
Record workload := Workload {
  srd_path2hashs_m : list (bytes * list bytes);
  checked_files : list json;
  new_files : list json;
  reported_files_idx : list nat;
  pre_pub_key : bytes;
  account_id : bytes;
  id_key_pair : ecc_key_pair;
  is_set_key_pair : bool;
  mr_enclave : bytes;
  report_height : Z;
  restart_flag : bool;
  validated_proof : Z;
  report_files : bool;
  srd_info_json : json;
  upgrade : bool;
  upgrade_status : enc_upgrade_status;
  wl_spec_info : json
}.

(** [sched_process_t] *)
Inductive sched_process :=
  SCHED_GET_WORKREPORT | SCHED_SRD_CHECK_RESERVED | SCHED_CONFIRM_FILE | SCHED_DELETE_FILE
  | SCHED_SEAL | SCHED_UNSEAL | SCHED_VALIDATE_SRD | SCHED_VALIDATE_FILE | SCHED_SRD_CHANGE
  | SCHED_STORE_METADATA.
#[global] Instance sched_process_eq_dec : EqDecision sched_process.
Proof. solve_decision. Defined.

(** The enclave's globals: [Workload::workload], [g_func_m] (Schedule.cpp),
    [g_srd_change] and [g_base_rand_buffer] (Srd.cpp), [g_work_report]
    (Report.cpp); and the world outside. *)
Record enclave (W : Type) := Enclave {
  wl : workload;
  g_func_m : sched_process → Z;
  g_srd_change : Z;
  g_base_rand_buffer : option bytes;
  g_work_report : bytes;
  world : W
}.
Arguments Enclave {W}.
Arguments wl {W}.
Arguments g_func_m {W}.
Arguments g_srd_change {W}.
Arguments g_base_rand_buffer {W}.
Arguments g_work_report {W}.
Arguments world {W}.

(** ** Field updates *)
Section setters.
Implicit Types w : workload.
Definition with_srd_path2hashs_m x w :=
  Workload x (checked_files w) (new_files w) (reported_files_idx w) (pre_pub_key w)
    (account_id w) (id_key_pair w) (is_set_key_pair w) (mr_enclave w) (report_height w)
    (restart_flag w) (validated_proof w) (report_files w) (srd_info_json w) (upgrade w)
    (upgrade_status w) (wl_spec_info w).
Definition with_checked_files x w :=
  Workload (srd_path2hashs_m w) x (new_files w) (reported_files_idx w) (pre_pub_key w)
    (account_id w) (id_key_pair w) (is_set_key_pair w) (mr_enclave w) (report_height w)
    (restart_flag w) (validated_proof w) (report_files w) (srd_info_json w) (upgrade w)
    (upgrade_status w) (wl_spec_info w).
Definition with_new_files x w :=
  Workload (srd_path2hashs_m w) (checked_files w) x (reported_files_idx w) (pre_pub_key w)
    (account_id w) (id_key_pair w) (is_set_key_pair w) (mr_enclave w) (report_height w)
    (restart_flag w) (validated_proof w) (report_files w) (srd_info_json w) (upgrade w)
    (upgrade_status w) (wl_spec_info w).
Definition with_reported_files_idx x w :=
  Workload (srd_path2hashs_m w) (checked_files w) (new_files w) x (pre_pub_key w)
    (account_id w) (id_key_pair w) (is_set_key_pair w) (mr_enclave w) (report_height w)
    (restart_flag w) (validated_proof w) (report_files w) (srd_info_json w) (upgrade w)
    (upgrade_status w) (wl_spec_info w).
Definition with_pre_pub_key x w :=
  Workload (srd_path2hashs_m w) (checked_files w) (new_files w) (reported_files_idx w) x
    (account_id w) (id_key_pair w) (is_set_key_pair w) (mr_enclave w) (report_height w)
    (restart_flag w) (validated_proof w) (report_files w) (srd_info_json w) (upgrade w)
    (upgrade_status w) (wl_spec_info w).
Definition with_account_id x w :=
  Workload (srd_path2hashs_m w) (checked_files w) (new_files w) (reported_files_idx w)
    (pre_pub_key w) x (id_key_pair w) (is_set_key_pair w) (mr_enclave w) (report_height w)
    (restart_flag w) (validated_proof w) (report_files w) (srd_info_json w) (upgrade w)
    (upgrade_status w) (wl_spec_info w).
Definition with_id_key_pair x w :=
  Workload (srd_path2hashs_m w) (checked_files w) (new_files w) (reported_files_idx w)
    (pre_pub_key w) (account_id w) x (is_set_key_pair w) (mr_enclave w) (report_height w)
    (restart_flag w) (validated_proof w) (report_files w) (srd_info_json w) (upgrade w)
    (upgrade_status w) (wl_spec_info w).
Definition with_is_set_key_pair x w :=
  Workload (srd_path2hashs_m w) (checked_files w) (new_files w) (reported_files_idx w)
    (pre_pub_key w) (account_id w) (id_key_pair w) x (mr_enclave w) (report_height w)
    (restart_flag w) (validated_proof w) (report_files w) (srd_info_json w) (upgrade w)
    (upgrade_status w) (wl_spec_info w).
Definition with_mr_enclave x w :=
  Workload (srd_path2hashs_m w) (checked_files w) (new_files w) (reported_files_idx w)
    (pre_pub_key w) (account_id w) (id_key_pair w) (is_set_key_pair w) x (report_height w)
    (restart_flag w) (validated_proof w) (report_files w) (srd_info_json w) (upgrade w)
    (upgrade_status w) (wl_spec_info w).
Definition with_report_height x w :=
  Workload (srd_path2hashs_m w) (checked_files w) (new_files w) (reported_files_idx w)
    (pre_pub_key w) (account_id w) (id_key_pair w) (is_set_key_pair w) (mr_enclave w) x
    (restart_flag w) (validated_proof w) (report_files w) (srd_info_json w) (upgrade w)
    (upgrade_status w) (wl_spec_info w).
Definition with_restart_flag x w :=
  Workload (srd_path2hashs_m w) (checked_files w) (new_files w) (reported_files_idx w)
    (pre_pub_key w) (account_id w) (id_key_pair w) (is_set_key_pair w) (mr_enclave w)
    (report_height w) x (validated_proof w) (report_files w) (srd_info_json w) (upgrade w)
    (upgrade_status w) (wl_spec_info w).
Definition with_validated_proof x w :=
  Workload (srd_path2hashs_m w) (checked_files w) (new_files w) (reported_files_idx w)
    (pre_pub_key w) (account_id w) (id_key_pair w) (is_set_key_pair w) (mr_enclave w)
    (report_height w) (restart_flag w) x (report_files w) (srd_info_json w) (upgrade w)
    (upgrade_status w) (wl_spec_info w).
Definition with_report_files x w :=
  Workload (srd_path2hashs_m w) (checked_files w) (new_files w) (reported_files_idx w)
    (pre_pub_key w) (account_id w) (id_key_pair w) (is_set_key_pair w) (mr_enclave w)
    (report_height w) (restart_flag w) (validated_proof w) x (srd_info_json w) (upgrade w)
    (upgrade_status w) (wl_spec_info w).
Definition with_srd_info_json x w :=
  Workload (srd_path2hashs_m w) (checked_files w) (new_files w) (reported_files_idx w)
    (pre_pub_key w) (account_id w) (id_key_pair w) (is_set_key_pair w) (mr_enclave w)
    (report_height w) (restart_flag w) (validated_proof w) (report_files w) x (upgrade w)
    (upgrade_status w) (wl_spec_info w).
Definition with_upgrade x w :=
  Workload (srd_path2hashs_m w) (checked_files w) (new_files w) (reported_files_idx w)
    (pre_pub_key w) (account_id w) (id_key_pair w) (is_set_key_pair w) (mr_enclave w)
    (report_height w) (restart_flag w) (validated_proof w) (report_files w) (srd_info_json
    w) x (upgrade_status w) (wl_spec_info w).
Definition with_upgrade_status x w :=
  Workload (srd_path2hashs_m w) (checked_files w) (new_files w) (reported_files_idx w)
    (pre_pub_key w) (account_id w) (id_key_pair w) (is_set_key_pair w) (mr_enclave w)
    (report_height w) (restart_flag w) (validated_proof w) (report_files w) (srd_info_json
    w) (upgrade w) x (wl_spec_info w).
Definition with_wl_spec_info x w :=
  Workload (srd_path2hashs_m w) (checked_files w) (new_files w) (reported_files_idx w)
    (pre_pub_key w) (account_id w) (id_key_pair w) (is_set_key_pair w) (mr_enclave w)
    (report_height w) (restart_flag w) (validated_proof w) (report_files w) (srd_info_json
    w) (upgrade w) (upgrade_status w) x.
End setters.

Section enclave_setters.
Context {W : Type}.
Implicit Types e : enclave W.
Definition with_wl x e : enclave W :=
  Enclave x (g_func_m e) (g_srd_change e) (g_base_rand_buffer e) (g_work_report e) (world e).
Definition with_g_func_m x e : enclave W :=
  Enclave (wl e) x (g_srd_change e) (g_base_rand_buffer e) (g_work_report e) (world e).
Definition with_g_srd_change x e : enclave W :=
  Enclave (wl e) (g_func_m e) x (g_base_rand_buffer e) (g_work_report e) (world e).
Definition with_g_base_rand_buffer x e : enclave W :=
  Enclave (wl e) (g_func_m e) (g_srd_change e) x (g_work_report e) (world e).
Definition with_g_work_report x e : enclave W :=
  Enclave (wl e) (g_func_m e) (g_srd_change e) (g_base_rand_buffer e) x (world e).
Definition with_world x e : enclave W :=
  Enclave (wl e) (g_func_m e) (g_srd_change e) (g_base_rand_buffer e) (g_work_report e) x.
End enclave_setters.

(** ** Lenses *)
Section lenses.
Context {W : Type}.
(** A call to the host, and a method of the workload *)
Definition host {A} (f : W → A * W) : M (enclave W) A := zoom world with_world f.
Definition host_ (f : W → W) : M (enclave W) unit := host (λ w, (tt, f w)).
Definition on_wl (f : workload → workload) : M (enclave W) unit := modify (λ e, with_wl (f (wl e)) e).
Definition get_wl {A} (f : workload → A) : M (enclave W) A := gets (λ e, f (wl e)).

(** [enc_malloc]: ENCLAVE_MALLOC_TRYOUT attempts; the heap does not change
    between them, so one answer stands for all. *)
Definition enc_malloc `{!Host W} (n : Z) : M (enclave W) bool := gets (λ e, malloc (world e) (u64 n)).

Lemma wp_host {A} (f : W → A * W) Q e :
  Q (f (world e)).1 (with_world (f (world e)).2 e) → wp (host f) Q e.
Proof. apply wp_zoom. Qed.
Lemma wp_host_ f Q e : Q tt (with_world (f (world e)) e) → wp (host_ f) Q e.
Proof. done. Qed.
Lemma wp_on_wl f Q e : Q tt (with_wl (f (wl e)) e) → wp (on_wl f) Q e.
Proof. done. Qed.
Lemma wp_get_wl {A} (f : workload → A) Q e : Q (f (wl e)) e → wp (get_wl f) Q e.
Proof. done. Qed.
Lemma wp_enc_malloc `{!Host W} n Q e :
  (∀ b, Q b e) → wp (enc_malloc n) Q e.
Proof. intros H. apply wp_gets, H. Qed.
End lenses.

Lemma twp_get_wl {W A} (f : workload → A) Q (e : enclave W) : Q (f (wl e)) e → twp (get_wl f) Q e.
Proof. done. Qed.
Lemma twp_on_wl {W} f Q (e : enclave W) : Q tt (with_wl (f (wl e)) e) → twp (on_wl f) Q e.
Proof. done. Qed.

(** [twp_wl]: run the operations on the workload in front. *)
Ltac twp_wl :=
  repeat first [ lazymatch goal with
                 | |- twp (get_wl _) _ _ => apply twp_get_wl; cbv beta
                 | |- twp (on_wl _) _ _ => apply twp_on_wl; cbv beta
                 end
               | twp_step ].

(** [inv_step H]: take the first operation off a run [H] that returned. *)
Ltac inv_step H :=
  lazymatch type of H with
  | (mbind _ _) _ = Ok _ =>
      let x := fresh "x" in let e1 := fresh "e" in let H1 := fresh "H" in
      apply bind_Ok in H as (x & e1 & H1 & H); inv_first H1
  | mret _ _ = Ok _ => apply ret_Ok in H as [? ?]; subst
  | undefined _ = Ok _ => discriminate H
  | (let _ := _ in _) _ = Ok _ => cbv zeta in H
  end
with inv_first H1 :=
  lazymatch type of H1 with
  | get_wl _ _ = Ok _ => unfold get_wl in H1; apply gets_Ok in H1 as [? ?]; subst
  | gets _ _ = Ok _ => apply gets_Ok in H1 as [? ?]; subst
  | enc_malloc _ _ = Ok _ =>
      let E := fresh "E" in unfold enc_malloc in H1; apply gets_Ok in H1 as [E ?]; subst
  | on_wl _ _ = Ok _ => unfold on_wl in H1; apply modify_Ok in H1; subst
  | modify _ _ = Ok _ => apply modify_Ok in H1; subst
  | of_res _ _ = Ok _ => let E := fresh "E" in apply of_res_Ok in H1 as [E ?]; subst
  | host _ _ = Ok _ => let E := fresh "E" in unfold host in H1; apply zoom_Ok in H1 as [E ?]; subst
  | mret _ _ = Ok _ => apply ret_Ok in H1 as [? ?]; subst
  | _ => idtac
  end.

(** [inv_if H]: case analysis on the test in front of a run. *)
Ltac inv_if H :=
  lazymatch type of H with
  | (if negb ?b then _ else _) _ = Ok _ => destruct b eqn:?; cbn [negb] in H
  | (if ?b then _ else _) _ = Ok _ => destruct b eqn:?
  end.

(** ** Computations that only talk to the host

    [outside P m]: [m] leaves the enclave as it is, keeps the property [P] of the
    world, and is not out of fuel. *)
Section outside.
Context {W : Type}.
Implicit Types (P : W → Prop) (e : enclave W).
Definition keeps {A} P (f : W → A * W) : Prop := ∀ w, P w → P (f w).2.
Definition outside {A} P (m : M (enclave W) A) : Prop :=
  ∀ e, P (world e) → wp m (λ _ e', (∃ w, e' = with_world w e) ∧ P (world e')) e.

Lemma wp_outside {A} P (m : M (enclave W) A) Q e :
  outside P m → P (world e) → (∀ a w, P w → Q a (with_world w e)) → wp m Q e.
Proof.
  intros Hm HP HQ. eapply wp_mono; [by apply Hm|]. cbv beta.
  intros a e' [[w ->] Hw]. by apply HQ.
Qed.
Lemma with_world_id e : with_world (world e) e = e.
Proof. by destruct e. Qed.
Lemma outside_ret {A} P (a : A) : outside P (mret a).
Proof. intros e He. apply wp_ret. split; [|done]. exists (world e). by rewrite with_world_id. Qed.
Lemma outside_bind {A B} P (m : M (enclave W) A) (f : A → M (enclave W) B) :
  outside P m → (∀ a, outside P (f a)) → outside P (m ≫= f).
Proof.
  intros Hm Hf e He. apply wp_bind, (wp_outside P); [done..|]. intros a w Hw.
  eapply wp_mono; [by apply Hf|]. cbv beta. intros _ e' [[w' ->] Hw']. eauto.
Qed.
Lemma outside_host {A} P (f : W → A * W) : keeps P f → outside P (host f).
Proof. intros Hf e He. apply wp_host. split; [eauto|]. by apply Hf. Qed.
Lemma outside_gets {A} P (f : enclave W → A) : outside P (gets f).
Proof. intros e He. apply (outside_ret P (f e) e He). Qed.
Lemma outside_of_res {A} P (r : res A) : r ≠ NoFuel → outside P (of_res r).
Proof. intros Hr e He. apply wp_of_res; [done|]. intros a _. apply (outside_ret P a e He). Qed.
Lemma outside_undefined {A} P : outside P (undefined : M (enclave W) A).
Proof. intros e He. apply wp_undefined. Qed.
Lemma outside_for_each {A} P (l : list A) f : (∀ x, outside P (f x)) → outside P (for_each l f).
Proof.
  intros Hf. induction l as [|x l IH]; cbn [for_each]; [apply outside_ret|].
  by apply outside_bind.
Qed.
End outside.

(** [outside]: reduce [outside P m] to what the host calls of [m] keep. *)
Ltac outside :=
  repeat first
    [ apply outside_ret
    | apply outside_gets
    | apply outside_undefined
    | solve [auto with sworker]
    | apply outside_host; solve [auto with sworker]
    | apply outside_of_res; solve [auto with sworker]
    | apply outside_bind; [|intros]
    | lazymatch goal with
      | |- outside _ (if ?b then _ else _) => destruct b eqn:?
      | |- outside _ (match ?x with _ => _ end) => destruct x
      end ].

(** ** What a computation does to the workload

    [pres R m]: every run of [m] that returns takes the workload from [w] to some
    [w'] with [R w w'].  For an invariant [I], [R] is [λ w w', I w → I w']. *)
Section pres.
Context {W : Type} (R : workload → workload → Prop) `{!PreOrder R}.
Implicit Types (e : enclave W).
Definition pres {A} (m : M (enclave W) A) : Prop := ∀ e a e', m e = Ok (a, e') → R (wl e) (wl e').

Lemma pres_ret {A} (a : A) : pres (mret a).
Proof. by intros e b e' [_ ->]%ret_Ok. Qed.
Lemma pres_gets {A} (f : enclave W → A) : pres (gets f).
Proof. by intros e b e' [_ ->]%gets_Ok. Qed.
Lemma pres_undefined {A} : pres (undefined : M (enclave W) A).
Proof. by intros e b e' ?. Qed.
Lemma pres_of_res {A} (r : res A) : pres (of_res r).
Proof. by intros e b e' [_ ->]%of_res_Ok. Qed.
Lemma pres_host {A} (f : W → A * W) : pres (host f).
Proof. by intros e b e' [_ ->]%zoom_Ok. Qed.
Lemma pres_modify f : (∀ e, R (wl e) (wl (f e))) → pres (modify f).
Proof. by intros H e b e' ->%modify_Ok. Qed.
Lemma pres_on_wl f : (∀ w, R w (f w)) → pres (on_wl f).
Proof. intros H. by apply pres_modify. Qed.
Lemma pres_bind {A B} (m : M (enclave W) A) (f : A → M (enclave W) B) :
  pres m → (∀ a, pres (f a)) → pres (m ≫= f).
Proof. intros Hm Hf e b e' (a & e1 & H1 & H2)%bind_Ok. etransitivity; [by eapply Hm|by eapply Hf]. Qed.
Lemma pres_for_each {A} (l : list A) f : (∀ x, pres (f x)) → pres (for_each l f).
Proof.
  intros Hf. induction l as [|x l IH]; cbn [for_each]; [apply pres_ret|]. by apply pres_bind.
Qed.
(** Reading the workload and writing what was computed from it *)
Lemma pres_get_set {A B} (f : workload → A * workload) (k : A → M (enclave W) B) :
  (∀ w, R w (f w).2) → (∀ a, pres (k a)) →
  pres (w ← get_wl id; let '(a, w) := f w in on_wl (λ _, w);; k a).
Proof.
  intros Hf Hk e b e' H. inv_step H. specialize (Hf (wl e)). cbn [id] in H.
  destruct (f (wl e)) as [a w]. inv_step H. apply Hk in H. by etransitivity.
Qed.
Lemma pres_outside {A} (m : M (enclave W) A) : outside (λ _, True) m → pres m.
Proof.
  intros Hm e a e' H. specialize (Hm e I). apply (wp_run _ _ _ _ _ Hm) in H as [[w ->] _]. done.
Qed.
End pres.

(** [pres]: reduce [pres R m] to what the updates of the workload in [m] do. *)
Ltac pres_step :=
  lazymatch goal with |- pres ?R _ =>
  first
    [ apply (pres_ret R) | apply (pres_gets R) | apply (pres_undefined R) | apply (pres_of_res R)
    | apply (pres_host R)
    | solve [auto with sworker]
    | apply (pres_outside R); solve [auto with sworker]
    | apply (pres_on_wl R); intros ?
    | apply (pres_modify R); intros ?
    | apply (pres_bind R); [|intros ?]
    | lazymatch goal with
      | |- pres _ (if ?b then _ else _) => destruct b eqn:?
      | |- pres _ (match ?x with _ => _ end) => destruct x eqn:?
      end
    | progress cbv zeta ]
  end.
Ltac pres := repeat pres_step.

(** What other threads of the enclave do while this one sleeps or waits in the
    application. *)
Class Threads (W : Type) := {
  others_run : enclave W → enclave W;
  ocall_srd_change : Z → enclave W → enclave W
}.
