(* ===== verification/Demo.v ===== *)
(** * A concrete host

    A small world to evaluate the model in: a database, a set of files, a stream
    of random bytes and the work reports that were uploaded.  It satisfies the
    laws the theorems assume of a host.  Its hash and its sealing are toys; no
    theorem depends on them. *)
From S2P Require Import Prelude StdMap Status Hex Json JsonParse Host State.

Record demo := DemoW {
  d_db : list (bytes * bytes);
  d_files : list (bytes * bytes);
  d_rand : bytes;
  d_uploaded : list bytes
}.

Definition demo_sha256 (m : bytes) : bytes := take 32 (m ++ replicate 32 (chr 0)).
Definition demo_seal (m : bytes) : sgx_status * bytes :=
  if zlen m <? 2 ^ 31 then (SGX_SUCCESS, m ++ [chr 83]) else (SGX_ERROR_UNEXPECTED, []).
Definition demo_unseal (s : bytes) : option bytes :=
  if bool_decide (drop (List.length s - 1) s = [chr 83]) then Some (take (List.length s - 1) s) else None.
(** 64 bytes from the key and the message *)
Definition demo_sign (key m : bytes) : bytes := take 64 (key ++ m ++ replicate 64 (chr 0)).
Definition demo_rand (n : nat) (w : demo) : bytes * demo :=
  (take n (d_rand w ++ replicate n (chr 0)), DemoW (d_db w) (d_files w) (drop n (d_rand w)) (d_uploaded w)).
Definition demo_db (f : list (bytes * bytes) → list (bytes * bytes)) (w : demo) : crust_status * demo :=
  (CRUST_SUCCESS, DemoW (f (d_db w)) (d_files w) (d_rand w) (d_uploaded w)).
Definition demo_fs (f : list (bytes * bytes) → list (bytes * bytes)) (w : demo) : crust_status * demo :=
  (CRUST_SUCCESS, DemoW (d_db w) (f (d_files w)) (d_rand w) (d_uploaded w)).
Definition demo_read (k : bytes) (w : demo) : (crust_status * option bytes) * demo :=
  match map_find k (d_files w) with
  | Some v => ((CRUST_SUCCESS, Some v), w)
  | None => ((CRUST_ACCESS_FILE_FAILED, None), w)
  end.
(** Deletion of every entry under a key, whether or not the list is sorted *)
Fixpoint drop_key (k : bytes) (m : list (bytes * bytes)) : list (bytes * bytes) :=
  match m with
  | [] => []
  | p :: m => if decide (k = p.1) then drop_key k m else p :: drop_key k m
  end.
Definition demo_done (w : demo) : crust_status * demo := (CRUST_SUCCESS, w).

(** The host, given what reading a file returns *)
Definition demo_host_with (read : bytes → demo → (crust_status * option bytes) * demo) : Host demo := {|
  sha256 := demo_sha256;
  malloc _ n := n <? 2 ^ 63;
  sgx_read_rand := demo_rand;
  sgx_seal_data m w := (demo_seal m, w);
  sgx_seal_data_ex m w := (demo_seal m, w);
  sgx_calc_sealed_data_size n := n + 1;
  sgx_get_encrypt_txt_len s := zlen s - 1;
  sgx_unseal_data := demo_unseal;
  sgx_ecc256_open_context w := (SGX_SUCCESS, w);
  sgx_ecdsa_sign key m w := (Some (demo_sign key m), w);
  ocall_persist_add k v := demo_db (map_set k v);
  ocall_persist_add_keys _ _ := demo_done;
  ocall_persist_del k := demo_db (drop_key k);
  ocall_persist_del_keys _ _ := demo_done;
  ocall_persist_set k v := demo_db (map_set k v);
  ocall_persist_get k w :=
    match map_find k (d_db w) with
    | Some v => ((CRUST_SUCCESS, v), w)
    | None => ((CRUST_PERSIST_GET_FAILED, []), w)
    end;
  ocall_free_outer_buffer := demo_done;
  ocall_create_dir _ := demo_done;
  ocall_rename_dir _ _ := demo_done;
  ocall_save_file k v := demo_fs (map_set k v);
  ocall_get_file := read;
  ocall_get_storage_file := demo_read;
  ocall_replace_file old k v := demo_fs (λ m, map_set k v (map_erase old m));
  ocall_delete_folder_or_file k := demo_fs (map_erase k);
  ocall_upload_workreport r w :=
    (CRUST_SUCCESS, DemoW (d_db w) (d_files w) (d_rand w) (r :: d_uploaded w));
  ocall_store_workload _ _ w := w;
  ocall_store_sealed_merkletree _ _ w := w;
  ocall_validate_init := demo_done;
  ocall_validate_close w := w;
  ocall_validate_get_file root block w :=
    match map_find (root ++ str "/" ++ block) (d_files w) with
    | Some v => ((CRUST_SUCCESS, v), w)
    | None => ((CRUST_STORAGE_FILE_NOTFOUND, []), w)
    end
|}.
#[global] Instance demo_host : Host demo := demo_host_with demo_read.
(** A host whose every file is a long row of zeros *)
Definition zeros : bytes := replicate (Z.to_nat (32 * 1024)) (chr 0).
Definition zero_host : Host demo := demo_host_with (λ _ w, ((CRUST_SUCCESS, Some zeros), w)).

Lemma demo_malloc (w : demo) n : malloc w n = (n <? 2 ^ 63).
Proof. done. Qed.

#[global] Instance demo_laws : HostLaws demo.
Proof.
  constructor.
  - intros m. change (List.length (demo_sha256 m) = 32%nat). unfold demo_sha256.
    rewrite length_take, length_app, length_replicate. lia.
  - intros w n Hn. rewrite demo_malloc. lia.
Qed.

Lemma map_find_drop_key k k' m :
  map_find k' (drop_key k m) = if decide (k = k') then None else map_find k' m.
Proof.
  induction m as [|[k2 v] m IH]; cbn; [by case_decide|].
  destruct (decide (k = k2)) as [->|]; cbn.
  - rewrite IH. destruct (decide (k2 = k')) as [->|]; [done|]. by rewrite decide_False by congruence.
  - rewrite IH. repeat case_decide; congruence.
Qed.

#[global] Instance demo_db_laws : DbLaws demo.
Proof.
  refine {| db w k := map_find k (d_db w) |}.
  - intros k v w. split; intros; cbn; rewrite map_find_set; [by rewrite decide_True|by rewrite decide_False].
  - intros k w. cbn. by destruct (map_find k (d_db w)).
  - intros k w. split; intros; cbn; rewrite map_find_drop_key; [by rewrite decide_True|by rewrite decide_False].
  - done.
  - intros w n Hn. rewrite demo_malloc. lia.
Defined.

#[global] Instance demo_db_healthy : DbHealthy demo.
Proof. by split. Qed.
#[global] Instance demo_seal_laws : SealLaws demo.
Proof.
  constructor; [|done]. intros src w. cbn. unfold demo_seal.
  destruct (Z.ltb_spec (zlen src) (2 ^ 31)); [|done]. intros _. cbn [fst snd].
  pose proof (zlen_nonneg src). rewrite (u32_small (zlen src)), u32_small by lia.
  split; [|len]. unfold demo_unseal. rewrite length_app. cbn [List.length].
  replace (List.length src + 1 - 1)%nat with (List.length src) by lia.
  by rewrite drop_app_length, take_app_length.
Qed.

(** Other threads that do nothing *)
#[global] Instance demo_threads : Threads demo := {
  others_run e := e;
  ocall_srd_change _ e := e
}.

(** An empty enclave in an empty world *)
Definition demo_workload : workload :=
  Workload [] [] [] [] [] [] (EccKeyPair (replicate 64 (chr 1)) (replicate 32 (chr 2))) true [] 0
    false 0 true JNull false ENC_UPGRADE_STATUS_NONE JNull.
Definition demo_enclave : enclave demo :=
  Enclave demo_workload (λ _, 0) 0 None [] (DemoW [] [] [] []).
