(* ===== verification/Merkle.v ===== *)
(** * Merkle trees (enclave/utils/EUtils.cpp, enclave/include/MerkleTree.h)

    A file is a tree whose inner nodes hash the concatenated hashes of their
    children.  The tree comes as JSON from outside or as a C structure; both
    validators are modelled.  They decode HASH_LENGTH * 2 characters of a text
    whose length nobody checked: a shorter text is read past its end ([UB]). *)
From S2P Require Import Prelude StdMap Status Hex Json JsonParse Host State Demo.

(** [MerkleTree]; [links_num] is the number of links. *)
Inductive MerkleTree := MTree (hash : bytes) (size : Z) (links : list MerkleTree).
Definition mt_hash (t : MerkleTree) : bytes := let 'MTree h _ _ := t in h.
Definition mt_links (t : MerkleTree) : list MerkleTree := let 'MTree _ _ l := t in l.

(** [hex_string_to_bytes(s.c_str(), HASH_LENGTH * 2)]: the terminating NUL may be
    read, nothing after it. *)
Definition c_hash (s : bytes) : res bytes :=
  if zlen s + 1 <? 2 * HASH_LENGTH then UB
  else Ok (hex_pairs (take 64 (s ++ [chr 0]))).

Fixpoint json_height (j : json) : nat :=
  match j with
  | JObject m => S (foldr (λ p n, Nat.max (json_height p.2) n) 0%nat m)
  | JArray l => S (foldr (λ x n, Nat.max (json_height x) n) 0%nat l)
  | _ => 1
  end.

Section merkle.
Context {W : Type} `{!Host W} (w : W).

(** *** [validate_merkle_tree_c] *)

(** The loop over the links, given what validating one link returns: the
    concatenated hashes, or [None] when a link is invalid. *)
Fixpoint c_links (vs : list (res crust_status * bytes)) (acc : bytes) : res (option bytes) :=
  match vs with
  | [] => Ok (Some acc)
  | (v, hash) :: vs =>
      st ← v;
      if negb (is_success st) then Ok None
      else h ← c_hash hash; c_links vs (acc ++ h)
  end.

(** The comparison of the node's own hash with the hash of its children *)
Definition check_parent (hash : bytes) (children : option bytes) : res crust_status :=
  match children with
  | None => Ok CRUST_INVALID_MERKLETREE
  | Some hs =>
      p ← c_hash hash;
      Ok (if decide (p = sha256 hs) then CRUST_SUCCESS else CRUST_INVALID_MERKLETREE)
  end.

Fixpoint validate_node (t : MerkleTree) : res crust_status :=
  match t with
  | MTree _ _ [] => Ok CRUST_SUCCESS
  | MTree hash _ links =>
      if negb (malloc w (u64 (zlen links * HASH_LENGTH))) then Ok CRUST_MALLOC_FAILED
      else
        c ← c_links (map (λ l, (validate_node l, mt_hash l)) links) [];
        check_parent hash c
  end.
Definition validate_merkle_tree_c (tree : option MerkleTree) : res crust_status :=
  match tree with None => Ok CRUST_SUCCESS | Some t => validate_node t end.

(** *** [validate_merkletree_json] *)
Fixpoint validate_merkletree_json (fuel : nat) (tree : json) : res crust_status :=
  match fuel with
  | O => NoFuel
  | S fuel =>
      let links_num := ToInt (jkey MT_LINKS_NUM tree) in
      let links := jkey MT_LINKS tree in
      if links_num =? 0 then Ok CRUST_SUCCESS
      else if negb (links_num =? json_size links) then Ok CRUST_INVALID_MERKLETREE
      else if negb (malloc w (u64 (links_num * HASH_LENGTH))) then Ok CRUST_MALLOC_FAILED
      else
        c ← c_links (map (λ i, (validate_merkletree_json fuel (jidx i links),
                                ToString (jkey MT_HASH (jidx i links))))
                         (seq 0 (Z.to_nat links_num))) [];
        check_parent (ToString (jkey MT_HASH tree)) c
  end.

(** *** [deserialize_json_to_merkletree] *)

(** The loop over [children[i]], [i < links_num]: past the end of the array the
    child is null and the result is NULL. *)
Fixpoint deser_links (des : json → option MerkleTree) (n : Z) (l : list json)
    : option (list MerkleTree) :=
  if n =? 0 then Some []
  else match l with
       | [] => None
       | x :: l => t ← des x; ts ← deser_links des (n - 1) l; Some (t :: ts)
       end.
Fixpoint deserialize_json_to_merkletree (fuel : nat) (tree_json : json) : option MerkleTree :=
  match fuel with
  | O => None
  | S fuel =>
      if negb (is_object tree_json) then None
      else
        let hash := ToString (jkey MT_HASH tree_json) in
        let links_num := u64 (ToInt (jkey MT_LINKS_NUM tree_json)) in
        if negb (malloc w (u64 (zlen hash + 1))) then None
        else if links_num =? 0 then Some (MTree hash 0 [])
        else if negb (malloc w (u64 (links_num * 8))) then None
        else
          ts ← deser_links (deserialize_json_to_merkletree fuel) links_num
                 (as_array (jkey MT_LINKS tree_json));
          Some (MTree hash 0 ts)
  end.
End merkle.

(** *** [serialize_merkletree_to_json_string]: the last character is erased
    before the bracket is closed, whether or not it is a comma. *)
Fixpoint serialize_merkletree_to_json_string (t : MerkleTree) : bytes :=
  match t with
  | MTree hash size links =>
      let node :=
        str "{" ++ quote MT_SIZE ++ str ":" ++ to_string size ++ str ","
        ++ quote MT_LINKS_NUM ++ str ":" ++ to_string (zlen links) ++ str ","
        ++ quote MT_HASH ++ str ":" ++ quote (hexstring_safe hash) ++ str ","
        ++ quote MT_LINKS ++ str ":["
        ++ concat (map (λ l, serialize_merkletree_to_json_string l ++ str ",") links) in
      take (List.length node - 1) node ++ str "]}"
  end.

(** ** Specification *)

(** A tree is valid when every inner node's hash is the hash of its children's
    hashes. *)
Inductive mtree_valid {W : Type} `{!Host W} : MerkleTree → Prop :=
| mv_leaf hash size : mtree_valid (MTree hash size [])
| mv_node hash size links hs :
    links ≠ [] → Forall mtree_valid links →
    Forall2 (λ l h, c_hash (mt_hash l) = Ok h) links hs →
    c_hash hash = Ok (sha256 (concat hs)) →
    mtree_valid (MTree hash size links).

(** The tree a JSON value denotes; [size()] is an [int]. *)
Inductive tree_of : json → MerkleTree → Prop :=
| to_leaf j size :
    ToInt (jkey MT_LINKS_NUM j) = 0 →
    tree_of j (MTree (ToString (jkey MT_HASH j)) size [])
| to_node j size js n ts :
    jkey MT_LINKS j = JArray js → ToInt (jkey MT_LINKS_NUM j) = n → n = i32 (zlen js) → 0 < n →
    Forall2 tree_of (take (Z.to_nat n) js) ts →
    tree_of j (MTree (ToString (jkey MT_HASH j)) size ts).

(** Two trees agree as far as both go: where neither stops at a leaf, the nodes
    have the same children, and a leaf's hash is the hash of what it meets. *)
Inductive tree_agree : MerkleTree → MerkleTree → Prop :=
| ta_left h s h' s' l' : c_hash h = c_hash h' → tree_agree (MTree h s []) (MTree h' s' l')
| ta_right h s l h' s' : c_hash h = c_hash h' → tree_agree (MTree h s l) (MTree h' s' [])
| ta_node h s l h' s' l' : Forall2 tree_agree l l' → tree_agree (MTree h s l) (MTree h' s' l').

(** Two trees collide when, at the same place in both, two nodes have different
    child hashes with the same hash: the two texts are a collision of [sha256]. *)
Inductive tree_collision {W : Type} `{!Host W} : MerkleTree → MerkleTree → Prop :=
| tc_here h s l h' s' l' hs hs' :
    l ≠ [] → l' ≠ [] →
    Forall2 (λ x c, c_hash (mt_hash x) = Ok c) l hs → Forall2 (λ x c, c_hash (mt_hash x) = Ok c) l' hs' →
    concat hs ≠ concat hs' → sha256 (concat hs) = sha256 (concat hs') →
    tree_collision (MTree h s l) (MTree h' s' l')
| tc_below h s l h' s' l' i x y :
    l !! i = Some x → l' !! i = Some y → tree_collision x y →
    tree_collision (MTree h s l) (MTree h' s' l').

(** ** Induction and the loop *)
Section MerkleTree_nested.
Variable P : MerkleTree → Prop.
Hypothesis HNode : ∀ h s l, Forall P l → P (MTree h s l).
Fixpoint MerkleTree_nested_ind (t : MerkleTree) : P t :=
  match t with
  | MTree h s l => HNode h s l
      ((fix go (l : list MerkleTree) : Forall P l :=
          match l with
          | [] => @List.Forall_nil _ _
          | x :: l => @List.Forall_cons _ _ x l (MerkleTree_nested_ind x) (go l)
          end) l)
  end.
End MerkleTree_nested.

Lemma c_hash_length s h : c_hash s = Ok h → List.length h = 32%nat.
Proof.
  unfold c_hash. destruct (Z.ltb_spec (zlen s + 1) (2 * HASH_LENGTH)) as [|Hl]; [done|].
  intros [= <-]. change (2 * HASH_LENGTH) with 64 in Hl.
  assert (∀ n s, List.length s = (2 * n)%nat → List.length (hex_pairs s) = n) as Hp.
  { clear. induction n as [|n IH]; intros [|a [|b s]]; cbn; try lia. intros. rewrite IH; lia. }
  apply Hp. rewrite length_take, length_app. cbn [List.length]. unfold zlen in Hl. lia.
Qed.

Lemma c_links_some vs acc r :
  c_links vs acc = Ok (Some r) ↔
  ∃ hs, Forall2 (λ v h, v.1 = Ok CRUST_SUCCESS ∧ c_hash v.2 = Ok h) vs hs ∧ r = acc ++ concat hs.
Proof.
  revert acc. induction vs as [|[v hash] vs IH]; intros acc; cbn [c_links].
  - split; [intros [= <-]; exists []; by rewrite app_nil_r|].
    intros (hs & H & ->). inversion H; subst. by rewrite app_nil_r.
  - split.
    + destruct v as [[]| | |]; try done. cbn. destruct (c_hash hash) as [h| | |] eqn:Eh; try done. cbn.
      rewrite IH. intros (hs & H & ->). exists (h :: hs). split; [by constructor|].
      cbn [concat]. by rewrite <- app_assoc.
    + intros (hs & H & ->). inversion H as [|? h ? hs' [Hv Hh] Hs]; subst. cbn in Hv, Hh. subst.
      cbn. rewrite Hh. cbn. apply IH. exists hs'. split; [done|].
      cbn [concat]. by rewrite <- app_assoc.
Qed.

Lemma check_parent_success {W} `{!Host W} hash c :
  check_parent hash c = Ok CRUST_SUCCESS ↔
  ∃ hs, c = Some hs ∧ c_hash hash = Ok (sha256 hs).
Proof.
  destruct c as [hs|]; cbn; [|by split; [|intros (? & ? & _)]].
  destruct (c_hash hash) as [p| | |]; cbn; try (split; [done|by intros (? & _ & ?)]).
  destruct (decide (p = sha256 hs)) as [->|].
  - split; [|done]. eauto.
  - split; [done|]. intros (? & ? & ?). congruence.
Qed.

Lemma i32_le n : 0 <= n → i32 n <= n.
Proof.
  intros H. unfold i32. pose proof (Z.mod_le (n + 2 ^ 31) (2 ^ 32) ltac:(lia) ltac:(lia)). lia.
Qed.
Lemma i32_range n : - 2 ^ 31 <= i32 n < 2 ^ 31.
Proof. unfold i32. pose proof (Z.mod_pos_bound (n + 2 ^ 31) (2 ^ 32) ltac:(lia)). lia. Qed.

(** The elements a loop over the indexes of an array visits *)
Lemma jidx_seq js n : (n <= List.length js)%nat → map (λ i, jidx i (JArray js)) (seq 0 n) = take n js.
Proof.
  intros Hn. apply list_eq. intros i. rewrite list_lookup_fmap.
  destruct (decide (i < n)%nat).
  - rewrite lookup_seq_lt, lookup_take_lt by done. cbn. rewrite nth_lookup.
    by destruct (lookup_lt_is_Some_2 js i ltac:(lia)) as [x ->].
  - by rewrite lookup_seq_ge, lookup_take_ge by lia.
Qed.

Lemma height_elem x js : x ∈ js → (json_height x < json_height (JArray js))%nat.
Proof.
  intros H. cbn. induction js as [|y js IH]; [by apply not_elem_of_nil in H|].
  apply elem_of_cons in H as [->|H]; cbn; [lia|]. specialize (IH H). lia.
Qed.
Lemma height_pos j : (0 < json_height j)%nat.
Proof. destruct j; cbn; lia. Qed.
Lemma height_jkey k j : (json_height (jkey k j) <= json_height j)%nat.
Proof.
  unfold jkey, map_get. destruct (map_find k (as_object j)) as [v|] eqn:E; [|destruct j; cbn; lia].
  apply map_find_elem in E. destruct j as [|m| | | | | |]; try by apply not_elem_of_nil in E.
  cbn in *. induction m as [|p m IH]; [by apply not_elem_of_nil in E|].
  apply elem_of_cons in E as [<-|E]; cbn; [lia|]. specialize (IH E). lia.
Qed.

Lemma forall_exists {A B} (P : A → B → Prop) (l : list A) :
  (∀ x, x ∈ l → ∃ y, P x y) → ∃ l', Forall2 P l l'.
Proof.
  induction l as [|x l IH]; intros H; [by exists []|].
  destruct (H x) as [y Hy]; [left|]. destruct IH as [l' Hl']; [intros; apply H; by right|].
  exists (y :: l'). by constructor.
Qed.

(** *** Validation decides the specification *)
Section validate.
Context {W : Type} `{!Host W} `{!HostLaws W} (w : W).
Hypothesis granted : ∀ n, 0 <= n < 2 ^ 63 → malloc w n = true.

Lemma c_links_forall {A} (f : A → res crust_status * bytes) (l : list A) r :
  c_links (map f l) [] = Ok (Some r) ↔
  ∃ hs, Forall2 (λ a h, (f a).1 = Ok CRUST_SUCCESS ∧ c_hash (f a).2 = Ok h) l hs ∧ r = concat hs.
Proof.
  rewrite c_links_some. cbn [app]. split; intros (hs & H & ->); exists hs; (split; [|done]).
  - by apply Forall2_fmap_l in H.
  - by apply Forall2_fmap_l.
Qed.

Lemma validate_node_valid t :
  (validate_node w t = Ok CRUST_SUCCESS → mtree_valid t) ∧
  (mtree_valid t → zlen (mt_links t) < 2 ^ 58 →
   (∀ l, l ∈ mt_links t → validate_node w l = Ok CRUST_SUCCESS) →
   validate_node w t = Ok CRUST_SUCCESS).
Proof.
  induction t as [h s l IH] using MerkleTree_nested_ind. split.
  - destruct l as [|x l]; [by constructor|]. intros H.
    assert (∃ c, c_links (map (λ l, (validate_node w l, mt_hash l)) (x :: l)) [] = Ok c ∧
                 check_parent h c = Ok CRUST_SUCCESS) as (c & Hc & Hp).
    { revert H. cbn [validate_node]. destruct (negb _); [done|].
      destruct (c_links _ _) as [c| | |]; try done. eauto. }
    apply check_parent_success in Hp as (r & -> & Hp).
    apply c_links_forall in Hc as (hs & Hc & ->). cbn in Hc.
    econstructor; [done| | |exact Hp].
    + rewrite Forall_forall in IH |- *. intros y Hy. apply IH; [done|].
      apply list_elem_of_lookup in Hy as [i Hy].
      destruct (Forall2_lookup_l _ _ _ _ _ Hc Hy) as (? & _ & ? & _). done.
    + eapply Forall2_impl; [exact Hc|]. naive_solver.
  - intros Hv Hlen Hl. inversion Hv as [|? ? ? hs Hne Hf Hhs Hp]; subst; [done|].
    destruct l as [|x l]; [done|]. cbn [mt_links] in *.
    assert (c_links (map (λ l, (validate_node w l, mt_hash l)) (x :: l)) [] = Ok (Some (concat hs))) as Hc.
    { apply c_links_forall. exists hs. split; [|done]. cbn.
      eapply Forall2_same_length_lookup_2; [by eapply Forall2_length|].
      intros i y z Hy Hz. split; [apply Hl; by eapply list_elem_of_lookup_2|].
      by pose proof (Forall2_lookup_lr _ _ _ _ _ _ Hhs Hy Hz). }
    cbn [validate_node]. pose proof (zlen_nonneg (x :: l)).
    rewrite u64_small by (unfold HASH_LENGTH; lia).
    rewrite granted by (unfold HASH_LENGTH; lia). cbn [negb].
    rewrite Hc. cbn [mbind res_bind]. apply check_parent_success. eauto.
Qed.

(** What a successful loop over the children says of the array under it *)
Lemma links_array fuel links n r :
  n = json_size links → 0 < n →
  c_links (map (λ i, (validate_merkletree_json w fuel (jidx i links),
                      ToString (jkey MT_HASH (jidx i links))))
               (seq 0 (Z.to_nat n))) [] = Ok (Some r) →
  ∃ js, links = JArray js ∧ n = i32 (zlen js).
Proof.
  intros Hn H0 Hc. destruct links; cbn in Hn; eauto; try lia; exfalso.
  all: destruct (Z.to_nat n) as [|k] eqn:Ek; [lia|]; cbn [seq map c_links] in Hc.
  all: change (jidx 0 _) with JNull in Hc.
  all: destruct fuel; by cbn in Hc.
Qed.

Lemma tree_of_hash j t : tree_of j t → mt_hash t = ToString (jkey MT_HASH j).
Proof. by destruct 1. Qed.

Lemma validate_json_sound fuel j :
  validate_merkletree_json w fuel j = Ok CRUST_SUCCESS → ∃ t, tree_of j t ∧ mtree_valid t.
Proof.
  revert j. induction fuel as [|fuel IH]; [done|]. intros j. cbn [validate_merkletree_json].
  set (n := ToInt (jkey MT_LINKS_NUM j)). set (links := jkey MT_LINKS j).
  destruct (Z.eqb_spec n 0) as [E|Hn0].
  { intros _. exists (MTree (ToString (jkey MT_HASH j)) 0 []). by split; constructor. }
  destruct (Z.eqb_spec n (json_size links)) as [Hn|]; [|done]. cbn [negb].
  destruct (malloc w _) eqn:Em; [|done]. cbn [negb].
  assert (- 2 ^ 31 <= n < 2 ^ 31) as Hr.
  { rewrite Hn. destruct links; cbn; try lia; apply i32_range. }
  assert (0 < n) as Hpos.
  { destruct (Z.lt_total n 0) as [Hneg|[?|?]]; [|done|done].
    unfold HASH_LENGTH in Em. rewrite u64_neg in Em by lia.
    by rewrite malloc_huge in Em by lia. }
  destruct (c_links _ _) as [c| | |] eqn:Ec; try done. intros Hp.
  apply check_parent_success in Hp as (r & -> & Hp).
  destruct (links_array fuel links n r Hn Hpos Ec) as (js & Hjs & Hn').
  rewrite Hjs in Ec.
  rewrite <- (map_map (λ i, jidx i (JArray js))
    (λ x, (validate_merkletree_json w fuel x, ToString (jkey MT_HASH x)))) in Ec.
  pose proof (i32_le (zlen js) (zlen_nonneg js)).
  rewrite jidx_seq in Ec by (unfold zlen in *; lia).
  apply c_links_forall in Ec as (hs & Ec & ->). cbn in Ec.
  destruct (forall_exists (λ x t, tree_of x t ∧ mtree_valid t) (take (Z.to_nat n) js)) as [ts Hts].
  { intros x Hx. apply IH. apply list_elem_of_lookup in Hx as [i Hx].
    by destruct (Forall2_lookup_l _ _ _ _ _ Ec Hx) as (? & _ & ? & _). }
  exists (MTree (ToString (jkey MT_HASH j)) 0 ts). split.
  - eapply to_node; [exact Hjs|reflexivity|exact Hn'|done|].
    eapply Forall2_impl; [exact Hts|]. by intros ?? [? _].
  - apply (mv_node _ _ _ hs); [| | |done].
    + intros ->. apply Forall2_length in Hts. rewrite length_take in Hts. cbn in Hts. unfold zlen in *. lia.
    + apply Forall_forall. intros t Ht. apply list_elem_of_lookup in Ht as [i Ht].
      by destruct (Forall2_lookup_r _ _ _ _ _ Hts Ht) as (? & _ & _ & ?).
    + apply Forall2_length in Hts as Hl1. apply Forall2_length in Ec as Hl2.
      apply Forall2_same_length_lookup_2; [congruence|].
      intros i t h Ht Hh. destruct (Forall2_lookup_r _ _ _ _ _ Hts Ht) as (x & Hx & Hxt & _).
      destruct (Forall2_lookup_lr _ _ _ _ _ _ Ec Hx Hh) as [_ Hc]. by rewrite (tree_of_hash x t).
Qed.

Lemma validate_json_complete fuel j t :
  (json_height j < fuel)%nat → tree_of j t → mtree_valid t →
  validate_merkletree_json w fuel j = Ok CRUST_SUCCESS.
Proof.
  revert j t. induction fuel as [|fuel IH]; [lia|]. intros j t Hf Ht Hv. cbn [validate_merkletree_json].
  destruct Ht as [j size E|j size js n ts Hjs En Hn Hpos Hts]; [by rewrite E|].
  rewrite En. destruct (Z.eqb_spec n 0); [lia|]. rewrite Hjs. cbn [json_size].
  rewrite <- Hn, Z.eqb_refl. cbn [negb]. pose proof (i32_range (zlen js)).
  unfold HASH_LENGTH. rewrite u64_small by lia. rewrite granted by lia. cbn [negb].
  pose proof (i32_le (zlen js) (zlen_nonneg js)).
  rewrite <- (map_map (λ i, jidx i (JArray js))
    (λ x, (validate_merkletree_json w fuel x, ToString (jkey MT_HASH x)))).
  rewrite jidx_seq by (unfold zlen in *; lia).
  assert (ts ≠ []) as Hne.
  { intros ->. apply Forall2_length in Hts. rewrite length_take in Hts. cbn in Hts. unfold zlen in *. lia. }
  clear En Hn. inversion Hv as [|? ? ? hs _ Hf' Hhs Hp]; subst; [done|].
  assert (c_links (map (λ x, (validate_merkletree_json w fuel x, ToString (jkey MT_HASH x)))
            (take (Z.to_nat n) js)) [] = Ok (Some (concat hs))) as ->.
  { apply c_links_forall. exists hs. split; [|done]. cbn [fst snd].
    apply Forall2_length in Hts as Hl1. apply Forall2_length in Hhs as Hl2.
    apply Forall2_same_length_lookup_2; [congruence|]. intros i x h Hx Hh.
    destruct (Forall2_lookup_l _ _ _ _ _ Hts Hx) as (t & Ht & Hxt).
    split.
    - apply (IH x t); [|done|by eapply Forall_lookup_1].
      assert (x ∈ js) as Hin%height_elem.
      { rewrite <- (take_drop (Z.to_nat n) js). apply elem_of_app. left.
        by eapply list_elem_of_lookup_2. }
      pose proof (height_jkey MT_LINKS j) as Hj. rewrite Hjs in Hj. lia.
    - apply tree_of_hash in Hxt as <-. by pose proof (Forall2_lookup_lr _ _ _ _ _ _ Hhs Ht Hh). }
  cbn [mbind res_bind]. apply check_parent_success. eauto.
Qed.
End validate.

(** *** A valid tree is bound by its root hash *)
Section binding.
Context {W : Type} `{!Host W}.

(** Two different messages with the same digest *)

Lemma concat_inj n (hs hs' : list bytes) :
  (0 < n)%nat → Forall (λ h, List.length h = n) hs → Forall (λ h, List.length h = n) hs' →
  concat hs = concat hs' → hs = hs'.
Proof.
  intros Hn H. revert hs'. induction H as [|h hs Hh _ IH]; intros [|h' hs'] H' E; [done| | |].
  - apply Forall_cons in H' as [Hl _]. destruct h'; cbn in *; [lia|done].
  - destruct h; cbn in *; [lia|done].
  - apply Forall_cons in H' as [Hl H']. cbn in E. apply app_inj_1 in E as [-> E]; [|congruence].
    f_equal. auto.
Qed.

Lemma c_hashes_length l hs :
  Forall2 (λ l h, c_hash (mt_hash l) = Ok h) l hs → Forall (λ h, List.length h = 32%nat) hs.
Proof. induction 1; constructor; [by eapply c_hash_length|done]. Qed.

Lemma agree_or_collision t t' :
  mtree_valid t → mtree_valid t' → c_hash (mt_hash t) = c_hash (mt_hash t') →
  tree_agree t t' ∨ tree_collision t t'.
Proof.
  revert t'. induction t as [h s l IH] using MerkleTree_nested_ind. intros [h' s' l'] Hv Hv' Hh.
  cbn in Hh. destruct l as [|x l]; [left; by constructor|].
  destruct l' as [|x' l']; [left; by constructor|].
  inversion Hv as [|? ? ? hs _ Hf Hhs Hp]; subst. inversion Hv' as [|? ? ? hs' _ Hf' Hhs' Hp']; subst.
  rewrite Hp, Hp' in Hh. injection Hh as Hh.
  destruct (decide (concat hs = concat hs')) as [E|Hne]; [|right; by eapply tc_here].
  apply (concat_inj 32) in E as <-; [|lia|by eapply c_hashes_length..].
  assert (Forall2 (λ a b, c_hash (mt_hash a) = c_hash (mt_hash b)) (x :: l) (x' :: l')) as Hll.
  { apply Forall2_length in Hhs as Hl1. apply Forall2_length in Hhs' as Hl2.
    apply Forall2_same_length_lookup_2; [congruence|]. intros i a b Ha Hb.
    destruct (Forall2_lookup_l _ _ _ _ _ Hhs Ha) as (c & Hc & Hac).
    pose proof (Forall2_lookup_lr _ _ _ _ _ _ Hhs' Hb Hc). cbn in *. congruence. }
  assert (Forall2 tree_agree (x :: l) (x' :: l') ∨
          ∃ i a b, (x :: l) !! i = Some a ∧ (x' :: l') !! i = Some b ∧ tree_collision a b)
    as [Ha|(i & a & b & Ha & Hb & Hab)]; [|left; by constructor|right; by eapply tc_below].
  clear - IH Hf Hf' Hll. induction Hll as [|a b la lb Hab _ IH2]; [by left; constructor|].
  apply Forall_cons in IH as [Ia IH], Hf as [Va Hf], Hf' as [Vb Hf'].
  destruct (Ia b Va Vb Hab) as [?|?]; [|right; by exists 0%nat, a, b].
  destruct (IH2 IH Hf Hf') as [?|(i & c & d & Hc & Hd & Hcd)]; [left; by constructor|].
  right. by exists (S i), c, d.
Qed.
End binding.

(** *** Termination: the height of the value is enough fuel. *)
Lemma c_links_not_nofuel vs acc :
  Forall (λ v, v.1 ≠ NoFuel) vs → c_links vs acc ≠ NoFuel.
Proof.
  intros H. revert acc. induction H as [|[v h] vs Hv _ IH]; intros acc; cbn; [done|].
  destruct v as [st| | |]; cbn in *; try done. destruct (negb _); [done|].
  unfold c_hash. destruct (_ <? _); [done|]. apply IH.
Qed.

Lemma validate_json_not_nofuel {W} `{!Host W} (w : W) fuel j :
  (json_height j < fuel)%nat → validate_merkletree_json w fuel j ≠ NoFuel.
Proof.
  revert j. induction fuel as [|fuel IH]; [lia|]. intros j Hf. cbn [validate_merkletree_json].
  set (links := jkey MT_LINKS j). destruct (_ =? 0); [done|]. destruct (negb _); [done|].
  destruct (negb _); [done|].
  destruct (c_links _ _) as [c| | |] eqn:Ec; try done.
  - cbn. unfold check_parent, c_hash. destruct c; [|done]. by destruct (_ <? _).
  - exfalso. revert Ec. apply c_links_not_nofuel. apply Forall_fmap, Forall_forall. intros i _. cbn.
    pose proof (height_jkey MT_LINKS j) as Hj. fold links in Hj. clearbody links.
    unfold jidx. destruct (nth_in_or_default i (as_array links) JNull) as [H|H].
    + apply list_elem_of_In in H. destruct links; try by apply not_elem_of_nil in H.
      apply height_elem in H. apply IH. cbn [as_array] in *. lia.
    + rewrite H. destruct fuel; [|done]. pose proof (height_pos j). lia.
Qed.

(** ** Properties *)

(** C19: the JSON validator accepts exactly the values that denote a valid tree:
    every inner node lists as many links as it says and hashes its children. *)
Theorem merkle_validate_correct {W} `{!Host W} `{!HostLaws W} (w : W) j :
  (∀ n, 0 <= n < 2 ^ 63 → malloc w n = true) →
  validate_merkletree_json w (S (json_height j)) j = Ok CRUST_SUCCESS ↔
  ∃ t, tree_of j t ∧ mtree_valid t.
Proof.
  intros Hg. split; [by apply validate_json_sound|].
  intros (t & Ht & Hv). eapply validate_json_complete; [done|lia|exact Ht|exact Hv].
Qed.

(** C20: two accepted trees with the same root hash agree on every node both have,
    or at some place two nodes of theirs have different child hashes that hash to
    the same value. *)
Theorem merkle_binding {W} `{!Host W} `{!HostLaws W} (w : W) f f' j j' :
  validate_merkletree_json w f j = Ok CRUST_SUCCESS →
  validate_merkletree_json w f' j' = Ok CRUST_SUCCESS →
  ToString (jkey MT_HASH j) = ToString (jkey MT_HASH j') →
  ∃ t t', tree_of j t ∧ tree_of j' t' ∧ (tree_agree t t' ∨ tree_collision t t').
Proof.
  intros H H' Hh. apply validate_json_sound in H as (t & Ht & Hv).
  apply validate_json_sound in H' as (t' & Ht' & Hv'). exists t, t'. split_and!; [done..|].
  apply agree_or_collision; [done..|]. by rewrite (tree_of_hash j t), (tree_of_hash j' t'), Hh.
Qed.

(** Validation terminates on every value, well formed or not, within a
    recursion as deep as the value. *)
Theorem merkle_validate_terminates {W} `{!Host W} (w : W) j :
  validate_merkletree_json w (S (json_height j)) j ≠ NoFuel.
Proof. apply validate_json_not_nofuel. lia. Qed.

(** A tree with two leaves, and the same tree with a changed leaf *)
Definition demo_leaf (c : ascii) : json :=
  JObject [(MT_HASH, JHash (replicate 32 c)); (MT_LINKS_NUM, JIntegral 0)].
Definition demo_tree (a : ascii) : json :=
  JObject [(MT_HASH, JHash (demo_sha256 (replicate 32 "a"%char ++ replicate 32 "b"%char)));
           (MT_LINKS, JArray [demo_leaf a; demo_leaf "b"%char]);
           (MT_LINKS_NUM, JIntegral 2)].

Example demo_tree_valid :
  validate_merkletree_json (world demo_enclave) 4 (demo_tree "a"%char) = Ok CRUST_SUCCESS.
Proof. vm_compute. reflexivity. Qed.
Example demo_tree_changed :
  validate_merkletree_json (world demo_enclave) 4 (demo_tree "c"%char) = Ok CRUST_INVALID_MERKLETREE.
Proof. vm_compute. reflexivity. Qed.

Lemma merkle_validate_correct_witness :
  ∃ t, tree_of (demo_tree "a"%char) t ∧ mtree_valid t.
Proof.
  apply (merkle_validate_correct (world demo_enclave) (demo_tree "a"%char)).
  - intros n Hn. rewrite demo_malloc. lia.
  - vm_compute. reflexivity.
Defined.
Lemma merkle_binding_witness :
  ∃ t t', tree_of (demo_tree "a"%char) t ∧ tree_of (demo_tree "a"%char) t' ∧ (tree_agree t t' ∨ tree_collision t t').
Proof.
  apply (merkle_binding (world demo_enclave) 4 4); vm_compute; reflexivity.
Defined.
