(* ===== verification/Persist.v ===== *)
(** * Persistence (enclave/persistence/Persistence.cpp)

    Values are stored under their key, or, above OCALL_STORE_THRESHOLD, as pieces
    under [key_0], [key_1], ... described by a record under [key_sum]; the plain
    versions store the bytes as they are, the others seal them first.  Reading
    looks for the record first. *)
From S2P Require Import Prelude StdMap Status Hex Json JsonParse JsonText Host State Demo.

Section persist.
Context {W : Type} `{!Host W}.
Abbreviation M := (M (enclave W)).

(** ** Sealing (EUtils.cpp) *)

(** [Sgx_seal_data_ex], [Sgx_seal_data]: probe the heap, then seal. *)
Definition Sgx_seal_data_ex (src : bytes) (size : Z) : M (sgx_status * bytes) :=
  ok ← enc_malloc size;
  if negb ok then mret (SGX_ERROR_OUT_OF_MEMORY, []) else host (sgx_seal_data_ex src).
Definition Sgx_seal_data (src : bytes) (size : Z) : M (sgx_status * bytes) :=
  ok ← enc_malloc size;
  if negb ok then mret (SGX_ERROR_OUT_OF_MEMORY, []) else host (sgx_seal_data src).

(** [seal_data_mrenclave]: the status, the sealed bytes, the size *)
Definition seal_data_mrenclave (src : bytes) : M (crust_status * bytes * Z) :=
  let size := u32 (sgx_calc_sealed_data_size (u32 (zlen src))) in
  ok ← enc_malloc size;
  if negb ok then mret (CRUST_MALLOC_FAILED, [], 0)
  else
    r ← Sgx_seal_data_ex src size;
    if sgx_ok r.1 then mret (CRUST_SUCCESS, r.2, size)
    else mret (CRUST_SEAL_DATA_FAILED, [], size).

(** [seal_data_mrsigner]: the check after the allocation tests the wrong
    pointer, so a failed allocation is written through. *)
Definition seal_data_mrsigner (src : bytes) : M (crust_status * bytes * Z) :=
  let size := u32 (sgx_calc_sealed_data_size (u32 (zlen src))) in
  ok ← enc_malloc size;
  if negb ok then undefined
  else
    r ← Sgx_seal_data src size;
    if sgx_ok r.1 then mret (CRUST_SUCCESS, r.2, size)
    else mret (CRUST_SEAL_DATA_FAILED, [], size).

(** ** Reading through the boundary *)
Definition inner_ocall_persist_get (key : bytes) : M (crust_status * option bytes) :=
  r ← host (ocall_persist_get key);
  let '(st, temp) := r in
  if negb (is_success st) then mret (st, None)
  else
    ok ← enc_malloc (zlen temp);
    if negb ok then
      st ← host ocall_free_outer_buffer;
      if negb (is_success st) then mret (st, None) else mret (CRUST_MALLOC_FAILED, None)
    else
      st ← host ocall_free_outer_buffer;
      if negb (is_success st) then mret (st, None) else mret (CRUST_SUCCESS, Some temp).

(** ** Keys and pieces *)
Definition sum_key (key : bytes) : bytes := key ++ str "_sum".
Definition piece_key (key : bytes) (i : Z) : bytes := key ++ str "_" ++ to_string i.
Definition pieces (data : bytes) : list bytes := map fst (store_parts (List.length data) data true).
Definition sum_str (num size : Z) : bytes :=
  let sum_json := jkey_set PERSIST_SIZE (jint size) (jkey_set PERSIST_SUM (jint num) JNull) in
  remove_char (remove_char (remove_char (dump sum_json) (chr 92)) (chr 10)) (chr 32).

(** ** Simple operations *)
Definition persist_add (key value : bytes) : M crust_status :=
  r ← seal_data_mrenclave value;
  let '(st, sealed, _) := r in
  if negb (is_success st) then mret st else host (ocall_persist_add key sealed).
Definition persist_add_keys_unsafe (key keys : bytes) : M crust_status :=
  host (ocall_persist_add_keys key keys).
Definition persist_del (key : bytes) : M crust_status := host (ocall_persist_del key).
Definition persist_del_keys_unsafe (key keys : bytes) : M crust_status :=
  host (ocall_persist_del_keys key keys).

(** ** Writing *)

(** The loop over the pieces: the sealing version stops at a failure, the plain
    one goes on. *)
Fixpoint set_pieces (stop : bool) (key : bytes) (i : Z) (ps : list bytes) (st : crust_status)
    : M (crust_status * Z) :=
  match ps with
  | [] => mret (st, i)
  | p :: ps =>
      st ← host (ocall_persist_set (piece_key key i) p);
      if stop && negb (is_success st) then mret (st, i)
      else set_pieces stop key (u32 (i + 1)) ps st
  end.

(** Deleting the pieces of an earlier large value *)
Definition del_pieces (key : bytes) : M unit :=
  r ← inner_ocall_persist_get (sum_key key);
  match r with
  | (CRUST_SUCCESS, Some s) =>
      sum_json ← of_res (Load Text s);
      let piece_num := u32 (ToInt (jkey PERSIST_SUM sum_json)) in
      for_each (seq 0 (Z.to_nat piece_num))
        (λ i, persist_del (piece_key key (Z.of_nat i));; mret tt);;
      persist_del (sum_key key);; mret tt
  | _ => mret tt
  end.

Definition persist_set (key value : bytes) : M crust_status :=
  r ← seal_data_mrenclave value;
  let '(st, sealed, size) := r in
  if negb (is_success st) then mret st
  else if OCALL_STORE_THRESHOLD <? size then
    r ← set_pieces true key 0 (pieces sealed) CRUST_SUCCESS;
    if negb (is_success r.1) then mret r.1
    else host (ocall_persist_set (sum_key key) (sum_str r.2 size))
  else
    del_pieces key;;
    host (ocall_persist_set key sealed).

Definition persist_set_unsafe (key value : bytes) : M crust_status :=
  if OCALL_STORE_THRESHOLD <? zlen value then
    r ← set_pieces false key 0 (pieces value) CRUST_SUCCESS;
    host (ocall_persist_set (sum_key key) (sum_str r.2 (zlen value)))
  else
    del_pieces key;;
    host (ocall_persist_set key value).

(** ** Reading *)

(** The loop over the stored pieces, copying into a buffer of [size] bytes;
    copying past its end is undefined.  A piece that cannot be read ends the
    sealing version and counts as empty in the plain one. *)
Fixpoint get_pieces (stop : bool) (key : bytes) (n : nat) (i : Z) (size : Z) (acc : bytes)
    (st : crust_status) : M (crust_status * bytes) :=
  match n with
  | O => mret (st, acc ++ replicate (Z.to_nat (size - zlen acc)) (chr 0))
  | S n =>
      r ← inner_ocall_persist_get (piece_key key i);
      if stop && negb (is_success r.1) then mret (r.1, [])
      else
        let part := default [] r.2 in
        if size <? zlen acc + zlen part then undefined
        else get_pieces stop key n (i + 1) size (acc ++ part) r.1
  end.

(** The bytes stored under [key], in pieces or not *)
Definition get_stored (stop : bool) (key : bytes) : M (crust_status * option bytes) :=
  r ← inner_ocall_persist_get (sum_key key);
  match r with
  | (CRUST_SUCCESS, s) =>
      sum_json ← of_res (Load Text (default [] s));
      let size := u64 (ToInt (jkey PERSIST_SIZE sum_json)) in
      let piece_num := u32 (ToInt (jkey PERSIST_SUM sum_json)) in
      ok ← enc_malloc size;
      if negb ok then mret (CRUST_MALLOC_FAILED, None)
      else
        r ← get_pieces stop key (Z.to_nat piece_num) 0 size [] CRUST_SUCCESS;
        if stop && negb (is_success r.1) then mret (r.1, None) else mret (r.1, Some r.2)
  | _ =>
      r ← inner_ocall_persist_get key;
      match r with
      | (CRUST_SUCCESS, v) =>
          ok ← enc_malloc (zlen (default [] v));
          if negb ok then mret (CRUST_MALLOC_FAILED, None) else mret (CRUST_SUCCESS, v)
      | (st, _) => mret (st, None)
      end
  end.

(** [persist_get]: when the last allocation fails the status stays SUCCESS and
    no value is handed out. *)
Definition persist_get (key : bytes) : M (crust_status * option bytes) :=
  r ← get_stored true key;
  match r with
  | (CRUST_SUCCESS, Some sealed) =>
      ok ← enc_malloc (u32 (sgx_get_encrypt_txt_len sealed));
      if negb ok then mret (CRUST_SUCCESS, None)
      else match sgx_unseal_data sealed with
           | Some v => mret (CRUST_SUCCESS, Some v)
           | None => mret (CRUST_UNSEAL_DATA_FAILED, None)
           end
  | r => mret r
  end.

Definition persist_get_unsafe (key : bytes) : M (crust_status * option bytes) :=
  get_stored false key.
End persist.

(** ** The persistence layer only talks to the host *)
Class DbKeeps {W : Type} `{!Host W} (P : W → Prop) : Prop := {
  keeps_set k v : keeps P (ocall_persist_set k v);
  keeps_get k : keeps P (ocall_persist_get k);
  keeps_del k : keeps P (ocall_persist_del k);
  keeps_free : keeps P ocall_free_outer_buffer
}.
#[export] Hint Resolve keeps_set keeps_get keeps_del keeps_free load_not_nofuel : sworker.

#[global] Instance db_keeps_true {W} `{!Host W} : DbKeeps (λ _ : W, True).
Proof. by split. Qed.

Section frame.
Context {W : Type} `{!Host W} (P : W → Prop) `{!DbKeeps P}.
Lemma outside_malloc n : outside P (enc_malloc n).
Proof. apply outside_gets. Qed.
Lemma outside_inner_get k : outside P (inner_ocall_persist_get k).
Proof. unfold inner_ocall_persist_get. outside. Qed.
Lemma outside_set_pieces stop k i ps st : outside P (set_pieces stop k i ps st).
Proof. revert i st. induction ps as [|p ps IH]; intros; cbn [set_pieces]; outside. Qed.
Lemma outside_persist_del k : outside P (persist_del k).
Proof. unfold persist_del. outside. Qed.
#[local] Hint Resolve outside_malloc outside_inner_get outside_set_pieces outside_persist_del : sworker.
Lemma outside_del_pieces k : outside P (del_pieces k).
Proof. unfold del_pieces. outside. apply outside_for_each. intros x. outside. Qed.
Lemma outside_persist_set_unsafe k v : outside P (persist_set_unsafe k v).
Proof. pose proof outside_del_pieces. unfold persist_set_unsafe. outside. Qed.
Lemma outside_get_pieces stop k n i size acc st : outside P (get_pieces stop k n i size acc st).
Proof. revert i acc st. induction n as [|n IH]; intros; cbn [get_pieces]; cbv zeta; outside. Qed.
#[local] Hint Resolve outside_get_pieces : sworker.
Lemma outside_get_stored stop k : outside P (get_stored stop k).
Proof. unfold get_stored. outside. Qed.
Lemma outside_persist_get k : outside P (persist_get k).
Proof. pose proof (outside_get_stored true k). unfold persist_get. outside. Qed.
Lemma outside_persist_get_unsafe k : outside P (persist_get_unsafe k).
Proof. apply outside_get_stored. Qed.
End frame.
#[export] Hint Resolve outside_malloc outside_persist_del outside_persist_set_unsafe outside_persist_get
  outside_persist_get_unsafe : sworker.

(** ** What a store holds under a key *)
Abbreviation view := (bytes → option bytes).
Definition upd (k : bytes) (v : option bytes) (f : view) : view :=
  λ k', if decide (k = k') then v else f k'.

(** The keys an operation on [key] may touch *)
Definition family (key k : bytes) : Prop :=
  k = key ∨ k = sum_key key ∨ ∃ i, 0 <= i ∧ k = piece_key key i.

Lemma to_string_not_sum i : 0 <= i → to_string i ≠ str "sum".
Proof.
  intros Hi E. unfold to_string in E. destruct (Z.ltb_spec i 0); [lia|].
  destruct (to_string_u_spec i Hi) as (Hd & _). rewrite E in Hd. by apply Forall_cons in Hd as [? _].
Qed.

Lemma piece_key_inj key i j : 0 <= i → 0 <= j → piece_key key i = piece_key key j → i = j.
Proof.
  intros Hi Hj E. unfold piece_key in E. apply app_inv_head, app_inv_head in E.
  unfold to_string in E. destruct (Z.ltb_spec i 0), (Z.ltb_spec j 0); try lia.
  by apply to_string_u_inj.
Qed.
Lemma piece_key_sum key i : 0 <= i → piece_key key i ≠ sum_key key.
Proof.
  intros Hi E. unfold piece_key, sum_key in E. apply app_inv_head in E.
  change (str "_sum") with (str "_" ++ str "sum") in E. apply app_inv_head in E.
  by apply to_string_not_sum in E.
Qed.
Lemma app_not_self {A} (l l' : list A) : l' ≠ [] → l ++ l' ≠ l.
Proof. intros H E. apply (f_equal (@List.length A)) in E. rewrite length_app in E. destruct l'; cbn in *; [done|lia]. Qed.
Lemma piece_key_self key i : piece_key key i ≠ key.
Proof. by apply app_not_self. Qed.
Lemma sum_key_self key : sum_key key ≠ key.
Proof. by apply app_not_self. Qed.

(** The record of the pieces reads back. *)
Definition sum_record (num size : Z) : json :=
  JObject [(PERSIST_SIZE, jint size); (PERSIST_SUM, jint num)].

Lemma remove_char_comm s c d : remove_char (remove_char s c) d = remove_char (remove_char s d) c.
Proof. unfold remove_char. rewrite !list_filter_filter. apply list_filter_iff. naive_solver. Qed.

Lemma sum_str_load num size : Load Text (sum_str num size) = Ok (sum_record num size).
Proof.
  unfold sum_str. rewrite (remove_char_comm _ (chr 92) (chr 10)).
  change (jkey_set PERSIST_SIZE _ _) with (sum_record num size).
  apply load_strip_dump_ok; [|by repeat constructor|done].
  constructor; [by repeat constructor| |].
  - by repeat constructor.
  - constructor; [|constructor; [|constructor]]; constructor; apply i64_range.
Qed.

Lemma remove_char_length s c : zlen (remove_char s c) <= zlen s.
Proof. unfold remove_char, zlen. apply inj_le, length_filter. Qed.

Lemma sum_str_short num size :
  0 <= num < 2 ^ 63 → 0 <= size < 2 ^ 63 → zlen (sum_str num size) < 2 ^ 63.
Proof.
  intros Hn Hs. unfold sum_str.
  pose proof (remove_char_length (remove_char (remove_char (dump (sum_record num size)) (chr 92)) (chr 10)) (chr 32)) as H1.
  pose proof (remove_char_length (remove_char (dump (sum_record num size)) (chr 92)) (chr 10)) as H2.
  pose proof (remove_char_length (dump (sum_record num size)) (chr 92)) as H3.
  change (jkey_set PERSIST_SIZE _ _) with (sum_record num size).
  enough (zlen (dump (sum_record num size)) < 2 ^ 63) by lia.
  assert (10 ^ Z.of_nat 19 = 10000000000000000000) as E19 by done.
  pose proof (to_string_length num 19 ltac:(lia) ltac:(lia)).
  pose proof (to_string_length size 19 ltac:(lia) ltac:(lia)).
  unfold dump, sum_record, jint. rewrite !i64_small by lia. cbn [dump_at map join fst snd].
  unfold zlen in *. revert H H0. generalize (to_string num) (to_string size). intros A B HA HB.
  repeat (rewrite ?length_app;
    cbn [List.length app quote pad drop replicate str String.list_ascii_of_string
         PERSIST_SIZE PERSIST_SUM Nat.mul Nat.add]; unfold quote, pad).
  lia.
Qed.

(** A record left by this code, or none *)
Definition sum_fine (f : view) (key : bytes) : Prop :=
  f (sum_key key) = None ∨
  ∃ num size, f (sum_key key) = Some (sum_str num size) ∧ 0 <= num < 2 ^ 32 ∧ zlen (sum_str num size) < 2 ^ 63.

(** [data] is stored under [key], whole or in pieces. *)
Definition stored (f : view) (key data : bytes) : Prop :=
  (f (sum_key key) = None ∧ f key = Some data) ∨
  ∃ ps, f (sum_key key) = Some (sum_str (zlen ps) (zlen data)) ∧ concat ps = data ∧
        zlen ps < 2 ^ 32 ∧ ∀ j p, ps !! j = Some p → f (piece_key key (Z.of_nat j)) = Some p.

Lemma upd_eq k v f : upd k v f k = v.
Proof. unfold upd. by rewrite decide_True. Qed.
Lemma upd_ne k k' v f : k ≠ k' → upd k v f k' = f k'.
Proof. intros. unfold upd. by rewrite decide_False. Qed.

(** The view after the pieces from index [i] on were written *)
Fixpoint write_pieces (key : bytes) (i : Z) (ps : list bytes) (f : view) : view :=
  match ps with
  | [] => f
  | p :: ps => write_pieces key (i + 1) ps (upd (piece_key key i) (Some p) f)
  end.

Lemma write_pieces_other key i ps f k :
  0 <= i → (∀ j, i <= j → k ≠ piece_key key j) → write_pieces key i ps f k = f k.
Proof.
  revert i f. induction ps as [|p ps IH]; intros i f Hi Hk; [done|]. cbn.
  rewrite IH by (try lia; intros; apply Hk; lia). apply upd_ne. intros E. by apply (Hk i).
Qed.
Lemma write_pieces_lookup key i ps f j p :
  0 <= i → ps !! j = Some p → write_pieces key i ps f (piece_key key (i + Z.of_nat j)) = Some p.
Proof.
  revert i f j. induction ps as [|q ps IH]; intros i f j Hi Hj; [done|]. cbn.
  destruct j as [|j]; cbn in Hj; simplify_eq.
  - rewrite write_pieces_other; [by rewrite Z.add_0_r, upd_eq|lia|].
    intros j Hj E. rewrite Z.add_0_r in E. apply piece_key_inj in E; lia.
  - replace (i + Z.of_nat (S j)) with (i + 1 + Z.of_nat j) by lia. apply IH; [lia|done].
Qed.

(** The view after the pieces below [n] were deleted *)
Definition del_piece_view (key : bytes) (is_ : list nat) (f : view) : view :=
  foldl (λ f i, upd (piece_key key (Z.of_nat i)) None f) f is_.
Lemma del_piece_other key is_ f k :
  (∀ j, 0 <= j → k ≠ piece_key key j) → del_piece_view key is_ f k = f k.
Proof.
  intros Hk. revert f. induction is_ as [|i is_ IH]; intros f; [done|]. cbn.
  unfold del_piece_view in IH. rewrite IH. apply upd_ne. intros E. by apply (Hk (Z.of_nat i)); [lia|].
Qed.

Lemma u32_idem_small i : 0 <= i < 2 ^ 32 → u32 i = i.
Proof. apply u32_small. Qed.

(** ** The operations against a database that is well *)
Section spec.
Context {W : Type} `{!Host W} `{!DbLaws W} `{!DbHealthy W}.
Implicit Types (e : enclave W) (f : view).

(** The database of [e] is [f]; the rest of the state is that of [e0]. *)
Definition db_is (e0 e : enclave W) f : Prop :=
  (∃ w, e = with_world w e0) ∧ ∀ k, db (world e) k = f k.

Lemma db_is_world e0 e f w :
  db_is e0 e f → ∀ g, (∀ k, db w k = g k) → db_is e0 (with_world w e) g.
Proof. intros [[w' ->] _] g Hg. split; [by exists w|done]. Qed.

Lemma db_is_refl e f : (∀ k, db (world e) k = f k) → db_is e e f.
Proof. split; [|done]. exists (world e). by rewrite with_world_id. Qed.

Lemma twp_set e0 k v f (Q : crust_status → enclave W → Prop) e :
  db_is e0 e f → (∀ e', db_is e0 e' (upd k (Some v) f) → Q CRUST_SUCCESS e') →
  twp (host (ocall_persist_set k v)) Q e.
Proof.
  intros He HQ. apply twp_zoom. rewrite healthy_set.
  apply HQ. eapply db_is_world; [done|]. intros k'. rewrite db_set_healthy. unfold upd.
  destruct He as [_ He]. by rewrite He.
Qed.

Lemma twp_del e0 k f (Q : crust_status → enclave W → Prop) e :
  db_is e0 e f → (∀ st e', db_is e0 e' (upd k None f) → Q st e') → twp (persist_del k) Q e.
Proof.
  intros He HQ. apply twp_zoom. apply HQ. eapply db_is_world; [done|]. intros k'.
  rewrite db_del_healthy. unfold upd. destruct He as [_ He]. by rewrite He.
Qed.

Lemma twp_malloc n (Q : bool → enclave W → Prop) e :
  0 <= n < 2 ^ 63 → Q true e → twp (enc_malloc n) Q e.
Proof.
  intros Hn HQ. change (Q (malloc (world e) (u64 n)) e). by rewrite u64_small, db_malloc by lia.
Qed.

Lemma twp_inner_get e0 k f (Q : crust_status * option bytes → enclave W → Prop) e :
  db_is e0 e f → (∀ v, f k = Some v → zlen v < 2 ^ 63) →
  (∀ e' r, db_is e0 e' f →
     match f k with Some v => r = (CRUST_SUCCESS, Some v) | None => r.1 ≠ CRUST_SUCCESS ∧ r.2 = None end →
     Q r e') →
  twp (inner_ocall_persist_get k) Q e.
Proof.
  intros He Hsz HQ. unfold inner_ocall_persist_get. twp_step. apply twp_zoom.
  destruct (db_get k (world e)) as [Hg Hsame].
  assert (db_is e0 (with_world (ocall_persist_get k (world e)).2 e) f) as He'.
  { eapply db_is_world; [done|]. intros k'. rewrite Hsame. apply (proj2 He). }
  revert He' Hg. destruct (ocall_persist_get k (world e)) as [[st temp] w']. cbn [fst snd].
  intros He' Hg. rewrite (proj2 He k) in Hg. destruct (f k) as [v|] eqn:Ev.
  - injection Hg as -> ->. cbn [is_success negb]. twp_step.
    apply twp_malloc; [pose proof (zlen_nonneg v); split; [done|]; by apply Hsz|].
    cbn [negb]. twp_step. apply twp_zoom.
    destruct (db_free (world (with_world w' e))) as [-> Hf]. cbn [is_success negb].
    apply HQ; [|done]. eapply db_is_world; [done|]. intros k'. rewrite Hf. apply (proj2 He').
  - destruct st; try done; apply HQ; done.
Qed.

Lemma twp_set_pieces e0 stop key i ps f st (Q : crust_status * Z → enclave W → Prop) e :
  0 <= i → i + zlen ps < 2 ^ 32 → db_is e0 e f → st = CRUST_SUCCESS →
  (∀ e', db_is e0 e' (write_pieces key i ps f) → Q (CRUST_SUCCESS, i + zlen ps) e') →
  twp (set_pieces stop key i ps st) Q e.
Proof.
  intros Hi Hn He -> HQ. revert i f e Hi Hn He HQ.
  induction ps as [|p ps IH]; intros i f e Hi Hn He HQ; cbn [set_pieces].
  - twp_step. rewrite zlen_nil, Z.add_0_r in HQ. by apply HQ.
  - twp_step. eapply twp_set; [exact He|]. intros e' He'. cbn [is_success negb].
    rewrite andb_false_r. rewrite zlen_cons in *. pose proof (zlen_nonneg ps).
    rewrite u32_small by lia.
    eapply IH; [lia|lia|exact He'|]. intros e2 He2.
    replace (i + 1 + zlen ps) with (i + (1 + zlen ps)) by lia. by apply HQ.
Qed.

Lemma twp_del_loop e0 key is_ f (Q : unit → enclave W → Prop) e :
  db_is e0 e f → (∀ e', db_is e0 e' (del_piece_view key is_ f) → Q tt e') →
  twp (for_each is_ (λ i, persist_del (piece_key key (Z.of_nat i));; mret tt)) Q e.
Proof.
  revert f e. induction is_ as [|i is_ IH]; intros f e He HQ; cbn [for_each]; twp_step.
  - by apply HQ.
  - twp_step. eapply twp_del; [exact He|]. intros st e1 He1. twp_step. by eapply IH.
Qed.

(** After [del_pieces] there is no record, and only the family changed. *)
Lemma twp_del_pieces e0 key f (Q : unit → enclave W → Prop) e :
  db_is e0 e f → sum_fine f key →
  (∀ e' f', db_is e0 e' f' → f' (sum_key key) = None →
     (∀ k, ¬ family key k → f' k = f k) → Q tt e') →
  twp (del_pieces key) Q e.
Proof.
  intros He Hs HQ. unfold del_pieces. twp_step.
  eapply twp_inner_get; [exact He| |].
  { intros v Hv. destruct Hs as [Hs|(num & size & Hs & _ & Hl)]; [congruence|]. by simplify_eq. }
  intros e1 r He1 Hr. destruct Hs as [Hs|(num & size & Hs & Hnum & _)]; rewrite Hs in Hr.
  - destruct r as [st o], Hr as [Hst Ho]. cbn in *. subst. destruct st; try done; by eapply HQ.
  - subst r. twp_step. eapply twp_of_res; [apply sum_str_load|]. cbv zeta. twp_step.
    eapply twp_del_loop; [exact He1|]. intros e2 He2. twp_step.
    eapply twp_del; [exact He2|]. intros st e3 He3. twp_step. eapply HQ; [exact He3|apply upd_eq|].
    intros k Hk. rewrite upd_ne by (intros <-; apply Hk; unfold family; auto).
    apply del_piece_other. intros j Hj ->. apply Hk. unfold family. eauto.
Qed.

(** ** Writing establishes [stored] *)
Lemma store_parts_number fuel data cover :
  Z.of_nat (List.length (store_parts fuel data cover)) * OCALL_STORE_THRESHOLD
    <= zlen data + OCALL_STORE_THRESHOLD.
Proof.
  revert data cover. induction fuel as [|fuel IH]; intros data cover; cbn [store_parts].
  { pose proof (zlen_nonneg data). cbn. unfold OCALL_STORE_THRESHOLD. lia. }
  destruct (Z.eqb_spec (zlen data) 0); [cbn; unfold OCALL_STORE_THRESHOLD; lia|].
  set (part := Z.to_nat _). cbn [List.length].
  destruct (Z.le_gt_cases (zlen data) OCALL_STORE_THRESHOLD) as [Hs|Hb].
  - assert (drop part data = []) as ->.
    { apply drop_ge. subst part. unfold zlen in *. lia. }
    pose proof (zlen_nonneg data).
    assert (store_parts fuel [] false = []) as -> by by destruct fuel.
    cbn [List.length]. unfold OCALL_STORE_THRESHOLD. lia.
  - specialize (IH (drop part data) false).
    assert (zlen (drop part data) = zlen data - OCALL_STORE_THRESHOLD) as Hd.
    { subst part. unfold zlen, OCALL_STORE_THRESHOLD in *. rewrite length_drop. lia. }
    rewrite Hd in IH. unfold OCALL_STORE_THRESHOLD in *. lia.
Qed.

Lemma pieces_spec data :
  zlen data < 2 ^ 50 → concat (pieces data) = data ∧ zlen (pieces data) < 2 ^ 32.
Proof.
  intros Hd. unfold pieces. split; [apply store_parts_spec; lia|].
  pose proof (store_parts_number (List.length data) data true).
  unfold OCALL_STORE_THRESHOLD, zlen in *. rewrite length_map. lia.
Qed.

(** Writing [data] under [key], as both versions do it *)
Definition write_data (stop : bool) (key data : bytes) : M (enclave W) crust_status :=
  if OCALL_STORE_THRESHOLD <? zlen data then
    r ← set_pieces stop key 0 (pieces data) CRUST_SUCCESS;
    if stop && negb (is_success r.1) then mret r.1
    else host (ocall_persist_set (sum_key key) (sum_str r.2 (zlen data)))
  else
    del_pieces key;;
    host (ocall_persist_set key data).

Lemma write_data_unsafe key data : persist_set_unsafe key data = write_data false key data.
Proof. done. Qed.

Lemma twp_write_data stop e0 key data f (Q : crust_status → enclave W → Prop) e :
  zlen data < 2 ^ 50 → db_is e0 e f → sum_fine f key →
  (∀ e' f', db_is e0 e' f' → stored f' key data → sum_fine f' key →
     (f' (sum_key key) = None ↔ zlen data <= OCALL_STORE_THRESHOLD) →
     (∀ k, ¬ family key k → f' k = f k) → Q CRUST_SUCCESS e') →
  twp (write_data stop key data) Q e.
Proof.
  intros Hd He Hs HQ. unfold write_data. destruct (pieces_spec data Hd) as [Hc Hn].
  destruct (Z.ltb_spec OCALL_STORE_THRESHOLD (zlen data)).
  - twp_step. eapply twp_set_pieces; [lia|lia|exact He|done|]. intros e1 He1.
    cbn [fst snd is_success negb]. rewrite andb_false_r, Z.add_0_l.
    eapply twp_set; [exact He1|]. intros e2 He2. eapply HQ; [exact He2| | | |].
    + right. exists (pieces data). split_and!; [by rewrite upd_eq|done|done|].
      intros j p Hj. rewrite upd_ne by (apply not_eq_sym, piece_key_sum; lia).
      by apply (write_pieces_lookup key 0).
    + right. eexists _, _. split; [by rewrite upd_eq|]. pose proof (zlen_nonneg (pieces data)).
      split; [lia|]. pose proof (zlen_nonneg data). apply sum_str_short; lia.
    + rewrite upd_eq. split; [done|lia].
    + intros k Hk. rewrite upd_ne by (intros <-; apply Hk; unfold family; auto).
      apply write_pieces_other; [lia|]. intros j Hj ->. apply Hk. unfold family. eauto.
  - twp_step. eapply twp_del_pieces; [exact He|done|]. intros e1 f1 He1 Hn1 Hf1.
    eapply twp_set; [exact He1|]. intros e2 He2.
    assert (upd key (Some data) f1 (sum_key key) = None) as Hsum.
    { rewrite upd_ne; [done|]. apply not_eq_sym, sum_key_self. }
    eapply HQ; [exact He2| | | |].
    + left. split; [done|apply upd_eq].
    + by left.
    + by split.
    + intros k Hk. rewrite upd_ne by (intros <-; apply Hk; unfold family; auto). auto.
Qed.

(** ** Reading returns what is [stored] *)
Lemma twp_get_pieces e0 stop key n i ps f size acc st (Q : crust_status * bytes → enclave W → Prop) e :
  db_is e0 e f → 0 <= i → n = List.length ps → st = CRUST_SUCCESS →
  (∀ j p, ps !! j = Some p → f (piece_key key (i + Z.of_nat j)) = Some p) →
  size = zlen (acc ++ concat ps) → size < 2 ^ 63 →
  (∀ e', db_is e0 e' f → Q (CRUST_SUCCESS, acc ++ concat ps) e') →
  twp (get_pieces stop key n i size acc st) Q e.
Proof.
  intros He Hi -> -> Hp Hsz Hb HQ. revert i acc e He Hi Hp Hsz HQ.
  induction ps as [|p ps IH]; intros i acc e He Hi Hp Hsz HQ; cbn [List.length get_pieces].
  - twp_step. rewrite Hsz. cbn [concat]. rewrite app_nil_r, Z.sub_diag. cbn. rewrite app_nil_r.
    cbn in HQ. rewrite app_nil_r in HQ. by apply HQ.
  - pose proof (Hp 0%nat p eq_refl) as Hp0. rewrite Z.add_0_r in Hp0.
    assert (zlen acc + zlen p + zlen (concat ps) = size) as Hlen.
    { rewrite Hsz. cbn [concat]. len. }
    twp_step. eapply twp_inner_get; [exact He| |].
    { intros v Hv. simplify_eq. pose proof (zlen_nonneg acc). pose proof (zlen_nonneg (concat ps)). lia. }
    intros e1 r He1 Hr. rewrite Hp0 in Hr. subst r. cbn [fst snd is_success negb default id from_option].
    rewrite andb_false_r. pose proof (zlen_nonneg (concat ps)).
    destruct (Z.ltb_spec size (zlen acc + zlen p)); [lia|].
    apply IH; [done|lia| | |].
    + intros j q Hj. replace (i + 1 + Z.of_nat j) with (i + Z.of_nat (S j)) by lia. by apply Hp.
    + rewrite Hsz. cbn [concat]. by rewrite app_assoc.
    + intros e2 He2. cbn [concat] in HQ. rewrite <- app_assoc. by apply HQ.
Qed.

Lemma twp_get_stored e0 stop key data f (Q : crust_status * option bytes → enclave W → Prop) e :
  zlen data < 2 ^ 50 → db_is e0 e f → stored f key data →
  (∀ e', db_is e0 e' f → Q (CRUST_SUCCESS, Some data) e') →
  twp (get_stored stop key) Q e.
Proof.
  intros Hd He Hs HQ. unfold get_stored. pose proof (zlen_nonneg data). twp_step.
  destruct Hs as [[Hsum Hv]|(ps & Hsum & Hc & Hn & Hp)].
  - eapply twp_inner_get; [exact He|intros; congruence|]. intros e1 [st o] He1 Hr.
    rewrite Hsum in Hr. destruct Hr as [Hst Ho]. cbn in Hst, Ho. subst o.
    assert (twp (r ← inner_ocall_persist_get key;
      match r with
      | (CRUST_SUCCESS, v) =>
          ok ← enc_malloc (zlen (default [] v));
          if negb ok then mret (CRUST_MALLOC_FAILED, None) else mret (CRUST_SUCCESS, v)
      | (st, _) => mret (st, None)
      end) Q e1) as Hget; [|by destruct st].
    twp_step. eapply twp_inner_get; [exact He1|intros; simplify_eq; lia|]. intros e2 r He2 Hr.
    rewrite Hv in Hr. subst r. twp_step. apply twp_malloc; [cbn; lia|]. cbn [negb]. twp_step. by apply HQ.
  - pose proof (zlen_nonneg ps).
    eapply twp_inner_get; [exact He| |].
    { intros v Hv'. rewrite Hsum in Hv'. simplify_eq. apply sum_str_short; lia. }
    intros e1 r He1 Hr. rewrite Hsum in Hr. subst r. twp_step. cbn [default id from_option].
    eapply twp_of_res; [apply sum_str_load|]. cbv zeta.
    change (jkey PERSIST_SIZE (sum_record ?a ?b)) with (jint b).
    change (jkey PERSIST_SUM (sum_record ?a ?b)) with (jint a). cbn [ToInt jint].
    rewrite !i64_small, u64_small, u32_small by lia. twp_step. apply twp_malloc; [lia|]. cbn [negb].
    twp_step. eapply (twp_get_pieces e0 stop key _ 0 ps); [exact He1|lia| |done|done| |lia|].
    + unfold zlen. lia.
    + by rewrite Hc.
    + intros e2 He2. cbn [fst snd is_success negb app]. rewrite andb_false_r. twp_step.
      rewrite Hc. by apply HQ.
Qed.

(** Nothing under a key *)
Lemma twp_get_absent e0 stop key f (Q : crust_status * option bytes → enclave W → Prop) e :
  db_is e0 e f → f (sum_key key) = None → f key = None →
  (∀ r e', r.1 ≠ CRUST_SUCCESS ∧ r.2 = None → Q r e') →
  twp (get_stored stop key) Q e.
Proof.
  intros He Hsum Hk HQ. unfold get_stored. twp_step.
  eapply twp_inner_get; [exact He|intros; congruence|]. intros e1 [st o] He1 Hr.
  rewrite Hsum in Hr. destruct Hr as [Hst Ho]. cbn in Hst, Ho. subst o.
  assert (twp (r ← inner_ocall_persist_get key;
    match r with
    | (CRUST_SUCCESS, v) =>
        ok ← enc_malloc (zlen (default [] v));
        if negb ok then mret (CRUST_MALLOC_FAILED, None) else mret (CRUST_SUCCESS, v)
    | (st, _) => mret (st, None)
    end) Q e1) as Hget; [|by destruct st].
  twp_step. eapply twp_inner_get; [exact He1|intros; congruence|]. intros e2 [st2 o2] _ Hr.
  rewrite Hk in Hr. cbn in Hr. destruct Hr as [Hst2 ->].
  assert (Q (st2, None) e2) by (apply HQ; done). by destruct st2.
Qed.
End spec.

(** ** Sealed values

    [stored_sealed f key v]: under [key] lies a sealed buffer of [v]. *)
Section sealed.
Context {W : Type} `{!Host W} `{!DbLaws W} `{!DbHealthy W} `{!SealLaws W}.
Implicit Types (e : enclave W) (f : view).
Definition stored_sealed f key v : Prop :=
  ∃ sealed, stored f key sealed ∧ sgx_unseal_data sealed = Some v ∧ zlen sealed < 2 ^ 32.

(** Writing a sealed value either fails in the sealing, and then changes nothing, or
    leaves it stored. *)
Lemma twp_persist_set e0 key value f (Q : crust_status → enclave W → Prop) e :
  db_is e0 e f → sum_fine f key →
  (∀ st e', db_is e0 e' f → st ≠ CRUST_SUCCESS → Q st e') →
  (∀ e' f', db_is e0 e' f' → stored_sealed f' key value → sum_fine f' key →
     (∀ k, ¬ family key k → f' k = f k) → Q CRUST_SUCCESS e') →
  twp (persist_set key value) Q e.
Proof.
  intros He Hs HF HQ. unfold persist_set, seal_data_mrenclave, Sgx_seal_data_ex. cbv zeta.
  set (size := u32 _). assert (0 <= size < 2 ^ 32) as Hsz by apply Z.mod_pos_bound, eq_refl.
  do 2 twp_step. apply twp_malloc; [lia|]. cbn [negb].
  do 2 twp_step. apply twp_malloc; [lia|]. cbn [negb]. apply twp_zoom.
  destruct (sgx_seal_data_ex value (world e)) as [[st sealed] w] eqn:Es.
  pose proof (seal_ok value (world e)) as Hseal. pose proof (seal_db value (world e)) as Hdb.
  rewrite Es in Hseal, Hdb. cbn [fst snd] in *.
  assert (db_is e0 (with_world w e) f) as He1.
  { eapply db_is_world; [exact He|]. intros k. rewrite Hdb. apply (proj2 He). }
  destruct st; cbn [sgx_ok]; twp_step; cbv iota beta; cbn [is_success negb]; try by apply HF.
  destruct (Hseal eq_refl) as [Hun Hlen]. fold size in Hlen. rewrite <- Hlen.
  eapply (twp_write_data true e0 key sealed f); [lia|exact He1|done|].
  intros e' f' He' Hst Hf' _ Hother. eapply HQ; [exact He'| |done|done].
  exists sealed. split_and!; [done..|lia].
Qed.

Lemma twp_persist_get e0 key value f (Q : crust_status * option bytes → enclave W → Prop) e :
  db_is e0 e f → stored_sealed f key value →
  (∀ e', db_is e0 e' f → Q (CRUST_SUCCESS, Some value) e') →
  twp (persist_get key) Q e.
Proof.
  intros He (sealed & Hst & Hun & Hlen) HQ. unfold persist_get. twp_step.
  eapply twp_get_stored; [|exact He|exact Hst|]; [lia|]. intros e2 He2.
  pose proof (Z.mod_pos_bound (sgx_get_encrypt_txt_len sealed) (2 ^ 32) ltac:(lia)).
  twp_step. apply twp_malloc; [unfold u32; lia|]. cbn [negb]. rewrite Hun. twp_step. by apply HQ.
Qed.

Lemma twp_persist_set_unsafe e0 key value f (Q : crust_status → enclave W → Prop) e :
  db_is e0 e f → sum_fine f key → zlen value < 2 ^ 50 →
  (∀ e' f', db_is e0 e' f' → stored f' key value → sum_fine f' key →
     (∀ k, ¬ family key k → f' k = f k) → Q CRUST_SUCCESS e') →
  twp (persist_set_unsafe key value) Q e.
Proof.
  intros He Hs Hv HQ. rewrite write_data_unsafe.
  eapply twp_write_data; [done|exact He|done|]. intros e' f' He' Hst Hf _ Ho. by eapply HQ.
Qed.
End sealed.

(** Values stored under other keys are not touched. *)
Lemma stored_other f f' key data :
  (∀ k, family key k → f' k = f k) → stored f key data → stored f' key data.
Proof.
  intros Hf. assert (f' key = f key) by (apply Hf; unfold family; auto).
  assert (f' (sum_key key) = f (sum_key key)) as Es by (apply Hf; unfold family; auto).
  intros [[Hs Hk]|(ps & Hs & Hc & Hl & Hp)]; [left|right]; rewrite ?Es; [split; congruence|].
  exists ps. split_and!; [done..|]. intros j p Hj. rewrite Hf; [by apply Hp|].
  right; right. exists (Z.of_nat j). split; [lia|done].
Qed.
Lemma sum_fine_other f f' key :
  (∀ k, family key k → f' k = f k) → sum_fine f key → sum_fine f' key.
Proof.
  intros Hf. assert (f' (sum_key key) = f (sum_key key)) as Es by (apply Hf; unfold family; auto).
  unfold sum_fine. by rewrite Es.
Qed.

(** Keys with different first letters have disjoint families. *)
Lemma family_head key k : family key k → key ≠ [] → head k = head key.
Proof.
  intros [->|[->|(i & _ & ->)]] Hne; [done|..]; by destruct key.
Qed.

Lemma family_disjoint key key' k :
  head key ≠ head key' → key ≠ [] → key' ≠ [] → family key k → ¬ family key' k.
Proof. intros Hne ?? H1%family_head H2%family_head; congruence. Qed.

(** ** Properties *)

Section properties.
Context {W : Type} `{!Host W} `{!DbLaws W} `{!DbHealthy W} `{!SealLaws W}.

(** A value written without sealing is read back exactly, whatever its size
    (up to 2 ^ 50 bytes, in pieces above the threshold) and whatever was stored
    under the key before, and no key outside the family of [key] changes. *)
Theorem persist_unsafe_roundtrip (e : enclave W) f key value :
  db_is e e f → sum_fine f key → zlen value < 2 ^ 50 →
  twp (persist_set_unsafe key value)
      (λ st e', st = CRUST_SUCCESS ∧
         (∀ k, ¬ family key k → db (world e') k = f k) ∧
         twp (persist_get_unsafe key) (λ r _, r = (CRUST_SUCCESS, Some value)) e') e.
Proof.
  intros He Hs Hv. rewrite write_data_unsafe.
  eapply twp_write_data; [done|exact He|done|]. intros e' f' He' Hst _ _ Hf. split; [done|]. split.
  - intros k Hk. by rewrite (proj2 He'), Hf.
  - eapply twp_get_stored; [done|exact He'|exact Hst|]. done.
Qed.

(** A value that [persist_set] reports stored is unsealed by [persist_get]
    to exactly that value. *)
Theorem persist_sealed_roundtrip (e : enclave W) f key value :
  db_is e e f → sum_fine f key →
  twp (persist_set key value)
     (λ st e', st = CRUST_SUCCESS →
        twp (persist_get key) (λ r _, r = (CRUST_SUCCESS, Some value)) e') e.
Proof.
  intros He Hs. eapply twp_persist_set; [exact He|done|done|].
  intros e' f' He' Hst _ _ _. eapply twp_persist_get; [exact He'|exact Hst|done].
Qed.

(** Deleting a key after writing a value of up to OCALL_STORE_THRESHOLD bytes
    makes the value unreadable; a larger value, stored in pieces, survives its
    deletion and is still read back in full. *)
Theorem persist_del_spec (e : enclave W) f key value :
  db_is e e f → sum_fine f key → zlen value < 2 ^ 50 →
  twp (persist_set_unsafe key value;; persist_del key;; persist_get_unsafe key)
      (λ r _, (zlen value <= OCALL_STORE_THRESHOLD → r.1 ≠ CRUST_SUCCESS ∧ r.2 = None) ∧
              (OCALL_STORE_THRESHOLD < zlen value → r = (CRUST_SUCCESS, Some value))) e.
Proof.
  intros He Hs Hv. twp_step. rewrite write_data_unsafe.
  eapply twp_write_data; [done|exact He|done|]. intros e1 f1 He1 Hst _ Hsum _. twp_step.
  eapply twp_del; [exact He1|]. intros _ e2 He2.
  destruct Hst as [[Hn _]|(ps & Hps & Hc & Hl & Hp)].
  - apply twp_get_absent with (1 := He2).
    + rewrite upd_ne; [done|]. apply not_eq_sym, sum_key_self.
    + apply upd_eq.
    + intros r e3 Hr. split; [done|]. apply Hsum in Hn. lia.
  - eapply twp_get_stored; [done|exact He2| |].
    + right. exists ps. split_and!; [rewrite upd_ne by (apply not_eq_sym, sum_key_self); exact Hps|done..|].
      intros j p Hj. rewrite upd_ne by apply not_eq_sym, piece_key_self. by apply Hp.
    + intros e3 _. split; [|done]. intros Hle. apply Hsum in Hle. congruence.
Qed.
End properties.

(** Of a value in pieces [persist_set_unsafe] reports only how the last write went, that
    of the record: a piece that could not be written is reported stored. *)
Theorem unsafe_reports_record {W} `{!Host W} (e : enclave W) key value st e' :
  OCALL_STORE_THRESHOLD < zlen value → persist_set_unsafe key value e = Ok (st, e') →
  ∃ n e1, set_pieces false key 0 (pieces value) CRUST_SUCCESS e = Ok (n, e1) ∧
    host (ocall_persist_set (sum_key key) (sum_str n.2 (zlen value))) e1 = Ok (st, e').
Proof.
  intros Hv. unfold persist_set_unsafe. rewrite (proj2 (Z.ltb_lt _ _)) by done.
  intros (n & e1 & H1 & H2)%bind_Ok. by exists n, e1.
Qed.

(** ** Whatever fails *)
Section confined.
Context {W : Type} `{!Host W} `{!DbLaws W}.
Variables (key : bytes) (f : view).
(** The database is [f], but for the keys that belong to [key]. *)
Definition db_beside (w : W) : Prop := ∀ k, ¬ family key k → db w k = f k.
Lemma beside_set k v : family key k → keeps db_beside (ocall_persist_set k v).
Proof. intros Hk w Hw k' Hk'. destruct (db_set k v w) as [_ H]. rewrite H by congruence. by apply Hw. Qed.
Lemma beside_del k : family key k → keeps db_beside (ocall_persist_del k).
Proof. intros Hk w Hw k' Hk'. destruct (db_del k w) as [_ H]. rewrite H by congruence. by apply Hw. Qed.
Lemma beside_get k : keeps db_beside (ocall_persist_get k).
Proof. intros w Hw k' Hk'. destruct (db_get k w) as [_ ->]. by apply Hw. Qed.
Lemma beside_free : keeps db_beside ocall_free_outer_buffer.
Proof. intros w Hw k' Hk'. destruct (db_free w) as [_ ->]. by apply Hw. Qed.
#[local] Hint Resolve beside_set beside_del beside_get beside_free : sworker.
Lemma family_piece i : 0 <= i → family key (piece_key key i).
Proof. intros Hi. right; right. by exists i. Qed.
Lemma family_sum : family key (sum_key key).
Proof. by right; left. Qed.
Lemma family_self : family key key.
Proof. by left. Qed.
#[local] Hint Resolve family_sum family_self outside_malloc : sworker.

Lemma beside_inner_get k : outside db_beside (inner_ocall_persist_get k).
Proof. unfold inner_ocall_persist_get. outside. Qed.
Lemma beside_set_pieces stop i ps st : 0 <= i → outside db_beside (set_pieces stop key i ps st).
Proof.
  revert i st. induction ps as [|p ps IH]; intros i st Hi; cbn [set_pieces].
  { outside. }
  pose proof (family_piece i Hi). assert (0 <= u32 (i + 1)) by (apply Z.mod_pos_bound; lia). outside.
Qed.
#[local] Hint Resolve beside_inner_get : sworker.
Lemma beside_del_pieces : outside db_beside (del_pieces key).
Proof.
  unfold del_pieces, persist_del. outside. apply outside_for_each. intros x.
  pose proof (family_piece (Z.of_nat x) ltac:(lia)). outside.
Qed.
Lemma beside_persist_set_unsafe v : outside db_beside (persist_set_unsafe key v).
Proof.
  pose proof beside_del_pieces. pose proof (λ ps st, beside_set_pieces false 0 ps st ltac:(lia)).
  unfold persist_set_unsafe. outside.
Qed.
(** A value that is not in pieces is under its key if it is reported stored. *)
Lemma small_written v (e : enclave W) :
  zlen v <= OCALL_STORE_THRESHOLD →
  wp (persist_set_unsafe key v) (λ st e', st = CRUST_SUCCESS → db (world e') key = Some v) e.
Proof.
  intros Hv. unfold persist_set_unsafe. rewrite (proj2 (Z.ltb_ge _ _)) by done. apply wp_bind.
  apply (wp_outside (λ _, True)); [apply outside_del_pieces, _|done|]. intros _ w _.
  unfold host. apply wp_zoom. apply db_set.
Qed.
End confined.

Lemma demo_db_is (e : enclave demo) : db_is e e (λ k, map_find k (d_db (world e))).
Proof. split; [|done]. exists (world e). by destruct e. Qed.

Lemma persist_unsafe_roundtrip_witness :
  twp (persist_set_unsafe (str "files") (str "abc"))
    (λ st e', st = CRUST_SUCCESS ∧
       (∀ k, ¬ family (str "files") k → db (world e') k = None) ∧
       twp (persist_get_unsafe (str "files")) (λ r _, r = (CRUST_SUCCESS, Some (str "abc"))) e') demo_enclave.
Proof.
  apply (persist_unsafe_roundtrip demo_enclave (λ _, None));
    [exact (demo_db_is demo_enclave)|by left|reflexivity].
Defined.

Lemma persist_sealed_roundtrip_witness :
  twp (persist_set (str "metadata") (str "abc"))
    (λ st e', st = CRUST_SUCCESS →
       twp (persist_get (str "metadata")) (λ r _, r = (CRUST_SUCCESS, Some (str "abc"))) e') demo_enclave.
Proof.
  apply (persist_sealed_roundtrip demo_enclave (λ _, None));
    [exact (demo_db_is demo_enclave)|by left].
Defined.


Lemma long_value n : 0 <= n → ∃ data : bytes, zlen data = n.
Proof. intros Hn. exists (replicate (Z.to_nat n) (chr 0)). unfold zlen. rewrite length_replicate. lia. Qed.

(** A value of 4 MB + 1 bytes is still there after its deletion. *)
Lemma persist_del_spec_witness :
  ∃ data : bytes, OCALL_STORE_THRESHOLD < zlen data ∧
    twp (persist_set_unsafe (str "tree") data;; persist_del (str "tree");; persist_get_unsafe (str "tree"))
      (λ r _, r = (CRUST_SUCCESS, Some data)) demo_enclave.
Proof.
  destruct (long_value 4194305 ltac:(lia)) as [data Hl]. exists data.
  split; [rewrite Hl; reflexivity|].
  eapply twp_mono; [apply (persist_del_spec demo_enclave (λ _, None) (str "tree") data)|].
  - exact (demo_db_is demo_enclave).
  - by left.
  - rewrite Hl. reflexivity.
  - intros r e' [_ H]. apply H. rewrite Hl. reflexivity.
Defined.
