(* ===== verification/Schedule.v ===== *)
(** * The scheduler (enclave/schedule/Schedule.cpp)

    Counters of running tasks, and the check a long loop makes between two items:
    when a task that blocks it runs, it gives its lock away for a moment. *)
From S2P Require Import Prelude StdMap Status Hex Json JsonParse Host State Demo.

(** [g_block_func_m]: the tasks another task makes way for *)
Definition g_block_func_m (id : sched_process) : list sched_process :=
  match id with
  | SCHED_VALIDATE_SRD => [SCHED_GET_WORKREPORT; SCHED_SRD_CHECK_RESERVED]
  | SCHED_VALIDATE_FILE => [SCHED_GET_WORKREPORT; SCHED_CONFIRM_FILE; SCHED_DELETE_FILE]
  | SCHED_SRD_CHANGE => [SCHED_GET_WORKREPORT; SCHED_SRD_CHECK_RESERVED]
  | SCHED_SRD_CHECK_RESERVED => [SCHED_GET_WORKREPORT]
  | _ => []
  end.

Definition bump (id : sched_process) (d : Z) (f : sched_process → Z) : sched_process → Z :=
  λ k, if decide (k = id) then i32 (f k + d) else f k.

Section schedule.
Context {W : Type}.
Abbreviation M := (M (enclave W)).

Definition sched_add (id : sched_process) : M unit :=
  modify (λ e, with_g_func_m (bump id 1 (g_func_m e)) e).
Definition sched_del (id : sched_process) : M unit :=
  modify (λ e, with_g_func_m (bump id (-1) (g_func_m e)) e).

(** Is a task that blocks [id] running? *)
Definition sched_blocked (id : sched_process) (f : sched_process → Z) : bool :=
  existsb (λ proc, 0 <? f proc) (g_block_func_m id).
Definition sched_check `{!Threads W} (id : sched_process) : M unit :=
  release_lock ← gets (λ e, sched_blocked id (g_func_m e));
  if release_lock : bool then modify others_run else mret tt.
End schedule.

(** ** Sequences of starts and ends *)
Inductive sched_event := Add (id : sched_process) | Del (id : sched_process).
Definition sched_step (f : sched_process → Z) (ev : sched_event) : sched_process → Z :=
  match ev with Add id => bump id 1 f | Del id => bump id (-1) f end.
Definition running (id : sched_process) (evs : list sched_event) : Z :=
  foldr (λ ev n, match ev with
                 | Add i => if decide (id = i) then n + 1 else n
                 | Del i => if decide (id = i) then n - 1 else n
                 end) 0 evs.

Lemma running_app id a b : running id (a ++ b) = running id a + running id b.
Proof.
  unfold running. induction a as [|[i|i] a IH]; cbn; [done|..]; rewrite IH; case_decide; lia.
Qed.
Lemma running_bound id evs : - zlen evs <= running id evs <= zlen evs.
Proof.
  induction evs as [|[i|i] evs IH]; cbn [running foldr]; [done|..]; rewrite zlen_cons;
    unfold running in IH; case_decide; lia.
Qed.

(** From all counters at zero, the counter of a task is its starts minus its ends. *)
Lemma sched_count evs id :
  zlen evs < 2 ^ 31 → foldl sched_step (λ _, 0) evs id = running id evs.
Proof.
  induction evs as [|ev evs IH] using rev_ind; intros Hl; [done|].
  rewrite foldl_app, running_app. rewrite zlen_app in Hl. change (zlen [ev]) with 1 in Hl.
  pose proof (running_bound id evs). pose proof (zlen_nonneg evs).
  destruct ev as [i|i]; cbn [foldl sched_step]; unfold bump; cbn [running foldr];
    rewrite IH by lia; case_decide; rewrite ?i32_small; lia.
Qed.

Section properties.
Context {W : Type} `{!Threads W}.

(** After any history of starts and ends from an idle scheduler, a check for
    [id] lets the other threads run exactly when some task that blocks [id] was
    started more often than it ended; otherwise it changes nothing. *)
Theorem sched_check_yields (e : enclave W) evs id :
  zlen evs < 2 ^ 31 → g_func_m e = foldl sched_step (λ _, 0) evs →
  sched_check id e =
  Ok (tt, if decide (Exists (λ p, 0 < running p evs) (g_block_func_m id)) then others_run e else e).
Proof.
  intros Hl He. unfold sched_check, gets, mbind, m_bind. rewrite He.
  assert (sched_blocked id (foldl sched_step (λ _, 0) evs) = true ↔
          Exists (λ p, 0 < running p evs) (g_block_func_m id)) as Hb.
  { unfold sched_blocked. rewrite existsb_exists, Exists_exists.
    setoid_rewrite list_elem_of_In. setoid_rewrite Z.ltb_lt.
    split; intros (p & Hp & Hr); exists p; (split; [done|]);
      [rewrite <- sched_count by done|rewrite sched_count by done]; done. }
  destruct (sched_blocked id _) eqn:E.
  - rewrite decide_True by by apply Hb. done.
  - rewrite decide_False; [done|]. rewrite <- Hb. congruence.
Qed.
End properties.

Lemma sched_check_yields_witness :
  sched_check (W := demo) SCHED_VALIDATE_FILE
    (with_g_func_m (foldl sched_step (λ _, 0) [Add SCHED_CONFIRM_FILE; Del SCHED_CONFIRM_FILE]) demo_enclave)
  = Ok (tt, with_g_func_m (foldl sched_step (λ _, 0) [Add SCHED_CONFIRM_FILE; Del SCHED_CONFIRM_FILE]) demo_enclave).
Proof.
  refine (eq_trans (sched_check_yields _ [Add SCHED_CONFIRM_FILE; Del SCHED_CONFIRM_FILE] _ _ _) _);
    [reflexivity|reflexivity|]. case_decide; reflexivity.
Defined.
