(* ===== verification/Workload.v ===== *)
(** * The workload (enclave/workload/Workload.cpp)

    The singleton that keeps the srd hashes, the files and their statistics.  Its
    methods are functions on [workload]; those that call out of the enclave or
    allocate are computations.  Each method that locks does so around its whole
    body, so it is one step. *)
From S2P Require Import Prelude StdMap Status Hex Json JsonParse JsonText Host State Demo.

(** ** Statistics *)

(** [g_file_status[c]]: an unknown character gets an empty name. *)
Definition g_file_status (c : ascii) : bytes :=
  if decide (c = FILE_STATUS_UNCONFIRMED) then str "unconfirmed"
  else if decide (c = FILE_STATUS_VALID) then str "valid"
  else if decide (c = FILE_STATUS_LOST) then str "lost"
  else if decide (c = FILE_STATUS_DELETED) then str "deleted"
  else [].

Definition WL_NUM : bytes := str "num".
Definition WL_SIZE : bytes := str "size".

(** [info[name]["num"] += dn], [info[name]["size"] += ds] *)
Definition spec_add (name : bytes) (dn ds : Z) (info : json) : json :=
  jkey_update name (λ s,
    jkey_update WL_SIZE (λ x, jint (i64 (ToInt x + ds)))
      (jkey_update WL_NUM (λ x, jint (i64 (ToInt x + dn))) s)) info.
Definition spec_init (name : bytes) (info : json) : json :=
  jkey_update name (λ s, jkey_set WL_SIZE (jint 0) (jkey_set WL_NUM (jint 0) s)) info.

(** The constructor's [wl_spec_info] *)
Definition wl_spec_initial : json :=
  spec_init (g_file_status FILE_STATUS_LOST)
    (spec_init (g_file_status FILE_STATUS_VALID)
      (spec_init (g_file_status FILE_STATUS_UNCONFIRMED) JNull)).

(** [set_wl_spec(file_status, change)]; [change] is an [int]. *)
Definition sign_of (change : Z) : Z := if 0 <? change then 1 else -1.
Definition set_wl_spec (c : ascii) (change : Z) (w : workload) : workload :=
  let change := i32 change in
  with_wl_spec_info (spec_add (g_file_status c) (sign_of change) change (wl_spec_info w)) w.
(** [set_wl_spec(file_status, related_file_status, change)] *)
Definition set_wl_spec2 (c related : ascii) (change : Z) (w : workload) : workload :=
  if decide (c = related) then w
  else
    let change := i32 change in
    with_wl_spec_info
      (spec_add (g_file_status related) (- sign_of change) (- change)
        (spec_add (g_file_status c) (sign_of change) change (wl_spec_info w))) w.
Definition get_wl_spec (w : workload) : json := wl_spec_info w.
Definition restore_wl_spec_info (data : bytes) (w : workload) : res workload :=
  j ← Load Text data; Ok (with_wl_spec_info j w).

(** ** Files *)
Definition add_new_file (file : json) (w : workload) : workload :=
  with_new_files (new_files w ++ [file]) w.

(** The elements a loop [for (i = 0; i < j.size(); i++) j[i]] reads: subscripting
    anything but an array first turns it into an array of one null. *)
Definition loop_items (j : json) : list json :=
  match j with
  | JArray l => l
  | _ => if 0 <? json_size j then [JNull] else []
  end.

Definition restore_file (file_json : json) (w : workload) : workload :=
  foldl (λ w f,
    set_wl_spec (get_char CURRENT_STATUS (jkey FILE_STATUS f)) (ToInt (jkey FILE_OLD_SIZE f))
      (with_checked_files (checked_files w ++ [f]) w))
    (with_checked_files [] w) (loop_items file_json).

(** ** Srd information *)
Definition WL_ASSIGNED : bytes := str "assigned".

Definition set_srd_info (path : bytes) (change : Z) (w : workload) : workload :=
  with_srd_info_json
    (jkey_update path (λ p,
       jkey_update WL_ASSIGNED (λ x,
         let n := i64 (ToInt x + change) in jint (if n <? 0 then 0 else n)) p)
       (srd_info_json w)) w.
Definition get_srd_info (w : workload) : json := srd_info_json w.
Definition clean_srd_buffer (w : workload) : workload := with_srd_path2hashs_m [] w.
Definition srd_total (w : workload) : Z := map_total (srd_path2hashs_m w).

(** ** Persistence of srd hashes *)
Definition serialize_srd (w : workload) : bytes :=
  str "{"
  ++ join (str ",") (map (λ p,
       quote p.1 ++ str ":["
       ++ join (str ",") (map (λ h, quote (hexstring_safe (take 32 h))) p.2) ++ str "]")
       (srd_path2hashs_m w))
  ++ str "}".

(** The hashes of one path; [None] when one does not decode *)
Definition srd_item (x : json) : option bytes := hex_string_to_bytes (ToString x).
Fixpoint restore_srd_paths (ps : list (bytes * json)) (m : list (bytes * list bytes))
    : option (list (bytes * list bytes)) :=
  match ps with
  | [] => Some m
  | (path, items) :: ps =>
      hs ← mapM srd_item (loop_items items);
      restore_srd_paths ps
        (foldl (λ m h, map_set path (map_get [] path m ++ [h]) m) m hs)
  end.
Definition restore_srd (g_hashs : json) (w : workload) : crust_status * workload :=
  match restore_srd_paths (ObjectRange g_hashs) [] with
  | None => (CRUST_UNEXPECTED_ERROR, clean_srd_buffer w)
  | Some m =>
      (CRUST_SUCCESS,
       with_srd_info_json
         (foldl (λ info p, jkey_update p.1 (jkey_set WL_ASSIGNED (jint (zlen p.2))) info)
            (srd_info_json w) m)
         (with_srd_path2hashs_m m w))
  end.

(** ** Persistence of files *)

(** The room reserved for one entry *)
Definition file_item_len : Z :=
  zlen FILE_HASH + 3 + zlen HASH_TAG + 64 + 3
  + zlen FILE_OLD_HASH + 3 + zlen HASH_TAG + 64 + 3
  + zlen FILE_SIZE + 3 + 12 + 1
  + zlen FILE_OLD_SIZE + 3 + 12 + 1
  + zlen FILE_BLOCK_NUM + 3 + 6 + 1
  + zlen FILE_STATUS + 3 + 3 + 3
  + 2.

(** A [memcpy] into a buffer of [size] bytes *)
Definition put (size : Z) (buf data : bytes) : res bytes :=
  if zlen buf + zlen data <=? size then Ok (buf ++ data) else UB.
Fixpoint put_all (size : Z) (buf : bytes) (parts : list bytes) : res bytes :=
  match parts with
  | [] => Ok buf
  | p :: parts => buf ← put size buf p; put_all size buf parts
  end.
(** The entries, a comma appended to all but the last *)
Fixpoint file_parts (l : list json) : list bytes :=
  match l with
  | [] => []
  | [f] => [strip (dump f)]
  | f :: l => (strip (dump f) ++ str ",") :: file_parts l
  end.

(** ** Reporting *)
Definition set_report_file_flag (flag : bool) (w : workload) : workload := with_report_files flag w.
Definition get_report_file_flag (w : workload) : bool := report_files w.
Definition set_restart_flag (flag : bool) (w : workload) : workload := with_restart_flag flag w.
Definition get_restart_flag (w : workload) : bool := restart_flag w.
Definition set_report_height (height : Z) (w : workload) : workload := with_report_height height w.
Definition get_report_height (w : workload) : Z := report_height w.

Definition report_add_validated_proof (w : workload) : workload :=
  with_validated_proof (if 2 <=? validated_proof w then 2 else i32 (validated_proof w + 1)) w.
Definition report_reduce_validated_proof (w : workload) : workload :=
  with_validated_proof (if validated_proof w <=? 0 then 0 else i32 (validated_proof w - 1)) w.
Definition report_has_validated_proof (w : workload) : bool := 0 <? validated_proof w.

(** [status->set_char(ORIGIN_STATUS, status->get_char(WAITING_STATUS))] *)
Definition confirm_status (f : json) : json :=
  jkey_update FILE_STATUS (λ s, set_char ORIGIN_STATUS (get_char WAITING_STATUS s) s) f.
Definition handle_report_result (w : workload) : workload :=
  with_reported_files_idx []
    (with_checked_files
       (foldl (λ files i, alter confirm_status i files) (checked_files w) (reported_files_idx w)) w).

Definition try_report_work (block_height : Z) (w : workload) : crust_status :=
  if (block_height =? 0)
     || (u64 (u64 (block_height - get_report_height w) - WORKREPORT_REPORT_INTERVAL) <? ERA_LENGTH)
  then CRUST_UPGRADE_BLOCK_EXPIRE
  else if negb (report_has_validated_proof w) then CRUST_UPGRADE_NO_VALIDATE
  else if get_restart_flag w then CRUST_UPGRADE_RESTART
  else if negb (get_report_file_flag w) then CRUST_UPGRADE_NO_FILE
  else CRUST_SUCCESS.

(** ** Upgrade and identity *)
Definition set_upgrade (key : bytes) (w : workload) : workload :=
  with_pre_pub_key key (with_upgrade true w).
Definition is_upgrade (w : workload) : bool := upgrade w.
Definition set_upgrade_status (s : enc_upgrade_status) (w : workload) : workload := with_upgrade_status s w.
Definition get_upgrade_status (w : workload) : enc_upgrade_status := upgrade_status w.
Definition set_account_id (id : bytes) (w : workload) : workload := with_account_id id w.
Definition get_account_id (w : workload) : bytes := account_id w.
Definition try_get_key_pair (w : workload) : bool := is_set_key_pair w.
Definition get_pub_key (w : workload) : bytes := pub_key (id_key_pair w).
Definition get_pri_key (w : workload) : bytes := pri_key (id_key_pair w).
Definition set_key_pair (k : ecc_key_pair) (w : workload) : workload :=
  with_is_set_key_pair true (with_id_key_pair k w).
Definition get_key_pair (w : workload) : ecc_key_pair := id_key_pair w.
Definition set_mr_enclave (mr : bytes) (w : workload) : workload := with_mr_enclave mr w.
Definition get_mr_enclave (w : workload) : bytes := mr_enclave w.

(** The constructor; the key material is left as the memory was ([garbage]). *)
Definition workload_new (garbage : bytes * ecc_key_pair * bytes) : workload :=
  let '(pre, keys, mr) := garbage in
  Workload [] [] [] [] pre [] keys false mr 0 false 0 true JNull false ENC_UPGRADE_STATUS_NONE
    wl_spec_initial.

(** ** Methods that allocate or call out *)
Section calls.
Context {W : Type} `{!Host W}.

(** [get_workload] *)
Definition get_workload : M (enclave W) bytes :=
  e ← get;
  let wl_json :=
    jkey_update WL_SRD (jkey_set WL_SRD_REMAINING_TASK (jint (g_srd_change e)))
      (jkey_update WL_SRD (jkey_set WL_SRD_DETAIL (get_srd_info (wl e)))
        (jkey_set WL_FILES (wl_spec_info (wl e)) JNull)) in
  let wl_str := strip (dump wl_json) in
  host_ (ocall_store_workload wl_str true);;
  mret wl_str.

(** [serialize_file] *)
Definition serialize_file : M (enclave W) (crust_status * bytes) :=
  files ← get_wl checked_files;
  let buffer_size := zlen files * file_item_len in
  ok ← enc_malloc buffer_size;
  if negb ok then mret (CRUST_MALLOC_FAILED, [])
  else
    buf ← of_res (put_all buffer_size [] ([str "["] ++ file_parts files ++ [str "]"]));
    mret (CRUST_SUCCESS, buf).

(** [memcpy(_, files[i][FILE_HASH].ToBytes(), HASH_LENGTH)]: the bytes of a hash
    value, undefined on NULL. *)
Definition file_hash (f : json) : res bytes :=
  match ToBytes (jkey FILE_HASH f) with Some h => Ok (take 32 h) | None => UB end.
Fixpoint file_hashes (l : list json) : res bytes :=
  match l with
  | [] => Ok []
  | f :: l => h ← file_hash f; hs ← file_hashes l; Ok (h ++ hs)
  end.
(** The srd hashes in the order of the paths *)
Definition srd_hashes (m : list (bytes * list bytes)) : bytes :=
  concat (map (λ p, concat (map (take 32) p.2)) m).

(** [gen_workload_info]; the second allocation is not checked. *)
Definition gen_workload_info : M (enclave W) json :=
  w ← get_wl id;
  let m := srd_path2hashs_m w in
  let zero_hash := replicate 32 (chr 0) in
  let g_num := map_total m in
  ok ← (if zlen m =? 0 then mret true else enc_malloc (g_num * HASH_LENGTH));
  if negb ok then mret JNull
  else
    let ans :=
      if zlen m =? 0 then jkey_set WL_SRD_ROOT_HASH (jhash zero_hash) JNull
      else jkey_set WL_SRD_ROOT_HASH (jhash (sha256 (srd_hashes m)))
             (jkey_set WL_SRD_SPACE (jint (i64 (g_num * 1024 * 1024 * 1024))) JNull) in
    if zlen (checked_files w) =? 0 then
      mret (jkey_set WL_FILE_ROOT_HASH (jhash zero_hash) ans)
    else
      ok ← enc_malloc (zlen (checked_files w) * HASH_LENGTH);
      if negb ok then undefined
      else
        hs ← of_res (file_hashes (checked_files w));
        mret (jkey_set WL_FILE_ROOT_HASH (jhash (sha256 hs)) ans).
End calls.

(** ** Lemmas *)
Lemma i64_i32 z : i64 (i32 z) = i32 z.
Proof.
  apply i64_small. unfold i32. pose proof (Z.mod_pos_bound (z + 2 ^ 31) (2 ^ 32) ltac:(lia)). lia.
Qed.

(** What the statistics say of a status *)
Definition spec_num (c : ascii) (w : workload) : Z :=
  ToInt (jkey WL_NUM (jkey (g_file_status c) (wl_spec_info w))).
Definition spec_size (c : ascii) (w : workload) : Z :=
  ToInt (jkey WL_SIZE (jkey (g_file_status c) (wl_spec_info w))).

Definition known_status (c : ascii) : Prop :=
  c = FILE_STATUS_UNCONFIRMED ∨ c = FILE_STATUS_VALID ∨ c = FILE_STATUS_LOST ∨ c = FILE_STATUS_DELETED.

Lemma g_file_status_inj c d :
  known_status c → known_status d → g_file_status c = g_file_status d → c = d.
Proof. intros [->|[->|[->| ->]]] [->|[->|[->| ->]]]; done. Qed.

Lemma spec_add_eq name dn ds info :
  ToInt (jkey WL_NUM (jkey name (spec_add name dn ds info))) = i64 (ToInt (jkey WL_NUM (jkey name info)) + dn) ∧
  ToInt (jkey WL_SIZE (jkey name (spec_add name dn ds info))) = i64 (ToInt (jkey WL_SIZE (jkey name info)) + ds).
Proof.
  unfold spec_add. rewrite jkey_update_eq. split.
  - rewrite jkey_update_ne, jkey_update_eq by done. cbn. apply i64_small, i64_range.
  - rewrite jkey_update_eq, jkey_update_ne by done. cbn. apply i64_small, i64_range.
Qed.
Lemma spec_add_ne name name' dn ds info :
  name ≠ name' → jkey name' (spec_add name dn ds info) = jkey name' info.
Proof. intros. unfold spec_add. by rewrite jkey_update_ne. Qed.

Lemma sign_of_range z : -1 <= sign_of z <= 1.
Proof. unfold sign_of. destruct (0 <? z); lia. Qed.

(** A change of status moves one file and its size between two counters. *)
Lemma set_wl_spec2_spec c r change w :
  known_status c → known_status r → c ≠ r → - 2 ^ 31 <= change < 2 ^ 31 →
  (∀ x, - 2 ^ 62 <= spec_num x w <= 2 ^ 62 ∧ - 2 ^ 62 <= spec_size x w <= 2 ^ 62) →
  let w' := set_wl_spec2 c r change w in
  spec_num c w' = spec_num c w + sign_of change ∧ spec_size c w' = spec_size c w + change ∧
  spec_num r w' = spec_num r w - sign_of change ∧ spec_size r w' = spec_size r w - change ∧
  ∀ x, known_status x → x ≠ c → x ≠ r → spec_num x w' = spec_num x w ∧ spec_size x w' = spec_size x w.
Proof.
  intros Hc Hr Hne Hch Hb w'. subst w'. unfold set_wl_spec2. rewrite decide_False by done.
  rewrite i32_small by done. unfold spec_num, spec_size in *. cbn [wl_spec_info with_wl_spec_info].
  pose proof (sign_of_range change).
  assert (g_file_status r ≠ g_file_status c) as Hn by (intros E; apply Hne; by apply g_file_status_inj).
  set (info := wl_spec_info w) in *.
  destruct (spec_add_eq (g_file_status c) (sign_of change) change info) as [E1 E2].
  set (info1 := spec_add (g_file_status c) (sign_of change) change info) in *.
  destruct (spec_add_eq (g_file_status r) (- sign_of change) (- change) info1) as [E3 E4].
  rewrite E3, E4, !(spec_add_ne _ (g_file_status c)), E1, E2 by done.
  subst info1. rewrite !(spec_add_ne _ (g_file_status r)) by congruence.
  pose proof (Hb c). pose proof (Hb r). rewrite !i64_small by lia.
  split_and!; try lia. intros x Hx Hxc Hxr.
  assert (g_file_status c ≠ g_file_status x) by (intros E; by apply g_file_status_inj in E).
  assert (g_file_status r ≠ g_file_status x) by (intros E; by apply g_file_status_inj in E).
  by rewrite !spec_add_ne by done.
Qed.

(** ** Srd hashes to text and back *)
Definition push_all (path : bytes) (m : list (bytes * list bytes)) (hs : list bytes) :=
  foldl (λ m h, map_set path (map_get [] path m ++ [h]) m) m hs.

Lemma push_all_spec path hs m :
  map_ok m → hs ≠ [] → push_all path m hs = map_set path (map_get [] path m ++ hs) m.
Proof.
  unfold push_all. revert m. induction hs as [|h hs IH]; [done|]. intros m Hm _. cbn [foldl].
  destruct hs as [|h2 hs]; [done|]. rewrite IH by (try apply map_set_ok; done).
  unfold map_get at 1. rewrite map_find_set_eq. cbn [default id from_option].
  rewrite map_set_set by done. by rewrite <- app_assoc.
Qed.

(** What [serialize_srd] prints, as a value *)
Definition srd_json (m : list (bytes * list bytes)) : json :=
  JObject (map (λ p, (p.1, JArray (map (λ h, JString (hexstring_safe h)) p.2))) m).

(** Paths that survive printing, hashes of HASH_LENGTH bytes, no empty vector *)
Definition srd_ok (m : list (bytes * list bytes)) : Prop :=
  map_ok m ∧
  Forall (λ p, key_ok p.1 ∧ p.2 ≠ [] ∧ Forall (λ h, List.length h = 32%nat) p.2) m.

Lemma hex_no_tag h : take 6 (hexstring_safe h) ≠ HASH_TAG.
Proof.
  intros E. assert (Forall is_hex (take 6 (hexstring_safe h))) as H by apply Forall_take, hexstring_safe_hex.
  rewrite E in H. apply Forall_cons in H as [H _]. unfold is_hex in H. cbn in H.
  rewrite !elem_of_cons, elem_of_nil in H. naive_solver.
Qed.

Lemma hex_escape h : json_escape (hexstring_safe h) = hexstring_safe h.
Proof. apply escape_id. eapply Forall_impl; [apply hexstring_safe_hex|]. apply hex_escape_id. Qed.

Lemma srd_json_ok raw m : in_app raw = false → srd_ok m → text_ok raw (srd_json m).
Proof.
  intros Ha [Hm Hf]. constructor.
  - unfold map_ok. rewrite map_map. exact Hm.
  - apply Forall_fmap. eapply Forall_impl; [exact Hf|]. intros p (? & _ & _). by apply key_reads_enclave.
  - apply Forall_fmap, Forall_forall. intros p _. cbn. constructor. apply Forall_fmap, Forall_forall.
    intros h _. constructor. apply hex_no_tag.
Qed.

Lemma serialize_srd_render w :
  srd_ok (srd_path2hashs_m w) → serialize_srd w = render compact 1 (srd_json (srd_path2hashs_m w)).
Proof.
  intros [_ Hf]. unfold serialize_srd, srd_json. rewrite render_object.
  cbn [str String.list_ascii_of_string app lo_empty lo_close compact].
  f_equal. f_equal. transitivity (join [chr 44] (map (field compact 1)
    (map (λ p : bytes * json, (p.1, render compact 2 p.2))
       (map (λ p, (p.1, JArray (map (λ h, JString (hexstring_safe h)) p.2))) (srd_path2hashs_m w))))).
  - f_equal. rewrite !map_map. apply map_ext_in. intros p Hp%list_elem_of_In.
    rewrite Forall_forall in Hf. destruct (Hf p Hp) as (_ & _ & Hl).
    unfold field. cbn [fst snd render lo_field lo_colon lo_comma compact app].
    rewrite map_map. do 3 f_equal. f_equal. f_equal. apply map_ext_in. intros h Hh%list_elem_of_In.
    rewrite Forall_forall in Hl. rewrite take_ge by (rewrite Hl by done; done).
    cbn [render]. by rewrite hex_escape.
  - by destruct (srd_path2hashs_m w).
Qed.

Lemma srd_items_decode hs :
  Forall (λ h, List.length h = 32%nat) hs →
  mapM srd_item (map (λ h, JString (hexstring_safe h)) hs) = Some hs.
Proof.
  intros H. apply mapM_Some. apply Forall2_fmap_l, Forall_Forall2_diag.
  eapply Forall_impl; [exact H|]. intros h Hh.
  change (hex_string_to_bytes (json_escape (hexstring_safe h)) = Some h). rewrite hex_escape. apply hex_roundtrip. by destruct h.
Qed.

Lemma restore_paths_spec m acc :
  map_ok (acc ++ m) → Forall (λ p, p.2 ≠ [] ∧ Forall (λ h, List.length h = 32%nat) p.2) m →
  restore_srd_paths (map (λ p, (p.1, JArray (map (λ h, JString (hexstring_safe h)) p.2))) m) acc
  = Some (acc ++ m).
Proof.
  revert acc. induction m as [|[k hs] m IH]; intros acc Hok Hf; [by rewrite app_nil_r|].
  apply Forall_cons in Hf as [[Hne Hl] Hf]. cbn [fst snd] in Hne, Hl.
  pose proof (map_ok_app_inv _ _ _ _ Hok) as Hlast.
  pose proof (map_ok_app_l _ _ Hok) as Hacc.
  cbn [map restore_srd_paths fst snd loop_items]. rewrite srd_items_decode by done. cbn [mbind option_bind].
  change (foldl _ acc hs) with (push_all k acc hs). rewrite push_all_spec by done.
  assert (map_find k acc = None) as Hk.
  { destruct (map_find k acc) as [v|] eqn:E; [|done]. apply map_find_elem in E.
    rewrite Forall_forall in Hlast. apply Hlast in E. by apply key_lt_irrefl in E. }
  unfold map_get. rewrite Hk. cbn [default id from_option app]. rewrite map_set_last by done.
  rewrite IH; [by rewrite <- app_assoc|by rewrite <- app_assoc|done].
Qed.

(** ** Files to text and back *)

(** The entry [storage_seal_file] creates, with the status it has now *)
Definition file_entry (block_num : Z) (hash old_hash : bytes) (old_size size : Z) (status : bytes) : json :=
  JObject [(FILE_BLOCK_NUM, JIntegral block_num); (FILE_HASH, JHash hash);
           (FILE_OLD_HASH, JHash old_hash); (FILE_OLD_SIZE, JIntegral old_size);
           (FILE_SIZE, JIntegral size); (FILE_STATUS, JString status)].

(** The widths the buffer reserves, one digit less for the sealed size *)
Inductive file_ok : json → Prop :=
| file_ok_entry bn h oh os sz c1 c2 c3 :
    0 <= bn < 10 ^ 6 → 0 <= os < 10 ^ 12 → 0 <= sz < 10 ^ 11 →
    List.length h = 32%nat → List.length oh = 32%nat →
    Forall (λ c, is_digit c = true) [c1; c2; c3] →
    file_ok (file_entry bn h oh os sz [c1; c2; c3]).

Lemma digit_escape c : is_digit c = true → escape_char c = [c] ∧ c ≠ chr 10 ∧ c ≠ chr 92 ∧ c ≠ chr 32.
Proof.
  intros H. unfold is_digit in H. split.
  - unfold escape_char. repeat match goal with
    | |- context [code c =? ?n] => destruct (Z.eqb_spec (code c) n); [lia|]
    end. done.
  - split_and!; intros ->; done.
Qed.

Lemma status_plain cs : Forall (λ c, is_digit c = true) cs → json_escape cs = cs ∧ plain cs.
Proof.
  intros H. split.
  - apply escape_id. eapply Forall_impl; [exact H|]. intros c Hc. by apply digit_escape.
  - eapply Forall_impl; [exact H|]. intros c Hc. by apply digit_escape.
Qed.

Lemma file_ok_text f : file_ok f → text_ok Raw f ∧ text_ok Text f ∧ plain_text f.
Proof.
  intros [bn h oh os sz c1 c2 c3 Hb Ho Hs Hh Hoh Hc].
  destruct (status_plain _ Hc) as [He Hp].
  assert (∀ raw, in_app raw = false → text_ok raw (file_entry bn h oh os sz [c1; c2; c3])) as Ht.
  { intros raw Ha. constructor; [by repeat constructor| |].
    { repeat (apply List.Forall_cons; [apply key_reads_enclave; [done|key_ok]|]). apply List.Forall_nil. }
    repeat (apply List.Forall_cons; [cbn|]); try apply List.Forall_nil; constructor; try lia; done. }
  split_and!; [by apply Ht..|]. constructor; [by repeat constructor|].
  repeat (apply List.Forall_cons; [cbn|]); try apply List.Forall_nil; constructor. by rewrite He.
Qed.

Lemma file_ok_length f : file_ok f → zlen (strip (dump f)) + 2 <= file_item_len.
Proof.
  intros Hf. destruct (file_ok_text f Hf) as (_ & _ & Hp).
  unfold dump. rewrite dump_at_render, (strip_dump f Hp 1%nat 1%nat).
  destruct Hf as [bn h oh os sz c1 c2 c3 Hb Ho Hs Hh Hoh Hc].
  pose proof (to_string_length bn 6 Hb ltac:(lia)). pose proof (to_string_length os 12 Ho ltac:(lia)).
  pose proof (to_string_length sz 11 Hs ltac:(lia)).
  pose proof (hexstring_safe_length h). pose proof (hexstring_safe_length oh).
  destruct (status_plain _ Hc) as [He _]. unfold _hexstring, file_entry.
  cbn [render map fst snd lo_field lo_colon lo_close lo_comma compact join].
  rewrite He. unfold _hexstring.
  generalize dependent (to_string bn). generalize dependent (to_string os).
  generalize dependent (to_string sz). generalize dependent (hexstring_safe h).
  generalize dependent (hexstring_safe oh). intros A HA B HB C HC D HD E HE.
  unfold zlen in *. rewrite Hh in HB. rewrite Hoh in HA.
  change file_item_len with 244.
  repeat (rewrite ?length_app; cbn [List.length app HASH_TAG str String.list_ascii_of_string
    FILE_BLOCK_NUM FILE_HASH FILE_OLD_HASH FILE_OLD_SIZE FILE_SIZE FILE_STATUS]; unfold quote).
  lia.
Qed.

Lemma put_all_fits size buf parts :
  zlen buf + zlen (concat parts) <= size → put_all size buf parts = Ok (buf ++ concat parts).
Proof.
  revert buf. induction parts as [|p parts IH]; intros buf Hs; cbn [put_all concat].
  - by rewrite app_nil_r.
  - cbn [concat] in Hs. rewrite zlen_app in Hs. pose proof (zlen_nonneg (concat parts)).
    unfold put. destruct (Z.leb_spec (zlen buf + zlen p) size); [|lia].
    cbn [mbind res_bind]. rewrite IH by (rewrite zlen_app; lia). by rewrite <- app_assoc.
Qed.

Lemma put_all_concat size buf parts out : put_all size buf parts = Ok out → out = buf ++ concat parts.
Proof.
  revert buf. induction parts as [|p parts IH]; intros buf; cbn [put_all concat].
  - intros [= <-]. by rewrite app_nil_r.
  - unfold put. destruct (_ <=? _); [|done]. cbn [mbind res_bind]. intros ->%IH. by rewrite <- app_assoc.
Qed.

Lemma file_parts_join l :
  concat (file_parts l) = join (str ",") (map (λ f, strip (dump f)) l).
Proof.
  induction l as [|f [|f2 l] IH]; [done|cbn; by rewrite app_nil_r|].
  cbn [map]. rewrite join_cons. cbn [map] in IH. rewrite <- IH.
  change (file_parts (f :: f2 :: l)) with ((strip (dump f) ++ str ",") :: file_parts (f2 :: l)).
  cbn [concat]. by rewrite <- app_assoc.
Qed.

Lemma file_parts_length l :
  l ≠ [] → Forall file_ok l → zlen (concat (file_parts l)) + 2 <= zlen l * file_item_len.
Proof.
  induction l as [|f [|f2 l] IH]; intros Hne Hf; [done| |].
  - apply Forall_cons in Hf as [Hf _]. cbn [file_parts concat]. rewrite app_nil_r.
    change (zlen [f]) with 1. pose proof (file_ok_length f Hf). lia.
  - apply Forall_cons in Hf as [Hf Hl]. specialize (IH ltac:(done) Hl).
    change (file_parts (f :: f2 :: l)) with ((strip (dump f) ++ str ",") :: file_parts (f2 :: l)).
    cbn [concat]. rewrite !zlen_app. change (zlen (str ",")) with 1. rewrite (zlen_cons f).
    pose proof (file_ok_length f Hf). lia.
Qed.

(** What [serialize_file] writes *)
Definition files_text (l : list json) : bytes :=
  str "[" ++ join (str ",") (map (λ f, strip (dump f)) l) ++ str "]".

Lemma files_text_load raw l : in_app raw = false → Forall file_ok l → Load raw (files_text l) = Ok (JArray l).
Proof.
  intros Ha Hf. assert (files_text l = render compact 1 (JArray l)) as ->.
  { unfold files_text. cbn [render lo_comma compact]. f_equal. f_equal.
    change (str ",") with [chr 44]. f_equal.
    apply map_ext_in. intros f Hin%list_elem_of_In. unfold dump. rewrite dump_at_render.
    apply strip_dump. rewrite Forall_forall in Hf. by apply file_ok_text, Hf. }
  apply load_render; [apply _| |done]. constructor. eapply Forall_impl; [exact Hf|].
  intros f Hok. destruct raw; [by apply file_ok_text..|done].
Qed.

Lemma restore_file_files j w : checked_files (restore_file j w) = loop_items j.
Proof.
  unfold restore_file.
  assert (∀ l w0, checked_files (foldl (λ w f,
      set_wl_spec (get_char CURRENT_STATUS (jkey FILE_STATUS f)) (ToInt (jkey FILE_OLD_SIZE f))
        (with_checked_files (checked_files w ++ [f]) w)) w0 l) = checked_files w0 ++ l) as H; [|apply H].
  induction l as [|f l IH]; intros w0; cbn [foldl]; [by rewrite app_nil_r|].
  rewrite IH. cbn. by rewrite <- app_assoc.
Qed.

(** ** Reporting *)
Lemma confirm_fold (idx : list nat) (files : list json) (k : nat) :
  NoDup idx →
  foldl (λ files i, alter confirm_status i files) files idx !! k =
  (if decide (k ∈ idx) then confirm_status else id) <$> files !! k.
Proof.
  intros H. revert files. induction H as [|i idx Hi _ IH]; intros files; cbn [foldl].
  - case_decide as Hk; [by apply elem_of_nil in Hk|]. by destruct (files !! k).
  - rewrite IH. destruct (decide (k = i)) as [->|Hk].
    + rewrite list_lookup_alter_eq. rewrite decide_False by done.
      rewrite decide_True by left. by destruct (files !! i).
    + rewrite list_lookup_alter_ne by done.
      destruct (decide (k ∈ idx)) as [Hin|Hin].
      * by rewrite decide_True by by right.
      * rewrite decide_False; [done|]. by intros [|]%elem_of_cons.
Qed.

(** ** Properties *)

(** Saving and restoring the srd hashes gives the same map of hashes. *)
Theorem srd_roundtrip w w0 :
  srd_ok (srd_path2hashs_m w) →
  ∃ j, Load Text (serialize_srd w) = Ok j ∧
       (restore_srd j w0).1 = CRUST_SUCCESS ∧
       srd_path2hashs_m (restore_srd j w0).2 = srd_path2hashs_m w.
Proof.
  intros Hw. exists (srd_json (srd_path2hashs_m w)). split.
  - rewrite serialize_srd_render by done. apply load_render; [apply _|by apply srd_json_ok|done].
  - destruct Hw as [Hm Hf]. unfold restore_srd, srd_json. cbn [ObjectRange as_object].
    rewrite (restore_paths_spec (srd_path2hashs_m w) []); [done|done|].
    eapply Forall_impl; [exact Hf|]. by intros p (_ & ? & ?).
Qed.

(** With at least one file and sizes within the reserved widths, the buffer of
    [serialize_file] is large enough, what it holds parses back, and restoring it
    gives the same files. *)
Theorem files_roundtrip {W} `{!Host W} (e : enclave W) w0 raw :
  in_app raw = false → malloc (world e) (u64 (zlen (checked_files (wl e)) * file_item_len)) = true →
  checked_files (wl e) ≠ [] → Forall file_ok (checked_files (wl e)) →
  ∃ buf j, serialize_file e = Ok ((CRUST_SUCCESS, buf), e) ∧
           zlen buf <= zlen (checked_files (wl e)) * file_item_len ∧
           Load raw buf = Ok j ∧ checked_files (restore_file j w0) = checked_files (wl e).
Proof.
  intros Ha Hm Hne Hf. set (files := checked_files (wl e)) in *.
  exists (files_text files), (JArray files).
  pose proof (file_parts_length files Hne Hf) as Hlen.
  assert (put_all (zlen files * file_item_len) [] ([str "["] ++ file_parts files ++ [str "]"]) =
          Ok (files_text files)) as Hput.
  { rewrite put_all_fits; unfold files_text; rewrite <- ?file_parts_join; rewrite !concat_app; cbn [concat app str String.list_ascii_of_string].
    - done.
    - rewrite zlen_nil, !zlen_cons, zlen_app. change (zlen ["]"%char]) with 1. lia. }
  split_and!.
  - unfold serialize_file, get_wl, enc_malloc, gets, mbind, m_bind. fold files. rewrite Hm. cbn [negb].
    rewrite Hput. done.
  - unfold files_text. rewrite <- file_parts_join, !zlen_app. change (zlen (str "[")) with 1.
    change (zlen (str "]")) with 1. lia.
  - by apply files_text_load.
  - by rewrite restore_file_files.
Qed.

(** A successful report makes the reported status of exactly the reported
    files final, changes no other file and forgets the report. *)
Theorem handle_report_result_spec w k f :
  NoDup (reported_files_idx w) → checked_files w !! k = Some f →
  let w' := handle_report_result w in
  checked_files w' !! k =
    Some (if decide (k ∈ reported_files_idx w) then confirm_status f else f) ∧
  List.length (checked_files w') = List.length (checked_files w) ∧ reported_files_idx w' = [].
Proof.
  intros Hn Hk. cbn. split_and!; [| |done].
  - rewrite confirm_fold, Hk by done. by case_decide.
  - clear. generalize (reported_files_idx w) (checked_files w). intros idx.
    induction idx as [|i idx IH]; intros files; [done|]. cbn. by rewrite IH, length_alter.
Qed.

(** A change of status takes one file and its size from one counter to the
    other and leaves the remaining counters alone, for sizes within an [int]. *)
Theorem set_wl_spec_conserves c r size w :
  known_status c → known_status r → c ≠ r → 0 < size < 2 ^ 31 →
  (∀ x, - 2 ^ 62 <= spec_num x w <= 2 ^ 62 ∧ - 2 ^ 62 <= spec_size x w <= 2 ^ 62) →
  let w' := set_wl_spec2 c r size w in
  spec_num c w' = spec_num c w + 1 ∧ spec_size c w' = spec_size c w + size ∧
  spec_num r w' = spec_num r w - 1 ∧ spec_size r w' = spec_size r w - size ∧
  ∀ x, known_status x → x ≠ c → x ≠ r → spec_num x w' = spec_num x w ∧ spec_size x w' = spec_size x w.
Proof.
  intros Hc Hr Hne Hs Hb. pose proof (set_wl_spec2_spec c r size w Hc Hr Hne ltac:(lia) Hb) as H.
  unfold sign_of in H. destruct (Z.ltb_spec 0 size); [exact H|lia].
Qed.

(** A file of 3 GiB does not fit the [int]: the counters move the other way. *)
Example set_wl_spec_truncates w :
  wl_spec_info w = wl_spec_initial →
  let w' := set_wl_spec FILE_STATUS_VALID (3 * 2 ^ 30) w in
  spec_num FILE_STATUS_VALID w' = -1 ∧ spec_size FILE_STATUS_VALID w' = - 2 ^ 30.
Proof. intros Hw w'. subst w'. unfold spec_num, spec_size, set_wl_spec. cbn [wl_spec_info with_wl_spec_info]. rewrite Hw. by vm_compute. Qed.
(** Neither does an empty file count as one. *)
Example set_wl_spec_empty w :
  wl_spec_info w = wl_spec_initial →
  spec_num FILE_STATUS_UNCONFIRMED (set_wl_spec FILE_STATUS_UNCONFIRMED 0 w) = -1.
Proof. intros Hw. unfold spec_num, set_wl_spec. cbn [wl_spec_info with_wl_spec_info]. rewrite Hw. by vm_compute. Qed.
(** With no file the buffer has no room for the brackets. *)
Example serialize_file_empty : serialize_file demo_enclave = UB.
Proof. reflexivity. Qed.

Inductive proof_op := AddProof | ReduceProof.
Definition proof_step (w : workload) (o : proof_op) : workload :=
  match o with
  | AddProof => report_add_validated_proof w
  | ReduceProof => report_reduce_validated_proof w
  end.

(** At most two reports per validation: however often validation succeeded
    before, after two reports without a new one the workload has no proof; and
    one validation since the last report is enough to have one. *)
Theorem validated_proof_two w ops :
  0 <= validated_proof w <= 2 →
  0 <= validated_proof (foldl proof_step w ops) <= 2 ∧
  report_has_validated_proof (foldl proof_step w (ops ++ [AddProof])) = true ∧
  report_has_validated_proof (foldl proof_step w (ops ++ [ReduceProof; ReduceProof])) = false.
Proof.
  intros Hw. assert (0 <= validated_proof (foldl proof_step w ops) <= 2) as Hr.
  { revert w Hw. induction ops as [|o ops IH]; intros w Hw; [done|]. cbn [foldl]. apply IH.
    destruct o; cbn; case_match eqn:E; rewrite ?i32_small; lia. }
  split; [done|]. rewrite !foldl_app. cbn [foldl proof_step].
  set (w' := foldl proof_step w ops) in *. unfold report_has_validated_proof. cbn.
  assert (validated_proof w' = 0 ∨ validated_proof w' = 1 ∨ validated_proof w' = 2) as [->|[->| ->]] by lia;
    done.
Qed.

Lemma try_report_work_iff h w :
  0 < h < 2 ^ 63 → 0 <= report_height w < 2 ^ 63 →
  try_report_work h w = CRUST_SUCCESS ↔
  (report_height w + 310 <= h ∨ h < report_height w + 10) ∧
  0 < validated_proof w ∧ restart_flag w = false ∧ report_files w = true.
Proof.
  intros Hh Hr. unfold try_report_work, get_report_height, report_has_validated_proof,
    get_restart_flag, get_report_file_flag, WORKREPORT_REPORT_INTERVAL, ERA_LENGTH.
  destruct (Z.eqb_spec h 0); [lia|]. cbn [orb].
  assert (u64 (u64 (h - report_height w) - 10) < 300 ↔
          ¬ (report_height w + 310 <= h ∨ h < report_height w + 10)) as He.
  { destruct (Z.lt_ge_cases h (report_height w)).
    - rewrite (u64_neg (h - report_height w)), u64_small by lia. lia.
    - rewrite (u64_small (h - report_height w)) by lia.
      destruct (Z.lt_ge_cases (h - report_height w) 10).
      + rewrite u64_neg by lia. lia.
      + rewrite u64_small by lia. lia. }
  destruct (Z.ltb_spec (u64 (u64 (h - report_height w) - 10)) 300) as [Hlt|Hge];
    [split; [done|]; intros (? & _); apply He in Hlt; done|].
  destruct (Z.ltb_spec 0 (validated_proof w)); cbn [negb]; [|split; [done|lia]].
  destruct (restart_flag w); [by split; [|intros (_ & _ & ? & _)]|].
  destruct (report_files w); cbn [negb]; [|by split; [|intros (_ & _ & _ & ?)]].
  split; [|done]. intros _. split_and!; [|done..]. lia.
Qed.

(** The height test of [try_report_work] is the intended one only when the
    block is past the last report; a block at most ten above the last report, or
    below it, wraps around and passes.  The other checks are in order. *)
Theorem try_report_work_spec h w :
  0 < h < 2 ^ 63 → 0 <= report_height w < 2 ^ 63 →
  try_report_work h w = CRUST_SUCCESS ↔
  (report_height w + 310 <= h ∨ h < report_height w + 10) ∧
  0 < validated_proof w ∧ restart_flag w = false ∧ report_files w = true.
Proof. apply try_report_work_iff. Qed.

(** The assigned space of a path changes by the given amount but never below
    zero, and no other path changes. *)
Theorem set_srd_info_floor path change w :
  let assigned p w := ToInt (jkey WL_ASSIGNED (jkey p (srd_info_json w))) in
  - 2 ^ 63 <= assigned path w + change < 2 ^ 63 →
  assigned path (set_srd_info path change w) = Z.max 0 (assigned path w + change) ∧
  ∀ p, p ≠ path → assigned p (set_srd_info path change w) = assigned p w.
Proof.
  intros assigned Hb. subst assigned. cbn beta in *. unfold set_srd_info. cbn [srd_info_json with_srd_info_json].
  split.
  - rewrite !jkey_update_eq, i64_small by done. cbv zeta. cbn [ToInt jint].
    destruct (Z.ltb_spec (ToInt (jkey WL_ASSIGNED (jkey path (srd_info_json w))) + change) 0);
      rewrite i64_small; lia.
  - intros p Hp. by rewrite jkey_update_ne by done.
Qed.

(** ** Witnesses *)
Definition demo_hash (c : ascii) : bytes := replicate 32 c.
Definition demo_file (c : ascii) (status : bytes) : json :=
  file_entry 3 (demo_hash c) (demo_hash "o"%char) 100 120 status.
Lemma demo_file_ok c : file_ok (demo_file c (str "100")).
Proof. by repeat constructor. Qed.

Definition demo_srd_workload : workload :=
  with_srd_path2hashs_m [(str "/a", [demo_hash "x"%char; demo_hash "y"%char]); (str "/b", [demo_hash "z"%char])]
    demo_workload.
Definition demo_files_workload : workload :=
  with_wl_spec_info wl_spec_initial
    (with_reported_files_idx [0%nat]
      (with_checked_files [demo_file "f"%char (str "110"); demo_file "g"%char (str "111")] demo_workload)).

Lemma srd_roundtrip_witness :
  ∃ j, Load Text (serialize_srd demo_srd_workload) = Ok j ∧
       (restore_srd j demo_workload).1 = CRUST_SUCCESS ∧
       srd_path2hashs_m (restore_srd j demo_workload).2 = srd_path2hashs_m demo_srd_workload.
Proof.
  apply (srd_roundtrip demo_srd_workload demo_workload). split; [by repeat constructor|].
  repeat (apply List.Forall_cons; [split; [by repeat constructor|split; [done|by repeat constructor]]|]).
  apply List.Forall_nil.
Defined.

Lemma files_roundtrip_witness :
  ∃ buf j, serialize_file (with_wl demo_files_workload demo_enclave)
             = Ok ((CRUST_SUCCESS, buf), with_wl demo_files_workload demo_enclave) ∧
           zlen buf <= zlen (checked_files demo_files_workload) * file_item_len ∧
           Load Raw buf = Ok j ∧
           checked_files (restore_file j demo_workload) = checked_files demo_files_workload.
Proof.
  apply (files_roundtrip (with_wl demo_files_workload demo_enclave) demo_workload Raw);
    [reflexivity|reflexivity|done|]. by repeat constructor.
Defined.

Lemma handle_report_result_spec_witness :
  checked_files (handle_report_result demo_files_workload) !! 0%nat = Some (demo_file "f"%char (str "111")).
Proof.
  refine (eq_trans (proj1 (handle_report_result_spec demo_files_workload 0
    (demo_file "f"%char (str "110")) _ _)) _); [apply NoDup_singleton|reflexivity|].
  vm_compute. reflexivity.
Defined.

Lemma set_wl_spec_conserves_witness :
  spec_size FILE_STATUS_LOST (set_wl_spec2 FILE_STATUS_VALID FILE_STATUS_LOST 100 demo_files_workload) = -100.
Proof.
  refine (eq_trans (proj1 (proj2 (proj2 (proj2 (set_wl_spec_conserves FILE_STATUS_VALID FILE_STATUS_LOST 100
    demo_files_workload _ _ _ _ _))))) _); [by right; left|by right; right; left|done|done| |reflexivity].
  intros x. unfold spec_num, spec_size, g_file_status. repeat case_decide; by vm_compute.
Defined.

Lemma validated_proof_two_witness :
  report_has_validated_proof (foldl proof_step demo_workload ([AddProof; AddProof; AddProof] ++ [ReduceProof; ReduceProof])) = false.
Proof. apply (validated_proof_two demo_workload [AddProof; AddProof; AddProof]). done. Defined.

(** A stale block: height 5 after a report at height 400 *)
Lemma try_report_work_spec_witness :
  try_report_work 5 (with_report_height 400 (with_validated_proof 1 demo_workload)) = CRUST_SUCCESS.
Proof.
  apply (try_report_work_spec 5 (with_report_height 400 (with_validated_proof 1 demo_workload)));
    cbn; [done|done|]. split; [by right|done].
Defined.

Lemma set_srd_info_floor_witness :
  ToInt (jkey WL_ASSIGNED (jkey (str "/a") (srd_info_json (set_srd_info (str "/a") (-3) demo_workload)))) = 0.
Proof.
  refine (proj1 (set_srd_info_floor (str "/a") (-3) demo_workload _)).
  vm_compute. split; congruence.
Defined.
