(* ===== verification/Report.v ===== *)
(** * Work reports (enclave/report/Report.cpp)

    [gen_work_report] purges files that are gone for good, scans the checked
    files for what to report, hashes what stays valid, and signs the result.  The
    files of the workload always have all their fields ([storage_seal_file] and
    [restore_file] make them), so reading a field leaves them unchanged. *)
From S2P Require Import Prelude StdMap Status Hex Json JsonParse JsonText Host State Demo Merkle Workload.

(** ** The status of a file *)
Definition cur (f : json) : ascii := get_char CURRENT_STATUS (jkey FILE_STATUS f).
Definition waiting (f : json) : ascii := get_char WAITING_STATUS (jkey FILE_STATUS f).
Definition origin (f : json) : ascii := get_char ORIGIN_STATUS (jkey FILE_STATUS f).
Definition old_size (f : json) : Z := ToInt (jkey FILE_OLD_SIZE f).

(** [status[i]] on a [std::string]: the terminator may be read. *)
Definition str_at (i : nat) (s : bytes) : res ascii :=
  if Nat.ltb (List.length s) i then UB else Ok (nth i s (chr 0)).

(** Is the file gone for good, and was never, or is no longer, on the chain? *)
Definition purged (f : json) : res bool :=
  let status := ToString (jkey FILE_STATUS f) in
  c ← str_at CURRENT_STATUS status;
  if negb (bool_decide (c = FILE_STATUS_DELETED)) then Ok false
  else
    o ← str_at ORIGIN_STATUS status;
    Ok (bool_decide (o = FILE_STATUS_LOST) || bool_decide (o = FILE_STATUS_DELETED)
        || bool_decide (o = FILE_STATUS_UNCONFIRMED)).
Fixpoint purge (l : list json) : res (list json) :=
  match l with
  | [] => Ok []
  | f :: l => b ← purged f; l ← purge l; Ok (if b : bool then l else f :: l)
  end.

(** ** The scan *)
Record report_acc := RAcc {
  ra_files : list json;        (* the files, with their waiting status written *)
  ra_size : Z;                 (* files_size *)
  ra_valid : list nat;         (* report_valid_idx_s *)
  ra_added : bytes;            (* added_files *)
  ra_deleted : bytes;          (* deleted_files *)
  ra_idx : list nat;           (* reported_files_idx *)
  ra_acc : Z                   (* reported_files_acc *)
}.
Definition ra_start : report_acc := RAcc [] 0 [] (str "[") (str "[") [] 0.

(** The four changes that are reported *)
Definition reportable (c o : ascii) : bool :=
  (bool_decide (c = FILE_STATUS_VALID) && bool_decide (o = FILE_STATUS_UNCONFIRMED))
  || (bool_decide (c = FILE_STATUS_VALID) && bool_decide (o = FILE_STATUS_LOST))
  || (bool_decide (c = FILE_STATUS_LOST) && bool_decide (o = FILE_STATUS_VALID))
  || (bool_decide (c = FILE_STATUS_DELETED) && bool_decide (o = FILE_STATUS_VALID)).

Definition file_str (f : json) : bytes :=
  str "{" ++ quote FILE_HASH ++ str ":" ++ quote (ToString (jkey FILE_OLD_HASH f)) ++ str ","
  ++ quote FILE_SIZE ++ str ":" ++ to_string (old_size f) ++ str "}".
(** A comma unless the list is still the bare bracket *)
Definition append_file (l f : bytes) : bytes :=
  (if zlen l =? 1 then l else l ++ str ",") ++ f.

(** [status->set_char(WAITING_STATUS, status->get_char(CURRENT_STATUS))] *)
Definition write_waiting (f : json) : json :=
  jkey_update FILE_STATUS (λ s, set_char WAITING_STATUS (get_char CURRENT_STATUS s) s) f.

(** One round of the scan *)
Definition report_step (is_upgrading : bool) (a : report_acc) (f : json) : report_acc :=
  let i := List.length (ra_files a) in
  if is_upgrading then
    if bool_decide (cur f = FILE_STATUS_VALID) && bool_decide (origin f = FILE_STATUS_VALID) then
      RAcc (ra_files a ++ [f]) (i64 (ra_size a + old_size f)) (set_insert i (ra_valid a))
        (ra_added a) (ra_deleted a) (ra_idx a) (ra_acc a)
    else
      RAcc (ra_files a ++ [f]) (ra_size a) (ra_valid a) (ra_added a) (ra_deleted a) (ra_idx a) (ra_acc a)
  else
    let f := write_waiting f in
    let files := ra_files a ++ [f] in
    let size := if bool_decide (origin f = FILE_STATUS_VALID) then i64 (ra_size a + old_size f) else ra_size a in
    let valid := if bool_decide (origin f = FILE_STATUS_VALID) then set_insert i (ra_valid a) else ra_valid a in
    if (ra_acc a <? WORKREPORT_FILE_LIMIT) && reportable (cur f) (origin f) then
      if bool_decide (cur f = FILE_STATUS_LOST) || bool_decide (cur f = FILE_STATUS_DELETED) then
        RAcc files (i64 (size - old_size f)) (set_erase i valid) (ra_added a)
          (append_file (ra_deleted a) (file_str f)) (set_insert i (ra_idx a)) (ra_acc a + 1)
      else if bool_decide (cur f = FILE_STATUS_VALID) then
        RAcc files (i64 (size + old_size f)) (set_insert i valid)
          (append_file (ra_added a) (file_str f)) (ra_deleted a) (set_insert i (ra_idx a)) (ra_acc a + 1)
      else
        RAcc files size valid (ra_added a) (ra_deleted a) (set_insert i (ra_idx a)) (ra_acc a + 1)
    else RAcc files size valid (ra_added a) (ra_deleted a) (ra_idx a) (ra_acc a).

Definition report_scan (is_upgrading : bool) (l : list json) : report_acc :=
  foldl (report_step is_upgrading) ra_start l.

(** ** The report *)

(** What is signed and printed *)
Record report_data := RData {
  rd_pub_key : bytes; rd_pre_pub_key : bytes; rd_height : bytes; rd_block_hash : bytes;
  rd_reserved : Z; rd_files_size : Z; rd_srd_root : bytes; rd_files_root : bytes;
  rd_added : bytes; rd_deleted : bytes
}.

(** The parts of the signed buffer, in the order they are copied *)
Definition sigbuf_parts (d : report_data) (block_hash_u : bytes) : list bytes :=
  [rd_pub_key d; rd_pre_pub_key d; rd_height d; block_hash_u; to_string (rd_reserved d);
   to_string (rd_files_size d); rd_srd_root d; rd_files_root d; rd_added d; rd_deleted d].
Definition sigbuf_len (d : report_data) : Z :=
  64 + zlen (rd_pre_pub_key d) + zlen (rd_height d) + HASH_LENGTH + zlen (to_string (rd_reserved d))
  + zlen (to_string (rd_files_size d)) + 32 + 32 + zlen (rd_added d) + zlen (rd_deleted d).

Definition text_field (name value : bytes) : bytes := quote name ++ str ":" ++ quote value.
Definition raw_field (name value : bytes) : bytes := quote name ++ str ":" ++ value.
(** [wr_str] *)
Definition report_text (d : report_data) (sig : bytes) : bytes :=
  str "{"
  ++ text_field WORKREPORT_PUB_KEY (hexstring_safe (rd_pub_key d)) ++ str ","
  ++ text_field WORKREPORT_PRE_PUB_KEY (hexstring_safe (rd_pre_pub_key d)) ++ str ","
  ++ text_field WORKREPORT_BLOCK_HEIGHT (rd_height d) ++ str ","
  ++ text_field WORKREPORT_BLOCK_HASH (take 64 (rd_block_hash d)) ++ str ","
  ++ raw_field WORKREPORT_RESERVED (to_string (rd_reserved d)) ++ str ","
  ++ raw_field WORKREPORT_FILES_SIZE (to_string (rd_files_size d)) ++ str ","
  ++ text_field WORKREPORT_RESERVED_ROOT (hexstring_safe (rd_srd_root d)) ++ str ","
  ++ text_field WORKREPORT_FILES_ROOT (hexstring_safe (rd_files_root d)) ++ str ","
  ++ raw_field WORKREPORT_FILES_ADDED (rd_added d) ++ str ","
  ++ raw_field WORKREPORT_FILES_DELETED (rd_deleted d) ++ str ","
  ++ text_field WORKREPORT_SIG (hexstring_safe sig)
  ++ str "}".

Section report.
Context {W : Type} `{!Host W}.
Abbreviation M := (M (enclave W)).

Definition zero_hash : bytes := replicate 32 (chr 0).

(** Space and root of the srd hashes; [None] when the allocation fails *)
Definition report_srd_info : M (option (Z * bytes)) :=
  m ← get_wl srd_path2hashs_m;
  ok ← enc_malloc (map_total m * HASH_LENGTH);
  mret (if negb ok then None
        else if map_total m =? 0 then Some (0, zero_hash)
        else Some (u64 (map_total m * 1024 * 1024 * 1024), sha256 (srd_hashes m))).

(** Purge, scan, and the root of the valid files *)
Definition report_files_info (is_upgrading : bool) : M (option (report_acc * bytes)) :=
  files ← get_wl checked_files;
  files ← of_res (purge files);
  let a := report_scan is_upgrading files in
  on_wl (λ w, with_reported_files_idx (ra_idx a) (with_checked_files (ra_files a) w));;
  if zlen (ra_valid a) * HASH_LENGTH =? 0 then mret (Some (a, zero_hash))
  else
    ok ← enc_malloc (zlen (ra_valid a) * HASH_LENGTH);
    if negb ok then mret None
    else
      hs ← of_res (file_hashes (map (λ i, nth i (ra_files a) JNull) (ra_valid a)));
      mret (Some (a, sha256 hs)).

(** Signing and storing the text *)
Definition report_sign (d : report_data) (key : bytes) : M crust_status :=
  ok ← enc_malloc (sigbuf_len d);
  if negb ok then mret CRUST_MALLOC_FAILED
  else
    block_hash_u ← of_res (c_hash (rd_block_hash d));
    sigbuf ← of_res (put_all (sigbuf_len d) [] (sigbuf_parts d block_hash_u));
    opened ← host sgx_ecc256_open_context;
    if negb (sgx_ok opened) then mret CRUST_SGX_SIGN_FAILED
    else
      sig ← host (sgx_ecdsa_sign key sigbuf);
      match sig with
      | None => mret CRUST_SGX_SIGN_FAILED
      | Some sig => modify (with_g_work_report (report_text d sig));; mret CRUST_SUCCESS
      end.

Definition report_body (block_hash : bytes) (block_height : Z) (is_upgrading : bool) : M crust_status :=
  keys ← get_wl get_key_pair;
  s ← report_srd_info;
  match s with
  | None => mret CRUST_MALLOC_FAILED
  | Some (srd_workload, srd_root) =>
      r ← report_files_info is_upgrading;
      match r with
      | None => mret CRUST_MALLOC_FAILED
      | Some (a, files_root) =>
          w ← get_wl id;
          report_sign
            (RData (pub_key keys) (if is_upgrade w then pre_pub_key w else []) (to_string block_height)
               block_hash srd_workload (ra_size a) srd_root files_root
               (ra_added a ++ str "]") (ra_deleted a ++ str "]"))
            (pri_key keys)
      end
  end.

(** What every attempt past the height test leaves behind *)
Definition report_end (block_height : Z) (w : workload) : workload :=
  report_reduce_validated_proof
    (set_report_file_flag true (set_restart_flag false (set_report_height block_height w))).

(** The conditions of a report, in the order they are tested *)
Definition report_condition (w : workload) : crust_status :=
  if get_restart_flag w then CRUST_FIRST_WORK_REPORT_AFTER_REPORT
  else if negb (report_has_validated_proof w) then CRUST_WORK_REPORT_NOT_VALIDATED
  else if negb (get_report_file_flag w) then CRUST_NO_KARST
  else CRUST_SUCCESS.

Definition height_expired (block_height : Z) (w : workload) : bool :=
  (block_height =? 0) || (u64 (block_height - get_report_height w) <? ERA_LENGTH).

Definition gen_work_report (block_hash : bytes) (block_height : Z) (is_upgrading : bool) : M crust_status :=
  w ← get_wl id;
  if height_expired block_height w then mret CRUST_BLOCK_HEIGHT_EXPIRED
  else
    st ← (if is_success (report_condition w) then report_body block_hash block_height is_upgrading
          else mret (report_condition w));
    on_wl (report_end block_height);;
    mret st.

(** Other threads run while this one waits before the upload; the lock around the
    whole call keeps other reports out. *)
Definition gen_and_upload_work_report `{!Threads W} (block_hash : bytes) (block_height wait_time : Z)
    (is_upgrading : bool) : M crust_status :=
  st ← gen_work_report block_hash block_height is_upgrading;
  if negb (is_success st) then mret st
  else
    (if wait_time =? 0 then mret tt else modify others_run);;
    report ← gets g_work_report;
    st ← host (ocall_upload_workreport report);
    (if is_success st then on_wl handle_report_result else mret tt);;
    mret st.
End report.

(** ** What a scan should find *)

(** Is this file reported, when [acc] files already are? *)
Definition freport (acc : Z) (f : json) : bool :=
  (acc <? WORKREPORT_FILE_LIMIT) && reportable (cur f) (origin f).
Fixpoint reported (acc : Z) (l : list json) : list bool :=
  match l with
  | [] => []
  | f :: l => let r := freport acc f in r :: reported (if r then acc + 1 else acc) l
  end.
(** Does this file count as valid once the report is accepted? *)
Definition stays_valid (p : json * bool) : bool :=
  bool_decide ((if p.2 then cur p.1 else origin p.1) = FILE_STATUS_VALID).
(** The indexes of the true flags *)
Fixpoint select (k : nat) (bs : list bool) : list nat :=
  match bs with
  | [] => []
  | b :: bs => if b then k :: select (S k) bs else select (S k) bs
  end.
Definition sum_sizes (l : list json) : Z := foldr (λ f n, old_size f + n) 0 l.
Fixpoint trues (bs : list bool) : Z :=
  match bs with [] => 0 | b :: bs => (if b : bool then 1 else 0) + trues bs end.

Definition scan_spec (l : list json) : report_acc :=
  let ps := zip l (reported 0 l) in
  RAcc (map write_waiting l)
    (sum_sizes (map fst (filter (λ p, stays_valid p = true) ps)))
    (select 0 (map stays_valid ps))
    (str "[" ++ join (str ",") (map (λ p, file_str p.1) (filter (λ p, p.2 = true ∧ stays_valid p = true) ps)))
    (str "[" ++ join (str ",") (map (λ p, file_str p.1) (filter (λ p, p.2 = true ∧ stays_valid p = false) ps)))
    (select 0 (reported 0 l)) (trues (reported 0 l)).

(** A report made for an upgrade changes no file and lists none: it counts the files
    that are valid now and valid on the chain. *)
Definition kept_valid (f : json) : bool :=
  bool_decide (cur f = FILE_STATUS_VALID) && bool_decide (origin f = FILE_STATUS_VALID).
Definition upgrade_spec (l : list json) : report_acc :=
  RAcc l (sum_sizes (filter (λ f, kept_valid f = true) l)) (select 0 (map kept_valid l)) (str "[") (str "[") [] 0.

(** ** Lemmas *)
Lemma get_char_set_char i k c j : i ≠ k → get_char k (set_char i c j) = get_char k j.
Proof.
  intros Hne. destruct j as [| | | |s| | |]; try done. cbn [set_char].
  destruct (Nat.ltb_spec (List.length s) i); [done|].
  destruct (Nat.eqb_spec i (List.length s)) as [->|].
  - cbn [get_char]. rewrite length_app. cbn [List.length].
    destruct (Nat.leb_spec (List.length s) k).
    + destruct (Nat.leb_spec (List.length s + 1) k); [done|lia].
    + destruct (Nat.leb_spec (List.length s + 1) k); [lia|]. by rewrite app_nth1.
  - cbn [get_char]. rewrite length_insert. destruct (Nat.leb_spec (List.length s) k); [done|].
    rewrite !nth_lookup. by rewrite list_lookup_insert_ne.
Qed.

Lemma write_waiting_fields f :
  cur (write_waiting f) = cur f ∧ origin (write_waiting f) = origin f ∧
  old_size (write_waiting f) = old_size f ∧ file_str (write_waiting f) = file_str f ∧
  jkey FILE_HASH (write_waiting f) = jkey FILE_HASH f.
Proof.
  unfold cur, origin, file_str, old_size, write_waiting.
  rewrite !jkey_update_eq, !get_char_set_char by done. by rewrite !jkey_update_ne by done.
Qed.

Lemma reported_app acc l1 l2 :
  reported acc (l1 ++ l2) = reported acc l1 ++ reported (acc + trues (reported acc l1)) l2.
Proof.
  revert acc. induction l1 as [|f l1 IH]; intros acc; cbn [app reported].
  - cbn. by rewrite Z.add_0_r.
  - cbn [app]. f_equal. rewrite IH. f_equal. cbn [trues].
    destruct (freport acc f); f_equal; lia.
Qed.
Lemma reported_length acc l : List.length (reported acc l) = List.length l.
Proof. revert acc. induction l as [|f l IH]; intros acc; [done|]. cbn. by rewrite IH. Qed.

Lemma select_app k a b : select k (a ++ b) = select k a ++ select (k + List.length a) b.
Proof.
  revert k. induction a as [|x a IH]; intros k; cbn [app select List.length]; [by rewrite Nat.add_0_r|].
  rewrite IH. replace (S k + List.length a)%nat with (k + S (List.length a))%nat by lia. by destruct x.
Qed.
Lemma select_elem k bs i : i ∈ select k bs ↔ (k <= i)%nat ∧ bs !! (i - k)%nat = Some true.
Proof.
  revert k. induction bs as [|b bs IH]; intros k; cbn [select]; [by rewrite elem_of_nil; split; [|intros [_ ?]]|].
  assert (i = k ∨ (i < k)%nat ∨ (S k <= i)%nat) as [->|[Hlt|Hge]] by lia.
  - rewrite Nat.sub_diag. cbn. destruct b; rewrite ?elem_of_cons, IH; naive_solver lia.
  - destruct b; rewrite ?elem_of_cons, IH; naive_solver lia.
  - replace (i - k)%nat with (S (i - S k)) by lia. cbn [lookup list_lookup].
    destruct b; rewrite ?elem_of_cons, IH; naive_solver lia.
Qed.
Lemma select_lt k bs : Forall (λ i, (i < k + List.length bs)%nat) (select k bs).
Proof.
  apply Forall_forall. intros i [Hk Hi]%select_elem. apply lookup_lt_Some in Hi. lia.
Qed.

Lemma set_insert_last i s : Forall (λ j, (j < i)%nat) s → set_insert i s = s ++ [i].
Proof.
  induction 1 as [|j s Hj _ IH]; [done|]. cbn [set_insert app].
  destruct (Nat.ltb_spec i j); [lia|]. destruct (Nat.eqb_spec i j); [lia|]. by rewrite IH.
Qed.
Lemma set_erase_last i s : Forall (λ j, (j < i)%nat) s → set_erase i (s ++ [i]) = s.
Proof.
  induction 1 as [|j s Hj _ IH]; cbn [set_erase app]; [by rewrite Nat.eqb_refl|].
  destruct (Nat.eqb_spec i j); [lia|]. by rewrite IH.
Qed.
Lemma set_erase_id i s : Forall (λ j, (j < i)%nat) s → set_erase i s = s.
Proof.
  induction 1 as [|j s Hj _ IH]; cbn [set_erase]; [done|].
  destruct (Nat.eqb_spec i j); [lia|]. by rewrite IH.
Qed.

Lemma join_snoc {A} (sep : list A) l x :
  join sep (l ++ [x]) = if decide (l = []) then x else join sep l ++ sep ++ x.
Proof.
  induction l as [|y [|z l] IH]; [done|done|].
  cbn [app] in *. rewrite join_cons, IH, join_cons. rewrite !decide_False by done.
  by rewrite <- !app_assoc.
Qed.

Lemma append_file_spec l f :
  append_file (str "[" ++ join (str ",") (map file_str l)) (file_str f)
  = str "[" ++ join (str ",") (map file_str (l ++ [f])).
Proof.
  unfold append_file. rewrite map_app. cbn [map]. rewrite join_snoc.
  destruct l as [|g l]; [done|]. rewrite decide_False by done.
  assert (zlen (str "[" ++ join (str ",") (map file_str (g :: l))) =? 1 = false) as ->.
  { apply Z.eqb_neq. cbn [map]. destruct (map file_str l); rewrite ?join_cons; unfold file_str;
      cbn -[zlen]; rewrite !zlen_cons; len. }
  by rewrite <- !app_assoc.
Qed.

Lemma trues_app a b : trues (a ++ b) = trues a + trues b.
Proof. induction a as [|x a IH]; cbn; [done|]. rewrite IH. lia. Qed.
Lemma sum_sizes_app a b : sum_sizes (a ++ b) = sum_sizes a + sum_sizes b.
Proof. unfold sum_sizes. induction a as [|x a IH]; cbn; [done|]. rewrite IH. lia. Qed.
Lemma append_file_pairs (ps : list (json * bool)) (f : json) (r : bool) :
  str "[" ++ join (str ",") (map (λ p, file_str p.1) ps ++ map (λ p, file_str p.1) [(f, r)])
  = append_file (str "[" ++ join (str ",") (map (λ p, file_str p.1) ps)) (file_str f).
Proof.
  assert (∀ l : list (json * bool), map (λ p, file_str p.1) l = map file_str (map fst l)) as E
    by (intros; by rewrite map_map).
  rewrite !E, append_file_spec. cbn [map fst]. by rewrite map_app.
Qed.

(** How the specification grows by one file *)
Lemma scan_spec_snoc l f :
  let a := scan_spec l in
  let n := List.length l in
  let r := freport (ra_acc a) f in
  let v := stays_valid (f, r) in
  scan_spec (l ++ [f]) =
  RAcc (ra_files a ++ [write_waiting f])
    (if v then ra_size a + old_size f else ra_size a)
    (if v then ra_valid a ++ [n] else ra_valid a)
    (if r && v then append_file (ra_added a) (file_str f) else ra_added a)
    (if r && negb v then append_file (ra_deleted a) (file_str f) else ra_deleted a)
    (if r then ra_idx a ++ [n] else ra_idx a)
    (if r then ra_acc a + 1 else ra_acc a).
Proof.
  intros a n r v.
  assert (reported 0 (l ++ [f]) = reported 0 l ++ [r]) as Er by (rewrite reported_app; done).
  assert (zip (l ++ [f]) (reported 0 l ++ [r]) = zip l (reported 0 l) ++ [(f, r)]) as Ez.
  { rewrite zip_with_app; [done|]. by rewrite reported_length. }
  assert (List.length (zip l (reported 0 l)) = n) as En.
  { rewrite length_zip_with, reported_length. lia. }
  unfold scan_spec. rewrite Er, Ez, map_app, !filter_app, !map_app, !select_app, length_map, En, reported_length.
  rewrite !Nat.add_0_l. cbn [map select]. fold v.
  f_equal.
  - rewrite !filter_cons, !filter_nil. fold v. destruct v.
    + rewrite decide_True by done. cbn [map fst]. rewrite sum_sizes_app. cbn. lia.
    + rewrite decide_False by done. by rewrite app_nil_r.
  - destruct v; [done|by rewrite app_nil_r].
  - rewrite !filter_cons, !filter_nil. cbn [snd]. fold v. destruct r, v; cbn [andb];
      [rewrite decide_True by done; apply append_file_pairs|..];
      rewrite decide_False by naive_solver; by rewrite app_nil_r.
  - rewrite !filter_cons, !filter_nil. cbn [snd]. fold v. destruct r, v; cbn [andb negb];
      [|rewrite decide_True by done; apply append_file_pairs|..];
      rewrite decide_False by naive_solver; by rewrite app_nil_r.
  - destruct r; [done|by rewrite app_nil_r].
  - rewrite trues_app. subst a. cbn [scan_spec ra_acc trues]. destruct r; lia.
Qed.

Lemma sum_filter_le (P : json * bool → Prop) `{!∀ p, Decision (P p)} (ps : list (json * bool)) :
  Forall (λ p, 0 <= old_size p.1) ps →
  0 <= sum_sizes (map fst (filter P ps)) <= sum_sizes (map fst ps).
Proof.
  induction 1 as [|p ps Hp _ IH]; [by cbn|]. rewrite filter_cons.
  cbn [map]. unfold sum_sizes in *. case_decide; cbn [map foldr]; lia.
Qed.

Lemma scan_size_bound l :
  Forall (λ f, 0 <= old_size f) l → 0 <= ra_size (scan_spec l) <= sum_sizes l.
Proof.
  intros H. cbn [scan_spec ra_size].
  assert (map fst (zip l (reported 0 l)) = l) as E by (apply fst_zip; by rewrite reported_length).
  pose proof (sum_filter_le (λ p, stays_valid p = true) (zip l (reported 0 l))) as Hle.
  rewrite E in Hle. apply Hle. apply Forall_forall. intros [f r] Hp.
  apply elem_of_zip_l in Hp. rewrite Forall_forall in H. by apply H.
Qed.

Lemma scan_spec_lengths l :
  List.length (ra_files (scan_spec l)) = List.length l ∧
  Forall (λ i, (i < List.length l)%nat) (ra_valid (scan_spec l)) ∧
  Forall (λ i, (i < List.length l)%nat) (ra_idx (scan_spec l)).
Proof.
  cbn [scan_spec ra_files ra_valid ra_idx]. split_and!.
  - by rewrite length_map.
  - eapply Forall_impl; [apply select_lt|]. intros i. cbn.
    rewrite length_map, length_zip_with, reported_length. lia.
  - eapply Forall_impl; [apply select_lt|]. intros i. cbn. rewrite reported_length. lia.
Qed.

Lemma reportable_cases c o :
  reportable c o = true →
  (c = FILE_STATUS_VALID ∧ o ≠ FILE_STATUS_VALID) ∨
  ((c = FILE_STATUS_LOST ∨ c = FILE_STATUS_DELETED) ∧ c ≠ FILE_STATUS_VALID ∧ o = FILE_STATUS_VALID).
Proof.
  unfold reportable. repeat case_bool_decide; subst; try done; intros _;
    try (by left); try (right; split_and!; [by left|done|done]); try (right; split_and!; [by right|done|done]).
Qed.

(** The scan computes its specification, when the sizes do not overflow. *)
Lemma report_scan_eq l :
  Forall (λ f, 0 <= old_size f) l → sum_sizes l < 2 ^ 62 → report_scan false l = scan_spec l.
Proof.
  induction l as [|f l IH] using rev_ind; intros Hs Hb; [done|].
  apply Forall_app in Hs as [Hs Hf]. rewrite Forall_singleton in Hf.
  rewrite sum_sizes_app in Hb. change (sum_sizes [f]) with (old_size f + 0) in Hb.
  unfold report_scan. rewrite foldl_app. cbn [foldl]. fold (report_scan false l). rewrite IH by (done || lia).
  rewrite scan_spec_snoc. pose proof (scan_size_bound l Hs) as Hsz.
  destruct (scan_spec_lengths l) as (Hlen & Hv & Hi). set (a := scan_spec l) in *. clearbody a.
  destruct (write_waiting_fields f) as (Ec & Eo & Es & Ef & _).
  unfold report_step. rewrite Hlen, Ec, Eo, Es, Ef. change ((ra_acc a <? WORKREPORT_FILE_LIMIT) && reportable (cur f) (origin f))
    with (freport (ra_acc a) f). unfold stays_valid. cbn [fst snd].
  rewrite (set_insert_last _ _ Hv), (set_insert_last _ _ Hi).
  destruct (freport (ra_acc a) f) eqn:Er.
  - assert (reportable (cur f) (origin f) = true) as Hc%reportable_cases.
    { unfold freport in Er. by apply andb_true_iff in Er as [_ ?]. }
    destruct Hc as [[Hc Ho]|(Hcl & Hc & Ho)].
    + rewrite (bool_decide_false (origin f = FILE_STATUS_VALID)) by done. rewrite Hc.
      rewrite (bool_decide_false (FILE_STATUS_VALID = FILE_STATUS_LOST)),
        (bool_decide_false (FILE_STATUS_VALID = FILE_STATUS_DELETED)) by done.
      cbn [orb]. rewrite bool_decide_true by done. cbn [andb negb].
      by rewrite (set_insert_last _ _ Hv), i64_small by lia.
    + rewrite (bool_decide_true (origin f = FILE_STATUS_VALID)) by done.
      rewrite (bool_decide_false (cur f = FILE_STATUS_VALID)) by done.
      assert (bool_decide (cur f = FILE_STATUS_LOST) || bool_decide (cur f = FILE_STATUS_DELETED) = true) as ->.
      { destruct Hcl as [->| ->]; done. }
      rewrite (set_erase_last _ _ Hv). cbn [andb negb].
      rewrite (i64_small (ra_size a + old_size f)), i64_small by lia. f_equal. lia.
  - cbn [andb negb]. case_bool_decide; [|done]. by rewrite i64_small by lia.
Qed.

Lemma sum_filter_bound (P : json → Prop) `{!∀ f, Decision (P f)} (l : list json) :
  Forall (λ f, 0 <= old_size f) l → 0 <= sum_sizes (filter P l) <= sum_sizes l.
Proof.
  induction 1 as [|f l Hf _ IH]; [by cbn|]. rewrite filter_cons. unfold sum_sizes in *. case_decide; cbn [foldr]; lia.
Qed.
Lemma upgrade_scan_eq l :
  Forall (λ f, 0 <= old_size f) l → sum_sizes l < 2 ^ 62 → report_scan true l = upgrade_spec l.
Proof.
  induction l as [|f l IH] using rev_ind; intros Hs Hb; [done|].
  apply Forall_app in Hs as [Hs Hf]. rewrite Forall_singleton in Hf.
  rewrite sum_sizes_app in Hb. change (sum_sizes [f]) with (old_size f + 0) in Hb.
  unfold report_scan. rewrite foldl_app. cbn [foldl]. fold (report_scan true l). rewrite IH by (done || lia).
  pose proof (sum_filter_bound (λ f, kept_valid f = true) l Hs) as Hsz.
  assert (Forall (λ i, (i < List.length l)%nat) (select 0 (map kept_valid l))) as Hv.
  { eapply Forall_impl; [apply select_lt|]. intros i. cbn. by rewrite length_map. }
  unfold upgrade_spec, report_step.
  cbn [ra_files ra_size ra_valid ra_added ra_deleted ra_idx ra_acc]. fold (kept_valid f).
  rewrite filter_app, sum_sizes_app, map_app, select_app, length_map, Nat.add_0_l. cbn [map select].
  rewrite filter_cons, filter_nil. destruct (kept_valid f) eqn:E.
  - rewrite decide_True by done. change (sum_sizes [f]) with (old_size f + 0).
    by rewrite (set_insert_last _ _ Hv), i64_small, Z.add_0_r by lia.
  - rewrite decide_False by done. cbn [sum_sizes foldr]. by rewrite Z.add_0_r, app_nil_r.
Qed.

(** A status of at least three characters, as [storage_seal_file] writes it *)
Definition status_ok (f : json) : Prop :=
  ∃ s, jkey FILE_STATUS f = JString s ∧ (3 <= List.length s)%nat.

Lemma get_set_char i c s :
  (i < List.length s)%nat → get_char i (set_char i c (JString s)) = c.
Proof. apply get_set_char_eq. Qed.

(** What a file keeps between the scan and the answer of the chain: others may change
    what it is now, but not what the scan wrote down or what the chain holds. *)
Definition same_books (f g : json) : Prop :=
  status_ok g ∧ waiting g = waiting f ∧ origin g = origin f ∧ old_size g = old_size f.
Lemma write_waiting_waiting f : status_ok f → waiting (write_waiting f) = cur f.
Proof.
  intros (s & Hs & Hl). unfold waiting, cur, write_waiting. rewrite jkey_update_eq, Hs.
  apply get_set_char. unfold WAITING_STATUS. lia.
Qed.
Lemma confirm_status_fields f :
  status_ok f → origin (confirm_status f) = waiting f ∧ old_size (confirm_status f) = old_size f.
Proof.
  intros (s & Hs & Hl). unfold origin, waiting, old_size, confirm_status.
  rewrite jkey_update_eq, jkey_update_ne by done. split; [|done].
  rewrite Hs. apply get_set_char. unfold ORIGIN_STATUS. lia.
Qed.
Lemma stays_valid_true p :
  stays_valid p = true ↔ (if p.2 then cur p.1 else origin p.1) = FILE_STATUS_VALID.
Proof. unfold stays_valid. by rewrite bool_decide_eq_true. Qed.

(** A file once the report is accepted: the chain holds it as valid if it was valid in
    the report. *)
Definition settled (p : json * bool) (h : json) : Prop :=
  old_size h = old_size p.1 ∧ (origin h = FILE_STATUS_VALID ↔ stays_valid p = true).
Lemma settled_file f r g :
  status_ok f → same_books (write_waiting f) g → settled (f, r) (if r : bool then confirm_status g else g).
Proof.
  intros Hf (Hg & Hw & Ho & Hs). destruct (write_waiting_fields f) as (_ & Eo & Es & _).
  unfold settled. rewrite stays_valid_true. cbn [fst snd]. destruct r.
  - destruct (confirm_status_fields g Hg) as [-> ->]. by rewrite Hw, Hs, Es, write_waiting_waiting.
  - by rewrite Ho, Hs, Eo, Es.
Qed.
Lemma set_ok_select k bs : NoDup (select k bs).
Proof.
  revert k. induction bs as [|b bs IH]; intros k; cbn [select]; [constructor|].
  destruct b; [|done]. constructor; [|done]. rewrite select_elem. lia.
Qed.

(** The files after the report was accepted *)
Lemma accepted_files w l l1 ext :
  Forall status_ok l → Forall2 same_books (map write_waiting l) l1 →
  ∃ hs, checked_files (handle_report_result
          (with_reported_files_idx (select 0 (reported 0 l)) (with_checked_files (l1 ++ ext) w))) = hs ++ ext ∧
    Forall2 settled (zip l (reported 0 l)) hs.
Proof.
  intros Hst Hl1. pose proof (Forall2_length _ _ _ Hl1) as Hlen. rewrite length_map in Hlen.
  exists (zip_with (λ (r : bool) g, if r then confirm_status g else g) (reported 0 l) l1). split.
  - cbn. apply list_eq. intros k. rewrite confirm_fold by apply set_ok_select.
    destruct (decide (k < List.length l)%nat) as [Hk|Hk].
    + rewrite !lookup_app_l by (rewrite ?length_zip_with, ?reported_length; lia). rewrite lookup_zip_with.
      destruct (lookup_lt_is_Some_2 (reported 0 l) k) as [r Hr]; [by rewrite reported_length|]. rewrite Hr. cbn.
      destruct (l1 !! k) as [g|]; cbn; [|done].
      case_decide as Hin; rewrite select_elem, Nat.sub_0_r, Hr in Hin; destruct r; try done; [naive_solver|].
      exfalso. apply Hin. split; [lia|done].
    + assert (k ∉ select 0 (reported 0 l)) as Hout.
      { rewrite select_elem, Nat.sub_0_r. intros [_ Hr%lookup_lt_Some]. rewrite reported_length in Hr. lia. }
      rewrite decide_False by done. rewrite !lookup_app_r by (rewrite ?length_zip_with, ?reported_length; lia).
      rewrite length_zip_with, reported_length, <- Hlen, Nat.min_id. by destruct (ext !! _).
  - apply Forall2_same_length_lookup_2.
    { rewrite !length_zip_with, reported_length. lia. }
    intros k [f r] h Hp Hh. apply lookup_zip_with_Some in Hp as (f' & r' & [= -> ->] & Hf & Hr).
    apply lookup_zip_with_Some in Hh as (r'' & g & -> & Hr' & Hg). simplify_eq.
    apply settled_file; [rewrite Forall_forall in Hst; by eapply Hst, list_elem_of_lookup_2|].
    eapply Forall2_lookup_lr; [exact Hl1| |exact Hg]. by rewrite list_lookup_fmap, Hf.
Qed.
Lemma settled_sizes ps hs :
  Forall2 settled ps hs →
  sum_sizes (filter (λ f, origin f = FILE_STATUS_VALID) hs) = sum_sizes (map fst (filter (λ p, stays_valid p = true) ps)).
Proof.
  induction 1 as [|p h ps hs [Es Ev] _ IH]; [done|]. rewrite !filter_cons.
  rewrite (decide_ext _ _ _ _ Ev). case_decide; [|done]. cbn [map]. unfold sum_sizes in *. cbn [foldr]. by rewrite IH, Es.
Qed.
Lemma none_valid ext :
  Forall (λ f, origin f ≠ FILE_STATUS_VALID) ext → filter (λ f, origin f = FILE_STATUS_VALID) ext = [].
Proof. induction 1 as [|f l Hf _ IH]; [done|]. by rewrite filter_cons_False. Qed.

(** The number of reported files, without any condition on the files *)
Lemma set_insert_length i s : zlen (set_insert i s) <= zlen s + 1.
Proof.
  induction s as [|j s IH]; cbn [set_insert]; [by cbn|].
  destruct (Nat.ltb i j); [rewrite !zlen_cons; lia|].
  destruct (Nat.eqb i j); rewrite !zlen_cons; lia.
Qed.

Lemma report_scan_limit up l :
  zlen (ra_idx (report_scan up l)) <= ra_acc (report_scan up l) <= WORKREPORT_FILE_LIMIT.
Proof.
  unfold report_scan. induction l as [|f l IH] using rev_ind; [by vm_compute|].
  rewrite foldl_app. cbn [foldl]. set (a := foldl _ _ l) in *. clearbody a.
  unfold report_step. destruct up; [by case_match|]. cbv zeta.
  destruct ((ra_acc a <? WORKREPORT_FILE_LIMIT) && reportable _ _) eqn:E; [|done].
  apply andb_true_iff in E as [E _].
  pose proof (set_insert_length (List.length (ra_files a)) (ra_idx a)).
  repeat case_match; cbn [ra_idx ra_acc]; lia.
Qed.

(** *** The signed buffer *)
Lemma sigbuf_exact d bh :
  List.length (rd_pub_key d) = 64%nat → List.length (rd_srd_root d) = 32%nat →
  List.length (rd_files_root d) = 32%nat → List.length bh = 32%nat →
  zlen (concat (sigbuf_parts d bh)) = sigbuf_len d ∧
  put_all (sigbuf_len d) [] (sigbuf_parts d bh) = Ok (concat (sigbuf_parts d bh)).
Proof.
  intros H1 H2 H3 H4.
  assert (zlen (concat (sigbuf_parts d bh)) = sigbuf_len d) as E.
  { unfold sigbuf_parts, sigbuf_len, HASH_LENGTH. cbn [concat]. rewrite app_nil_r, !zlen_app.
    unfold zlen. rewrite H1, H2, H3, H4. lia. }
  split; [done|]. apply put_all_fits. rewrite zlen_nil. lia.
Qed.

(** *** Purging *)
Definition gone (f : json) : bool :=
  bool_decide (cur f = FILE_STATUS_DELETED) && negb (bool_decide (origin f = FILE_STATUS_VALID)).

(** A status of three known characters that need no escaping *)
Definition status_known (f : json) : Prop :=
  ∃ c1 c2 c3, jkey FILE_STATUS f = JString [c1; c2; c3] ∧
    known_status c1 ∧ known_status c2 ∧ known_status c3.

Lemma known_escape c : known_status c → escape_char c = [c].
Proof. by intros [->|[->|[->| ->]]]. Qed.

Lemma purged_gone f : status_known f → purged f = Ok (gone f).
Proof.
  intros (c1 & c2 & c3 & Hs & H1 & H2 & H3). unfold purged, gone, cur, origin. rewrite Hs.
  cbn [ToString json_escape flat_map]. rewrite !known_escape by done. cbn.
  destruct H1 as [->|[->|[->| ->]]]; try done.
  by destruct H3 as [->|[->|[->| ->]]].
Qed.

Lemma purge_filter l : Forall status_known l → purge l = Ok (filter (λ f, gone f = false) l).
Proof.
  induction 1 as [|f l Hf _ IH]; [done|]. cbn [purge]. rewrite purged_gone, IH by done. cbn [mbind res_bind].
  rewrite filter_cons. by destruct (gone f).
Qed.

(** ** Properties *)

(** C1: the scan computes what a report is meant to contain, as long as the sizes do
    not overflow.  In an ordinary report a file counts as valid when it is reported
    valid now, or was valid on the chain and is not reported now; the size and the
    list of valid files are taken over exactly those files; the added and deleted
    lists name the reported changes in order.  In the report of an upgrade exactly
    the files count that are valid now and on the chain, and nothing is reported or
    written down. *)
Theorem report_scan_correct is_upgrading l :
  Forall (λ f, 0 <= old_size f) l → sum_sizes l < 2 ^ 62 →
  report_scan is_upgrading l = if is_upgrading then upgrade_spec l else scan_spec l.
Proof. destruct is_upgrading; [apply upgrade_scan_eq|apply report_scan_eq]. Qed.

(** C2: ordinary reports add up: once such a report is accepted, the files the chain
    holds as valid are exactly the valid files of that report, and their total size
    is the reported size, so the next report starts from what this one claimed.
    Between the scan and the answer others may change what the files are now and
    append new files. *)
Theorem report_accounting w l l1 ext :
  Forall status_ok l → Forall (λ f, 0 <= old_size f) l → sum_sizes l < 2 ^ 62 →
  let a := report_scan false l in
  Forall2 same_books (ra_files a) l1 → Forall (λ f, origin f ≠ FILE_STATUS_VALID) ext →
  let w' := handle_report_result (with_reported_files_idx (ra_idx a) (with_checked_files (l1 ++ ext) w)) in
  sum_sizes (filter (λ f, origin f = FILE_STATUS_VALID) (checked_files w')) = ra_size a ∧
  ∀ k, k ∈ ra_valid a ↔ ∃ f, checked_files w' !! k = Some f ∧ origin f = FILE_STATUS_VALID.
Proof.
  intros Hst Hs Hb a Hl1 Hext w'. subst w' a. rewrite report_scan_eq in * by done.
  cbn [scan_spec ra_files ra_idx ra_size ra_valid] in *.
  destruct (accepted_files w l l1 ext Hst Hl1) as (hs & -> & Hhs). split.
  { by rewrite filter_app, (none_valid ext), app_nil_r, (settled_sizes _ _ Hhs). }
  intros k. rewrite select_elem, Nat.sub_0_r, list_lookup_fmap. split.
  - intros [_ H]. destruct (zip l (reported 0 l) !! k) as [p|] eqn:Ep; [|done]. injection H as H.
    destruct (Forall2_lookup_l _ _ _ _ _ Hhs Ep) as (h & Hh & _ & Hv). exists h.
    split; [by apply lookup_app_l_Some|by apply Hv].
  - intros (h & [Hh|[_ Hh]]%lookup_app_Some & Hv); split; try lia.
    + destruct (Forall2_lookup_r _ _ _ _ _ Hhs Hh) as (p & -> & _ & Hp). cbn. by rewrite (proj1 Hp Hv).
    + rewrite Forall_forall in Hext. by destruct (Hext h (list_elem_of_lookup_2 _ _ _ Hh)).
Qed.

(** No report lists more than WORKREPORT_FILE_LIMIT changed files. *)
Theorem report_limit up l : zlen (ra_idx (report_scan up l)) <= WORKREPORT_FILE_LIMIT.
Proof. pose proof (report_scan_limit up l). lia. Qed.

(** Purging removes exactly the files that are deleted now and not valid on
    the chain; every file the chain still counts is kept, in order. *)
Theorem purge_exact l :
  Forall status_known l →
  ∃ l', purge l = Ok l' ∧
        (∀ f, f ∈ l' ↔ f ∈ l ∧ (cur f = FILE_STATUS_DELETED → origin f = FILE_STATUS_VALID)) ∧
        sublist l' l.
Proof.
  intros H. eexists. split; [by apply purge_filter|]. split.
  - intros f. rewrite list_elem_of_filter. unfold gone.
    repeat case_bool_decide; cbn; naive_solver.
  - apply sublist_filter.
Qed.

Section gen.
Context {W : Type} `{!Host W}.

(** A report is only attempted in order and at most once per era: a stale
    height changes nothing; a failed condition is returned as such and still
    uses up the era; and after any attempt every height of the next ERA_LENGTH
    blocks is stale. *)
Theorem gen_work_report_gate (e : enclave W) hash h up :
  0 <= h < 2 ^ 63 →
  (height_expired h (wl e) = true → gen_work_report hash h up e = Ok (CRUST_BLOCK_HEIGHT_EXPIRED, e)) ∧
  (height_expired h (wl e) = false → report_condition (wl e) ≠ CRUST_SUCCESS →
   gen_work_report hash h up e = Ok (report_condition (wl e), with_wl (report_end h (wl e)) e)) ∧
  (height_expired h (wl e) = false → ∀ st e',
   gen_work_report hash h up e = Ok (st, e') →
   ∀ h', h <= h' < h + ERA_LENGTH → height_expired h' (wl e') = true).
Proof.
  intros Hh. unfold gen_work_report, get_wl, gets, mbind, m_bind. cbv beta.
  change (id (wl e)) with (wl e). split_and!.
  - by intros ->.
  - intros -> Hc. assert (is_success (report_condition (wl e)) = false) as ->; [|done].
    by destruct (report_condition (wl e)).
  - intros -> st e' Hg h' Hh'.
    assert (report_height (wl e') = h) as Hr.
    { revert Hg. destruct (if is_success _ then _ else _) as [[st0 e0]| | |]; try done.
      intros [= _ <-]. done. }
    unfold height_expired, get_report_height. rewrite Hr. unfold ERA_LENGTH in *.
    rewrite u64_small by lia. destruct (Z.eqb_spec h' 0); [done|]. cbn [orb]. lia.
Qed.

(** The signature buffer has exactly the computed length, and a successful
    signing stores the text of the report with a signature over the
    concatenation of all its parts. *)
Theorem report_sign_spec (e : enclave W) d key st e' :
  List.length (rd_pub_key d) = 64%nat → List.length (rd_srd_root d) = 32%nat →
  List.length (rd_files_root d) = 32%nat →
  report_sign d key e = Ok (st, e') → st = CRUST_SUCCESS →
  ∃ bh sig w w', c_hash (rd_block_hash d) = Ok bh ∧
    zlen (concat (sigbuf_parts d bh)) = sigbuf_len d ∧
    sgx_ecdsa_sign key (concat (sigbuf_parts d bh)) w = (Some sig, w') ∧
    g_work_report e' = report_text d sig ∧ wl e' = wl e.
Proof.
  intros H1 H2 H3 Hr ->. revert Hr.
  unfold report_sign, enc_malloc, gets, mbind, m_bind. cbv beta.
  destruct (negb (malloc _ _)); [done|]. unfold of_res.
  destruct (c_hash (rd_block_hash d)) as [bh| | |] eqn:Eb; try done.
  destruct (sigbuf_exact d bh H1 H2 H3 (c_hash_length _ _ Eb)) as [Hlen ->].
  unfold host, zoom. destruct (sgx_ecc256_open_context (world e)) as [[| | | | |] w1]; cbn [sgx_ok negb]; try done.
  cbn [world with_world].
  destruct (sgx_ecdsa_sign key (concat (sigbuf_parts d bh)) w1) as [[sig|] w2] eqn:Es; [|done].
  intros [= <-]. exists bh, sig, w1, w2. done.
Qed.
End gen.

(** ** Witnesses *)
Definition demo_files : list json :=
  [demo_file "f"%char (str "100"); demo_file "g"%char (str "201"); demo_file "h"%char (str "111");
   demo_file "i"%char (str "300"); demo_file "j"%char (str "321")].

Lemma demo_sizes : Forall (λ f, 0 <= old_size f) demo_files ∧ sum_sizes demo_files < 2 ^ 62.
Proof. split; [|done]. by repeat constructor. Qed.

Lemma report_scan_correct_witness :
  report_scan false demo_files = scan_spec demo_files ∧ report_scan true demo_files = upgrade_spec demo_files ∧
  ra_valid (scan_spec demo_files) = [0; 2]%nat ∧ ra_valid (upgrade_spec demo_files) = [2]%nat.
Proof.
  split_and!; [..|by vm_compute|by vm_compute].
  - apply (report_scan_correct false); [apply demo_sizes|reflexivity].
  - apply (report_scan_correct true); [apply demo_sizes|reflexivity].
Defined.

(** While the report is under way the first file is lost, and a file is added. *)
Definition demo_meanwhile : list json :=
  map (λ f, jkey_update FILE_STATUS (set_char CURRENT_STATUS FILE_STATUS_LOST) f) (map write_waiting (take 1 demo_files))
  ++ map write_waiting (drop 1 demo_files).
Lemma report_accounting_witness :
  let a := report_scan false demo_files in
  let w' := handle_report_result (with_reported_files_idx (ra_idx a)
              (with_checked_files (demo_meanwhile ++ [demo_file "k"%char (str "100")]) demo_workload)) in
  sum_sizes (filter (λ f, origin f = FILE_STATUS_VALID) (checked_files w')) = 200 ∧ ra_valid a = [0; 2]%nat.
Proof.
  split; [|vm_compute; reflexivity].
  refine (eq_trans (proj1 (report_accounting demo_workload demo_files demo_meanwhile
    [demo_file "k"%char (str "100")] _ _ _ _ _)) _); [| | | | |vm_compute; reflexivity].
  - unfold demo_files. repeat (apply List.Forall_cons; [eexists; split; [reflexivity|cbn; lia]|]). apply List.Forall_nil.
  - apply demo_sizes.
  - apply demo_sizes.
  - repeat (apply List.Forall2_cons;
      [split_and!; [eexists; split; [vm_compute; reflexivity|cbn; lia]|vm_compute; reflexivity..]|]).
    apply List.Forall2_nil.
  - apply List.Forall_cons; [by vm_compute|apply List.Forall_nil].
Defined.

Lemma purge_exact_witness : ∃ l', purge demo_files = Ok l' ∧ sublist l' demo_files.
Proof.
  destruct (purge_exact demo_files) as (l' & Hl & _ & Hs); [|by exists l'].
  unfold demo_files. repeat (apply List.Forall_cons;
    [eexists _, _, _; split; [reflexivity|]; unfold known_status; split_and!; tauto|]).
  apply List.Forall_nil.
Defined.

(** A first report: the chain holds no file, one is added; then the era is used up. *)
Definition demo_report_enclave : enclave demo :=
  with_wl (with_checked_files demo_files (with_validated_proof 1 demo_workload)) demo_enclave.
Definition demo_block_hash : bytes := replicate 64 "a"%char.

Lemma gen_work_report_gate_witness :
  gen_work_report demo_block_hash 200 false demo_report_enclave
  = Ok (CRUST_BLOCK_HEIGHT_EXPIRED, demo_report_enclave).
Proof. apply (gen_work_report_gate demo_report_enclave demo_block_hash 200 false); [lia|reflexivity]. Defined.

Definition demo_report_data : report_data :=
  RData (pub_key (id_key_pair demo_workload)) [] (str "300") demo_block_hash 0 0 zero_hash zero_hash
    (str "[]") (str "[]").
Definition demo_signed : enclave demo :=
  match report_sign demo_report_data (replicate 32 (chr 2)) demo_enclave with
  | Ok (_, e) => e
  | _ => demo_enclave
  end.
Lemma report_sign_spec_witness :
  ∃ bh sig w w', c_hash demo_block_hash = Ok bh ∧
    zlen (concat (sigbuf_parts demo_report_data bh)) = sigbuf_len demo_report_data ∧
    sgx_ecdsa_sign (replicate 32 (chr 2)) (concat (sigbuf_parts demo_report_data bh)) w = (Some sig, w') ∧
    g_work_report demo_signed = report_text demo_report_data sig ∧ wl demo_signed = demo_workload.
Proof.
  apply (report_sign_spec demo_enclave demo_report_data (replicate 32 (chr 2)) CRUST_SUCCESS demo_signed);
    try reflexivity; vm_compute; reflexivity.
Defined.
