(* ===== verification/Srd.v ===== *)
(** * Sealed random data (enclave/srd/Srd.cpp, enclave/utils/PathHelper.cpp)

    The disk space a node proves to hold: [srd_increase] seals one more gigabyte
    and keeps the hash of its leaf hashes, [srd_decrease] and
    [srd_update_metadata] give space back, and a task counter spreads a change
    over turns.  [srd_increase] writes SRD_RAND_DATA_NUM files of
    SRD_RAND_DATA_LENGTH bytes. *)
From S2P Require Import Prelude StdMap Status Hex Json JsonParse JsonText Host State Demo Persist Schedule Workload.

(** ** Paths *)
Definition get_m_hashs_file_path (g_path : bytes) : bytes := g_path ++ str "/" ++ SRD_M_HASHS.
Definition get_leaf_path (g_path : bytes) (now_index : Z) (hash : bytes) : bytes :=
  g_path ++ str "/" ++ to_string (u64 (now_index + 1)) ++ str "-"
  ++ unsigned_char_array_to_hex_string (take 32 hash).
Definition get_g_path_with_hash (dir_path hash : bytes) : bytes :=
  dir_path ++ str "/" ++ unsigned_char_array_to_hex_string (take 32 hash).
Definition get_g_path (dir_path : bytes) (now_index : Z) : bytes :=
  dir_path ++ str "/" ++ to_string (u64 (now_index + 1)).

(** An integer read from memory, least significant byte first *)
Definition le_value (b : bytes) : Z := foldr (λ c n, code c + 256 * n) 0 b.

(** ** Choosing what to delete *)

(** Indexes to delete, by path *)
Abbreviation del_map := (list (bytes * list nat)).

(** One path in a round of the choice: the entry at [size - sAcc], if the path is
    that long; [true] when it is. *)
Definition choose_path (sAcc : nat) (s : del_map * Z * bool) (p : bytes * list bytes) : del_map * Z * bool :=
  let '(del, num, any) := s in
  if Nat.leb sAcc (List.length p.2) then
    let tIdx := (List.length p.2 - sAcc)%nat in
    let idxs := map_get [] p.1 del in
    if set_mem tIdx idxs then (map_touch [] p.1 del, num, true)
    else (map_set p.1 (set_insert tIdx idxs) del, u32 (num + 1), true)
  else (del, num, any).
(** The rounds: [None] when the fuel is not enough. *)
Fixpoint choose_loop (fuel : nat) (change : Z) (sAcc : nat) (m : list (bytes * list bytes))
    (del : del_map) (num : Z) : option (del_map * Z) :=
  if change <=? num then Some (del, num)
  else match fuel with
       | O => None
       | S fuel =>
           let '(del, num, any) := foldl (choose_path sAcc) (del, num, false) m in
           if any : bool then choose_loop fuel change (S sAcc) m del num else Some (del, num)
       end.

Definition max_length (m : list (bytes * list bytes)) : nat :=
  foldr (λ p n, Nat.max (List.length p.2) n) 0%nat m.
(** Every path is exhausted after as many rounds as the longest has entries. *)
Definition choose_fuel (m : list (bytes * list bytes)) : nat := S (max_length m).

(** ** Deleting the chosen entries *)
Fixpoint erase_idxs (v : list bytes) (idxs : list nat) : res (list bytes * list bytes) :=
  match idxs with
  | [] => Ok (v, [])
  | i :: idxs =>
      match v !! i with
      | None => UB
      | Some h =>
          r ← erase_idxs (delete i v) idxs;
          Ok (r.1, hexstring_safe (take 32 h) :: r.2)
      end
  end.
(** From the highest index down; the hashes of each path, in that order *)
Fixpoint erase_all (del : del_map) (m : list (bytes * list bytes))
    : res (list (bytes * list bytes) * list (bytes * list bytes)) :=
  match del with
  | [] => Ok (m, [])
  | (path, idxs) :: del =>
      r ← erase_idxs (map_get [] path m) (rev idxs);
      let m := match idxs with [] => m | _ => map_set path r.1 m end in
      rest ← erase_all del m;
      Ok (rest.1, match r.2 with [] => rest.2 | _ => (path, r.2) :: rest.2 end)
  end.

Section srd.
Context {W : Type} `{!Host W}.
Abbreviation M := (M (enclave W)).

Definition save_file (g_path : bytes) (index : Z) (hash data : bytes) : M crust_status :=
  host (ocall_save_file (get_leaf_path g_path index hash) data).
Definition save_m_hashs_file (g_path data : bytes) : M crust_status :=
  host (ocall_save_file (get_m_hashs_file_path g_path) data).

(** ** The task counter *)
Definition get_srd_change : M Z := gets g_srd_change.
Definition set_srd_change (change : Z) : M unit :=
  srd_num ← get_wl srd_total;
  let change :=
    if 0 <? change then
      if SRD_NUMBER_UPPER_LIMIT <=? srd_num then 0
      else if SRD_NUMBER_UPPER_LIMIT <? u64 (srd_num + change) then SRD_NUMBER_UPPER_LIMIT - srd_num
      else change
    else change in
  modify (with_g_srd_change change).
(** The share of this turn *)
Definition take_srd_change : M Z :=
  c ← gets g_srd_change;
  if SRD_MAX_PER_TURN <? c then
    modify (with_g_srd_change (c - SRD_MAX_PER_TURN));; mret SRD_MAX_PER_TURN
  else modify (with_g_srd_change 0);; mret c.
Definition store_srd_info : M crust_status :=
  info ← get_wl get_srd_info;
  persist_set_unsafe DB_SRD_INFO (dump info).
Definition srd_change `{!Threads W} : M unit :=
  n ← take_srd_change;
  (if n =? 0 then mret tt else modify (ocall_srd_change n));;
  store_srd_info;;
  mret tt.

(** ** [srd_increase] *)

(** The base buffer is filled once; [sizeof] of the pointer is 8. *)
Definition base_rand_buffer : M (option bytes) :=
  b ← gets g_base_rand_buffer;
  match b with
  | Some _ => mret b
  | None =>
      ok ← enc_malloc SRD_RAND_DATA_LENGTH;
      if negb ok then mret None
      else
        r ← host (sgx_read_rand 8);
        let b := r ++ replicate (Z.to_nat (SRD_RAND_DATA_LENGTH - 8)) (chr 0) in
        modify (with_g_base_rand_buffer (Some b));;
        mret (Some b)
  end.

(** The leaves from index [i] on: seal, hash, save. *)
Fixpoint seal_leaves (n : nat) (i : Z) (g_path base acc : bytes) : M (option bytes) :=
  match n with
  | O => mret (Some acc)
  | S n =>
      r ← seal_data_mrenclave base;
      let '(st, sealed, _) := r in
      if negb (is_success st) then mret None
      else
        let leaf := take (Z.to_nat SRD_RAND_DATA_LENGTH) sealed in
        save_file g_path i (sha256 leaf) leaf;;
        seal_leaves n (i + 1) g_path base (acc ++ sha256 leaf)
  end.

Definition srd_increase (path : bytes) : M unit :=
  base ← base_rand_buffer;
  match base with
  | None => mret tt
  | Some base =>
      r ← host (sgx_read_rand 8);
      let g_path := get_g_path path (le_value r) in
      st ← host (ocall_create_dir g_path);
      if negb (is_success st) then mret tt
      else
        ok ← enc_malloc (SRD_RAND_DATA_NUM * HASH_LENGTH);
        if negb ok then mret tt
        else
          hashs ← seal_leaves (Z.to_nat SRD_RAND_DATA_NUM) 0 g_path base [];
          match hashs with
          | None => mret tt
          | Some hashs =>
              let g_hash := sha256 hashs in
              save_m_hashs_file g_path hashs;;
              host (ocall_rename_dir g_path (get_g_path_with_hash path g_hash));;
              ok ← enc_malloc HASH_LENGTH;
              if negb ok then mret tt
              else
                on_wl (λ w, set_srd_info path 1
                  (with_srd_path2hashs_m
                     (map_set path (map_get [] path (srd_path2hashs_m w) ++ [g_hash]) (srd_path2hashs_m w)) w))
          end
  end.

(** ** [srd_decrease] *)

(** The files of one path: how many were deleted *)
Fixpoint delete_files (path : bytes) (hashes : list bytes) : M Z :=
  match hashes with
  | [] => mret 0
  | h :: hashes =>
      st ← host (ocall_delete_folder_or_file (path ++ str "/" ++ h));
      n ← delete_files path hashes;
      mret (if is_success st then n + 1 else n)
  end.
Fixpoint delete_paths (del : list (bytes * list bytes)) : M Z :=
  match del with
  | [] => mret 0
  | (path, hashes) :: del =>
      n ← delete_files path hashes;
      on_wl (set_srd_info path (- zlen hashes));;
      k ← delete_paths del;
      mret (n + k)
  end.

Definition srd_decrease (change : Z) (del : del_map) : M Z :=
  m ← get_wl srd_path2hashs_m;
  let change := Z.min change (u32 (map_total m)) in
  if change =? 0 then mret 0
  else
    match choose_loop (choose_fuel m) change 1 m del (u32 (map_total del)) with
    | None => of_res NoFuel
    | Some (del, _) =>
        r ← of_res (erase_all del m);
        on_wl (with_srd_path2hashs_m r.1);;
        n ← delete_paths r.2;
        mret (u32 n)
    end.

(** ** [srd_update_metadata] *)

(** Give back the last [n] hashes of a path. *)
Fixpoint pop_hashes (path : bytes) (n : nat) : M unit :=
  match n with
  | O => mret tt
  | S n =>
      v ← get_wl (λ w, map_get [] path (srd_path2hashs_m w));
      match last v with
      | None => undefined
      | Some h =>
          on_wl (λ w, with_srd_path2hashs_m (map_set path (removelast v) (srd_path2hashs_m w)) w);;
          st ← host (ocall_delete_folder_or_file (path ++ str "/" ++ hexstring_safe (take 32 h)));
          (if is_success st then on_wl (set_srd_info path (-1)) else mret tt);;
          pop_hashes path n
      end
  end.

Definition srd_update_metadata `{!Threads W} (hashs : bytes) : M unit :=
  del_hashs_json ← of_res (Load Text hashs);
  for_each (ObjectRange del_hashs_json) (λ p,
    sched_check SCHED_SRD_CHECK_RESERVED;;
    on_wl (λ w, with_srd_path2hashs_m (map_touch [] p.1 (srd_path2hashs_m w)) w);;
    v ← get_wl (λ w, map_get [] p.1 (srd_path2hashs_m w));
    pop_hashes p.1 (Z.to_nat (Z.min (u64 (ToInt p.2)) (zlen v))));;
  store_srd_info;;
  mret tt.
End srd.

(** ** Lemmas *)
Definition idxs_ok (idxs : list nat) (v : list bytes) : Prop :=
  set_ok idxs ∧ Forall (λ i, (i < List.length v)%nat) idxs.
Definition del_ok (del : del_map) (m : list (bytes * list bytes)) : Prop :=
  map_ok del ∧ Forall (λ p, idxs_ok p.2 (map_get [] p.1 m)) del.

Lemma idxs_ok_nil v : idxs_ok [] v.
Proof. split; constructor. Qed.

Lemma del_ok_get del m path : del_ok del m → idxs_ok (map_get [] path del) (map_get [] path m).
Proof.
  intros [_ Hf]. unfold map_get at 1. destruct (map_find path del) as [s|] eqn:E; [|apply idxs_ok_nil].
  apply map_find_elem in E. rewrite Forall_forall in Hf. by apply (Hf _ E).
Qed.

Lemma del_ok_set del m path s :
  del_ok del m → idxs_ok s (map_get [] path m) → del_ok (map_set path s del) m.
Proof.
  intros [Hd Hf] Hs. split; [by apply map_set_ok|]. rewrite Forall_forall. intros [k s'] Hk.
  apply map_elem_find in Hk; [|by apply map_set_ok]. rewrite map_find_set in Hk.
  case_decide; simplify_eq; [done|]. apply map_find_elem in Hk. rewrite Forall_forall in Hf. by apply (Hf _ Hk).
Qed.

Lemma idxs_length idxs v : idxs_ok idxs v → zlen idxs <= zlen v.
Proof.
  intros [Hs Hf]. unfold zlen. apply inj_le.
  rewrite <- (length_seq (List.length v) 0). apply submseteq_length, NoDup_submseteq; [by apply set_ok_NoDup|].
  intros i Hi. rewrite Forall_forall in Hf. apply Hf in Hi. apply elem_of_seq. lia.
Qed.
Lemma idxs_full idxs (v : list bytes) :
  (∀ i, (i < List.length v)%nat → i ∈ idxs) → zlen v <= zlen idxs.
Proof.
  intros H. unfold zlen. apply inj_le.
  rewrite <- (length_seq (List.length v) 0). apply submseteq_length, NoDup_submseteq; [apply NoDup_seq|].
  intros i Hi%elem_of_seq. apply H. lia.
Qed.

Lemma map_get_set_ne {V} (d : V) k k' v m : k ≠ k' → map_get d k' (map_set k v m) = map_get d k' m.
Proof. intros. unfold map_get. by rewrite map_find_set_ne. Qed.
Lemma map_get_set_eq {V} (d : V) k v m : map_get d k (map_set k v m) = v.
Proof. unfold map_get. by rewrite map_find_set_eq. Qed.

(** The entries under [del] are disjoint parts of [m]. *)
Lemma del_total_le (del : del_map) (m : list (bytes * list bytes)) : map_ok m → del_ok del m → map_total del <= map_total m.
Proof.
  intros Hm [Hd Hf]. revert m Hm Hf. induction del as [|[k s] del IH]; intros m Hm Hf;
    [apply map_total_nonneg|].
  apply map_ok_cons in Hd as [Hk Hd]. apply Forall_cons in Hf as [Hs Hf]. cbn [fst snd] in Hs.
  cbn [map_total]. apply idxs_length in Hs.
  assert (map_total del <= map_total (map_set k [] m)) as Hrest.
  { apply IH; [done|by apply map_set_ok|]. rewrite Forall_forall in Hf, Hk |- *. intros p Hp.
    rewrite map_get_set_ne; [by apply Hf|]. by apply key_lt_ne, (Hk p Hp). }
  rewrite map_total_set in Hrest by done. rewrite zlen_nil in Hrest. lia.
Qed.

Lemma map_get_head {V} (d : V) k v m : map_get d k ((k, v) :: m) = v.
Proof. unfold map_get. cbn. by rewrite decide_True. Qed.
Lemma map_get_tail {V} (d : V) k v m k' : k ≠ k' → map_get d k' ((k, v) :: m) = map_get d k' m.
Proof. intros. unfold map_get. cbn. by rewrite decide_False by congruence. Qed.

(** When every index of every path is chosen, as many are chosen as there are. *)
Lemma del_total_full (del : del_map) (m : list (bytes * list bytes)) :
  map_ok m → map_ok del →
  Forall (λ p, ∀ i, (i < List.length p.2)%nat → i ∈ map_get [] p.1 del) m →
  map_total m <= map_total del.
Proof.
  revert del. induction m as [|[k v] m IH]; intros del Hm Hd Hf; [apply map_total_nonneg|].
  apply map_ok_cons in Hm as [Hk Hm]. apply Forall_cons in Hf as [Hv Hf]. cbn [fst snd] in Hv.
  cbn [map_total]. apply idxs_full in Hv.
  assert (map_total m <= map_total (map_set k [] del)) as Hrest.
  { apply IH; [done|by apply map_set_ok|]. rewrite Forall_forall in Hf, Hk |- *. intros p Hp.
    rewrite map_get_set_ne; [by apply Hf|]. by apply key_lt_ne, (Hk p Hp). }
  rewrite map_total_set in Hrest by done. rewrite zlen_nil in Hrest. lia.
Qed.

Lemma set_insert_new i s : set_mem i s = false → zlen (set_insert i s) = zlen s + 1.
Proof.
  induction s as [|j s IH]; cbn [set_insert]; [done|]. intros H. unfold set_mem in H. cbn [existsb] in H.
  apply orb_false_iff in H as [Hj H]. rewrite Hj. fold (set_mem i s) in H.
  destruct (Nat.ltb i j); [by rewrite !zlen_cons; lia|]. rewrite !zlen_cons, IH by done. lia.
Qed.

(** *** One round *)
Section choose.
Variable m : list (bytes * list bytes).
Hypothesis Hm : map_ok m.
Hypothesis Htotal : map_total m < 2 ^ 32.

(** The state of the choice: a valid selection, counted exactly *)
Definition chosen (del : del_map) (num : Z) : Prop := del_ok del m ∧ num = map_total del.

Lemma choose_path_spec sAcc del num any k v :
  (1 <= sAcc)%nat → (k, v) ∈ m → chosen del num →
  ∃ del' num' any', choose_path sAcc (del, num, any) (k, v) = (del', num', any') ∧
    chosen del' num' ∧ num <= num' <= num + 1 ∧
    any' = any || Nat.leb sAcc (List.length v) ∧
    (∀ p i, i ∈ map_get [] p del → i ∈ map_get [] p del') ∧
    ((sAcc <= List.length v)%nat → (List.length v - sAcc)%nat ∈ map_get [] k del').
Proof.
  intros Hs Hkv [Hd Hn]. cbn [choose_path fst snd].
  destruct (Nat.leb_spec sAcc (List.length v)) as [Hl|Hl].
  2: { eexists _, _, _. split; [done|]. split_and!; try done; try lia. by rewrite orb_false_r. }
  assert (map_get [] k m = v) as Hget.
  { unfold map_get. by rewrite (map_elem_find k v m Hm Hkv). }
  set (t := (List.length v - sAcc)%nat).
  destruct (set_mem t (map_get [] k del)) eqn:Em.
  - eexists _, _, _. split; [done|].
    assert (map_touch [] k del = del) as ->.
    { unfold map_touch, map_has. unfold map_get in Em. by destruct (map_find k del). }
    split_and!; try done; try lia. intros _. by apply set_mem_elem.
  - eexists _, _, _. split; [done|].
    pose proof (del_ok_get del m k Hd) as [Hso Hfo]. rewrite Hget in Hfo.
    assert (del_ok (map_set k (set_insert t (map_get [] k del)) del) m) as Hd'.
    { apply del_ok_set; [done|]. rewrite Hget. split; [by apply set_insert_ok|].
      rewrite Forall_forall in Hfo |- *. intros i [->|Hi]%set_insert_elem; [subst t; lia|auto]. }
    pose proof (del_total_le _ _ Hm Hd') as Hle.
    pose proof (map_total_set k (set_insert t (map_get [] k del)) del (proj1 Hd)) as Ht.
    rewrite set_insert_new in Ht by done. rewrite Ht in Hle.
    pose proof (map_total_nonneg del).
    rewrite u32_small by lia. split_and!.
    + split; [done|]. lia.
    + lia.
    + lia.
    + by rewrite orb_true_r.
    + intros p i Hi. destruct (decide (k = p)) as [->|Hne].
      * rewrite map_get_set_eq. apply set_insert_elem. by right.
      * by rewrite map_get_set_ne.
    + intros _. rewrite map_get_set_eq. apply set_insert_elem. by left.
Qed.

Lemma choose_round sAcc del num any l :
  (1 <= sAcc)%nat → (∀ p, p ∈ l → p ∈ m) → chosen del num →
  ∃ del' num', foldl (choose_path sAcc) (del, num, any) l
      = (del', num', any || existsb (λ p, Nat.leb sAcc (List.length p.2)) l) ∧
    chosen del' num' ∧ num <= num' <= num + zlen l ∧
    (∀ p i, i ∈ map_get [] p del → i ∈ map_get [] p del') ∧
    (∀ k v, (k, v) ∈ l → (sAcc <= List.length v)%nat → (List.length v - sAcc)%nat ∈ map_get [] k del').
Proof.
  intros Hs. revert del num any. induction l as [|[k v] l IH]; intros del num any Hl Hc.
  { exists del, num. cbn [foldl existsb]. rewrite orb_false_r, zlen_nil. split_and!; try done; try lia.
    intros k v H. by apply not_elem_of_nil in H. }
  destruct (choose_path_spec sAcc del num any k v Hs (Hl _ ltac:(left)) Hc)
    as (del1 & num1 & any1 & E & Hc1 & Hn1 & -> & Hk1 & Hi1).
  destruct (IH del1 num1 (any || Nat.leb sAcc (List.length v))) as (del2 & num2 & E2 & Hc2 & Hn2 & Hk2 & Hi2);
    [intros; apply Hl; by right|done|].
  exists del2, num2. cbn [foldl]. rewrite E, E2. cbn [existsb snd]. rewrite orb_assoc, zlen_cons.
  split_and!; try done; try lia; [by auto|].
  intros k' v' [?|Hin]%elem_of_cons Hle; simplify_eq; [auto|by apply (Hi2 k' v')].
Qed.

(** *** All rounds *)
Lemma max_length_le p : p ∈ m → (List.length p.2 <= max_length m)%nat.
Proof.
  clear. unfold max_length. induction m as [|q l IH]; intros H; [by apply not_elem_of_nil in H|].
  apply elem_of_cons in H as [->|H]; cbn; [lia|]. specialize (IH H). lia.
Qed.

Lemma choose_loop_spec fuel change sAcc del num :
  (1 <= sAcc)%nat → (S (max_length m) <= fuel + sAcc - 1)%nat → change <= map_total m →
  chosen del num →
  (∀ k v i, (k, v) ∈ m → (i < List.length v)%nat → (List.length v < i + sAcc)%nat → i ∈ map_get [] k del) →
  ∃ del' num', choose_loop fuel change sAcc m del num = Some (del', num') ∧
    chosen del' num' ∧ Z.max num change <= num' <= Z.max num (change - 1 + zlen m).
Proof.
  revert sAcc del num. induction fuel as [|fuel IH]; intros sAcc del num Hs Hf Hch Hc Hall; cbn [choose_loop].
  all: destruct (Z.leb_spec change num); [exists del, num; split_and!; done || lia|].
  - exfalso. assert (map_total m <= map_total del) as Hfull.
    { apply del_total_full; [done|apply Hc|]. rewrite Forall_forall. intros [k v] Hp i Hi. cbn in *.
      apply (Hall k v i Hp Hi). pose proof (max_length_le _ Hp). cbn in *. lia. }
    destruct Hc as [_ ->]. lia.
  - destruct (choose_round sAcc del num false m Hs ltac:(done) Hc) as (del1 & num1 & E & Hc1 & Hn1 & Hk1 & Hi1).
    rewrite E. cbn [orb].
    destruct (existsb _ m) eqn:Ex.
    + destruct (IH (S sAcc) del1 num1) as (del2 & num2 & E2 & Hc2 & Hn2); [lia|lia|done|done| |].
      { intros k v i Hp Hi Hl. destruct (decide (i + sAcc = List.length v)%nat) as [Heq|Hne].
        - replace i with (List.length v - sAcc)%nat by lia. apply Hi1; [done|lia].
        - apply Hk1. apply (Hall k v i); [done..|lia]. }
      exists del2, num2. split_and!; [done|done|lia|lia].
    + exists del1, num1. split; [done|]. split; [done|].
      assert (map_total m <= map_total del1) as Hfull.
      { apply del_total_full; [done|apply Hc1|]. rewrite Forall_forall. intros [k v] Hp i Hi. cbn in *.
        assert (Nat.leb sAcc (List.length v) = false) as Hlt.
        { apply not_true_iff_false. intros Hle. apply not_true_iff_false in Ex. apply Ex.
          apply existsb_exists. exists (k, v). split; [by apply list_elem_of_In|done]. }
        apply Nat.leb_gt in Hlt. apply Hk1, (Hall k v i Hp Hi). lia. }
      destruct Hc1 as [_ ->]. lia.
Qed.
End choose.

(** *** Erasing *)
Lemma erase_idxs_app v l1 l2 :
  erase_idxs v (l1 ++ l2) =
  (r1 ← erase_idxs v l1; r2 ← erase_idxs r1.1 l2; Ok (r2.1, r1.2 ++ r2.2)).
Proof.
  revert v. induction l1 as [|i l1 IH]; intros v; cbn [app erase_idxs].
  - cbn. by destruct (erase_idxs v l2) as [[]| | |].
  - destruct (v !! i) as [h|]; [|done]. rewrite IH. cbn.
    destruct (erase_idxs (delete i v) l1) as [[v1 h1]| | |]; cbn; try done.
    by destruct (erase_idxs v1 l2) as [[v2 h2]| | |].
Qed.

Lemma erase_idxs_spec v idxs :
  idxs_ok idxs v →
  ∃ v' hs, erase_idxs v (rev idxs) = Ok (v', hs) ∧ zlen v' = zlen v - zlen idxs ∧ zlen hs = zlen idxs ∧
           (∀ h, h ∈ v' → h ∈ v).
Proof.
  induction idxs as [|i idxs IH]; intros [Hs Hf].
  { exists v, []. split; [done|]. rewrite zlen_nil. split_and!; done || lia. }
  unfold set_ok in Hs. inversion Hs as [|? ? Hs' Hi]; subst. apply Forall_cons in Hf as [Hlt Hf].
  destruct IH as (v1 & h1 & E1 & Hl1 & Hh1 & Hin1); [by split|]. cbn [rev].
  rewrite erase_idxs_app, E1. cbn [mbind res_bind fst snd].
  assert (zlen idxs <= zlen v - 1 - Z.of_nat i) as Hb.
  { assert (List.length idxs <= List.length v - 1 - i)%nat; [|unfold zlen; lia].
    rewrite <- (length_seq (List.length v - 1 - i) (S i)).
    apply submseteq_length, NoDup_submseteq; [by apply set_ok_NoDup|].
    intros j Hj. rewrite Forall_forall in Hf, Hi. specialize (Hf j Hj). specialize (Hi j Hj).
    apply elem_of_seq. cbn in *. lia. }
  destruct (lookup_lt_is_Some_2 v1 i) as [h Hh]; [unfold zlen in *; lia|].
  cbn [erase_idxs]. rewrite Hh. cbn [mbind res_bind fst snd].
  eexists _, _. split; [done|]. rewrite zlen_cons. split_and!.
  - unfold zlen in *. rewrite length_delete by by eexists. apply lookup_lt_Some in Hh. lia.
  - rewrite zlen_app, Hh1. change (zlen [_]) with 1. lia.
  - intros x Hx. apply Hin1. rewrite delete_take_drop in Hx. rewrite <- (take_drop i v1).
    apply elem_of_app in Hx as [Hx|Hx]; apply elem_of_app; [by left|right].
    rewrite <- (take_drop 1 (drop i v1)). rewrite drop_drop. apply elem_of_app. right.
    by rewrite Nat.add_comm.
Qed.

Lemma erase_all_spec del m :
  map_ok m → del_ok del m →
  ∃ m' hs, erase_all del m = Ok (m', hs) ∧ map_ok m' ∧
    map_total m' = map_total m - map_total del ∧ map_total hs = map_total del ∧
    Forall (λ p, zlen p.2 <= map_total del) hs.
Proof.
  intros Hm [Hd Hf]. revert m Hm Hf. induction del as [|[k s] del IH]; intros m Hm Hf.
  { exists m, []. cbn [erase_all map_total]. split_and!; try done; try lia. }
  apply map_ok_cons in Hd as [Hk Hd]. apply Forall_cons in Hf as [Hs Hf]. cbn [fst snd] in Hs.
  destruct (erase_idxs_spec _ _ Hs) as (v' & h1 & E1 & Hl1 & Hh1 & _).
  cbn [erase_all]. rewrite E1. cbn [mbind res_bind fst snd].
  set (m1 := match s with [] => m | _ :: _ => _ end).
  assert (map_ok m1 ∧ map_total m1 = map_total m - zlen s ∧
          ∀ p, k ≠ p → map_get [] p m1 = map_get [] p m) as (Hm1 & Ht1 & Hg1).
  { subst m1. destruct s; [rewrite zlen_nil; split_and!; done || lia|].
    split_and!; [by apply map_set_ok|rewrite map_total_set by done; lia|].
    intros p Hp. by apply map_get_set_ne. }
  destruct (IH Hd m1 Hm1) as (m' & hs & E & Hm' & Ht & Hh & Hb).
  { rewrite Forall_forall in Hf, Hk |- *. intros p Hp. rewrite Hg1; [by apply Hf|].
    by apply key_lt_ne, (Hk p Hp). }
  rewrite E. cbn [mbind res_bind fst snd]. eexists _, _. split; [done|].
  cbn [map_total]. pose proof (map_total_nonneg del). pose proof (zlen_nonneg s).
  split_and!; [done|lia| |].
  - destruct h1 as [|h h1]; [rewrite zlen_nil in Hh1; lia|]. cbn [map_total]. lia.
  - assert (Forall (λ p : bytes * list bytes, zlen p.2 <= zlen s + map_total del) hs) as Hb'.
    { eapply Forall_impl; [exact Hb|]. cbn. lia. }
    destruct h1; [done|]. constructor; [cbn [snd]; lia|done].
Qed.

Section decrease.
Context {W : Type} `{!Host W}.

Lemma delete_files_spec path hs (e : enclave W) :
  twp (delete_files path hs) (λ n e', 0 <= n <= zlen hs ∧ wl e' = wl e) e.
Proof.
  revert e. induction hs as [|h hs IH]; intros e; cbn [delete_files]; twp_step.
  { split; [|done]. pose proof (zlen_nonneg (@nil bytes)). lia. }
  apply twp_zoom. twp_step. eapply twp_mono; [apply IH|]. intros n e' [Hn He'].
  twp_step. rewrite zlen_cons. split; [case_match; lia|]. by rewrite He'.
Qed.

Lemma delete_paths_spec del (e : enclave W) :
  twp (delete_paths del)
      (λ n e', 0 <= n <= map_total del ∧ srd_path2hashs_m (wl e') = srd_path2hashs_m (wl e)
               ∧ checked_files (wl e') = checked_files (wl e)) e.
Proof.
  revert e. induction del as [|[k hs] del IH]; intros e; cbn [delete_paths].
  { twp_step. cbn. split_and!; done || lia. }
  twp_step. eapply twp_mono; [apply delete_files_spec|]. intros n e1 [Hn He1].
  twp_step. unfold on_wl. twp_step. twp_step. eapply twp_mono; [apply IH|]. intros n2 e2 (Hn2 & He2 & Hc2).
  twp_step. cbn [map_total]. split_and!; [lia|lia| |].
  - rewrite He2. cbn. by rewrite He1.
  - rewrite Hc2. cbn. by rewrite He1.
Qed.

Lemma twp_srd_decrease (e : enclave W) change del :
  let m := srd_path2hashs_m (wl e) in
  let c := Z.min change (map_total m) in
  map_ok m → map_total m < 2 ^ 32 → del_ok del m →
  twp (srd_decrease change del) (λ n e',
    let removed := map_total m - srd_total (wl e') in
    (c = 0 → n = 0 ∧ e' = e) ∧
    (c ≠ 0 → Z.max (map_total del) c <= removed <= Z.max (map_total del) (c - 1 + zlen m) ∧
             0 <= n <= removed ∧ checked_files (wl e') = checked_files (wl e))) e.
Proof.
  intros m c Hm Ht Hd. unfold srd_decrease. unfold get_wl. do 2 twp_step. fold m. cbv zeta.
  pose proof (map_total_nonneg m). rewrite (u32_small (map_total m)) by lia. fold c.
  destruct (Z.eqb_spec c 0) as [Hc|Hc]; [twp_step; done|].
  pose proof (del_total_le del m Hm Hd) as Hle. pose proof (map_total_nonneg del).
  rewrite (u32_small (map_total del)) by lia.
  destruct (choose_loop_spec m Hm Ht (choose_fuel m) c 1 del (map_total del)) as
    (del' & num' & E & [Hd' Hn'] & Hb); [lia|unfold choose_fuel; lia|lia|done|intros; lia|].
  rewrite E. destruct (erase_all_spec del' m Hm Hd') as (m' & hs & Ee & Hm' & Ht' & Hh & _).
  twp_step. eapply twp_of_res; [exact Ee|]. cbn [fst snd]. twp_step. unfold on_wl. twp_step. twp_step.
  eapply twp_mono; [apply delete_paths_spec|]. intros n e2 (Hn & Hp & Hcf). twp_step.
  pose proof (del_total_le del' m Hm Hd').
  split; [done|]. intros _. unfold srd_total. rewrite Hp. cbn [srd_path2hashs_m with_srd_path2hashs_m wl with_wl].
  rewrite u32_small by lia. split_and!; try lia. by rewrite Hcf.
Qed.
End decrease.

(** *** Increasing *)
Section increase.
Context {W : Type} `{!Host W}.

Lemma wp_seal src Q (e : enclave W) :
  (∀ r w, Q r (with_world w e)) → wp (seal_data_mrenclave src) Q e.
Proof.
  intros H. unfold seal_data_mrenclave, Sgx_seal_data_ex. cbv zeta.
  assert (e = with_world (world e) e) as He by by destruct e.
  apply wp_bind, wp_enc_malloc. intros [|]; cbn [negb]; [|apply wp_ret; rewrite He; apply H].
  do 2 apply wp_bind. apply wp_enc_malloc. intros [|]; cbn [negb].
  - apply wp_host. destruct (sgx_ok _); apply wp_ret; apply H.
  - apply wp_ret. cbn [fst sgx_ok]. apply wp_ret. rewrite He. apply H.
Qed.

Lemma wp_base_rand Q (e : enclave W) :
  (∀ b e', wl e' = wl e → Q b e') → wp base_rand_buffer Q e.
Proof.
  intros H. unfold base_rand_buffer. apply wp_bind, wp_gets. destruct (g_base_rand_buffer e).
  { apply wp_ret. by apply H. }
  apply wp_bind, wp_enc_malloc. intros [|]; cbn [negb]; [|apply wp_ret; by apply H].
  apply wp_bind, wp_host. apply wp_bind, wp_modify, wp_ret. by apply H.
Qed.

(** The leaves' hashes are collected in order and nothing else changes. *)
Lemma wp_seal_leaves n i g_path base acc Q (e : enclave W) :
  (∀ e', wl e' = wl e → Q None e') →
  (∀ leaves e', wl e' = wl e → List.length leaves = n → Q (Some (acc ++ concat (map sha256 leaves))) e') →
  wp (seal_leaves n i g_path base acc) Q e.
Proof.
  revert i acc e. induction n as [|n IH]; intros i acc e Hno Hyes; cbn [seal_leaves].
  - apply wp_ret. rewrite <- (app_nil_r acc) at 1. by apply (Hyes []).
  - apply wp_bind, wp_seal. intros [[st sealed] size] w. destruct (is_success st); cbn [negb].
    + set (leaf := take _ _). apply wp_bind, wp_host. apply IH; [intros e' He'; by apply Hno|].
      intros leaves e' He' Hl. rewrite <- app_assoc.
      apply (Hyes (leaf :: leaves)); [done|cbn; lia].
    + apply wp_ret. by apply Hno.
Qed.
End increase.

(** ** Properties *)
Section properties.
Context {W : Type} `{!Host W}.

(** C32: [srd_decrease] always ends, gives back at least what it was asked (or all
    there is) and every entry it was told to delete, and at most one entry per
    path more than the rest of the request; it reports no more deletions than
    it made, and touches nothing when there is nothing to do. *)
Theorem srd_decrease_spec (e : enclave W) change del :
  let m := srd_path2hashs_m (wl e) in
  let c := Z.min change (map_total m) in
  map_ok m → map_total m < 2 ^ 32 → del_ok del m →
  twp (srd_decrease change del) (λ n e',
    let removed := map_total m - srd_total (wl e') in
    (c = 0 → n = 0 ∧ e' = e) ∧
    (c ≠ 0 → Z.max (map_total del) c <= removed <= Z.max (map_total del) (c - 1 + zlen m) ∧
             0 <= n <= removed ∧ checked_files (wl e') = checked_files (wl e))) e.
Proof. apply twp_srd_decrease. Qed.

(** [srd_increase] adds exactly one hash to its path, the hash of the hashes
    of SRD_RAND_DATA_NUM leaves, and one to the assigned space; when anything
    fails on the way the workload is as before. *)
Theorem srd_increase_adds_one (e : enclave W) path :
  wp (srd_increase path) (λ _ e',
    wl e' = wl e ∨
    ∃ leaves, zlen leaves = SRD_RAND_DATA_NUM ∧
      let m := srd_path2hashs_m (wl e) in
      let m' := map_set path (map_get [] path m ++ [sha256 (concat (map sha256 leaves))]) m in
      wl e' = set_srd_info path 1 (with_srd_path2hashs_m m' (wl e)) ∧
      (map_ok m → map_total m' = map_total m + 1)) e.
Proof.
  unfold srd_increase. apply wp_bind, wp_base_rand. intros [base|] e1 He1; [|apply wp_ret; by left].
  apply wp_bind, wp_host. apply wp_bind, wp_host.
  destruct (is_success _); cbn [negb]; [|apply wp_ret; by left].
  apply wp_bind, wp_enc_malloc. intros [|]; cbn [negb]; [|apply wp_ret; by left].
  apply wp_bind, wp_seal_leaves.
  { intros e2 He2. apply wp_ret. left. rewrite He2. cbn [wl with_world]. by rewrite He1. }
  intros leaves e2 He2 Hl. cbn [app]. apply wp_bind, wp_host. apply wp_bind, wp_host.
  apply wp_bind, wp_enc_malloc. intros [|]; cbn [negb].
  - apply wp_on_wl. right. exists leaves. split; [unfold zlen; by rewrite Hl|].
    cbn [wl with_wl with_world]. rewrite He2. cbn [wl with_world]. rewrite He1.
    split; [done|]. intros Hm. rewrite map_total_set, zlen_app by done. change (zlen [_]) with 1. lia.
  - apply wp_ret. left. cbn [wl with_world]. rewrite He2. cbn [wl with_world]. by rewrite He1.
Qed.

(** Accepting a task never asks for more than the limit allows: the hashes
    there are plus a positive task stay within SRD_NUMBER_UPPER_LIMIT, or the
    task is dropped; a negative task is taken as it is. *)
Theorem set_srd_change_limit (e : enclave W) change :
  - 2 ^ 63 <= change < 2 ^ 63 → srd_total (wl e) < 2 ^ 63 →
  ∃ e', set_srd_change change e = Ok (tt, e') ∧ wl e' = wl e ∧
    (change <= 0 → g_srd_change e' = change) ∧
    (0 < change → g_srd_change e' = Z.max 0 (Z.min change (SRD_NUMBER_UPPER_LIMIT - srd_total (wl e)))).
Proof.
  intros Hc Ht. unfold set_srd_change, get_wl, gets, modify, mbind, m_bind. cbv beta iota zeta.
  eexists. split; [reflexivity|]. cbn [wl with_g_srd_change g_srd_change].
  split; [done|].
  pose proof (map_total_nonneg (srd_path2hashs_m (wl e))). unfold srd_total, SRD_NUMBER_UPPER_LIMIT in *.
  destruct (Z.ltb_spec 0 change); (split; [|intros]); try lia.
  destruct (Z.leb_spec 204800 (map_total (srd_path2hashs_m (wl e)))); [lia|].
  rewrite u64_small by lia. destruct (Z.ltb_spec 204800 (map_total (srd_path2hashs_m (wl e)) + change)); lia.
Qed.

(** What [n] turns hand out *)
Fixpoint srd_turns (n : nat) : M (enclave W) Z :=
  match n with
  | O => mret 0
  | S n => a ← take_srd_change; b ← srd_turns n; mret (a + b)
  end.

(** Turns hand out a task completely and only once, at most SRD_MAX_PER_TURN
    at a time: after enough turns the counter is zero and the shares sum to the
    task, and nothing else changed. *)
Theorem srd_turns_complete (e : enclave W) n :
  0 <= g_srd_change e <= SRD_MAX_PER_TURN * Z.of_nat n →
  srd_turns n e = Ok (g_srd_change e, with_g_srd_change 0 e) ∧
  (∀ k e', take_srd_change e = Ok (k, e') → k <= SRD_MAX_PER_TURN ∧ k + g_srd_change e' = g_srd_change e).
Proof.
  unfold SRD_MAX_PER_TURN. intros Hg. split.
  - revert e Hg. induction n as [|n IH]; intros e Hg.
    + cbn. replace (g_srd_change e) with 0 by lia. destruct e as [? ? c ? ? ?]; cbn in *.
      by replace c with 0 by lia.
    + cbn [srd_turns]. unfold take_srd_change, gets, modify, mbind, m_bind, mret, m_ret, SRD_MAX_PER_TURN.
      destruct (Z.ltb_spec 64 (g_srd_change e)); cbv beta iota.
      * rewrite IH by (cbn; lia). cbn. f_equal. f_equal. lia.
      * rewrite IH by (cbn; lia). cbn. f_equal. f_equal. lia.
  - intros k e'. unfold take_srd_change, gets, modify, mbind, m_bind, mret, m_ret, SRD_MAX_PER_TURN.
    destruct (Z.ltb_spec 64 (g_srd_change e)); intros [= <- <-]; cbn; lia.
Qed.
End properties.

(** ** Witnesses *)

(** Asked for one gigabyte, two are given back: one of each path. *)
Definition demo_srd_enclave : enclave demo := with_wl demo_srd_workload demo_enclave.
Example srd_decrease_overshoots :
  match srd_decrease 1 [] demo_srd_enclave with
  | Ok (n, e') => n = 2 ∧ srd_total (wl e') = 1
  | _ => False
  end.
Proof. vm_compute. done. Qed.

Lemma srd_decrease_spec_witness :
  twp (srd_decrease 2 [(str "/a", [0%nat])]) (λ n e',
    let removed := 3 - srd_total (wl e') in
    (2 = 0 → n = 0 ∧ e' = demo_srd_enclave) ∧
    (2 ≠ 0 → 2 <= removed <= 3 ∧ 0 <= n <= removed ∧ checked_files (wl e') = [])) demo_srd_enclave.
Proof.
  apply (srd_decrease_spec demo_srd_enclave 2 [(str "/a", [0%nat])]).
  - by repeat constructor.
  - done.
  - split; [by repeat constructor|]. constructor; [|constructor]. split; [by repeat constructor|].
    constructor; [vm_compute; repeat constructor|constructor].
Defined.

Lemma set_srd_change_limit_witness :
  ∃ e', set_srd_change 300000 demo_srd_enclave = Ok (tt, e') ∧ g_srd_change e' = 204797.
Proof.
  destruct (set_srd_change_limit demo_srd_enclave 300000) as (e' & He & _ & _ & Hp); [lia|done|].
  exists e'. split; [exact He|]. rewrite Hp by done. reflexivity.
Defined.

Lemma srd_turns_complete_witness :
  srd_turns 3 (with_g_srd_change 150 demo_enclave) = Ok (150, with_g_srd_change 0 demo_enclave).
Proof. apply (srd_turns_complete (with_g_srd_change 150 demo_enclave) 3). cbn. unfold SRD_MAX_PER_TURN. lia. Defined.
