(* ===== verification/Storage.v ===== *)
(** * Meaningful files (enclave/storage/Storage.cpp)

    Sealing replaces every block of a file by its sealed form and rebuilds the
    Merkle tree above; unsealing goes back; confirming and deleting change the
    status of a file.  The lock on the file buffer is held around each block. *)
From S2P Require Import Prelude StdMap Status Hex Json JsonParse JsonText Host State Demo Merkle Persist Workload Report.

(** ** Strings *)

(** [s.find(sub)] *)
Fixpoint find_from (i : nat) (sub s : bytes) : option nat :=
  if bool_decide (take (List.length sub) s = sub) then Some i
  else match s with
       | [] => None
       | _ :: s => find_from (S i) sub s
       end.
Definition find (sub s : bytes) : option nat := find_from 0 sub s.
(** [s.substr(0, s.find(sub))]: the whole string when there is no match *)
Definition before (sub s : bytes) : bytes :=
  match find sub s with Some i => take i s | None => s end.
(** [find_last_of("/")]: what is before the last slash, and what is after it *)
Fixpoint split_last (s : bytes) : option (bytes * bytes) :=
  match s with
  | [] => None
  | c :: s =>
      match split_last s with
      | Some (a, b) => Some (c :: a, b)
      | None => if bool_decide (c = "/"%char) then Some ([], s) else None
      end
  end.
Definition dir_name (s : bytes) : bytes := match split_last s with Some (a, _) => a | None => s end.
Definition base_name (s : bytes) : bytes := match split_last s with Some (_, b) => b | None => s end.

(** [memcmp(p, h, HASH_LENGTH) == 0]: undefined when the buffer is shorter *)
Definition same_hash (p h : bytes) : res bool :=
  if zlen p <? HASH_LENGTH then UB else Ok (bool_decide (take 32 p = h)).
(** Assigning a pointer to HASH_LENGTH bytes *)
Definition hash_value (p : bytes) : res json :=
  if zlen p <? HASH_LENGTH then UB else Ok (jhash p).

Section storage.
Context {W : Type} `{!Host W}.
Abbreviation M := (M (enclave W)).

(** ** Sealing *)

(** What the recursion threads: the node, the text of the sealed tree, the size
    of the node, the number of blocks so far *)
Record seal_state := Seal { se_json : json; se_tree : bytes; se_size : Z; se_num : Z }.

Definition block_path (path : bytes) (num : Z) (hash : bytes) : bytes :=
  path ++ str "/" ++ to_string num ++ str "_" ++ hash.
Definition leaf_text (links_num : Z) (hash : bytes) (size : Z) : bytes :=
  str "{" ++ quote MT_LINKS_NUM ++ str ":" ++ to_string links_num ++ str ","
  ++ quote MT_HASH ++ str ":" ++ quote hash ++ str ","
  ++ quote MT_SIZE ++ str ":" ++ to_string size ++ str "}".
Definition node_end (links_num : Z) (hash : bytes) (size : Z) : bytes :=
  str "]," ++ quote MT_LINKS_NUM ++ str ":" ++ to_string links_num ++ str ","
  ++ quote MT_HASH ++ str ":" ++ quote hash ++ str ","
  ++ quote MT_SIZE ++ str ":" ++ to_string size ++ str "}".

(** One block.  When the application reports success without data, or the copy
    cannot be allocated, the block is left as it is and the status is success. *)
Definition seal_leaf (path : bytes) (s : seal_state) : M (crust_status * seal_state) :=
  let old_hash_str := ToString (jkey MT_HASH (se_json s)) in
  let old_path := block_path path (se_num s) old_hash_str in
  r ← host (ocall_get_storage_file old_path);
  match r with
  | (CRUST_SUCCESS, Some file_data) =>
      if negb (ToInt (jkey MT_SIZE (se_json s)) =? zlen file_data) then
        mret (CRUST_STORAGE_NEW_FILE_SIZE_ERROR, s)
      else
        ok ← enc_malloc (zlen file_data);
        if negb ok then mret (CRUST_SUCCESS, s)
        else
          match hex_string_to_bytes old_hash_str with
          | None => mret (CRUST_MALLOC_FAILED, s)
          | Some p_org_hash =>
              same ← of_res (same_hash p_org_hash (sha256 file_data));
              if negb same then mret (CRUST_STORAGE_UNEXPECTED_FILE_BLOCK, s)
              else
                x ← seal_data_mrsigner file_data;
                let '(st, sealed, sealed_size) := x in
                if negb (is_success st) then mret (st, s)
                else
                  let hex_new_hash := hexstring_safe (sha256 sealed) in
                  st ← host (ocall_replace_file old_path (block_path path (se_num s) hex_new_hash) sealed);
                  if negb (is_success st) then mret (st, s)
                  else
                    let j := jkey_set MT_HASH (JString hex_new_hash) (se_json s) in
                    mret (CRUST_SUCCESS,
                      Seal j (se_tree s ++ leaf_text (ToInt (jkey MT_LINKS_NUM j))
                                             (ToString (jkey MT_HASH j)) sealed_size)
                        (u64 (se_size s + sealed_size)) (u64 (se_num s + 1)))
          end
  | (st, _) => mret (st, s)
  end.

(** The loop over the children, given the recursive call; [sub] collects their
    new hashes. *)
Fixpoint seal_links (rec : seal_state → M (crust_status * seal_state)) (n : Z) (is_ : list nat)
    (s : seal_state) (sub : bytes) : M (crust_status * seal_state * bytes) :=
  match is_ with
  | [] => mret (CRUST_SUCCESS, s, sub)
  | i :: is_ =>
      let links := jkey MT_LINKS (se_json s) in
      r ← rec (Seal (jidx i links) (se_tree s) (se_size s) (se_num s));
      let '(st, c) := r in
      let j := jkey_set MT_LINKS (jidx_set i (se_json c) links) (se_json s) in
      if negb (is_success st) then mret (st, Seal j (se_tree c) (se_size c) (se_num c), sub)
      else
        h ← of_res (c_hash (ToString (jkey MT_HASH (se_json c))));
        let tree := se_tree c ++ (if Z.of_nat i =? n - 1 then [] else str ",") in
        seal_links rec n is_ (Seal j tree (se_size c) (se_num c)) (sub ++ h)
  end.

Fixpoint _storage_seal_file (fuel : nat) (path : bytes) (s : seal_state) : M (crust_status * seal_state) :=
  match fuel with
  | O => of_res NoFuel
  | S fuel =>
      if json_size (se_json s) =? 0 then mret (CRUST_SUCCESS, s)
      else
        let links_num := ToInt (jkey MT_LINKS_NUM (se_json s)) in
        if links_num =? 0 then seal_leaf path s
        else
          ok ← enc_malloc (links_num * HASH_LENGTH);
          if negb ok then mret (CRUST_MALLOC_FAILED, s)
          else
            r ← seal_links (_storage_seal_file fuel path) links_num (seq 0 (Z.to_nat links_num))
                  (Seal (se_json s) (se_tree s ++ str "{" ++ quote MT_LINKS ++ str ": [") 0 (se_num s)) [];
            let '(st, c, sub) := r in
            if negb (is_success st) then mret (st, c)
            else
              let hash := hexstring_safe (sha256 sub) in
              let j := jkey_set MT_HASH (JString hash) (se_json c) in
              mret (CRUST_SUCCESS,
                Seal j (se_tree c ++ node_end links_num (ToString (jkey MT_HASH j)) (se_size c))
                  (u64 (se_size s + se_size c)) (se_num c))
  end.

(** [storage_seal_file]: the status and the path of the sealed file *)
Definition storage_seal_file (p_tree path : bytes) : M (crust_status * bytes) :=
  w ← get_wl id;
  if FILE_NUMBER_UPPER_LIMIT <=? zlen (checked_files w) + zlen (new_files w) then
    mret (CRUST_FILE_NUMBER_EXCEED, [])
  else
    tree_json ← of_res (Load Text p_tree);
    if json_size tree_json =? 0 then mret (CRUST_INVALID_MERKLETREE, [])
    else
      e ← get;
      st ← of_res (validate_merkletree_json (world e) (S (json_height tree_json)) tree_json);
      if negb (is_success st) then mret (st, [])
      else
        let org_root_hash_str := ToString (jkey MT_HASH tree_json) in
        let org_node_size := ToInt (jkey MT_SIZE tree_json) in
        r ← _storage_seal_file (S (json_height tree_json)) path (Seal tree_json [] 0 0);
        let '(st, s) := r in
        if negb (is_success st) then mret (st, [])
        else
          let new_root_hash_str := ToString (jkey MT_HASH (se_json s)) in
          let new_path := before org_root_hash_str path ++ new_root_hash_str in
          st ← host (ocall_rename_dir path new_path);
          if negb (is_success st) then mret (st, [])
          else
            host_ (ocall_store_sealed_merkletree org_root_hash_str (se_tree s));;
            match hex_string_to_bytes new_root_hash_str, hex_string_to_bytes org_root_hash_str with
            | Some new_u, Some org_u =>
                new_hash ← of_res (hash_value new_u);
                org_hash ← of_res (hash_value org_u);
                let file_entry_json :=
                  jkey_set FILE_STATUS (JString (str "000"))
                    (jkey_set FILE_BLOCK_NUM (jint (se_num s))
                      (jkey_set FILE_OLD_SIZE (jint org_node_size)
                        (jkey_set FILE_SIZE (jint (se_size s))
                          (jkey_set FILE_OLD_HASH org_hash (jkey_set FILE_HASH new_hash JNull))))) in
                st ← persist_set_unsafe new_root_hash_str (se_tree s);
                if negb (is_success st) then mret (st, new_path)
                else
                  let tree_meta_json :=
                    jkey_set FILE_OLD_SIZE (jint org_node_size)
                      (jkey_set FILE_OLD_HASH (JString org_root_hash_str) JNull) in
                  st ← persist_set_unsafe (new_root_hash_str ++ str "_meta") (dump tree_meta_json);
                  if negb (is_success st) then mret (st, new_path)
                  else
                    on_wl (add_new_file file_entry_json);;
                    on_wl (set_wl_spec FILE_STATUS_UNCONFIRMED (ToInt (jkey FILE_OLD_SIZE file_entry_json)));;
                    mret (CRUST_SUCCESS, new_path)
            | _, _ => mret (CRUST_UNEXPECTED_ERROR, new_path)
            end.

(** ** Unsealing *)

(** One block; [len] is the size of the buffer for the plain data, which grows to
    the largest block seen.  A status other than success ends the loop, and so
    does success without data. *)
Definition unseal_block (dir file : bytes) (len : Z) : M (Z + crust_status) :=
  let tag := before (str "_") file in
  let path := dir ++ str "/" ++ file in
  r ← host (ocall_get_storage_file path);
  match r with
  | (CRUST_SUCCESS, Some sealed) =>
      ok ← enc_malloc (zlen sealed);
      if negb ok then mret (inr CRUST_MALLOC_FAILED)
      else
        let len_r := u32 (sgx_get_encrypt_txt_len sealed) in
        ok ← (if len <? len_r then enc_malloc len_r else mret true);
        if negb ok then mret (inr CRUST_MALLOC_FAILED)
        else
          let len := Z.max len len_r in
          match sgx_unseal_data sealed with
          | None => mret (inr CRUST_UNSEAL_DATA_FAILED)
          | Some data =>
              let buffer := data ++ replicate (Z.to_nat (len - zlen data)) (chr 0) in
              if zlen buffer <? zlen SWORKER_PRIVATE_TAG then undefined
              else if bool_decide (take (List.length SWORKER_PRIVATE_TAG) buffer = SWORKER_PRIVATE_TAG) then
                mret (inr CRUST_MALWARE_DATA_BLOCK)
              else
                let new_path := dir ++ str "/" ++ tag ++ str "_" ++ hexstring_safe (sha256 data) in
                st ← host (ocall_replace_file path new_path data);
                if negb (is_success st) then mret (inr CRUST_STORAGE_UPDATE_FILE_FAILED)
                else mret (inl len)
          end
  | (st, _) => mret (inr st)
  end.

Fixpoint unseal_blocks (dir : bytes) (files : list bytes) (len : Z) : M (option crust_status) :=
  match files with
  | [] => mret None
  | f :: files =>
      r ← unseal_block dir f len;
      match r with
      | inl len => unseal_blocks dir files len
      | inr st => mret (Some st)
      end
  end.

(** [storage_unseal_file]: the status and the path of the plain file *)
Definition storage_unseal_file (files : list bytes) (dir : bytes) : M (crust_status * bytes) :=
  let new_root_hash_str := base_name dir in
  r ← persist_get_unsafe (new_root_hash_str ++ str "_meta");
  match r with
  | (CRUST_SUCCESS, Some meta) =>
      meta_json ← of_res (Load Text meta);
      let new_dir := dir_name dir ++ str "/" ++ ToString (jkey FILE_OLD_HASH meta_json) in
      r ← unseal_blocks dir files 0;
      match r with
      | Some st => mret (st, [])
      | None => st ← host (ocall_rename_dir dir new_dir); mret (st, new_dir)
      end
  | _ => mret (CRUST_STORAGE_UNSEAL_FILE_FAILED, [])
  end.

(** ** Confirming and deleting *)
Definition has_hash (hash : bytes) (f : json) : bool := bool_decide (ToString (jkey FILE_HASH f) = hash).
Definition set_cur (c : ascii) (f : json) : json := jkey_update FILE_STATUS (set_char CURRENT_STATUS c) f.

(** The first element a predicate picks, replaced by its update *)
Fixpoint update_first (p : json → bool) (f : json → json) (l : list json) : option (list json * json) :=
  match l with
  | [] => None
  | x :: l =>
      if p x then Some (f x :: l, f x)
      else match update_first p f l with Some (l', y) => Some (x :: l', y) | None => None end
  end.
(** The same from the end *)
Definition update_last (p : json → bool) (f : json → json) (l : list json) : option (list json * json) :=
  match update_first p f (rev l) with Some (l', y) => Some (rev l', y) | None => None end.
(** The last element a predicate picks, removed *)
Fixpoint remove_last (p : json → bool) (l : list json) : option (list json * json) :=
  match l with
  | [] => None
  | x :: l =>
      match remove_last p l with
      | Some (l', y) => Some (x :: l', y)
      | None => if p x then Some (l, x) else None
      end
  end.

Definition confirm_file (f : json) : json :=
  if bool_decide (cur f = FILE_STATUS_UNCONFIRMED) then set_cur FILE_STATUS_VALID f else f.

Definition storage_confirm_file (hash : bytes) (w : workload) : crust_status * workload :=
  let found :=
    match update_last (has_hash hash) confirm_file (checked_files w) with
    | Some (l, f) => Some (with_checked_files l w, f)
    | None =>
        match update_last (λ f, has_hash hash f && bool_decide (cur f = FILE_STATUS_UNCONFIRMED))
                (set_cur FILE_STATUS_VALID) (new_files w) with
        | Some (l, f) => Some (with_new_files l w, f)
        | None => None
        end
    end in
  (CRUST_SUCCESS,
   match found with
   | Some (w, f) => set_wl_spec2 FILE_STATUS_VALID FILE_STATUS_UNCONFIRMED (old_size f) w
   | None => w
   end).

(** The file as it was, and the workload without it *)
Definition delete_entry (hash : bytes) (w : workload) : option (workload * json) :=
  match list_find (λ f, has_hash hash f = true) (checked_files w) with
  | Some (i, f) => Some (with_checked_files (alter (set_cur FILE_STATUS_DELETED) i (checked_files w)) w, f)
  | None =>
      match remove_last (has_hash hash) (new_files w) with
      | Some (l, f) => Some (with_new_files l w, f)
      | None => None
      end
  end.
Definition storage_delete_file (hash : bytes) : M crust_status :=
  w ← get_wl id;
  match delete_entry hash w with
  | None => mret CRUST_SUCCESS
  | Some (w', f) =>
      on_wl (λ _, w');;
      persist_del (ToString (jkey FILE_HASH f));;
      persist_del (ToString (jkey FILE_HASH f) ++ str "_meta");;
      on_wl (set_wl_spec (cur f) (- old_size f));;
      mret CRUST_SUCCESS
  end.
End storage.

(** ** Lemmas *)
Lemma c_hash_hex h : List.length h = 32%nat → c_hash (hexstring_safe h) = Ok h.
Proof.
  intros Hh. unfold c_hash. pose proof (hexstring_safe_length h) as Hl.
  assert (zlen h = 32) as Hz by (unfold zlen; lia). rewrite Hz in Hl.
  destruct (Z.ltb_spec (zlen (hexstring_safe h) + 1) (2 * HASH_LENGTH)); [unfold HASH_LENGTH in *; lia|].
  rewrite take_app_le by (unfold zlen in Hl; lia). rewrite take_ge by (unfold zlen in Hl; lia).
  by rewrite hex_pairs_hexstring.
Qed.

Lemma jidx_set_in i v l :
  (i < List.length l)%nat → jidx_set i v (JArray l) = JArray (<[i := v]> l).
Proof.
  intros Hi. unfold jidx_set, resize. cbn [as_array].
  replace (S i - List.length l)%nat with 0%nat by lia. by rewrite app_nil_r.
Qed.

Section seal.
Context {W : Type} `{!Host W} `{!HostLaws W}.

(** *** What sealing makes of a tree *)

(** [sealed] is what the signer's key made of [data]; [size] its computed length. *)
Definition sealed_from (data sealed : bytes) (size : Z) : Prop :=
  (∃ w : W, (sgx_seal_data data w).1 = (SGX_SUCCESS, sealed)) ∧
  size = u32 (sgx_calc_sealed_data_size (u32 (zlen data))).

(** The block [num] of the leaf [j] was exchanged: the application returned data of
    the size and the hash the leaf has, and took its sealed form under the sealed
    hash [h']. *)
Definition exchanged (path : bytes) (num : Z) (j : json) (h' : bytes) (size : Z) : Prop :=
  let h := ToString (jkey MT_HASH j) in
  ∃ data p sealed,
    (∃ w : W, (ocall_get_storage_file (block_path path num h) w).1 = (CRUST_SUCCESS, Some data)) ∧
    ToInt (jkey MT_SIZE j) = zlen data ∧ hex_string_to_bytes h = Some p ∧ take 32 p = sha256 data ∧
    sealed_from data sealed size ∧ h' = hexstring_safe (sha256 sealed) ∧
    ∃ w : W, (ocall_replace_file (block_path path num h) (block_path path num h') sealed w).1 = CRUST_SUCCESS.

(** [resealed path a j t b]: from the number of blocks and the size [a] to [b], the
    tree [j] became [t].  A block is exchanged, or kept as it is where the source
    goes on without sealing it; the children stay in place; the hash of an inner
    node is the hash of its new children.  A node that counts no members is
    passed over: a leaf, unless the [int] of [size()] wrapped. *)
Inductive resealed (path : bytes) : Z * Z → json → MerkleTree → Z * Z → Prop :=
| rs_empty a j t : json_size j = 0 → tree_of j t → resealed path a j t a
| rs_kept a j z : ToInt (jkey MT_LINKS_NUM j) = 0 →
    resealed path a j (MTree (ToString (jkey MT_HASH j)) z []) a
| rs_block num sz j h' z size :
    ToInt (jkey MT_LINKS_NUM j) = 0 → exchanged path num j h' size →
    resealed path (num, sz) j (MTree h' z []) (u64 (num + 1), u64 (sz + size))
| rs_node num sz j js ts hs num' sz' z :
    jkey MT_LINKS j = JArray js → 0 < ToInt (jkey MT_LINKS_NUM j) →
    resealed_all path (num, 0) (take (Z.to_nat (ToInt (jkey MT_LINKS_NUM j))) js) ts (num', sz') →
    Forall2 (λ t c, c_hash (mt_hash t) = Ok c) ts hs →
    resealed path (num, sz) j (MTree (hexstring_safe (sha256 (concat hs))) z ts) (num', u64 (sz + sz'))
with resealed_all (path : bytes) : Z * Z → list json → list MerkleTree → Z * Z → Prop :=
| rs_nil a : resealed_all path a [] [] a
| rs_snoc a js ts b j t c :
    resealed_all path a js ts b → resealed path b j t c →
    resealed_all path a (js ++ [j]) (ts ++ [t]) c.

Definition counts (s : seal_state) : Z * Z := (se_num s, se_size s).

(** A finished node: a valid tree under what its JSON now says, and what sealing
    made of the tree there was *)
Definition sealed_ok (path : bytes) (a : Z * Z) (j : json) (r : crust_status * seal_state) : Prop :=
  r.1 = CRUST_SUCCESS →
  ∃ t, tree_of (se_json r.2) t ∧ mtree_valid t ∧ resealed path a j t (counts r.2).

Lemma wp_mrsigner src Q (e : enclave W) :
  (∀ st sealed size e', wl e' = wl e → (st = CRUST_SUCCESS → sealed_from src sealed size) →
     Q (st, sealed, size) e') →
  wp (seal_data_mrsigner src) Q e.
Proof.
  intros H. unfold seal_data_mrsigner, Sgx_seal_data. cbv zeta.
  apply wp_bind, wp_enc_malloc. intros [|]; cbn [negb]; [|apply wp_undefined].
  do 2 apply wp_bind. apply wp_enc_malloc. intros [|]; cbn [negb].
  - apply wp_host. destruct (sgx_seal_data src (world e)) as [[st sealed] w] eqn:E. cbn [fst snd].
    destruct (sgx_ok st) eqn:Est; apply wp_ret, H; try done. intros _. split; [|done].
    exists (world e). rewrite E. cbn. by destruct st.
  - apply wp_ret. cbn [fst sgx_ok]. by apply wp_ret, H.
Qed.

(** A leaf is left as it was, or its block is exchanged and it gets the new hash;
    the workload stays. *)
Lemma wp_seal_leaf path s Q (e : enclave W) :
  (∀ st s' e', wl e' = wl e →
     s' = s ∨
     (∃ data size, let h' := hexstring_safe data in
        exchanged path (se_num s) (se_json s) h' size ∧
        se_json s' = jkey_set MT_HASH (JString h') (se_json s) ∧
        counts s' = (u64 (se_num s + 1), u64 (se_size s + size))) → Q (st, s') e') →
  wp (seal_leaf path s) Q e.
Proof.
  intros H. unfold seal_leaf. cbv zeta. apply wp_bind, wp_host.
  destruct (ocall_get_storage_file _ (world e)) as [[st o] w] eqn:Eget. cbn [fst snd].
  set (e1 := with_world w e). assert (wl e1 = wl e) as He1 by done. clearbody e1.
  assert (∀ st e3, wl e3 = wl e1 → wp (mret (st, s)) Q e3) as Hs
    by (intros st' e3 He3; apply wp_ret, H; [congruence|by left]).
  destruct st; try by apply Hs. destruct o as [data|]; [|by apply Hs].
  destruct (Z.eqb_spec (ToInt (jkey MT_SIZE (se_json s))) (zlen data)) as [Hsz|]; cbn [negb]; [|by apply Hs].
  apply wp_bind, wp_enc_malloc. intros [|]; cbn [negb]; [|by apply Hs].
  destruct (hex_string_to_bytes _) as [p|] eqn:Ep; [|by apply Hs].
  apply wp_bind, wp_of_res; [unfold same_hash; by destruct (_ <? _)|]. intros b Hb.
  destruct b; cbn [negb]; [|by apply Hs].
  assert (take 32 p = sha256 data) as Hp.
  { unfold same_hash in Hb. destruct (_ <? _); [done|]. injection Hb as Hb. by apply bool_decide_eq_true in Hb. }
  apply wp_bind, wp_mrsigner. intros st sealed size e2 He2 Hseal.
  destruct (is_success st) eqn:Est; cbn [negb]; [|by apply Hs].
  apply is_success_true, Hseal in Est.
  apply wp_bind, wp_host. destruct (is_success _) eqn:Erep; cbn [negb]; [|by apply Hs].
  apply is_success_true in Erep. apply wp_ret, H; [cbn; congruence|]. right.
  exists (sha256 sealed), size. split_and!; [|done..].
  exists data, p, sealed. split_and!; try done; eexists; [by rewrite Eget|exact Erep].
Qed.

(** The children from index [i] on *)
Lemma wp_seal_links path rec n links_num js K k i s sub ts hs a Q (e : enclave W) :
  (∀ i' x tree size num e0 Q0, js !! i' = Some x → (i' < K)%nat →
     (∀ r e1, wl e1 = wl e0 → sealed_ok path (num, size) x r → Q0 r e1) →
     wp (rec (Seal x tree size num)) Q0 e0) →
  (i + k <= K)%nat → (K <= List.length js)%nat →
  (∃ js1, jkey MT_LINKS (se_json s) = JArray (js1 ++ drop i js) ∧ List.length js1 = i ∧
     Forall2 (λ x t, tree_of x t ∧ mtree_valid t) js1 ts) →
  jkey MT_LINKS_NUM (se_json s) = links_num →
  Forall2 (λ t h, c_hash (mt_hash t) = Ok h) ts hs → sub = concat hs →
  resealed_all path a (take i js) ts (counts s) →
  (∀ st c sub' e', wl e' = wl e →
     (st = CRUST_SUCCESS → ∃ js' ts' hs', jkey MT_LINKS (se_json c) = JArray js' ∧
        List.length js' = List.length js ∧
        Forall2 (λ x t, tree_of x t ∧ mtree_valid t) (take (i + k) js') ts' ∧
        Forall2 (λ t h, c_hash (mt_hash t) = Ok h) ts' hs' ∧
        jkey MT_LINKS_NUM (se_json c) = links_num ∧ sub' = concat hs' ∧
        resealed_all path a (take (i + k) js) ts' (counts c)) →
     Q (st, c, sub') e') →
  wp (seal_links rec n (seq i k) s sub) Q e.
Proof.
  intros Hrec. revert i s sub ts hs e. induction k as [|k IH];
    intros i s sub ts hs e Hi Hjs (js1 & Hl & Hl1 & Hf) Hnum Hhs Hsub Hre HQ; cbn [seq seal_links].
  - apply wp_ret, HQ; [done|]. intros _. exists (js1 ++ drop i js), ts, hs. rewrite Nat.add_0_r.
    split_and!; try done.
    + rewrite length_app, length_drop. lia.
    + rewrite take_app_length'; done.
  - destruct (lookup_lt_is_Some_2 js i ltac:(lia)) as [x Hx].
    assert (jidx i (jkey MT_LINKS (se_json s)) = x) as Hxi.
    { rewrite Hl. unfold jidx. cbn [as_array]. rewrite nth_lookup, lookup_app_r by lia.
      rewrite Hl1, Nat.sub_diag, lookup_drop, Nat.add_0_r. by rewrite Hx. }
    rewrite Hxi. apply wp_bind, (Hrec i); [done|lia|].
    intros [st c] e1 He1 Hok. destruct (is_success st) eqn:Est; cbn [negb];
      [|apply wp_ret, HQ; [done|]; intros ->; done].
    apply is_success_true in Est as ->. destruct (Hok eq_refl) as (t & Ht & Hv & Hrs). cbn [snd] in Ht, Hrs.
    apply wp_bind, wp_of_res; [unfold c_hash; by destruct (_ <? _)|]. intros h Hh.
    assert (<[i := se_json c]> (js1 ++ drop i js) = (js1 ++ [se_json c]) ++ drop (S i) js) as Eins.
    { rewrite (drop_S js x i Hx), insert_app_r_alt by lia. rewrite Hl1, Nat.sub_diag. cbn.
      by rewrite <- app_assoc. }
    apply (IH (S i) _ _ (ts ++ [t]) (hs ++ [h])); cbn [se_json]; [lia|done| | | | | |].
    + exists (js1 ++ [se_json c]). rewrite jkey_set_eq, Hl, jidx_set_in, Eins.
      * split; [done|]. split; [rewrite length_app; cbn; lia|].
        apply Forall2_app; [done|]. by constructor.
      * rewrite length_app, length_drop. lia.
    + by rewrite jkey_set_ne by done.
    + apply Forall2_app; [done|]. constructor; [|done]. by rewrite (tree_of_hash _ _ Ht).
    + rewrite Hsub, concat_app. cbn. by rewrite app_nil_r.
    + rewrite (take_S_r _ _ _ Hx). by eapply rs_snoc.
    + intros st c' sub' e' He' Hst. apply HQ; [congruence|].
      by replace (i + S k)%nat with (S i + k)%nat by lia.
Qed.

(** The root of a sealed tree, over its sealed children *)
Lemma sealed_node j js' n ts' hs' :
  jkey MT_LINKS j = JArray js' → ToInt (jkey MT_LINKS_NUM j) = n → n = i32 (zlen js') → 0 < n →
  Forall2 (λ x t, tree_of x t ∧ mtree_valid t) (take (Z.to_nat n) js') ts' →
  Forall2 (λ t h, c_hash (mt_hash t) = Ok h) ts' hs' →
  let j' := jkey_set MT_HASH (JString (hexstring_safe (sha256 (concat hs')))) j in
  let t := MTree (hexstring_safe (sha256 (concat hs'))) 0 ts' in
  tree_of j' t ∧ mtree_valid t.
Proof.
  intros Hl Hn Hn' Hpos Hf Hhs j' t.
  assert (ToString (jkey MT_HASH j') = hexstring_safe (sha256 (concat hs'))) as Eh.
  { unfold j'. rewrite jkey_set_eq. cbn [ToString]. apply hex_escape. }
  unfold t. rewrite <- Eh. split.
  - apply (to_node j' 0 js' n ts'); unfold j'; try rewrite jkey_set_ne by done; try done.
    eapply Forall2_impl; [exact Hf|]. by intros ?? [].
  - pose proof (i32_le (zlen js') (zlen_nonneg js')).
    apply (mv_node _ _ _ hs').
    + intros ->. apply Forall2_length in Hf. cbn in Hf. rewrite length_take in Hf.
      unfold zlen in *. lia.
    + apply Forall_forall. intros x Hx. apply list_elem_of_lookup in Hx as [i Hi].
      by destruct (Forall2_lookup_r _ _ _ _ _ Hf Hi) as (? & _ & _ & ?).
    + done.
    + rewrite Eh. apply c_hash_hex, sha256_length.
Qed.

Lemma sealed_leaf path s s' :
  ToInt (jkey MT_LINKS_NUM (se_json s)) = 0 →
  s' = s ∨
  (∃ data size, let h' := hexstring_safe data in
     exchanged path (se_num s) (se_json s) h' size ∧
     se_json s' = jkey_set MT_HASH (JString h') (se_json s) ∧
     counts s' = (u64 (se_num s + 1), u64 (se_size s + size))) →
  ∃ t, tree_of (se_json s') t ∧ mtree_valid t ∧ resealed path (counts s) (se_json s) t (counts s').
Proof.
  intros H0 [->|(data & size & Hex & Hj & ->)].
  - exists (MTree (ToString (jkey MT_HASH (se_json s))) 0 []). by split_and!; constructor.
  - exists (MTree (hexstring_safe data) 0 []). rewrite Hj. split_and!; [|constructor|by constructor].
    replace (hexstring_safe data) with
      (ToString (jkey MT_HASH (jkey_set MT_HASH (JString (hexstring_safe data)) (se_json s)))) at 2.
    + apply to_leaf. by rewrite jkey_set_ne.
    + rewrite jkey_set_eq. apply hex_escape.
Qed.

Lemma wp_storage_seal fuel path s t0 Q (e : enclave W) :
  (json_height (se_json s) < fuel)%nat → tree_of (se_json s) t0 → mtree_valid t0 →
  (∀ r e', wl e' = wl e → sealed_ok path (counts s) (se_json s) r → Q r e') →
  wp (_storage_seal_file fuel path s) Q e.
Proof.
  revert s t0 Q e. induction fuel as [|fuel IH]; [lia|]. intros s t0 Q e Hf Ht Hv HQ.
  cbn [_storage_seal_file]. destruct (Z.eqb_spec (json_size (se_json s)) 0) as [Hs0|_].
  { apply wp_ret, HQ; [done|]. intros _. exists t0. split_and!; try done.
    by apply rs_empty. }
  destruct (Z.eqb_spec (ToInt (jkey MT_LINKS_NUM (se_json s))) 0) as [H0|H0].
  { apply wp_seal_leaf. intros st s' e' He' Hs'. apply HQ; [done|]. intros _.
    apply (sealed_leaf _ s); auto. }
  inversion Ht as [? ? Hz|? ? js n ts Hl Hn Hn' Hpos Hts]; subst; [done|].
  remember (ToInt (jkey MT_LINKS_NUM (se_json s))) as n eqn:En.
  pose proof (i32_le (zlen js) (zlen_nonneg js)) as Hle.
  assert (Forall mtree_valid ts) as Hvs.
  { inversion Hv; subst; [|done]. constructor. }
  apply wp_bind, wp_enc_malloc. intros [|]; cbn [negb]; [|by apply wp_ret, HQ].
  apply wp_bind. apply (wp_seal_links path _ _ (jkey MT_LINKS_NUM (se_json s)) js
    (Z.to_nat n) (Z.to_nat n) 0 _ _ [] [] (se_num s, 0)).
  - intros i x tree size2 num e0 Q0 Hx Hi HQ0.
    assert (take (Z.to_nat n) js !! i = Some x) as Hx' by by rewrite lookup_take_lt.
    destruct (Forall2_lookup_l _ _ _ _ _ Hts Hx') as (t & Ht' & Hxt).
    apply (IH _ t); [|done| |done]; cbn [se_json].
    + pose proof (height_elem x js ltac:(by eapply list_elem_of_lookup_2)).
      pose proof (height_jkey MT_LINKS (se_json s)) as Hh. rewrite Hl in Hh. lia.
    + rewrite Forall_forall in Hvs. apply Hvs. by eapply list_elem_of_lookup_2.
  - done.
  - unfold zlen in *. lia.
  - exists []. by split_and!; [|done|constructor].
  - done.
  - constructor.
  - done.
  - constructor.
  - intros st c sub' e' He' Hst. destruct (is_success st) eqn:Est; cbn [negb].
    2: { apply wp_ret, HQ; [done|]. by intros [= ->]. }
    apply is_success_true in Est as ->.
    destruct (Hst eq_refl) as (js' & ts' & hs' & Hl' & Hlen & Hf' & Hhs' & Hnum & -> & Hre).
    apply wp_ret, HQ; [done|]. intros _. cbn [snd se_json].
    destruct (sealed_node (se_json c) js' n ts' hs') as [Ht' Hv']; try done.
    + by rewrite Hnum.
    + unfold zlen. by rewrite Hlen.
    + eexists. split_and!; [exact Ht'|exact Hv'|]. cbn [Nat.add] in Hre.
      rewrite En in Hre. unfold counts in *. cbn [se_num se_size].
      apply (rs_node _ _ _ _ js); try done. lia.
Qed.
End seal.

(** ** Sealing a file *)

(** The entry that joins the new files *)
Definition sealed_entry (t0 t : MerkleTree) (osize num size : Z) (f : json) : Prop :=
  (∃ u u0, hex_string_to_bytes (mt_hash t) = Some u ∧ hex_string_to_bytes (mt_hash t0) = Some u0 ∧
     jkey FILE_HASH f = JHash (take 32 u) ∧ jkey FILE_OLD_HASH f = JHash (take 32 u0)) ∧
  jkey FILE_STATUS f = JString [FILE_STATUS_UNCONFIRMED; "0"%char; "0"%char] ∧
  jkey FILE_OLD_SIZE f = jint osize ∧ jkey FILE_SIZE f = jint size ∧ jkey FILE_BLOCK_NUM f = jint num.

Section storage_props.
Context {W : Type} `{!Host W} `{!HostLaws W}.

(** What [storage_seal_file] does to the workload, by its status *)
Definition seal_effect (p_tree path : bytes) (w : workload) (r : crust_status * bytes) (w' : workload) : Prop :=
  (r.1 ≠ CRUST_SUCCESS → w' = w) ∧
  (r.1 = CRUST_SUCCESS →
     zlen (checked_files w) + zlen (new_files w) < FILE_NUMBER_UPPER_LIMIT ∧
     ∃ j t0 t num size f, Load Text p_tree = Ok j ∧ tree_of j t0 ∧ mtree_valid t0 ∧
       resealed path (0, 0) j t (num, size) ∧ mtree_valid t ∧
       sealed_entry t0 t (ToInt (jkey MT_SIZE j)) num size f ∧
       w' = set_wl_spec FILE_STATUS_UNCONFIRMED (i64 (ToInt (jkey MT_SIZE j))) (add_new_file f w)).

Lemma wp_storage_seal_file p_tree path Q (e : enclave W) :
  (∀ r e', seal_effect p_tree path (wl e) r (wl e') → Q r e') →
  wp (storage_seal_file p_tree path) Q e.
Proof.
  intros HQ. unfold storage_seal_file. apply wp_bind, wp_get_wl. cbv beta.
  assert (∀ st np e', st ≠ CRUST_SUCCESS → wl e' = wl e → wp (mret (st, np)) Q e') as Hend.
  { intros st np e' Hst He'. apply wp_ret, HQ. split; [by intros _|]. by intros. }
  destruct (Z.leb_spec FILE_NUMBER_UPPER_LIMIT (zlen (checked_files (id (wl e))) + zlen (new_files (id (wl e)))))
    as [|Hlim]; [by apply Hend|].
  apply wp_bind, wp_of_res; [apply load_not_nofuel|]. intros j Hj.
  destruct (_ =? 0); [by apply Hend|]. apply wp_bind, (wp_gets id), wp_bind, wp_of_res.
  { apply validate_json_not_nofuel. lia. }
  intros st Hst. destruct (is_success st) eqn:Est; cbn [negb].
  2: { apply Hend; [|done]. by intros ->. }
  apply is_success_true in Est as ->. apply validate_json_sound in Hst as (t0 & Ht0 & Hv0).
  cbv zeta. apply wp_bind, (wp_storage_seal _ _ _ t0); [cbn; lia|done..|].
  intros [st s] e1 He1 Hok. destruct (is_success st) eqn:Est; cbn [negb].
  2: { apply Hend; [by intros ->|done]. }
  apply is_success_true in Est as ->. destruct (Hok eq_refl) as (t & Ht & Hv & Hre). cbn [snd] in Ht, Hre.
  apply wp_bind, wp_host. destruct (ocall_rename_dir _ _ _) as [st w]. cbn [fst snd].
  destruct (is_success st) eqn:Est; cbn [negb].
  2: { apply Hend; [by intros ->|done]. }
  clear Est. apply wp_bind, wp_host_. set (e2 := with_world _ _).
  assert (wl e2 = wl e) as He2 by done. clearbody e2.
  destruct (hex_string_to_bytes (ToString (jkey MT_HASH (se_json s)))) as [u|] eqn:Eu; [|by apply Hend].
  destruct (hex_string_to_bytes (ToString (jkey MT_HASH j))) as [u0|] eqn:Eu0; [|by apply Hend].
  assert (∀ p, hash_value p ≠ NoFuel) as Hh by (intros p; unfold hash_value; by destruct (_ <? _)).
  assert (∀ p h, hash_value p = Ok h → h = JHash (take 32 p)) as Hj'.
  { intros p h. unfold hash_value. destruct (_ <? _); by intros [= <-]. }
  apply wp_bind, wp_of_res; [apply Hh|]. intros h E%Hj'. subst h.
  apply wp_bind, wp_of_res; [apply Hh|]. intros h0 E0%Hj'. subst h0.
  set (f := jkey_set FILE_STATUS _ _).
  assert (sealed_entry t0 t (ToInt (jkey MT_SIZE j)) (se_num s) (se_size s) f) as Hf.
  { unfold sealed_entry.
    rewrite (tree_of_hash _ _ Ht0), (tree_of_hash _ _ Ht). split_and!.
    - exists u, u0. unfold f. by rewrite !jkey_set_ne, !jkey_set_eq by done.
    - unfold f. by rewrite jkey_set_eq.
    - unfold f. by rewrite !jkey_set_ne, jkey_set_eq by done.
    - unfold f. by rewrite !jkey_set_ne, jkey_set_eq by done.
    - unfold f. by rewrite !jkey_set_ne, jkey_set_eq by done. }
  clearbody f. apply wp_bind, (wp_outside (λ _, True)); [apply outside_persist_set_unsafe, _|done|].
  intros st1 w1 _. destruct (is_success st1) eqn:Est; cbn [negb].
  2: { apply Hend; [by intros ->|done]. }
  apply wp_bind, (wp_outside (λ _, True)); [apply outside_persist_set_unsafe, _|done|].
  intros st2 w2 _. destruct (is_success st2) eqn:Est'; cbn [negb].
  2: { apply Hend; [by intros ->|done]. }
  apply wp_bind, wp_on_wl, wp_bind, wp_on_wl, wp_ret, HQ. split; [by intros []|]. intros _.
  split; [done|]. exists j, t0, t, (se_num s), (se_size s), f. split_and!; try done.
  destruct Hf as (_ & _ & -> & _). cbn [wl with_wl with_world]. by rewrite He2.
Qed.
End storage_props.

(** ** Unsealing *)
Section unseal.
Context {W : Type} `{!Host W} (P : W → Prop) `{!DbKeeps P}.
Hypothesis keeps_file : ∀ p, keeps P (ocall_get_storage_file p).
Hypothesis keeps_rename : ∀ a b, keeps P (ocall_rename_dir a b).
(** [P] survives a file written outside when it is not private. *)
Hypothesis keeps_replace : ∀ old new data,
  ¬ SWORKER_PRIVATE_TAG `prefix_of` data → keeps P (ocall_replace_file old new data).
#[local] Hint Resolve keeps_file keeps_rename keeps_replace : sworker.

Lemma tag_checked (data pad : bytes) :
  take (List.length SWORKER_PRIVATE_TAG) (data ++ pad) ≠ SWORKER_PRIVATE_TAG →
  ¬ SWORKER_PRIVATE_TAG `prefix_of` data.
Proof. intros H [rest ->]. apply H. by rewrite <- app_assoc, take_app_length. Qed.

Lemma outside_unseal_block dir file len : outside P (unseal_block dir file len).
Proof.
  unfold unseal_block. cbv zeta. outside.
  match goal with H : bool_decide _ = false |- _ => apply bool_decide_eq_false in H end.
  apply outside_host, keeps_replace. by eapply tag_checked.
Qed.
#[local] Hint Resolve outside_unseal_block : sworker.
Lemma outside_unseal_blocks dir files len : outside P (unseal_blocks dir files len).
Proof. revert len. induction files as [|f files IH]; intros; cbn [unseal_blocks]; outside. Qed.
#[local] Hint Resolve outside_unseal_blocks : sworker.
Lemma outside_unseal_file files dir : outside P (storage_unseal_file files dir).
Proof. unfold storage_unseal_file. cbv zeta. outside. Qed.
End unseal.

(** ** Searching from either end *)
Section search.
Implicit Types (p : json → bool) (f : json → json) (l : list json).

Lemma update_first_spec p f l :
  match update_first p f l with
  | Some (l', y) => ∃ l1 x l2, l = l1 ++ x :: l2 ∧ l' = l1 ++ f x :: l2 ∧ y = f x ∧ p x = true ∧
                      Forall (λ z, p z = false) l1
  | None => Forall (λ z, p z = false) l
  end.
Proof.
  induction l as [|x l IH]; cbn [update_first]; [constructor|]. destruct (p x) eqn:Ep.
  - exists [], x, l. by split_and!; [..|constructor].
  - destruct (update_first p f l) as [[l' y]|].
    + destruct IH as (l1 & z & l2 & -> & -> & -> & Hz & Hf). exists (x :: l1), z, l2.
      split_and!; try done. by constructor.
    + by constructor.
Qed.

Lemma update_last_spec p f l :
  match update_last p f l with
  | Some (l', y) => ∃ l1 x l2, l = l1 ++ x :: l2 ∧ l' = l1 ++ f x :: l2 ∧ y = f x ∧ p x = true ∧
                      Forall (λ z, p z = false) l2
  | None => Forall (λ z, p z = false) l
  end.
Proof.
  unfold update_last. pose proof (update_first_spec p f (rev l)) as H.
  destruct (update_first p f (rev l)) as [[l' y]|].
  - destruct H as (l1 & x & l2 & Hl & -> & -> & Hx & Hf). exists (rev l2), x, (rev l1).
    split_and!; [| |done..|by apply Forall_rev].
    + rewrite <- (rev_involutive l), Hl, rev_app_distr. cbn. by rewrite <- app_assoc.
    + rewrite rev_app_distr. cbn. by rewrite <- app_assoc.
  - apply Forall_rev in H. by rewrite rev_involutive in H.
Qed.

Lemma remove_last_spec p l :
  match remove_last p l with
  | Some (l', x) => ∃ l1 l2, l = l1 ++ x :: l2 ∧ l' = l1 ++ l2 ∧ p x = true ∧ Forall (λ z, p z = false) l2
  | None => Forall (λ z, p z = false) l
  end.
Proof.
  induction l as [|x l IH]; cbn [remove_last]; [constructor|].
  destruct (remove_last p l) as [[l' y]|].
  - destruct IH as (l1 & l2 & -> & -> & Hy & Hf). by exists (x :: l1), l2.
  - destruct (p x) eqn:Ep; [|by constructor]. by exists [], l.
Qed.
End search.

(** The status character of a file after [set_cur], and what it leaves alone *)
Definition has_status (f : json) : Prop := ∃ s, jkey FILE_STATUS f = JString s ∧ s ≠ [].
Lemma cur_set_cur c f : has_status f → cur (set_cur c f) = c.
Proof.
  intros (s & Hs & Hne). unfold set_cur, cur, jkey_update. rewrite jkey_set_eq, Hs.
  destruct s as [|a s]; [done|]. by cbn.
Qed.
Lemma set_cur_other c f k : k ≠ FILE_STATUS → jkey k (set_cur c f) = jkey k f.
Proof. intros Hk. unfold set_cur, jkey_update. by rewrite jkey_set_ne. Qed.
Lemma has_hash_set_cur hash c f : has_hash hash (set_cur c f) = has_hash hash f.
Proof. unfold has_hash. by rewrite set_cur_other. Qed.
Lemma old_size_set_cur c f : old_size (set_cur c f) = old_size f.
Proof. unfold old_size. by rewrite set_cur_other. Qed.

Definition delete_effect (hash : bytes) (w : workload) (f : json) (w' : workload) : Prop :=
  has_hash hash f = true ∧
  ((∃ l1 l2, checked_files w = l1 ++ f :: l2 ∧ Forall (λ f, has_hash hash f = false) l1 ∧
      w' = with_checked_files (l1 ++ set_cur FILE_STATUS_DELETED f :: l2) w) ∨
   (Forall (λ f, has_hash hash f = false) (checked_files w) ∧
    ∃ l1 l2, new_files w = l1 ++ f :: l2 ∧ Forall (λ f, has_hash hash f = false) l2 ∧
      w' = with_new_files (l1 ++ l2) w)).

Lemma delete_entry_spec hash w :
  match delete_entry hash w with
  | Some (w', f) => delete_effect hash w f w'
  | None => Forall (λ f, has_hash hash f = false) (checked_files w ++ new_files w)
  end.
Proof.
  unfold delete_entry, delete_effect. destruct (list_find _ _) as [[i f]|] eqn:Ef.
  - apply list_find_Some in Ef as (Hi & Hf & Hl). split; [done|]. left.
    exists (take i (checked_files w)), (drop (S i) (checked_files w)). split_and!.
    + symmetry. by apply take_drop_middle.
    + apply Forall_lookup_2. intros j x Hx. apply lookup_take_Some in Hx as [Hx Hj].
      apply not_true_is_false. by eapply Hl.
    + f_equal. rewrite <- (take_drop_middle _ _ _ Hi) at 1.
      assert (List.length (take i (checked_files w)) = i) as Hlen.
      { apply lookup_lt_Some in Hi. rewrite length_take. lia. }
      rewrite <- Hlen at 1. rewrite alter_app_r_alt by lia. by rewrite Nat.sub_diag.
  - assert (Forall (λ f, has_hash hash f = false) (checked_files w)) as Hc.
    { apply list_find_None in Ef. eapply Forall_impl; [exact Ef|]. intros x. apply not_true_is_false. }
    pose proof (remove_last_spec (has_hash hash) (new_files w)) as Hn.
    destruct (remove_last _ _) as [[l f]|]; [|by apply Forall_app].
    destruct Hn as (l1 & l2 & Hl & -> & Hf & Hl2). split; [done|]. right. split; [done|].
    by exists l1, l2.
Qed.

(** ** Properties *)
Section properties.
Context {W : Type} `{!Host W}.


(** C22: unsealing never writes a private block outside.  Any property of the world
    that survives reading, renaming, and writing data that does not start with
    the private tag, survives unsealing, and the enclave's state is unchanged. *)
Theorem unseal_confined (P : W → Prop) files dir (e : enclave W) r e' :
  DbKeeps P → (∀ p, keeps P (ocall_get_storage_file p)) → (∀ a b, keeps P (ocall_rename_dir a b)) →
  (∀ old new data, ¬ SWORKER_PRIVATE_TAG `prefix_of` data → keeps P (ocall_replace_file old new data)) →
  P (world e) → storage_unseal_file files dir e = Ok (r, e') →
  P (world e') ∧ e' = with_world (world e') e.
Proof.
  intros Hdb Hf Hr Hw He Hrun. pose proof (outside_unseal_file P Hf Hr Hw files dir e He) as H.
  unfold wp in H. rewrite Hrun in H. by destruct H as [[w ->] H].
Qed.

(** Confirming a hash looks for the last such file among the checked ones, then
    for the last unconfirmed one among the new ones; only that file's status
    changes, and only from unconfirmed to valid; the unconfirmed counter then
    moves to the valid one.  Without such a file nothing changes. *)
Theorem storage_confirm_spec hash w :
  let unconfirmed f := has_hash hash f = true ∧ cur f = FILE_STATUS_UNCONFIRMED in
  let '(st, w') := storage_confirm_file hash w in
  st = CRUST_SUCCESS ∧
  ((∃ l1 f l2, checked_files w = l1 ++ f :: l2 ∧ has_hash hash f = true ∧
      Forall (λ f, has_hash hash f = false) l2 ∧
      w' = set_wl_spec2 FILE_STATUS_VALID FILE_STATUS_UNCONFIRMED (old_size f)
             (with_checked_files (l1 ++ (if decide (cur f = FILE_STATUS_UNCONFIRMED)
                                         then set_cur FILE_STATUS_VALID f else f) :: l2) w)) ∨
   (Forall (λ f, has_hash hash f = false) (checked_files w) ∧
    ∃ l1 f l2, new_files w = l1 ++ f :: l2 ∧ unconfirmed f ∧ Forall (λ f, ¬ unconfirmed f) l2 ∧
      w' = set_wl_spec2 FILE_STATUS_VALID FILE_STATUS_UNCONFIRMED (old_size f)
             (with_new_files (l1 ++ set_cur FILE_STATUS_VALID f :: l2) w)) ∨
   (Forall (λ f, has_hash hash f = false) (checked_files w) ∧
    Forall (λ f, ¬ unconfirmed f) (new_files w) ∧ w' = w)).
Proof.
  intros unconfirmed. unfold storage_confirm_file. split; [done|].
  assert (∀ f, has_hash hash f && bool_decide (cur f = FILE_STATUS_UNCONFIRMED) = false → ¬ unconfirmed f) as Hno.
  { intros f Hf [H1 H2]. rewrite H1, bool_decide_eq_true_2 in Hf; done. }
  pose proof (update_last_spec (has_hash hash) confirm_file (checked_files w)) as Hc.
  destruct (update_last _ confirm_file _) as [[l y]|].
  - left. destruct Hc as (l1 & f & l2 & Hl & -> & -> & Hf & Hl2). exists l1, f, l2. split_and!; try done.
    unfold confirm_file. destruct (bool_decide_reflect (cur f = FILE_STATUS_UNCONFIRMED)).
    + by rewrite decide_True, old_size_set_cur.
    + by rewrite decide_False.
  - right. pose proof (update_last_spec (λ f, has_hash hash f && bool_decide (cur f = FILE_STATUS_UNCONFIRMED))
      (set_cur FILE_STATUS_VALID) (new_files w)) as Hn.
    destruct (update_last _ _ (new_files w)) as [[l y]|].
    + left. split; [done|]. destruct Hn as (l1 & f & l2 & Hl & -> & -> & Hf & Hl2). exists l1, f, l2.
      apply andb_true_iff in Hf as [Hf1 Hf2%bool_decide_eq_true]. rewrite old_size_set_cur.
      split_and!; try done. eapply Forall_impl; [exact Hl2|]. exact Hno.
    + right. split_and!; try done. eapply Forall_impl; [exact Hn|]. exact Hno.
Qed.

(** Deleting a hash marks the first such checked file deleted, or else drops the
    last such new file; its tree and metadata leave the database, which is
    otherwise unchanged, and its size leaves the counter of the status it had.
    Without such a file nothing changes.  The call always returns success, and what
    is said of the database supposes that its deletions succeed. *)
Theorem storage_delete_spec `{!DbLaws W} `{!DbHealthy W} hash (e : enclave W) :
  twp (storage_delete_file hash) (λ st e', st = CRUST_SUCCESS ∧
    ((Forall (λ f, has_hash hash f = false) (checked_files (wl e) ++ new_files (wl e)) ∧ e' = e) ∨
     ∃ f w', delete_effect hash (wl e) f w' ∧ wl e' = set_wl_spec (cur f) (- old_size f) w' ∧
       ∀ k, db (world e') k =
         if decide (k = hash ∨ k = hash ++ str "_meta") then None else db (world e) k)) e.
Proof.
  unfold storage_delete_file. twp_step. unfold get_wl. twp_step.
  pose proof (delete_entry_spec hash (wl e)) as H. unfold id.
  destruct (delete_entry hash (wl e)) as [[w' f]|].
  2: { twp_step. split; [done|]. by left. }
  unfold persist_del, host, on_wl. repeat twp_step. split; [done|]. right. exists f, w'.
  split_and!; [done..|]. intros k. destruct H as [Hf _].
  unfold has_hash in Hf. apply bool_decide_eq_true in Hf. rewrite Hf. cbn [world with_world with_wl].
  rewrite !db_del_healthy. repeat case_decide; naive_solver.
Qed.
End properties.

(** ** Concrete runs *)

(** A file of one block under one root; in the demo world the hash of a hash is
    itself. *)
Definition demo_block : bytes := replicate 40 "x"%char.
Definition demo_root : bytes := hexstring_safe (demo_sha256 demo_block).
Definition demo_tree (hash : bytes) (size : Z) : bytes :=
  str "{" ++ quote MT_LINKS ++ str ": [" ++ leaf_text 0 hash size ++ node_end 1 hash size.
Definition demo_storage (block : bytes) : enclave demo :=
  with_world (DemoW [] [(str "/d/" ++ demo_root ++ str "/0_" ++ demo_root, block)] [] []) demo_enclave.


Lemma map_set_values {V} (P : bytes * V → Prop) k v m : P (k, v) → Forall P m → Forall P (map_set k v m).
Proof.
  intros Hp Hm. induction Hm as [|[k' v'] m Hx Hm IH]; cbn [map_set]; [by constructor|].
  destruct (bytes_cmp k k'); repeat (constructor || done).
Qed.
Lemma map_erase_values {V} (P : bytes * V → Prop) k m : Forall P m → Forall P (map_erase k m).
Proof.
  intros Hm. induction Hm as [|[k' v'] m Hx Hm IH]; cbn [map_erase]; [by constructor|].
  case_match; repeat (constructor || done).
Qed.

(** A sealed directory with a plain and a private block: the plain one is written
    out, the private one stops the call. *)
Definition released (w : demo) : Prop :=
  Forall (λ p, demo_unseal p.2 ≠ None ∨ ¬ SWORKER_PRIVATE_TAG `prefix_of` p.2) (d_files w).
Definition demo_unseal_world : demo :=
  DemoW [(str "R_meta", str "{" ++ quote FILE_OLD_HASH ++ str ":" ++ quote (str "O") ++ str "}")]
    [(str "/d/R/0_a", replicate 30 "y"%char ++ [chr 83]); (str "/d/R/1_b", SWORKER_PRIVATE_TAG ++ [chr 83])] [] [].

Lemma unseal_confined_witness :
  ∃ e', storage_unseal_file [str "0_a"; str "1_b"] (str "/d/R") (with_world demo_unseal_world demo_enclave)
          = Ok ((CRUST_MALWARE_DATA_BLOCK, []), e') ∧ released (world e').
Proof.
  destruct (storage_unseal_file [str "0_a"; str "1_b"] (str "/d/R") (with_world demo_unseal_world demo_enclave))
    as [[[st np] e']| | |] eqn:E; try (vm_compute in E; done).
  assert (st = CRUST_MALWARE_DATA_BLOCK ∧ np = []) as [-> ->] by (vm_compute in E; split; congruence).
  exists e'. split; [reflexivity|].
  refine (proj1 (unseal_confined released _ _ _ _ _ _ _ _ _ _ E)).
  - split; intros; intros w Hw; try exact Hw. cbn. by destruct (map_find k (d_db w)).
  - intros p w Hw. cbn. unfold demo_read. by destruct (map_find p (d_files w)).
  - intros a b w Hw. exact Hw.
  - intros old new data Hd w Hw. cbn. apply map_set_values; [by right|]. by apply map_erase_values.
  - unfold released. cbn [demo_unseal_world world with_world d_files]. rewrite !Forall_cons.
    split_and!; [left; by vm_compute|left; by vm_compute|apply List.Forall_nil].
Defined.

(** Confirming a file that is already valid still moves the counters: the number of
    unconfirmed files becomes negative. *)
Definition demo_confirm_hash : bytes := hexstring_safe (demo_hash "f"%char).
Example storage_confirm_again :
  spec_num FILE_STATUS_UNCONFIRMED demo_files_workload = 0 ∧
  spec_num FILE_STATUS_UNCONFIRMED (storage_confirm_file demo_confirm_hash demo_files_workload).2 = -1.
Proof. by vm_compute. Qed.

(** Deleting a file twice counts it out of the deleted files. *)
Example storage_delete_again :
  match (storage_delete_file demo_confirm_hash;; storage_delete_file demo_confirm_hash)
          (with_wl demo_files_workload demo_enclave) with
  | Ok (_, e) => spec_num FILE_STATUS_DELETED (wl e) = -1
  | _ => False
  end.
Proof. by vm_compute. Qed.

Lemma storage_delete_spec_witness :
  ∃ e', storage_delete_file demo_confirm_hash (with_wl demo_files_workload demo_enclave) = Ok (CRUST_SUCCESS, e') ∧
    db (world e') demo_confirm_hash = None.
Proof.
  pose proof (storage_delete_spec demo_confirm_hash (with_wl demo_files_workload demo_enclave)) as H.
  apply twp_run in H as (st & e' & Hr & -> & H). exists e'. split; [exact Hr|].
  destruct H as [[Hn _]|(f & w' & _ & _ & ->)]; [|by rewrite decide_True by auto].
  apply Forall_app in Hn as [Hn _]. inversion Hn. done.
Defined.
