(* ===== verification/Validator.v ===== *)
(** * Validation (enclave/validator/Validator.cpp)

    From time to time a random sample of the sealed random data and of the files
    is checked against what lies on the disks: bad random data is deleted with a
    punishment, a bad file is lost until it is found again. *)
From stdpp Require Import gmap.
From S2P Require Import Prelude StdMap Status Hex Json JsonParse Host State Demo Merkle Persist Schedule Workload Report Srd Storage.

(** ** [(size_t)(n * 0.02)]

    The double 0.02 is 5764607523034235 / 2 ^ 58.  The product is rounded to 53
    significant bits, half to even, and truncated; [n] itself is exact below
    2 ^ 53. *)
Definition RATE_MANTISSA : Z := 5764607523034235.
Definition round_even (p q : Z) : Z :=
  let d := p / q in
  let r := 2 * (p mod q) in
  if r <? q then d else if q <? r then d + 1 else if Z.even d then d else d + 1.
Definition mul_rate (n : Z) : Z :=
  let p := n * RATE_MANTISSA in
  let ulp := 2 ^ Z.max 0 (Z.log2 p - 52) in
  round_even p ulp * ulp / 2 ^ 58.

(** How much of the random data is checked *)
Definition srd_num_threshold : Z := 3200.
Definition srd_validate_num (srd_total_num : Z) : Z :=
  if srd_num_threshold <=? srd_total_num then mul_rate srd_total_num
  else if srd_total_num <? SRD_VALIDATE_MIN_NUM then srd_total_num
  else SRD_VALIDATE_MIN_NUM.
(** How many files are checked *)
Definition check_file_num (n : Z) : Z :=
  if MEANINGFUL_VALIDATE_MIN_NUM <? n then mul_rate n else n.

(** [std::set<std::pair<uint32_t, uint32_t>>], in order *)
Definition pair_lt (a b : nat * nat) : bool := Nat.ltb a.1 b.1 || (Nat.eqb a.1 b.1 && Nat.ltb a.2 b.2).
Fixpoint pair_insert (p : nat * nat) (s : list (nat * nat)) : list (nat * nat) :=
  match s with
  | [] => [p]
  | q :: s' => if pair_lt p q then p :: s else if pair_lt q p then q :: pair_insert p s' else s
  end.
(** Every entry of every path *)
Definition all_idxs (m : list (bytes * list bytes)) : list (nat * nat) :=
  concat (imap (λ i p, map (λ j, (i, j)) (seq 0 (List.length p.2))) m).

(** ** Searching the text of a tree *)
Definition stag : bytes := quote MT_LINKS_NUM ++ str ":0," ++ quote MT_HASH ++ str ":" ++ [chr 34].
Definition etag : bytes := [chr 34] ++ str "," ++ quote MT_SIZE.
(** [s.find(sub, pos)] *)
Definition find_pos (sub s : bytes) (pos : nat) : option nat := find_from pos sub (drop pos s).
(** [n] more leaves: the position after the last start tag *)
Fixpoint seek (n : nat) (tree_str : bytes) (spos : nat) : option nat :=
  match n with
  | O => Some spos
  | S n =>
      match find_pos stag tree_str spos with
      | None => None
      | Some i => seek n tree_str (i + List.length stag)%nat
      end
  end.

(** What a check of a file finds: intact, not intact, or the storage peer is gone. *)
Inductive verdict := Intact | Broken | Offline.

Section validator.
Context {W : Type} `{!Host W} `{!Threads W}.
Abbreviation M := (M (enclave W)).

(** [sgx_read_rand] of four bytes *)
Definition read_rand_val : M Z := r ← host (sgx_read_rand 4); mret (u32 (le_value r)).

(** ** Random data *)
Definition srd_random_delete (punish_num : Z) (del_indexes : del_map) : M unit :=
  if (punish_num <=? 0) && (zlen del_indexes =? 0) then mret tt
  else srd_decrease punish_num del_indexes;; mret tt.

(** The random choice; a remainder by zero, on a path without entries, is
    undefined. *)
Fixpoint choose_idxs (n : nat) (m : list (bytes * list bytes)) (s : list (nat * nat))
    : M (list (nat * nat)) :=
  match n with
  | O => mret s
  | S n =>
      rand_val ← read_rand_val;
      let path_idx := Z.to_nat (rand_val mod zlen m) in
      match m !! path_idx with
      | None => undefined
      | Some (_, v) =>
          rand_val ← read_rand_val;
          if zlen v =? 0 then undefined
          else choose_idxs n m (pair_insert (path_idx, Z.to_nat (rand_val mod zlen v)) s)
      end
  end.

(** One entry: is it to be deleted?  A failed allocation lets it pass. *)
Definition bad_srd (dir_path p_g_hash : bytes) : M bool :=
  let g_path := dir_path ++ str "/" ++ hexstring_safe (take 32 p_g_hash) in
  r ← host (ocall_get_file (get_m_hashs_file_path g_path));
  match r.2 with
  | None => mret true
  | Some m_hashs =>
      ok ← enc_malloc (zlen m_hashs);
      if negb ok then mret false
      else
        same ← of_res (same_hash p_g_hash (sha256 m_hashs));
        if negb same then mret true
        else
          rand_val ← read_rand_val;
          let srd_block_index := rand_val mod SRD_RAND_DATA_NUM in
          let leaf := drop (Z.to_nat (srd_block_index * 32)) m_hashs in
          if zlen leaf <? HASH_LENGTH then undefined
          else
            r ← host (ocall_get_file (get_leaf_path g_path srd_block_index leaf));
            match r.2 with
            | None => mret true
            | Some leaf_data =>
                same ← of_res (same_hash leaf (sha256 leaf_data));
                mret (negb same)
            end
  end.

(** The entries, skipping those another thread has deleted meanwhile; the bad ones
    are collected by path and index. *)
Fixpoint check_srd (idxs : list (nat * nat)) (del : del_map) : M del_map :=
  match idxs with
  | [] => mret del
  | (i, j) :: idxs =>
      sched_check SCHED_VALIDATE_SRD;;
      m ← get_wl srd_path2hashs_m;
      match (p ← m !! i; h ← p.2 !! j; Some (p.1, h)) with
      | None => check_srd idxs del
      | Some (dir_path, p_g_hash) =>
          bad ← bad_srd dir_path p_g_hash;
          check_srd idxs (if bad : bool then map_set dir_path (set_insert j (map_get [] dir_path del)) del else del)
      end
  end.

Definition validate_srd : M unit :=
  up ← get_wl get_upgrade_status;
  if decide (up = ENC_UPGRADE_STATUS_SUCCESS) then mret tt
  else
    m ← get_wl srd_path2hashs_m;
    let srd_total_num := map_total m in
    let n := srd_validate_num srd_total_num in
    idxs ← (if n <? srd_total_num then choose_idxs (Z.to_nat n) m [] else mret (all_idxs m));
    del ← check_srd idxs [];
    srd_random_delete (i64 (SRD_PUNISH_FACTOR * map_total del)) del.

(** ** Meaningful files *)
Fixpoint choose_files (n : nat) (size : Z) : M (list nat) :=
  match n with
  | O => mret []
  | S n =>
      rand_val ← read_rand_val;
      rest ← choose_files n size;
      mret (Z.to_nat (rand_val mod size) :: rest)
  end.
Fixpoint choose_blocks (n : nat) (file_block_num : Z) (s : list nat) : M (list nat) :=
  match n with
  | O => mret s
  | S n =>
      rand_val ← read_rand_val;
      choose_blocks n file_block_num (set_insert (Z.to_nat (rand_val mod file_block_num)) s)
  end.

(** The blocks of a file, in increasing order *)
Fixpoint check_blocks (root_hash tree_str : bytes) (blocks : list nat) (spos cur_block_idx : nat)
    : M verdict :=
  match blocks with
  | [] => mret Intact
  | check_block_idx :: blocks =>
      let n := S (check_block_idx - cur_block_idx) in
      match (spos ← seek n tree_str spos; epos ← find_pos etag tree_str spos; Some (spos, epos)) with
      | None => mret Broken
      | Some (spos, epos) =>
          let leaf_hash := take (epos - spos) (drop spos tree_str) in
          let block_str := to_string (Z.of_nat check_block_idx) ++ str "_" ++ leaf_hash in
          r ← host (ocall_validate_get_file root_hash block_str);
          let '(st, sealed) := r in
          if negb (is_success st) then
            mret (if decide (st = CRUST_VALIDATE_KARST_OFFLINE) then Offline else Broken)
          else
            match hex_string_to_bytes leaf_hash with
            | None => check_blocks root_hash tree_str blocks spos (cur_block_idx + n)
            | Some leaf_hash_u =>
                same ← of_res (same_hash leaf_hash_u (sha256 sealed));
                if negb same then mret Broken
                else check_blocks root_hash tree_str blocks epos (cur_block_idx + n)
            end
      end
  end.

(** One file *)
Definition check_file (f : json) : M verdict :=
  let root_hash := ToString (jkey FILE_HASH f) in
  let file_block_num := u64 (ToInt (jkey FILE_BLOCK_NUM f)) in
  r ← persist_get_unsafe root_hash;
  match r with
  | (CRUST_SUCCESS, Some tree_str) =>
      tree_json ← of_res (Load Text tree_str);
      if negb (bool_decide (root_hash = ToString (jkey FILE_HASH tree_json))) then mret Broken
      else
        e ← get;
        st ← of_res (validate_merkletree_json (world e) (S (json_height tree_json)) tree_json);
        if negb (is_success st) then mret Broken
        else
          blocks ← choose_blocks (Z.to_nat (Z.min MEANINGFUL_VALIDATE_MIN_BLOCK_NUM file_block_num))
                     file_block_num [];
          check_blocks root_hash tree_str blocks 0 0
  | _ => mret Broken
  end.

(** [changed_idx2lost_um] *)
Abbreviation changes := (gmap nat bool).
Definition set_status (i : nat) (c : ascii) : M unit :=
  on_wl (λ w, with_checked_files (alter (set_cur c) i (checked_files w)) w).

(** The chosen files: [None] when a storage peer was gone. *)
Fixpoint check_files (idxs : list nat) (changed : changes) : M (option changes) :=
  match idxs with
  | [] => mret (Some changed)
  | i :: idxs =>
      sched_check SCHED_VALIDATE_FILE;;
      files ← get_wl checked_files;
      match files !! i with
      | None => check_files idxs changed
      | Some f =>
          if bool_decide (cur f = FILE_STATUS_UNCONFIRMED ∨ cur f = FILE_STATUS_DELETED) then
            check_files idxs changed
          else
            v ← check_file f;
            match v with
            | Offline => mret None
            | Broken =>
                if bool_decide (cur f = FILE_STATUS_VALID) then
                  set_status i FILE_STATUS_LOST;; check_files idxs (<[i := true]> changed)
                else check_files idxs changed
            | Intact =>
                if bool_decide (cur f = FILE_STATUS_LOST) then
                  set_status i FILE_STATUS_VALID;; check_files idxs (<[i := false]> changed)
                else check_files idxs changed
            end
      end
  end.

(** The counters follow; the order of an [unordered_map] is the map's own. *)
Definition record_change (p : nat * bool) : M unit :=
  files ← get_wl checked_files;
  match files !! p.1 with
  | None => undefined
  | Some f =>
      let old := if p.2 : bool then FILE_STATUS_VALID else FILE_STATUS_LOST in
      on_wl (set_wl_spec2 (cur f) old (old_size f))
  end.

Definition validate_meaningful_file : M unit :=
  up ← get_wl get_upgrade_status;
  if decide (up = ENC_UPGRADE_STATUS_SUCCESS) then mret tt
  else
    on_wl (λ w, with_new_files [] (with_checked_files (checked_files w ++ new_files w) w));;
    st ← host ocall_validate_init;
    n ← get_wl (λ w, zlen (checked_files w));
    if negb (is_success st) then
      (if negb (n =? 0) then on_wl (set_report_file_flag false) else mret tt);;
      host_ ocall_validate_close
    else
      idxs ← choose_files (Z.to_nat (check_file_num n)) n;
      changed ← check_files idxs ∅;
      match changed with
      | None => on_wl (set_report_file_flag false);; host_ ocall_validate_close
      | Some changed => for_each (map_to_list changed) record_change;; host_ ocall_validate_close
      end.
End validator.

(** ** The rate *)
Lemma round_even_bounds p q :
  0 < q → 0 <= p → 2 * p - q <= 2 * q * round_even p q <= 2 * p + q.
Proof.
  intros Hq Hp. unfold round_even. pose proof (Z.div_mod p q ltac:(lia)) as Hd.
  pose proof (Z.mod_pos_bound p q Hq). set (d := p / q) in *. set (r := p mod q) in *. clearbody d r.
  destruct (Z.ltb_spec (2 * r) q); [nia|]. destruct (Z.ltb_spec q (2 * r)); [nia|].
  destruct (Z.even d); nia.
Qed.
(** A multiple of [q] below [p] stays below. *)
Lemma round_even_ge p q a : 0 < q → q * a <= p → a <= round_even p q.
Proof.
  intros Hq Ha. unfold round_even. assert (a <= p / q) by (apply Z.div_le_lower_bound; lia).
  repeat case_match; lia.
Qed.

Lemma mul_rate_spec n : 0 <= n < 2 ^ 32 → mul_rate n = n / 50.
Proof.
  intros Hn. unfold mul_rate. set (p := n * RATE_MANTISSA).
  destruct (decide (n = 0)) as [->|Hn0]; [reflexivity|].
  set (e := Z.max 0 (Z.log2 p - 52)). assert (0 <= e) as He by lia.
  assert (0 < p) as Hp by (unfold p, RATE_MANTISSA; lia).
  assert (p < 2 ^ 85) as Hp85 by (unfold p, RATE_MANTISSA; lia).
  assert (Z.log2 p < 85) as Hlog by (apply Z.log2_lt_pow2; lia).
  assert (2 ^ e <= 2 ^ 32) as Hu by (apply Z.pow_le_mono_r; lia).
  assert (0 < 2 ^ e) as Hpos by (apply Z.pow_pos_nonneg; lia).
  assert (2 ^ 58 = 2 ^ e * 2 ^ (58 - e)) as H58 by (rewrite <- Z.pow_add_r by lia; f_equal; lia).
  pose proof (round_even_bounds p (2 ^ e) Hpos ltac:(lia)) as Hb.
  assert (n / 50 * 2 ^ 58 <= p) as Hle by (unfold p, RATE_MANTISSA; divlia).
  assert (n / 50 * 2 ^ (58 - e) <= round_even p (2 ^ e)) as Hge.
  { apply round_even_ge; [done|]. rewrite H58 in Hle. nia. }
  set (r := round_even p (2 ^ e)) in *. clearbody r.
  assert (n / 50 * 2 ^ 58 <= r * 2 ^ e) as Hlow by (rewrite H58; nia).
  assert (2 * (r * 2 ^ e) <= 2 * p + 2 ^ 32) as Hup by nia.
  assert (2 * p + 2 ^ 32 < 2 * ((n / 50 + 1) * 2 ^ 58)) by (unfold p, RATE_MANTISSA; divlia).
  symmetry. apply (Z.div_unique _ _ _ (r * 2 ^ e - n / 50 * 2 ^ 58)); lia.
Qed.

(** ** Sampling and yielding keep an invariant *)
Section invariant.
Context {W : Type} `{!Host W} `{!Threads W} (I : enclave W → Prop).
Hypothesis I_others : ∀ e, I e → I (others_run e).
Hypothesis I_read : ∀ e p, I e → I (with_world (ocall_get_file p (world e)).2 e).
Hypothesis I_rand : ∀ e n, I e → I (with_world (sgx_read_rand n (world e)).2 e).

Lemma wp_sched_check id (Q : unit → enclave W → Prop) e :
  I e → (∀ e', I e' → Q tt e') → wp (sched_check id) Q e.
Proof.
  intros He HQ. unfold sched_check. apply wp_bind, wp_gets. cbv beta.
  destruct (sched_blocked _ _); [apply wp_modify|apply wp_ret]; auto.
Qed.
Lemma wp_read_rand_val (Q : Z → enclave W → Prop) e :
  I e → (∀ r e', I e' → wl e' = wl e → 0 <= r < 2 ^ 32 → Q r e') → wp read_rand_val Q e.
Proof.
  intros He HQ. unfold read_rand_val. apply wp_bind, wp_host, wp_ret. apply HQ; [by apply I_rand|done|].
  apply Z.mod_pos_bound. lia.
Qed.
Lemma wp_get_file p (Q : crust_status * option bytes → enclave W → Prop) e :
  I e → (∀ e', I e' → wl e' = wl e → Q (ocall_get_file p (world e)).1 e') → wp (host (ocall_get_file p)) Q e.
Proof. intros He HQ. apply wp_host. apply HQ; [by apply I_read|done]. Qed.

Definition entry (m : list (bytes * list bytes)) (i j : nat) (p h : bytes) : Prop :=
  ∃ v, m !! i = Some (p, v) ∧ v !! j = Some h.

Lemma pair_insert_elem p q s : q ∈ pair_insert p s → q = p ∨ q ∈ s.
Proof.
  induction s as [|r s IH]; cbn [pair_insert]; [rewrite !elem_of_cons; tauto|].
  repeat case_match; rewrite ?elem_of_cons in *; tauto.
Qed.
Lemma pair_insert_nonempty p s : pair_insert p s ≠ [].
Proof. destruct s; cbn [pair_insert]; repeat case_match; done. Qed.

(** Random choice yields indexes of entries, at least one of them. *)
Lemma wp_choose_idxs m n s (Q : list (nat * nat) → enclave W → Prop) e :
  I e → (∀ q, q ∈ s → ∃ p h, entry m q.1 q.2 p h) →
  (∀ idxs e', I e' → (∀ q, q ∈ idxs → ∃ p h, entry m q.1 q.2 p h) →
     (s ≠ [] ∨ (0 < n)%nat → idxs ≠ []) → Q idxs e') →
  wp (choose_idxs n m s) Q e.
Proof.
  revert s e. induction n as [|n IH]; intros s e He Hs HQ; cbn [choose_idxs].
  - apply wp_ret, HQ; [done..|]. intros [?|?]; [done|lia].
  - apply wp_bind, wp_read_rand_val; [done|]. intros r e1 He1 _ Hr. cbv zeta.
    destruct (m !! _) as [[p v]|] eqn:Ep; [|apply wp_undefined].
    apply wp_bind, wp_read_rand_val; [done|]. intros r2 e2 He2 _ Hr2.
    destruct (Z.eqb_spec (zlen v) 0) as [|Hv]; [apply wp_undefined|].
    apply IH; [done| |].
    + intros q [->|Hq]%pair_insert_elem; [|by apply Hs]. cbn [fst snd].
      pose proof (Z.mod_pos_bound r2 (zlen v) ltac:(pose proof (zlen_nonneg v); lia)).
      destruct (lookup_lt_is_Some_2 v (Z.to_nat (r2 mod zlen v))) as [h Hh]; [unfold zlen in *; lia|].
      exists p, h, v. done.
    + intros idxs e3 He3 Hi Hne. apply HQ; [done..|]. intros _. apply Hne. left. apply pair_insert_nonempty.
Qed.

Lemma all_idxs_elem m i j : (i, j) ∈ all_idxs m ↔ ∃ p v, m !! i = Some (p, v) ∧ (j < List.length v)%nat.
Proof.
  unfold all_idxs. rewrite list_elem_of_In, in_concat. setoid_rewrite <- list_elem_of_In.
  setoid_rewrite elem_of_lookup_imap. split.
  - intros (l & (k & [p v] & -> & Hk) & Hi). apply list_elem_of_fmap in Hi as (j' & [= -> ->] & Hj).
    apply elem_of_seq in Hj. cbn in Hj. exists p, v. split; [done|lia].
  - intros (p & v & Hm & Hj). eexists. split; [exists i, (p, v); done|].
    apply list_elem_of_fmap. exists j. split; [done|]. apply elem_of_seq. cbn. lia.
Qed.
End invariant.

(** ** An honest disk

    [honest I leaves]: other threads, reads and randomness keep [I], and whenever
    [I] holds, every entry's file of leaf hashes is there, with the content
    [leaves] of the right hash, and so is every leaf. *)
Definition srd_dir (dir_path p_g_hash : bytes) : bytes := dir_path ++ str "/" ++ hexstring_safe (take 32 p_g_hash).
Record honest {W} `{!Host W} `{!Threads W} (I : enclave W → Prop) (leaves : bytes → bytes) : Prop := {
  honest_others e : I e → I (others_run e);
  honest_read e p : I e → I (with_world (ocall_get_file p (world e)).2 e);
  honest_rand e n : I e → I (with_world (sgx_read_rand n (world e)).2 e);
  honest_hashs e i j p h : I e → entry (srd_path2hashs_m (wl e)) i j p h →
    (ocall_get_file (get_m_hashs_file_path (srd_dir p h)) (world e)).1.2 = Some (leaves h) ∧
    sha256 (leaves h) = take 32 h;
  honest_leaf e i j p h k : I e → entry (srd_path2hashs_m (wl e)) i j p h → 0 <= k < SRD_RAND_DATA_NUM →
    let slice := drop (Z.to_nat (k * 32)) (leaves h) in
    ∃ leaf, (ocall_get_file (get_leaf_path (srd_dir p h) k slice) (world e)).1.2 = Some leaf ∧
            sha256 leaf = take 32 slice
}.

Lemma entry_bind m i j p h :
  (x ← m !! i; y ← x.2 !! j; Some (x.1, y)) = Some (p, h) ↔ entry m i j p h.
Proof.
  unfold entry. destruct (m !! i) as [[p' v]|]; cbn; [|naive_solver].
  destruct (v !! j) eqn:E; cbn; naive_solver.
Qed.

Lemma same_hash_true p h : take 32 p = h → ∀ b, same_hash p h = Ok b → b = true.
Proof. intros H b. unfold same_hash. destruct (_ <? _); [done|]. rewrite bool_decide_eq_true_2 by done. congruence. Qed.
Lemma same_hash_false p h : take 32 p ≠ h → ∀ b, same_hash p h = Ok b → b = false.
Proof. intros H b. unfold same_hash. destruct (_ <? _); [done|]. rewrite bool_decide_eq_false_2 by done. congruence. Qed.
Lemma same_hash_not_nofuel p h : same_hash p h ≠ NoFuel.
Proof. unfold same_hash. by destruct (_ <? _). Qed.

Section honest.
Context {W : Type} `{!Host W} `{!Threads W} (I : enclave W → Prop) (leaves : bytes → bytes) (HI : honest I leaves).
Let Ho := honest_others _ _ HI.
Let Hr := honest_read _ _ HI.
Let Hd := honest_rand _ _ HI.

Lemma wp_bad_srd_honest i j p h (Q : bool → enclave W → Prop) e :
  I e → entry (srd_path2hashs_m (wl e)) i j p h → (∀ e', I e' → Q false e') → wp (bad_srd p h) Q e.
Proof.
  intros He Hp HQ. unfold bad_srd. cbv zeta. fold (srd_dir p h).
  apply wp_bind, (wp_get_file I Hr); [done|]. intros e1 He1 Hw1.
  destruct (honest_hashs _ _ HI e i j p h He Hp) as (Hmh & Hsha). rewrite Hmh.
  apply wp_bind, wp_enc_malloc. intros [|]; cbn [negb]; [|by apply wp_ret, HQ].
  apply wp_bind, wp_of_res; [apply same_hash_not_nofuel|].
  intros b ->%(same_hash_true h); [|done]. cbn [negb].
  apply wp_bind, (wp_read_rand_val I Hd); [done|]. intros r e2 He2 Hw2 Hr2.
  destruct (_ <? _); [apply wp_undefined|].
  assert (entry (srd_path2hashs_m (wl e2)) i j p h) as Hp2 by by rewrite Hw2, Hw1.
  destruct (honest_leaf _ _ HI e2 i j p h (r mod SRD_RAND_DATA_NUM) He2 Hp2) as (leaf & Hl & Hls);
    [apply Z.mod_pos_bound; done|].
  apply wp_bind, (wp_get_file I Hr); [done|]. intros e3 He3 _. rewrite Hl.
  apply wp_bind, wp_of_res; [apply same_hash_not_nofuel|].
  intros b ->%(same_hash_true _); [|done]. by apply wp_ret, HQ.
Qed.

Lemma wp_check_srd_honest idxs (Q : del_map → enclave W → Prop) e :
  I e → (∀ e', I e' → Q [] e') → wp (check_srd idxs []) Q e.
Proof.
  revert e. induction idxs as [|[i j] idxs IH]; intros e He HQ; cbn [check_srd]; [by apply wp_ret, HQ|].
  apply wp_bind, (wp_sched_check I Ho); [done|]. intros e1 He1. apply wp_bind, wp_get_wl.
  destruct (_ ≫= _) as [[p h]|] eqn:E; [|by apply IH]. apply entry_bind in E.
  apply wp_bind, (wp_bad_srd_honest i j); [done..|]. intros e2 He2. by apply IH.
Qed.
End honest.

(** ** A dishonest disk

    [dishonest m I]: [I] fixes the entries to [m], is kept by what goes on
    meanwhile, and whenever it holds no file of leaf hashes is right. *)
Record dishonest {W} `{!Host W} `{!Threads W} (m : list (bytes * list bytes)) (I : enclave W → Prop) : Prop := {
  dishonest_map e : I e → srd_path2hashs_m (wl e) = m;
  dishonest_others e : I e → I (others_run e);
  dishonest_read e p : I e → I (with_world (ocall_get_file p (world e)).2 e);
  dishonest_rand e n : I e → I (with_world (sgx_read_rand n (world e)).2 e);
  dishonest_hashs e i j p h mh : I e → entry m i j p h →
    (ocall_get_file (get_m_hashs_file_path (srd_dir p h)) (world e)).1.2 = Some mh →
    malloc (ocall_get_file (get_m_hashs_file_path (srd_dir p h)) (world e)).2 (u64 (zlen mh)) = true ∧
    take 32 h ≠ sha256 mh
}.

(** The number of entries collected is at least one when there is one. *)
Lemma map_total_pos (del : del_map) p j : j ∈ map_get [] p del → 1 <= map_total del.
Proof.
  induction del as [|[k s] del IH]; [by intros ?%not_elem_of_nil|]. cbn [map_total].
  pose proof (map_total_nonneg del). pose proof (zlen_nonneg s).
  destruct (decide (p = k)) as [->|].
  - rewrite map_get_head. destruct s; [by intros ?%not_elem_of_nil|]. rewrite zlen_cons. len.
  - rewrite map_get_tail by done. intros H1%IH. lia.
Qed.

Section dishonest.
Context {W : Type} `{!Host W} `{!Threads W} (m : list (bytes * list bytes)) (I : enclave W → Prop).
Context (HI : dishonest m I) (Hm : map_ok m).
Let Ho := dishonest_others _ _ HI.
Let Hr := dishonest_read _ _ HI.
Let Hd := dishonest_rand _ _ HI.

Lemma wp_bad_srd_dishonest i j p h (Q : bool → enclave W → Prop) e :
  I e → entry m i j p h → (∀ e', I e' → Q true e') → wp (bad_srd p h) Q e.
Proof.
  intros He Hp HQ. unfold bad_srd. cbv zeta. fold (srd_dir p h).
  pose proof (λ mh, dishonest_hashs _ _ HI e i j p h mh He Hp) as Hbad.
  apply wp_bind, (wp_host (ocall_get_file _)). pose proof (Hr e (get_m_hashs_file_path (srd_dir p h)) He) as He1.
  destruct (ocall_get_file (get_m_hashs_file_path (srd_dir p h)) (world e)) as [[st [mh|]] w]; cbn [fst snd] in *.
  - destruct (Hbad mh eq_refl) as (Hmal & Hne). apply wp_bind. unfold enc_malloc. apply wp_gets.
    cbn [world with_world]. rewrite Hmal. cbn [negb].
    apply wp_bind, wp_of_res; [apply same_hash_not_nofuel|].
    intros b ->%(same_hash_false _); [|done]. by apply wp_ret, HQ.
  - by apply wp_ret, HQ.
Qed.

(** What the check collects: valid entries, all that were collected before, and
    all it looks at. *)
Lemma wp_check_srd_dishonest idxs del (Q : del_map → enclave W → Prop) e :
  I e → del_ok del m → (∀ q, q ∈ idxs → ∃ p h, entry m q.1 q.2 p h) →
  (∀ del' e', I e' → del_ok del' m → (∀ p j, j ∈ map_get [] p del → j ∈ map_get [] p del') →
     (∀ i j p h, (i, j) ∈ idxs → entry m i j p h → j ∈ map_get [] p del') → Q del' e') →
  wp (check_srd idxs del) Q e.
Proof.
  revert del e. induction idxs as [|[i j] idxs IH]; intros del e He Hdel Hi HQ; cbn [check_srd].
  - apply wp_ret, HQ; try done. by intros i j p h ?%not_elem_of_nil.
  - apply wp_bind, (wp_sched_check I Ho); [done|]. intros e1 He1. apply wp_bind, wp_get_wl.
    rewrite (dishonest_map _ _ HI e1 He1). destruct (Hi (i, j)) as (p & h & Hp); [left|]. cbn [fst snd] in Hp.
    pose proof Hp as E. rewrite <- entry_bind in E. rewrite E.
    apply wp_bind, (wp_bad_srd_dishonest i j); [done..|]. intros e2 He2.
    destruct Hp as (v & Hv & Hj).
    assert (map_get [] p m = v) as Hg.
    { unfold map_get. rewrite (map_elem_find p v m); [done|done|]. by eapply list_elem_of_lookup_2. }
    apply IH; [done| |intros; apply Hi; by right|].
    + apply del_ok_set; [done|]. rewrite Hg. destruct (del_ok_get del m p Hdel) as [Hs Hf].
      split; [by apply set_insert_ok|]. rewrite Forall_forall in Hf |- *. rewrite Hg in Hf.
      intros k [->|Hk]%set_insert_elem; [by eapply lookup_lt_Some|]. by apply Hf.
    + intros del' e3 He3 Hdel' Hkeep Hall. apply HQ; [done..| |].
      * intros p' k Hk. apply Hkeep. destruct (decide (p = p')) as [<-|].
        -- rewrite map_get_set_eq. apply set_insert_elem. by right.
        -- by rewrite map_get_set_ne.
      * intros i' j' p' h' [[= -> ->]|Hin]%elem_of_cons Hp'; [|by eapply Hall].
        destruct Hp' as (v' & Hv' & _). assert (p' = p) as -> by congruence.
        apply Hkeep. rewrite map_get_set_eq. apply set_insert_elem. by left.
Qed.
End dishonest.

(** What follows the choice of the sample *)
Lemma wp_punish {W} `{!Host W} `{!Threads W} m (I : enclave W → Prop) (HI : dishonest m I) idxs e :
  map_ok m → map_total m < 2 ^ 32 → I e → (∀ q, q ∈ idxs → ∃ p h, entry m q.1 q.2 p h) →
  (∀ i j p h, entry m i j p h → (i, j) ∈ idxs) ∨ (idxs ≠ [] ∧ 64 <= map_total m) →
  wp (del ← check_srd idxs []; srd_random_delete (i64 (SRD_PUNISH_FACTOR * map_total del)) del)
     (λ _ e', srd_total (wl e') <= Z.max 0 (map_total m - 2) ∧
              (map_total m < 64 → srd_total (wl e') = 0)) e.
Proof.
  intros Hm Ht He Hidx Hfull. apply wp_bind, (wp_check_srd_dishonest m I HI Hm); [done|by repeat constructor|done|].
  intros del e1 He1 Hdel _ Hall. pose proof (map_total_nonneg del) as Hpos. pose proof (map_total_nonneg m).
  pose proof (del_total_le del m Hm Hdel) as Hle.
  assert (map_total m <= map_total del ∨ (1 <= map_total del ∧ 64 <= map_total m)) as Hdone.
  { destruct Hfull as [Hf|[Hne H64]].
    - left. apply del_total_full; [done|apply Hdel|]. apply Forall_forall. intros [p v] Hp i Hi. cbn [fst snd] in *.
      apply list_elem_of_lookup in Hp as [k Hk]. apply lookup_lt_is_Some_2 in Hi as [h Hh].
      eapply (Hall k i p h); [|by exists v]. eapply Hf. by exists v.
    - right. split; [|done]. destruct idxs as [|[i j] idxs]; [done|].
      destruct (Hidx (i, j)) as (p & h & Hp); [left|]. eapply map_total_pos, (Hall i j p h); [left|done]. }
  assert (srd_total (wl e1) = map_total m) as Htot by (unfold srd_total; by rewrite (dishonest_map _ _ HI)).
  unfold SRD_PUNISH_FACTOR. rewrite i64_small by lia. unfold srd_random_delete.
  destruct (Z.leb_spec (2 * map_total del) 0); cbn [andb];
    [destruct (Z.eqb_spec (zlen del) 0); [apply wp_ret; lia|]|].
  all: pose proof (twp_srd_decrease e1 (2 * map_total del) del) as H2; cbv zeta in H2.
  all: rewrite (dishonest_map _ _ HI e1 He1) in H2.
  all: apply wp_bind; eapply wp_mono; [apply wp_of_twp, H2; done|]; intros nd e2 [Hz Hnz]; cbv beta; apply wp_ret.
  all: pose proof (map_total_nonneg (srd_path2hashs_m (wl e2))) as Hp2; fold (srd_total (wl e2)) in Hp2.
  all: destruct (decide (Z.min (2 * map_total del) (map_total m) = 0)) as [E|E];
    [destruct (Hz E) as [_ ->]; lia|destruct (Hnz E) as [Hrem _]; lia].
Qed.
Lemma srd_validate_num_sample n :
  0 <= n < 2 ^ 32 → srd_validate_num n < n → 64 <= srd_validate_num n ∧ 64 <= n.
Proof.
  intros Hn. unfold srd_validate_num, srd_num_threshold, SRD_VALIDATE_MIN_NUM. rewrite mul_rate_spec by done.
  destruct (Z.leb_spec 3200 n), (Z.ltb_spec n 64); intros; split; try lia; divlia.
Qed.

(** ** Properties of the check of the random data *)
Section srd_properties.
Context {W : Type} `{!Host W} `{!Threads W}.

(** How much is checked.  Of the random data: everything below 64 entries, 64
    below 3200, from there on the fiftieth part, never more than there is and
    never less than 64.  Of the files: everything up to 64, above it the fiftieth
    part.  The floating-point product is exact enough for every count below
    2 ^ 32. *)
Theorem validate_num_spec n :
  0 <= n < 2 ^ 32 →
  (n < 64 → srd_validate_num n = n) ∧ (64 <= n < 3200 → srd_validate_num n = 64) ∧
  (3200 <= n → srd_validate_num n = n / 50 ∧ 64 <= srd_validate_num n) ∧
  srd_validate_num n <= n ∧
  check_file_num n = (if n <=? 64 then n else n / 50).
Proof.
  intros Hn. unfold srd_validate_num, check_file_num, srd_num_threshold, SRD_VALIDATE_MIN_NUM, MEANINGFUL_VALIDATE_MIN_NUM.
  rewrite !mul_rate_spec by done.
  destruct (Z.leb_spec 3200 n), (Z.ltb_spec n 64), (Z.ltb_spec 64 n), (Z.leb_spec n 64); try lia;
    split_and!; intros; try split; try lia; divlia.
Qed.

(** C17: an honest disk is never punished.  As long as the files of every entry can
    be read and hash to what the enclave remembers, the check changes nothing:
    every property of the enclave that survives other threads, reads and
    randomness survives it, so in particular no entry is deleted. *)
Theorem validate_srd_honest (I : enclave W → Prop) leaves e :
  honest I leaves → I e → wp validate_srd (λ _ e', I e') e.
Proof.
  intros HI He. unfold validate_srd. apply wp_bind, wp_get_wl. cbv beta.
  destruct (decide _); [by apply wp_ret|]. apply wp_bind, wp_get_wl. cbv zeta.
  assert (∀ idxs e1, I e1 → wp (del ← check_srd idxs [];
    srd_random_delete (i64 (SRD_PUNISH_FACTOR * map_total del)) del) (λ _ e', I e') e1) as Hrest.
  { intros idxs e1 He1. apply wp_bind, (wp_check_srd_honest I leaves HI); [done|]. intros e2 He2. by apply wp_ret. }
  apply wp_bind. destruct (_ <? _); [|by apply wp_ret, Hrest].
  apply (wp_choose_idxs I (honest_rand _ _ HI)); [done|by intros q ?%not_elem_of_nil|]. auto.
Qed.

(** C3: a disk that lost its data is punished twofold.  When no file of leaf hashes
    is right, the check removes twice the number of entries it looked at, at
    least two when there are two, and all of them when there are fewer than 64. *)
Theorem validate_srd_dishonest m (I : enclave W → Prop) e :
  dishonest m I → map_ok m → map_total m < 2 ^ 32 → I e →
  get_upgrade_status (wl e) ≠ ENC_UPGRADE_STATUS_SUCCESS →
  wp validate_srd (λ _ e', srd_total (wl e') <= Z.max 0 (map_total m - 2) ∧
                           (map_total m < 64 → srd_total (wl e') = 0)) e.
Proof.
  intros HI Hm Ht He Hup. unfold validate_srd. apply wp_bind, wp_get_wl. cbv beta.
  rewrite decide_False by done. apply wp_bind, wp_get_wl. cbv zeta. rewrite (dishonest_map _ _ HI e He).
  pose proof (map_total_nonneg m).
  apply wp_bind. destruct (Z.ltb_spec (srd_validate_num (map_total m)) (map_total m)) as [Hlt|_].
  - destruct (srd_validate_num_sample (map_total m)) as [Hn Ht64]; [lia|done|].
    apply (wp_choose_idxs I (dishonest_rand _ _ HI)); [done|by intros q ?%not_elem_of_nil|].
    intros idxs e1 He1 Hi Hne. apply (wp_punish m I HI idxs); [done..|].
    right. split; [|done]. apply Hne. right. lia.
  - apply wp_ret, (wp_punish m I HI); [done..| |].
    + intros [i j] (p & v & Hv & Hj)%all_idxs_elem. apply lookup_lt_is_Some_2 in Hj as [h Hh].
      exists p, h, v. done.
    + left. intros i j p h (v & Hv & Hh). apply all_idxs_elem. exists p, v.
      split; [done|]. by eapply lookup_lt_Some.
Qed.
End srd_properties.

(** ** The files *)

(** The same file, with a current status that moved between valid and lost *)
Definition moves (c : ascii) : Prop := c = FILE_STATUS_VALID ∨ c = FILE_STATUS_LOST.
Definition revalidated (f f' : json) : Prop :=
  f' = f ∨
  (moves (cur f) ∧ moves (cur f') ∧ waiting f' = waiting f ∧ origin f' = origin f ∧
   ∀ k, k ≠ FILE_STATUS → jkey k f' = jkey k f).

Lemma moves_has_status f : moves (cur f) → has_status f.
Proof.
  unfold moves, cur, has_status. destruct (jkey FILE_STATUS f); try by intros [].
  destruct s; [by intros []|]. eauto.
Qed.
Lemma revalidated_set_cur f c : moves (cur f) → moves c → revalidated f (set_cur c f).
Proof.
  intros Hf Hc. right. pose proof (moves_has_status f Hf) as Hs. rewrite (cur_set_cur c f Hs).
  split_and!; try done; [| |intros k Hk; by rewrite set_cur_other].
  all: destruct Hs as (s & Hs & Hne); unfold waiting, origin, set_cur, jkey_update; rewrite jkey_set_eq, Hs.
  all: destruct s as [|a [|b [|d s]]]; done.
Qed.
Lemma revalidated_trans f g h : revalidated f g → revalidated g h → revalidated f h.
Proof.
  intros [->|(H1 & H2 & H3 & H4 & H5)]; [done|]. intros [->|(K1 & K2 & K3 & K4 & K5)]; [right; by split_and!|].
  right. split_and!; try congruence. intros k Hk. by rewrite K5, H5.
Qed.
Lemma revalidated_alter files files' i c f :
  Forall2 revalidated files files' → files' !! i = Some f → moves (cur f) → moves c →
  Forall2 revalidated files (alter (set_cur c) i files').
Proof.
  intros H Hi Hf Hc. rewrite Forall2_lookup in H |- *. intros j. specialize (H j).
  destruct (decide (i = j)) as [<-|].
  - rewrite list_lookup_alter_eq, Hi in *. cbn. inversion H as [x y Hxy E1 E2|]; subst. constructor.
    eapply revalidated_trans; [exact Hxy|]. by apply revalidated_set_cur.
  - by rewrite list_lookup_alter_ne.
Qed.

Section files.
Context {W : Type} `{!Host W} `{!Threads W}.
(** Other threads leave the lists of files alone. *)
Hypothesis quiet : ∀ e, checked_files (wl (others_run e)) = checked_files (wl e) ∧
                        new_files (wl (others_run e)) = new_files (wl e).

Lemma outside_read_rand_val : outside (λ _, True) read_rand_val.
Proof. unfold read_rand_val. outside. by apply outside_host. Qed.
#[local] Hint Resolve outside_read_rand_val : sworker.
Lemma outside_choose_blocks n num s : outside (λ _, True) (choose_blocks n num s).
Proof. revert s. induction n as [|n IH]; intros; cbn [choose_blocks]; outside. Qed.
Lemma outside_choose_files n size : outside (λ _, True) (choose_files n size).
Proof. induction n as [|n IH]; cbn [choose_files]; outside. Qed.
#[local] Hint Resolve outside_choose_blocks outside_choose_files : sworker.
Lemma outside_check_blocks root tree blocks spos c : outside (λ _, True) (check_blocks root tree blocks spos c).
Proof.
  revert spos c. induction blocks as [|b blocks IH]; intros; cbn [check_blocks]; cbv zeta; outside.
  - by apply outside_host.
  - apply outside_of_res, same_hash_not_nofuel.
Qed.
#[local] Hint Resolve outside_check_blocks : sworker.
Lemma outside_check_file f : outside (λ _, True) (check_file f).
Proof.
  unfold check_file. cbv zeta. pose proof (outside_persist_get_unsafe (λ _ : W, True)).
  outside. apply outside_of_res, validate_json_not_nofuel. lia.
Qed.

(** The files so far, against those at the start *)
Definition progress (files : list json) (e : enclave W) : Prop :=
  Forall2 revalidated files (checked_files (wl e)) ∧ new_files (wl e) = [].

Lemma progress_wl files e e' :
  checked_files (wl e') = checked_files (wl e) → new_files (wl e') = new_files (wl e) →
  progress files e → progress files e'.
Proof. unfold progress. by intros -> ->. Qed.

Lemma wp_check_files files idxs changed (Q : option (gmap nat bool) → enclave W → Prop) e :
  progress files e → (∀ r e', progress files e' → Q r e') → wp (check_files idxs changed) Q e.
Proof.
  revert changed e. induction idxs as [|i idxs IH]; intros changed e He HQ; cbn [check_files];
    [by apply wp_ret, HQ|].
  apply wp_bind, (wp_sched_check (progress files)); [|done|].
  { intros e1. apply progress_wl; apply quiet. }
  intros e1 He1. apply wp_bind, wp_get_wl. destruct (checked_files (wl e1) !! i) as [f|] eqn:Ef; [|by apply IH].
  case_bool_decide; [by apply IH|].
  apply wp_bind, (wp_outside (λ _, True)); [apply outside_check_file|done|]. intros v w _.
  assert (∀ c changed', moves (cur f) → moves c →
    wp (set_status i c;; check_files idxs changed') Q (with_world w e1)) as Hset.
  { intros c changed' Hf Hc. apply wp_bind, wp_on_wl. apply IH; [|done]. destruct He1 as [H1 H2].
    split; [|done]. by eapply revalidated_alter. }
  destruct v; [| |by apply wp_ret, HQ].
  - case_bool_decide as Hl; [|by apply IH]. apply Hset; [by right|by left].
  - case_bool_decide as Hl; [|by apply IH]. apply Hset; [by left|by right].
Qed.

Lemma wp_record_change files p e : progress files e → wp (record_change p) (λ _ e', progress files e') e.
Proof.
  intros He. unfold record_change. apply wp_bind, wp_get_wl. destruct (_ !! _) as [f|]; [|apply wp_undefined].
  apply wp_on_wl. revert He. apply progress_wl; cbn [wl with_wl]; unfold set_wl_spec2; by case_decide.
Qed.

(** C18: validating the files moves the new files behind the checked ones and
    changes nothing of any file but its current status, and that only between
    valid and lost: an unconfirmed or deleted file stays what it is, no file
    appears, disappears or trades places.  After an upgrade it does nothing. *)
Theorem validate_files_spec (e : enclave W) :
  wp validate_meaningful_file (λ _ e',
    (get_upgrade_status (wl e) = ENC_UPGRADE_STATUS_SUCCESS → e' = e) ∧
    (get_upgrade_status (wl e) ≠ ENC_UPGRADE_STATUS_SUCCESS →
       Forall2 revalidated (checked_files (wl e) ++ new_files (wl e)) (checked_files (wl e')) ∧
       new_files (wl e') = [])) e.
Proof.
  unfold validate_meaningful_file. apply wp_bind, wp_get_wl. cbv beta.
  destruct (decide _); [by apply wp_ret|]. set (files := checked_files (wl e) ++ new_files (wl e)).
  eapply (wp_mono _ (λ _ e', progress files e')); [|by intros _ e' He'; split].
  apply wp_bind, wp_on_wl. set (e0 := with_wl _ e).
  assert (progress files e0) as He0.
  { split; [|done]. cbn. apply Forall2_same_length_lookup_2; [done|]. intros i x y Hx Hy.
    left. unfold files in *. congruence. }
  clearbody e0. apply wp_bind, wp_host. set (e1 := with_world _ e0).
  assert (progress files e1) as He1 by exact He0. clearbody e1.
  apply wp_bind, wp_get_wl. destruct (negb (is_success _)).
  { apply wp_bind. destruct (negb _); [apply wp_on_wl|apply wp_ret]; by apply wp_host_. }
  apply wp_bind, (wp_outside (λ _, True)); [apply outside_choose_files|done|]. intros idxs w _.
  apply wp_bind, (wp_check_files files); [exact He1|]. intros [changed|] e2 He2.
  2: { apply wp_bind, wp_on_wl. by apply wp_host_. }
  apply wp_bind. eapply (wp_mono _ (λ _ e', progress files e')); [|intros _ e3 He3; apply wp_host_; exact He3].
  apply wp_for_each_inv; [done|]. intros p e3 _ He3. by apply wp_record_change.
Qed.
End files.

(** ** Concrete runs *)
Lemma validate_num_spec_witness : srd_validate_num 5000 = 100 ∧ check_file_num 64 = 64 ∧ check_file_num 65 = 1.
Proof.
  destruct (validate_num_spec 5000) as (_ & _ & H & _); [lia|].
  destruct (validate_num_spec 64) as (_ & _ & _ & _ & H64); [lia|].
  destruct (validate_num_spec 65) as (_ & _ & _ & _ & H65); [lia|].
  split_and!; [rewrite (proj1 (H ltac:(lia))); reflexivity|rewrite H64; reflexivity|rewrite H65; reflexivity].
Defined.

(** An enclave that remembers one entry under one path *)
Definition demo_srd (h : bytes) : enclave demo :=
  with_wl (with_srd_path2hashs_m [(str "/a", [h])] demo_workload) demo_enclave.

Lemma zeros_slice k : 0 <= k < 1024 → take 32 (drop (Z.to_nat (k * 32)) zeros) = replicate 32 (chr 0).
Proof.
  intros Hk. unfold zeros. rewrite drop_replicate, take_replicate. f_equal. lia.
Qed.
Lemma zeros_hash : demo_sha256 zeros = replicate 32 (chr 0).
Proof. unfold demo_sha256, zeros. rewrite <- replicate_add, take_replicate. f_equal. Qed.

(** A disk of zeros is honest about the hash of zeros. *)
Lemma validate_srd_honest_witness :
  @wp _ _ (@validate_srd demo zero_host demo_threads)
    (λ _ e', wl e' = wl (demo_srd (replicate 32 (chr 0)))) (demo_srd (replicate 32 (chr 0))).
Proof.
  apply (@validate_srd_honest demo zero_host demo_threads
    (λ e, wl e = wl (demo_srd (replicate 32 (chr 0)))) (λ _, zeros)); [|reflexivity].
  assert (∀ i j p h, entry [(str "/a", [replicate 32 (chr 0)])] i j p h → h = replicate 32 (chr 0)) as Hh.
  { intros [|i] [|j] p h (v & Hv & Hj); simplify_eq/=; done. }
  split; [done..| |].
  - intros e i j p h He Hp. rewrite He in Hp. apply Hh in Hp as ->. split; [reflexivity|]. apply zeros_hash.
  - intros e i j p h k He Hp Hk. exists zeros. split; [reflexivity|]. cbv zeta.
    rewrite zeros_slice by exact Hk. apply zeros_hash.
Defined.

(** An empty disk *)
Lemma validate_srd_dishonest_witness :
  wp validate_srd (λ _ e', srd_total (wl e') = 0) (demo_srd (replicate 32 (chr 0))).
Proof.
  eapply wp_mono; [apply (validate_srd_dishonest [(str "/a", [replicate 32 (chr 0)])]
    (λ e, srd_path2hashs_m (wl e) = [(str "/a", [replicate 32 (chr 0)])] ∧ d_files (world e) = []))|].
  - split; [by intros e []|done| | |].
    + intros e p [H1 H2]. cbn. unfold demo_read. rewrite H2. done.
    + done.
    + intros e i j p h mh [H1 H2] Hp. cbn. unfold demo_read. rewrite H2. done.
  - by repeat constructor.
  - reflexivity.
  - done.
  - done.
  - intros [] e' [_ H]. by apply H.
Defined.

(** Two files whose trees are not in the database: the valid one is lost, the
    unconfirmed one is left alone. *)
Definition demo_validate : enclave demo :=
  with_wl (with_new_files [demo_file "g"%char (str "000")]
            (with_checked_files [demo_file "f"%char (str "100")] demo_files_workload)) demo_enclave.
Definition demo_validated : enclave demo :=
  match validate_meaningful_file demo_validate with Ok (_, e') => e' | _ => demo_validate end.
Lemma demo_validated_run : validate_meaningful_file demo_validate = Ok (tt, demo_validated).
Proof. vm_compute. reflexivity. Qed.
Lemma validate_files_spec_witness :
  Forall2 revalidated [demo_file "f"%char (str "100"); demo_file "g"%char (str "000")] (checked_files (wl demo_validated))
  ∧ map cur (checked_files (wl demo_validated)) = [FILE_STATUS_LOST; FILE_STATUS_UNCONFIRMED].
Proof.
  pose proof (wp_run _ _ _ _ _ (validate_files_spec (λ e, conj eq_refl eq_refl) demo_validate) demo_validated_run) as H.
  cbv beta in H. destruct H as [_ H]. split; [apply (H (λ E, ltac:(discriminate E)))|].
  vm_compute. reflexivity.
Defined.
