(* ===== verification/Identity.v ===== *)
(** * Identity and metadata (enclave/identity/Identity.cpp)

    The key pair and the measurement of the enclave, and its metadata: everything
    it must remember over a restart, sealed under one key of the database.  The
    mutex around the metadata makes each operation one step. *)
From S2P Require Import Prelude StdMap Status Hex Json JsonParse JsonText Host State Demo Persist Workload.

(** ** The SGX services this file calls *)
Class IdHost (W : Type) := {
  (* the private and the public key *)
  sgx_ecc256_create_key_pair : W → (sgx_status * (bytes * bytes)) * W;
  (* target information, or NULL, and report data *)
  sgx_create_report : option bytes → bytes → W → (sgx_status * bytes) * W;
  (* the field body.mr_enclave of a report *)
  report_mr_enclave : bytes → bytes;
  ocall_store_enclave_id_info : bytes → W → W
}.

(** A [memcpy] of [n] bytes out of a buffer *)
Definition copy (n : Z) (b : bytes) : res bytes :=
  if zlen b <? n then UB else Ok (take (Z.to_nat n) b).
Definition PUB_KEY_SIZE : Z := 64.
Definition KEY_PAIR_SIZE : Z := 96.
Definition TARGET_INFO_SIZE : Z := 512.

(** [ecc_key_pair] as bytes, and back *)
Definition key_bytes (k : ecc_key_pair) : bytes := pub_key k ++ pri_key k.
Definition key_of_bytes (b : bytes) : ecc_key_pair := EccKeyPair (take 64 b) (drop 64 b).

(** ** The text of the metadata *)

(** The pieces of a list, with a comma copied after each element but the last *)
Fixpoint sep_parts {A} (f : A → list bytes) (l : list A) : list bytes :=
  match l with
  | [] => []
  | [x] => f x
  | x :: l => f x ++ [str ","] ++ sep_parts f l
  end.
Definition hash_parts (h : bytes) : list bytes := [quote (hexstring_safe (take 32 h))].
Definition path_parts (p : bytes * list bytes) : list bytes :=
  [quote p.1 ++ str ":["] ++ sep_parts hash_parts p.2 ++ [str "]"].

(** The pieces of [meta_buf], in the order they are copied *)
Definition meta_parts (w : workload) : list bytes :=
  [SWORKER_PRIVATE_TAG; str "{"; quote ID_WORKLOAD ++ str ":{"]
  ++ sep_parts path_parts (srd_path2hashs_m w)
  ++ [str "},";
      quote ID_KEY_PAIR ++ str ":" ++ quote (hexstring_safe (key_bytes (get_key_pair w))) ++ str ",";
      quote ID_REPORT_HEIGHT ++ str ":" ++ to_string (get_report_height w) ++ str ",";
      quote ID_CHAIN_ACCOUNT_ID ++ str ":" ++ quote (get_account_id w) ++ str ","]
  ++ (if is_upgrade w
      then [quote ID_PRE_PUB_KEY ++ str ":" ++ quote (hexstring_safe (pre_pub_key w)) ++ str ","]
      else [])
  ++ [quote ID_FILE ++ str ":["] ++ file_parts (checked_files w) ++ [str "]}"].

(** The size of the buffer; [file_item_len] is computed as in [serialize_file]. *)
Definition meta_len (w : workload) : Z :=
  map_total (srd_path2hashs_m w) * (64 + 3)
  + zlen (srd_path2hashs_m w) * (128 + 4)
  + (zlen SWORKER_PRIVATE_TAG + 5
     + zlen ID_WORKLOAD + 5
     + zlen ID_KEY_PAIR + 3 + 256 + 3
     + zlen ID_REPORT_HEIGHT + 3 + 20 + 1
     + zlen ID_CHAIN_ACCOUNT_ID + 3 + 64 + 3
     + (if is_upgrade w then zlen ID_PRE_PUB_KEY + 3 + PUB_KEY_SIZE * 2 + 3 else 0)
     + zlen ID_FILE + 3)
  + zlen (checked_files w) * file_item_len.

Inductive metadata_op_e := ID_APPEND | ID_UPDATE.

Section identity.
Context {W : Type} `{!Host W} `{!IdHost W}.
Abbreviation M := (M (enclave W)).

(** ** Keys and measurement *)

(** [id_gen_key_pair]; [None] is a NULL account. *)
Definition id_gen_key_pair (account : option bytes) : M sgx_status :=
  has ← get_wl try_get_key_pair;
  if has : bool then mret SGX_ERROR_UNEXPECTED
  else
    match account with
    | None | Some [] => mret SGX_ERROR_UNEXPECTED
    | Some id =>
        se_ret ← host sgx_ecc256_open_context;
        if negb (sgx_ok se_ret) then mret se_ret
        else
          r ← host sgx_ecc256_create_key_pair;
          let '(se_ret, (pri, pub)) := r in
          if negb (sgx_ok se_ret) then mret se_ret
          else
            on_wl (set_key_pair (EccKeyPair pub pri));;
            on_wl (set_account_id id);;
            mret SGX_SUCCESS
    end.

(** [id_get_quote_report]; a build with SGX_HW_SIM passes no target. *)
Definition id_get_quote_report (hw_sim : bool) (target_info : bytes) : M (sgx_status * bytes) :=
  pub ← get_wl get_pub_key;
  host (sgx_create_report (if hw_sim then None else Some target_info) (take 64 pub)).

Definition id_gen_sgx_measurement : M sgx_status :=
  r ← host (sgx_create_report (Some (replicate (Z.to_nat TARGET_INFO_SIZE) (chr 0))) (replicate 64 (chr 0)));
  if negb (sgx_ok r.1) then mret r.1
  else on_wl (set_mr_enclave (report_mr_enclave r.2));; mret r.1.

(** [id_cmp_chain_account_id]: [memcmp] over the length of the argument, from a
    NUL-terminated text. *)
Definition id_cmp_chain_account_id (account : bytes) : M crust_status :=
  id ← get_wl get_account_id;
  if zlen id + 1 <? zlen account then undefined
  else if bool_decide (take (List.length account) (id ++ [chr 0]) = account) then mret CRUST_SUCCESS
  else mret CRUST_NOT_EQUAL.

Definition id_get_info : M unit :=
  w ← get_wl id;
  let id_info :=
    jkey_set (str "mrenclave") (JString (hexstring_safe (get_mr_enclave w)))
      (jkey_set (str "pub_key") (JString (hexstring_safe (get_pub_key w))) JNull) in
  host_ (ocall_store_enclave_id_info (dump id_info)).

(** ** Metadata *)

(** [id_get_metadata]: the value handed out, and the local status the function
    forgets when it returns. *)
Definition id_get_metadata : M (crust_status * json) :=
  r ← persist_get ID_METADATA;
  match r with
  | (CRUST_SUCCESS, Some data) =>
      if zlen data =? 0 then mret (CRUST_SUCCESS, JNull)
      else if zlen data <=? zlen SWORKER_PRIVATE_TAG then undefined
      else
        meta_json ← of_res (Load Raw (drop (List.length SWORKER_PRIVATE_TAG) data));
        if json_size meta_json =? 0 then mret (CRUST_SUCCESS, meta_json)
        else
          let id_key_pair_str := ToString (jkey ID_KEY_PAIR meta_json) in
          let meta_json := jkey_touch ID_KEY_PAIR meta_json in
          match hex_string_to_bytes id_key_pair_str with
          | None => mret (CRUST_INVALID_META_DATA, meta_json)
          | Some p_id_key =>
              w ← get_wl id;
              if try_get_key_pair w then
                k ← of_res (copy KEY_PAIR_SIZE p_id_key);
                if bool_decide (k = key_bytes (get_key_pair w)) then mret (CRUST_SUCCESS, meta_json)
                else mret (CRUST_INVALID_META_DATA, meta_json)
              else mret (CRUST_SUCCESS, meta_json)
          end
  | (st, _) => mret (st, JNull)
  end.

(** [id_metadata_set_or_append] (Identity.h) *)
Definition id_metadata_set_or_append (key : bytes) (val : json) (op : metadata_op_e) : M crust_status :=
  r ← id_get_metadata;
  let meta_json := r.2 in
  let stored :=
    match op with
    | ID_APPEND =>
        if hasKey key meta_json then
          if negb (is_array (jkey key meta_json)) then None
          else Some (jkey_update key (jappend val) meta_json)
        else Some (jkey_update key (jidx_set 0 val) meta_json)
    | ID_UPDATE => Some (jkey_set key val meta_json)
    end in
  match stored with
  | None => mret CRUST_UNEXPECTED_ERROR
  | Some meta_json => persist_set ID_METADATA (SWORKER_PRIVATE_TAG ++ dump meta_json)
  end.

Definition id_store_metadata : M crust_status :=
  status ← get_wl get_upgrade_status;
  if bool_decide (status = ENC_UPGRADE_STATUS_SUCCESS) then mret CRUST_SUCCESS
  else
    w ← get_wl id;
    persist_set_unsafe DB_WL_SPEC_INFO (strip (dump (get_wl_spec w)));;
    ok ← enc_malloc (meta_len w);
    if negb ok then mret CRUST_MALLOC_FAILED
    else
      meta_buf ← of_res (put_all (meta_len w) [] (meta_parts w));
      persist_set ID_METADATA meta_buf.

(** The parts of [id_restore_metadata] *)
Definition restore_spec : M unit :=
  r ← persist_get_unsafe DB_WL_SPEC_INFO;
  match r with
  | (CRUST_SUCCESS, Some p_wl_spec) =>
      w ← get_wl id;
      w ← of_res (restore_wl_spec_info p_wl_spec w);
      on_wl (λ _, w)
  | _ => mret tt
  end.
Definition restore_files (meta_json : json) : M unit :=
  if is_array (jkey ID_FILE meta_json) then
    let files := jkey ID_FILE meta_json in
    (* [resize] to a negative number throws *)
    if json_size files <? 0 then of_res Throw
    else on_wl (with_checked_files (as_array files))
  else mret tt.
Definition restore_pre_pub_key (meta_json : json) : M crust_status :=
  if hasKey ID_PRE_PUB_KEY meta_json then
    match hex_string_to_bytes (ToString (jkey ID_PRE_PUB_KEY meta_json)) with
    | None => mret CRUST_UNEXPECTED_ERROR
    | Some pre_pub_key_u =>
        k ← of_res (copy PUB_KEY_SIZE pre_pub_key_u);
        on_wl (set_upgrade k);;
        mret CRUST_SUCCESS
    end
  else mret CRUST_SUCCESS.

Definition id_restore_metadata : M crust_status :=
  r ← id_get_metadata;
  let meta_json := r.2 in
  if json_size meta_json <=? 0 then mret CRUST_UNEXPECTED_ERROR
  else
    restore_spec;;
    st ← (if is_object (jkey ID_WORKLOAD meta_json) then
            w ← get_wl id;
            let '(st, w) := restore_srd (jkey ID_WORKLOAD meta_json) w in
            on_wl (λ _, w);;
            mret st
          else mret CRUST_SUCCESS);
    if negb (is_success st) then mret CRUST_BAD_SEAL_DATA
    else
      srd_info ← get_wl get_srd_info;
      persist_set_unsafe DB_SRD_INFO (dump srd_info);;
      restore_files meta_json;;
      match hex_string_to_bytes (ToString (jkey ID_KEY_PAIR meta_json)) with
      | None => mret CRUST_UNEXPECTED_ERROR
      | Some p_id_key =>
          k ← of_res (copy KEY_PAIR_SIZE p_id_key);
          on_wl (set_key_pair (key_of_bytes k));;
          on_wl (set_report_height (u64 (ToInt (jkey ID_REPORT_HEIGHT meta_json))));;
          st ← restore_pre_pub_key meta_json;
          if negb (is_success st) then mret st
          else
            on_wl (set_account_id (ToString (jkey ID_CHAIN_ACCOUNT_ID meta_json)));;
            on_wl (set_restart_flag true);;
            mret CRUST_SUCCESS
      end.
End identity.

(** ** Lemmas *)
Lemma copy_exact n b : zlen b = n → copy n b = Ok b.
Proof.
  intros <-. unfold copy. rewrite Z.ltb_irrefl. f_equal. apply take_ge. unfold zlen. lia.
Qed.

Lemma concat_sep_parts {A} (f : A → list bytes) l :
  concat (sep_parts f l) = join (str ",") (map (λ x, concat (f x)) l).
Proof.
  induction l as [|x [|y l] IH]; [done|done|].
  change (sep_parts f (x :: y :: l)) with (f x ++ [str ","] ++ sep_parts f (y :: l)).
  rewrite !concat_app, IH. cbn [map]. rewrite join_cons. done.
Qed.

(** With [g x] bounding the length of the text of [x] and its comma *)
Lemma sep_parts_length {A} (f : A → list bytes) (g : A → Z) l :
  Forall (λ x, zlen (concat (f x)) + 1 <= g x) l →
  zlen (concat (sep_parts f l)) <= foldr (λ x n, g x + n) 0 l.
Proof.
  intros H. induction H as [|x [|y l] Hx Hl IH]; [done|cbn in *; lia|].
  change (sep_parts f (x :: y :: l)) with (f x ++ [str ","] ++ sep_parts f (y :: l)).
  rewrite !concat_app, !zlen_app. change (zlen (concat [str ","])) with 1.
  change (foldr ?h 0 (x :: y :: l)) with (g x + foldr h 0 (y :: l)). lia.
Qed.

(** What the metadata text says, as fields in the order they are written *)
Definition meta_fields (w : workload) : list (bytes * json) :=
  [(ID_WORKLOAD, srd_json (srd_path2hashs_m w));
   (ID_KEY_PAIR, JString (hexstring_safe (key_bytes (get_key_pair w))));
   (ID_REPORT_HEIGHT, JIntegral (get_report_height w));
   (ID_CHAIN_ACCOUNT_ID, JString (get_account_id w))]
  ++ (if is_upgrade w then [(ID_PRE_PUB_KEY, JString (hexstring_safe (pre_pub_key w)))] else [])
  ++ [(ID_FILE, JArray (checked_files w))].

(** A workload the metadata can hold: widths as reserved, no text that needs
    escaping. *)
Record storable (w : workload) : Prop := {
  st_srd : srd_ok (srd_path2hashs_m w);
  st_paths : Forall (λ p, zlen p.1 <= 126) (srd_path2hashs_m w);
  st_files : Forall file_ok (checked_files w);
  st_number : zlen (checked_files w) < 2 ^ 31;
  st_height : 0 <= report_height w < 2 ^ 63;
  st_account : key_ok (account_id w);
  st_account_length : zlen (account_id w) <= 64;
  st_pub_key : zlen (pub_key (id_key_pair w)) = 64;
  st_pri_key : zlen (pri_key (id_key_pair w)) = 32;
  st_pre_pub_key : is_upgrade w = true → zlen (pre_pub_key w) = 64
}.

Lemma key_bytes_length w : storable w → zlen (key_bytes (id_key_pair w)) = KEY_PAIR_SIZE.
Proof. intros [? ? ? ? ? ? ? H1 H2 _]. unfold key_bytes. rewrite zlen_app, H1, H2. done. Qed.
Lemma key_bytes_id k : zlen (pub_key k) = 64 → key_of_bytes (key_bytes k) = k.
Proof.
  destruct k as [a b]. intros H. cbn in H. assert (List.length a = 64%nat) as Ha by (unfold zlen in H; lia).
  unfold key_of_bytes, key_bytes. cbn [pub_key pri_key]. by rewrite take_app_length', drop_app_length'.
Qed.

Lemma meta_srd_text w :
  srd_ok (srd_path2hashs_m w) →
  str "{" ++ concat (sep_parts path_parts (srd_path2hashs_m w)) ++ str "}"
  = render compact 1 (srd_json (srd_path2hashs_m w)).
Proof.
  intros H. rewrite <- (serialize_srd_render w H). unfold serialize_srd. rewrite concat_sep_parts.
  do 2 f_equal. f_equal. apply List.map_ext. intros p. unfold path_parts. rewrite !concat_app, concat_sep_parts.
  cbn [concat]. rewrite !app_nil_r, <- !app_assoc. do 3 f_equal. f_equal. apply List.map_ext. intros h.
  unfold hash_parts. cbn [concat]. by rewrite app_nil_r.
Qed.

Lemma meta_files_text w d :
  Forall file_ok (checked_files w) →
  str "[" ++ concat (file_parts (checked_files w)) ++ str "]"
  = render compact d (JArray (checked_files w)).
Proof.
  intros Hf. rewrite file_parts_join. cbn [render lo_comma compact]. do 2 f_equal.
  change (str ",") with [chr 44]. f_equal. apply map_ext_in. intros f Hin%list_elem_of_In.
  rewrite Forall_forall in Hf. unfold dump. rewrite dump_at_render. apply strip_dump. by apply file_ok_text, Hf.
Qed.

Lemma meta_text w :
  storable w →
  concat (meta_parts w) = SWORKER_PRIVATE_TAG ++ render compact 1 (JObject (meta_fields w)).
Proof.
  intros Hw. rewrite render_object.
  assert (∀ m, m ≠ [] → match m with [] => lo_empty compact | _ =>
    join [chr 44] (map (field compact 1) (map (λ p, (p.1, render compact 2 p.2)) m)) end
    = join (str ",") (map (λ p : bytes * json, quote p.1 ++ str ":" ++ render compact 2 p.2) m)) as Hj.
  { intros m Hm. destruct m; [done|]. rewrite map_map. done. }
  rewrite Hj by done. clear Hj.
  pose proof (hex_escape (key_bytes (id_key_pair w))) as Ek. pose proof (hex_escape (pre_pub_key w)) as Ep.
  destruct (st_account w Hw) as [Ha _]. apply escape_id in Ha.
  assert (∀ j, render compact 2 (JString j) = quote (json_escape j)) as Es by done.
  assert (∀ z, render compact 2 (JIntegral z) = to_string z) as Ez by done.
  assert (map (λ p : bytes * json, quote p.1 ++ str ":" ++ render compact 2 p.2) (meta_fields w) =
    [quote ID_WORKLOAD ++ str ":" ++ str "{" ++ concat (sep_parts path_parts (srd_path2hashs_m w)) ++ str "}";
     quote ID_KEY_PAIR ++ str ":" ++ quote (hexstring_safe (key_bytes (id_key_pair w)));
     quote ID_REPORT_HEIGHT ++ str ":" ++ to_string (report_height w);
     quote ID_CHAIN_ACCOUNT_ID ++ str ":" ++ quote (account_id w)]
    ++ (if is_upgrade w then [quote ID_PRE_PUB_KEY ++ str ":" ++ quote (hexstring_safe (pre_pub_key w))] else [])
    ++ [quote ID_FILE ++ str ":" ++ str "[" ++ concat (file_parts (checked_files w)) ++ str "]"]) as ->.
  { unfold meta_fields. rewrite !map_app. cbn [map fst snd]. rewrite (render_compact_depth (srd_json _) 2 1).
    rewrite <- meta_srd_text, <- (meta_files_text w 2), Ez, !Es by apply Hw.
    unfold get_account_id, get_key_pair, get_report_height. rewrite Ek, Ha.
    destruct (is_upgrade w); cbn [map fst snd]; [by rewrite Es, Ep|done]. }
  clear Es Ez Ek Ep Ha. unfold meta_parts, get_key_pair, get_report_height, get_account_id.
  rewrite !concat_app. cbn [concat app].
  generalize (concat (sep_parts path_parts (srd_path2hashs_m w))) (concat (file_parts (checked_files w)))
    (quote (hexstring_safe (key_bytes (id_key_pair w)))) (quote (hexstring_safe (pre_pub_key w)))
    (quote (account_id w)) (to_string (report_height w)) (quote ID_WORKLOAD) (quote ID_KEY_PAIR)
    (quote ID_REPORT_HEIGHT) (quote ID_CHAIN_ACCOUNT_ID) (quote ID_PRE_PUB_KEY) (quote ID_FILE).
  intros. destruct (is_upgrade w); cbn [app join concat str String.list_ascii_of_string lo_close compact];
    repeat (rewrite <- app_assoc; cbn [app]); rewrite ?app_nil_r; done.
Qed.

Lemma meta_srd_length w :
  storable w →
  zlen (concat (sep_parts path_parts (srd_path2hashs_m w)))
  <= map_total (srd_path2hashs_m w) * (64 + 3) + zlen (srd_path2hashs_m w) * (128 + 4).
Proof.
  intros Hw. destruct (st_srd w Hw) as [_ Hf]. pose proof (st_paths w Hw) as Hp.
  etransitivity; [apply (sep_parts_length _ (λ p, zlen p.2 * 67 + 132))|].
  - rewrite Forall_forall in *. intros [path hs] Hin. specialize (Hf _ Hin) as (_ & _ & Hl).
    specialize (Hp _ Hin). cbn [fst snd] in *. unfold path_parts. rewrite !concat_app, !zlen_app.
    pose proof (sep_parts_length hash_parts (λ _, 67) hs) as Hh. unfold quote. cbn [concat fst snd].
    assert (foldr (λ (_ : bytes) n, 67 + n) 0 hs = zlen hs * 67) as E.
    { clear. induction hs as [|h hs IH]; [done|]. cbn [foldr]. rewrite IH, zlen_cons. lia. }
    cbv beta in Hh. rewrite E in Hh. specialize (Hh ltac:(rewrite Forall_forall in Hl |- *; intros h Hin2;
      unfold hash_parts; cbn [concat]; unfold quote; rewrite app_nil_r, zlen_cons, zlen_app,
        hexstring_safe_length, take_ge by (rewrite Hl; done);
      unfold zlen; rewrite Hl by done; cbn; lia)).
    unfold zlen in *.
    repeat (rewrite ?length_app; cbn [List.length app concat str String.list_ascii_of_string]). lia.
  - clear. induction (srd_path2hashs_m w) as [|[k hs] m IH]; [done|].
    cbn [foldr map_total fst snd]. rewrite zlen_cons. lia.
Qed.

Lemma file_parts_fit l :
  Forall file_ok l → zlen (concat (file_parts l)) <= zlen l * file_item_len.
Proof.
  intros Hf. destruct l as [|f l]; [done|]. pose proof (file_parts_length (f :: l) ltac:(done) Hf). lia.
Qed.

(** The buffer has room for everything that is copied into it. *)
Lemma meta_fits w : storable w → zlen (concat (meta_parts w)) <= meta_len w.
Proof.
  intros Hw. pose proof (meta_srd_length w Hw) as Hs. pose proof (file_parts_fit _ (st_files w Hw)) as Hf.
  pose proof (to_string_length (report_height w) 20 ltac:(pose proof (st_height w Hw); lia) ltac:(lia)) as Hh.
  pose proof (st_account_length w Hw) as Ha. pose proof (key_bytes_length w Hw) as Hk.
  pose proof (hexstring_safe_length (key_bytes (id_key_pair w))) as Hk2. rewrite Hk in Hk2.
  pose proof (hexstring_safe_length (pre_pub_key w)) as Hp.
  pose proof (st_pre_pub_key w Hw) as Hpre.
  unfold meta_parts, meta_len, get_key_pair, get_report_height, get_account_id.
  change file_item_len with 244 in *.
  revert Hs Hf Hh Ha Hk2 Hp Hpre.
  rewrite !concat_app. cbn [concat]. rewrite !app_nil_r.
  generalize (map_total (srd_path2hashs_m w)) (concat (sep_parts path_parts (srd_path2hashs_m w))).
  intros T S. generalize (concat (file_parts (checked_files w))). intros F.
  generalize (hexstring_safe (key_bytes (id_key_pair w))) (hexstring_safe (pre_pub_key w))
    (to_string (report_height w)) (account_id w). intros K P H A. intros.
  unfold quote, KEY_PAIR_SIZE, PUB_KEY_SIZE, zlen in *.
  destruct (is_upgrade w); [rewrite Hpre in Hp by done|];
    repeat (rewrite ?length_app; cbn [List.length app concat str String.list_ascii_of_string
      SWORKER_PRIVATE_TAG ID_WORKLOAD ID_KEY_PAIR ID_REPORT_HEIGHT ID_CHAIN_ACCOUNT_ID ID_PRE_PUB_KEY ID_FILE]);
    lia.
Qed.

Lemma meta_fields_ok w : storable w → Forall (λ p, key_reads Raw p.1 ∧ text_ok Raw p.2) (meta_fields w).
Proof.
  intros Hw. destruct (st_account w Hw) as [_ Ha].
  assert (text_ok Raw (srd_json (srd_path2hashs_m w))) as Hs by (apply srd_json_ok; [done|apply Hw]).
  assert (text_ok Raw (JIntegral (get_report_height w))) as Hh.
  { constructor. pose proof (st_height w Hw). unfold get_report_height. lia. }
  unfold meta_fields. apply Forall_app; split; [|apply Forall_app; split].
  - repeat (apply List.Forall_cons; [split; [apply key_reads_enclave; [done|key_ok]|cbn [snd]]|]); try apply List.Forall_nil;
      try done; constructor; [apply hex_no_tag|done].
  - destruct (is_upgrade w); [|apply List.Forall_nil]. apply Forall_singleton. cbn [snd].
    split; [apply key_reads_enclave; [done|key_ok]|]. constructor. apply hex_no_tag.
  - apply Forall_singleton. cbn [snd]. split; [apply key_reads_enclave; [done|key_ok]|]. constructor.
    eapply Forall_impl; [apply (st_files w Hw)|]. intros f Hf. by apply file_ok_text.
Qed.

(** The object the text is read back as *)
Definition meta_json (w : workload) : json := JObject (map_build [] (meta_fields w)).
Lemma meta_load w : storable w → Load Raw (render compact 1 (JObject (meta_fields w))) = Ok (meta_json w).
Proof. intros Hw. apply load_fields; [apply _|]. by apply meta_fields_ok. Qed.

Lemma meta_json_fields w :
  json_size (meta_json w) = (if is_upgrade w then 6 else 5) ∧
  jkey ID_KEY_PAIR (meta_json w) = JString (hexstring_safe (key_bytes (id_key_pair w))) ∧
  jkey_touch ID_KEY_PAIR (meta_json w) = meta_json w ∧
  jkey ID_WORKLOAD (meta_json w) = srd_json (srd_path2hashs_m w) ∧
  jkey ID_FILE (meta_json w) = JArray (checked_files w) ∧
  jkey ID_REPORT_HEIGHT (meta_json w) = JIntegral (report_height w) ∧
  jkey ID_CHAIN_ACCOUNT_ID (meta_json w) = JString (account_id w) ∧
  hasKey ID_PRE_PUB_KEY (meta_json w) = is_upgrade w ∧
  (is_upgrade w = true → jkey ID_PRE_PUB_KEY (meta_json w) = JString (hexstring_safe (pre_pub_key w))).
Proof. unfold meta_json, meta_fields. by destruct (is_upgrade w). Qed.

(** ** Saving and restoring, against a database that behaves *)
Section spec.
Context {W : Type} `{!Host W} `{!DbLaws W} `{!DbHealthy W} `{!SealLaws W}.
Implicit Types (e : enclave W) (f : view).

Lemma twp_store_metadata e f (Q : crust_status → enclave W → Prop) :
  storable (wl e) → upgrade_status (wl e) ≠ ENC_UPGRADE_STATUS_SUCCESS →
  zlen (strip (dump (wl_spec_info (wl e)))) < 2 ^ 50 → meta_len (wl e) < 2 ^ 63 →
  db_is e e f → sum_fine f DB_WL_SPEC_INFO → sum_fine f ID_METADATA →
  (∀ st e' f', db_is e e' f' →
     stored f' DB_WL_SPEC_INFO (strip (dump (wl_spec_info (wl e)))) →
     (st = CRUST_SUCCESS → stored_sealed f' ID_METADATA (concat (meta_parts (wl e)))) →
     (∀ k, ¬ family DB_WL_SPEC_INFO k → ¬ family ID_METADATA k → f' k = f k) → Q st e') →
  twp id_store_metadata Q e.
Proof.
  intros Hw Hup Hspec Hlen He Hf1 Hf2 HQ. unfold id_store_metadata. twp_wl.
  rewrite bool_decide_false by done. twp_wl.
  pose proof (meta_fits _ Hw) as Hfit. pose proof (zlen_nonneg (concat (meta_parts (wl e)))).
  eapply twp_persist_set_unsafe; [exact He|done|done|]. intros e1 f1 He1 Hst _ Ho1. twp_wl.
  apply twp_malloc; [cbn; lia|]. cbn [negb]. twp_wl.
  eapply twp_of_res; [by apply put_all_fits|]. cbn [app].
  assert (∀ k, family ID_METADATA k → ¬ family DB_WL_SPEC_INFO k) as Hd.
  { intros k. by apply family_disjoint. }
  eapply twp_persist_set; [exact He1| | |].
  - eapply sum_fine_other; [|exact Hf2]. intros k Hk. by apply Ho1, Hd.
  - intros st e2 He2 Hne. eapply HQ; [exact He2|exact Hst|done|]. intros k Hk _. by apply Ho1.
  - intros e2 f2 He2 Hs2 _ Ho2. eapply HQ; [exact He2| |done|].
    + eapply stored_other; [|exact Hst]. intros k Hk. apply Ho2. intros Hk2. by apply Hd in Hk2.
    + intros k Hk1 Hk2. rewrite Ho2 by done. by apply Ho1.
Qed.

Lemma twp_get_metadata e f w0 (Q : crust_status * json → enclave W → Prop) :
  storable w0 → db_is e e f → stored_sealed f ID_METADATA (concat (meta_parts w0)) →
  (∀ st w, db_is (with_world w e) (with_world w e) f → Q (st, meta_json w0) (with_world w e)) →
  twp id_get_metadata Q e.
Proof.
  intros Hw He Hs HQ. unfold id_get_metadata. twp_step.
  eapply twp_persist_get; [exact He|exact Hs|]. intros e1 [[w ->] Hdb].
  rewrite meta_text by done. set (txt := render compact 1 _).
  assert (txt ≠ []) as Hne.
  { subst txt. rewrite render_object. done. }
  assert (0 < zlen txt) as Hpos by (destruct txt; [done|]; rewrite zlen_cons; pose proof (zlen_nonneg txt); lia).
  rewrite zlen_app. change (zlen SWORKER_PRIVATE_TAG) with 23.
  destruct (Z.eqb_spec (23 + zlen txt) 0); [lia|]. destruct (Z.leb_spec (23 + zlen txt) 23); [lia|].
  twp_step. eapply twp_of_res.
  { rewrite drop_app_length. by apply meta_load. }
  destruct (meta_json_fields w0) as (Hsz & Hk & Ht & _). rewrite Hsz, Hk.
  destruct (Z.eqb_spec (if is_upgrade w0 then 6 else 5) 0); [by destruct (is_upgrade w0)|].
  cbn [ToString]. rewrite hex_escape. cbv zeta. rewrite Ht.
  pose proof (key_bytes_length w0 Hw) as Hlen.
  rewrite hex_roundtrip by by intros E; rewrite E in Hlen.
  assert (∀ st, Q (st, meta_json w0) (with_world w e)) as HQ'.
  { intros st. apply HQ. by apply db_is_refl. }
  twp_wl. destruct (try_get_key_pair _); [|apply HQ'].
  twp_wl. eapply twp_of_res; [by apply copy_exact|]. case_bool_decide; apply HQ'.
Qed.

(** The assigned space of the restored paths *)
Definition restored_info (m : list (bytes * list bytes)) (info : json) : json :=
  foldl (λ info p, jkey_update p.1 (jkey_set WL_ASSIGNED (jint (zlen p.2))) info) info m.

Lemma restore_srd_ok m w :
  srd_ok m →
  restore_srd (srd_json m) w =
    (CRUST_SUCCESS, with_srd_info_json (restored_info m (srd_info_json w)) (with_srd_path2hashs_m m w)).
Proof.
  intros [Hm Hf]. unfold restore_srd, srd_json. cbn [ObjectRange as_object].
  rewrite (restore_paths_spec m []); [done|done|].
  eapply Forall_impl; [exact Hf|]. by intros p (_ & ? & ?).
Qed.

(** What the restarted enclave has in common with the one that saved its metadata *)
Record remembers (w w' : workload) : Prop := {
  rm_srd : srd_path2hashs_m w' = srd_path2hashs_m w;
  rm_files : checked_files w' = checked_files w;
  rm_key : id_key_pair w' = id_key_pair w ∧ is_set_key_pair w' = true;
  rm_height : report_height w' = report_height w;
  rm_account : account_id w' = account_id w;
  rm_spec : wl_spec_info w' = wl_spec_info w;
  rm_upgrade : upgrade w = true → upgrade w' = true ∧ pre_pub_key w' = pre_pub_key w;
  rm_restart : restart_flag w' = true
}.

(** Statistics that survive being printed and stripped *)
Definition spec_text_ok (j : json) : Prop :=
  text_ok Text j ∧ plain_text j ∧ not_number j ∧ zlen (strip (dump j)) < 2 ^ 50.

Lemma twp_restore_spec e f j (Q : unit → enclave W → Prop) :
  spec_text_ok j → db_is e e f → stored f DB_WL_SPEC_INFO (strip (dump j)) →
  (∀ e' w, e' = with_wl (with_wl_spec_info j (wl e)) (with_world w e) → db_is e' e' f → Q tt e') →
  twp restore_spec Q e.
Proof.
  intros (Ht & Hp & Hn & Hl) He Hs HQ. unfold restore_spec. twp_step.
  eapply twp_get_stored; [exact Hl|exact He|exact Hs|]. intros e1 [[w ->] Hdb]. twp_wl.
  unfold restore_wl_spec_info. rewrite load_strip_dump_ok by done. eapply twp_of_res; [done|].
  apply twp_on_wl. eapply HQ; [done|]. by apply db_is_refl.
Qed.

Lemma twp_restore_metadata e f w0 (Q : crust_status → enclave W → Prop) :
  storable w0 → spec_text_ok (wl_spec_info w0) →
  zlen (dump (restored_info (srd_path2hashs_m w0) (srd_info_json (wl e)))) < 2 ^ 50 →
  db_is e e f → sum_fine f DB_SRD_INFO →
  stored f DB_WL_SPEC_INFO (strip (dump (wl_spec_info w0))) →
  stored_sealed f ID_METADATA (concat (meta_parts w0)) →
  (∀ e', remembers w0 (wl e') → Q CRUST_SUCCESS e') →
  twp id_restore_metadata Q e.
Proof.
  intros Hw Hspec Hinfo He Hsum Hst Hmeta HQ. unfold id_restore_metadata.
  destruct (meta_json_fields w0) as (Hsz & Hk & Ht & Hwl & Hf & Hh & Ha & Hpk & Hpre).
  twp_step. eapply twp_get_metadata; [exact Hw|exact He|exact Hmeta|]. intros st w1 He1.
  cbn [snd]. cbv zeta. rewrite Hsz.
  destruct (Z.leb_spec (if is_upgrade w0 then 6 else 5) 0); [by destruct (is_upgrade w0)|].
  twp_step. eapply twp_restore_spec; [exact Hspec|exact He1|exact Hst|]. intros e2 w2 -> He2.
  rewrite Hwl. change (is_object (srd_json ?m)) with true. cbv iota. twp_wl. cbn [wl with_wl with_world].
  rewrite restore_srd_ok by apply Hw.
  twp_wl. cbn [is_success negb]. twp_wl. cbn [wl with_wl get_srd_info].
  set (e3 := with_wl (with_srd_info_json _ _) _).
  assert (db_is e3 e3 f) as He3 by (apply db_is_refl; exact (proj2 He2)).
  eapply twp_persist_set_unsafe; [exact He3|done|exact Hinfo|].
  intros e4 f4 [[w4 ->] Hdb4] _ _ _. twp_wl. unfold restore_files. rewrite Hf. cbn [is_array json_size as_array].
  rewrite i32_small by (pose proof (st_number w0 Hw); pose proof (zlen_nonneg (checked_files w0)); lia).
  destruct (Z.ltb_spec (zlen (checked_files w0)) 0); [pose proof (zlen_nonneg (checked_files w0)); lia|].
  apply twp_on_wl. rewrite Hk. cbn [ToString]. rewrite hex_escape.
  pose proof (key_bytes_length w0 Hw) as Hlen. rewrite hex_roundtrip by by intros E; rewrite E in Hlen.
  twp_wl. eapply twp_of_res; [by apply copy_exact|]. rewrite key_bytes_id by apply Hw.
  twp_wl. rewrite Hh. cbn [ToInt]. rewrite u64_small by (pose proof (st_height w0 Hw); lia).
  unfold restore_pre_pub_key. rewrite Hpk, Ha. cbn [ToString].
  destruct (st_account w0 Hw) as [Hacc _]. apply escape_id in Hacc.
  destruct (is_upgrade w0) eqn:Eu.
  - rewrite Hpre by done. cbn [ToString]. rewrite hex_escape.
    pose proof (st_pre_pub_key w0 Hw Eu) as Hl. rewrite hex_roundtrip by by intros E; rewrite E in Hl.
    twp_wl. eapply twp_of_res; [by apply copy_exact|]. twp_wl. cbn [is_success negb]. twp_wl.
    apply HQ. by constructor.
  - twp_wl. cbn [is_success negb]. twp_wl. apply HQ. constructor; try done. cbn. unfold is_upgrade in Eu. congruence.
Qed.
End spec.

(** ** Properties *)

Section properties.
Context {W : Type} `{!Host W} `{!DbLaws W} `{!DbHealthy W} `{!SealLaws W}.
Implicit Types (e : enclave W) (f : view).

(** C11: what [id_store_metadata] saves, a restarted enclave restores: whenever it
    reports success, [id_restore_metadata] in any enclave over the same database
    succeeds and leaves the srd hashes, the checked files, the key pair, the report
    height, the account, the statistics and the key of the previous version as they
    were when they were saved, and marks the restart, as long as no write or
    deletion of the database fails: the status of the one that stores the statistics
    is not tested.  The buffer always has room for what is written. *)
Theorem metadata_roundtrip e f :
  storable (wl e) → upgrade_status (wl e) ≠ ENC_UPGRADE_STATUS_SUCCESS →
  spec_text_ok (wl_spec_info (wl e)) → meta_len (wl e) < 2 ^ 63 →
  db_is e e f → sum_fine f DB_WL_SPEC_INFO → sum_fine f ID_METADATA → sum_fine f DB_SRD_INFO →
  twp id_store_metadata (λ st e', st = CRUST_SUCCESS →
    ∀ e2, world e2 = world e' →
      zlen (dump (restored_info (srd_path2hashs_m (wl e)) (srd_info_json (wl e2)))) < 2 ^ 50 →
      twp id_restore_metadata (λ st2 e3, st2 = CRUST_SUCCESS ∧ remembers (wl e) (wl e3)) e2) e.
Proof.
  intros Hw Hup Hspec Hlen He H1 H2 H3. pose proof Hspec as (_ & _ & _ & Hl).
  eapply twp_store_metadata; [done..|]. intros st e' f' [_ Hdb] Hst Hmeta Ho -> e2 Ew Hinfo.
  eapply (twp_restore_metadata e2 f' (wl e)); [done..| | |exact Hst|by apply Hmeta|done].
  - apply db_is_refl. by rewrite Ew.
  - eapply sum_fine_other; [|exact H3]. intros k Hk. apply Ho; revert Hk; by apply family_disjoint.
Qed.
End properties.

Section account.
Context {W : Type} `{!Host W}.
Implicit Types (e : enclave W).

(** [id_cmp_chain_account_id] succeeds exactly on the prefixes of the stored
    account (its terminator included), the empty text among them, and changes
    nothing; longer texts are read past the end of the account. *)
Theorem cmp_account_prefix e account st e' :
  id_cmp_chain_account_id account e = Ok (st, e') →
  e' = e ∧ (st = CRUST_SUCCESS ↔ account `prefix_of` account_id (wl e) ++ [chr 0]).
Proof.
  unfold id_cmp_chain_account_id, get_wl, gets, mbind, m_bind. unfold get_account_id.
  destruct (_ <? _); [done|]. case_bool_decide as E; intros [= <- <-]; (split; [done|]); split; try done.
  - intros _. exists (drop (List.length account) (account_id (wl e) ++ [chr 0])).
    by rewrite <- E at 1; rewrite take_drop.
  - intros [r Hr]. destruct E. rewrite Hr. by rewrite take_app_length.
Qed.
End account.

Section key_pair.
Context {W : Type} `{!Host W} `{!IdHost W}.
Implicit Types (e : enclave W).

(** [id_gen_key_pair] succeeds only once: with a key pair already set, or
    without an account, it changes nothing at all; otherwise a success installs the
    new pair and the account and a failure leaves the workload as it was. *)
Theorem gen_key_pair_once e account st e' :
  id_gen_key_pair account e = Ok (st, e') →
  (is_set_key_pair (wl e) = true ∨ account = None ∨ account = Some [] →
     st = SGX_ERROR_UNEXPECTED ∧ e' = e) ∧
  (st ≠ SGX_SUCCESS → wl e' = wl e) ∧
  (st = SGX_SUCCESS → ∃ id w pri pub, account = Some id ∧
     (sgx_ecc256_create_key_pair w).1 = (SGX_SUCCESS, (pri, pub)) ∧
     wl e' = set_account_id id (set_key_pair (EccKeyPair pub pri) (wl e))).
Proof.
  unfold id_gen_key_pair, get_wl, gets, host, zoom, on_wl, modify, mbind, m_bind, mret, m_ret, try_get_key_pair.
  destruct (is_set_key_pair (wl e)).
  { intros [= <- <-]. split_and!; [done..|]. done. }
  destruct account as [[|c id]|]; try (intros [= <- <-]; by split_and!).
  destruct (sgx_ecc256_open_context (world e)) as [se1 w1] eqn:E1.
  destruct (negb (sgx_ok se1)) eqn:Es1.
  { intros [= <- <-]. split_and!; [naive_solver|done|]. by intros ->. }
  change (world (with_world w1 e)) with w1 in *.
  destruct (sgx_ecc256_create_key_pair w1) as [[se2 [pri pub]] w2] eqn:E2.
  destruct (negb (sgx_ok se2)) eqn:Es2.
  { intros [= <- <-]. split_and!; [naive_solver|done|]. by intros ->. }
  intros [= <- <-]. split_and!; [naive_solver|done|]. intros _.
  exists (c :: id), w1, pri, pub. split_and!; [done|rewrite E2; cbn; f_equal; by destruct se2|done].
Qed.
End key_pair.

(** ** Witnesses *)
Definition demo_id_workload : workload :=
  with_account_id (str "cTGVGrF") (with_wl_spec_info wl_spec_initial
    (with_checked_files [demo_file "f"%char (str "110")]
      (with_srd_path2hashs_m [(str "/a", [demo_hash "x"%char]); (str "/b", [demo_hash "z"%char])]
        demo_workload))).
Definition demo_id_enclave : enclave demo := with_wl demo_id_workload demo_enclave.

Lemma demo_storable : storable demo_id_workload.
Proof.
  constructor; try done.
  - split; [by repeat constructor|].
    repeat (apply List.Forall_cons; [split_and!; [key_ok|done|by apply Forall_singleton]|]); apply List.Forall_nil.
  - repeat (apply List.Forall_cons; [done|]). apply List.Forall_nil.
  - apply Forall_singleton; by repeat constructor.
  - key_ok.
Qed.

Lemma demo_spec_ok : spec_text_ok wl_spec_initial.
Proof.
  split_and!; [| |done|by vm_compute].
  all: vm_compute; repeat first
    [ done | apply List.Forall_nil | apply List.Forall_cons | split | constructor ].
Qed.

Lemma metadata_roundtrip_witness :
  twp id_store_metadata (λ st e', st = CRUST_SUCCESS →
    ∀ e2, world e2 = world e' →
      zlen (dump (restored_info (srd_path2hashs_m demo_id_workload) (srd_info_json (wl e2)))) < 2 ^ 50 →
      twp id_restore_metadata
        (λ st2 e3, st2 = CRUST_SUCCESS ∧ remembers demo_id_workload (wl e3)) e2) demo_id_enclave.
Proof.
  apply (metadata_roundtrip demo_id_enclave (λ _, None));
    [exact demo_storable|discriminate|exact demo_spec_ok|reflexivity
    |exact (demo_db_is demo_id_enclave)|by left|by left|by left].
Defined.

(** The saving does report success, and the whole run evaluates: an enclave with
    another key pair takes over the one in the metadata, in spite of the test in
    [id_get_metadata]. *)
Definition demo_other_keys : ecc_key_pair := EccKeyPair (replicate 64 (chr 7)) (replicate 32 (chr 8)).
Definition demo_restored : option (crust_status * crust_status * crust_status * ecc_key_pair) :=
  match id_store_metadata demo_id_enclave with
  | Ok (st1, e1) =>
      let e2 := with_wl (set_key_pair demo_other_keys demo_workload) e1 in
      match id_get_metadata e2, id_restore_metadata e2 with
      | Ok ((st2, _), _), Ok (st3, e3) => Some (st1, st2, st3, id_key_pair (wl e3))
      | _, _ => None
      end
  | _ => None
  end.
Example restore_ignores_key_check :
  demo_restored = Some (CRUST_SUCCESS, CRUST_INVALID_META_DATA, CRUST_SUCCESS, id_key_pair demo_id_workload).
Proof. vm_compute. reflexivity. Qed.

(** A path of 400 characters does not fit the 128 reserved for it. *)
Example store_metadata_long_path :
  id_store_metadata (with_wl
    (with_srd_path2hashs_m [(replicate 400 "/"%char, [demo_hash "x"%char])] demo_id_workload) demo_enclave) = UB.
Proof. vm_compute. reflexivity. Qed.

Lemma cmp_account_prefix_witness :
  id_cmp_chain_account_id (str "cTG") demo_id_enclave = Ok (CRUST_SUCCESS, demo_id_enclave) ∧
  str "cTG" `prefix_of` str "cTGVGrF" ++ [chr 0].
Proof.
  split; [reflexivity|].
  apply (proj2 (cmp_account_prefix demo_id_enclave (str "cTG") CRUST_SUCCESS demo_id_enclave eq_refl)).
  reflexivity.
Defined.

#[global] Instance demo_id_host : IdHost demo := {
  sgx_ecc256_create_key_pair w := ((SGX_SUCCESS, (replicate 32 (chr 5), replicate 64 (chr 6))), w);
  sgx_create_report target data w := ((SGX_SUCCESS, default [] target ++ data), w);
  report_mr_enclave r := take 32 r;
  ocall_store_enclave_id_info _ w := w
}.

Definition demo_unkeyed : enclave demo := with_wl (with_is_set_key_pair false demo_workload) demo_enclave.
Definition demo_keyed : enclave demo :=
  match id_gen_key_pair (Some (str "acc")) demo_unkeyed with Ok (_, e) => e | _ => demo_enclave end.
Lemma demo_keyed_ok : id_gen_key_pair (Some (str "acc")) demo_unkeyed = Ok (SGX_SUCCESS, demo_keyed).
Proof. vm_compute. reflexivity. Qed.
Lemma gen_key_pair_once_witness :
  ∃ id w pri pub, Some (str "acc") = Some id ∧
    (sgx_ecc256_create_key_pair (w : demo)).1 = (SGX_SUCCESS, (pri, pub)) ∧
    wl demo_keyed = set_account_id id (set_key_pair (EccKeyPair pub pri) (wl demo_unkeyed)).
Proof.
  apply (proj2 (proj2 (gen_key_pair_once demo_unkeyed (Some (str "acc")) SGX_SUCCESS demo_keyed demo_keyed_ok))).
  reflexivity.
Defined.
