(* ===== verification/Upgrade.v ===== *)
(** * Handing the workload over to a new version (enclave/identity/Identity.cpp)

    [id_gen_upgrade_data]: the old enclave reports once more, signs its workload and
    hands it to the application; [id_restore_from_upgrade]: the new one collects the
    pieces, restores the workload, checks signature and roots and takes the place of
    the old one on the network. *)
From S2P Require Import Prelude StdMap Status Hex Json JsonParse JsonText Host.
From S2P Require Import State Demo Merkle Persist Workload Report Srd Identity.

Class UpgradeHost (W : Type) := {
  (* message, public key, signature: the status and whether it is valid *)
  sgx_ecdsa_verify : bytes → bytes → bytes → sgx_status * bool;
  ocall_get_block_hash : Z → W → (crust_status * bytes) * W;
  ocall_store_upgrade_data : bytes → bool → W → W;
  ocall_entry_network : W → crust_status * W
}.

(** ** Heights and numbers *)

(** The loop that counts eras up to the block height *)
Fixpoint era_height (fuel : nat) (block_height report_height : Z) : Z :=
  match fuel with
  | O => report_height
  | S fuel =>
      if ERA_LENGTH <? u64 (block_height - report_height)
      then era_height fuel block_height (u64 (report_height + ERA_LENGTH))
      else report_height
  end.
Definition era_fuel (block_height report_height : Z) : nat :=
  S (Z.to_nat ((block_height - report_height) / ERA_LENGTH)).

Definition upgrade_wait (random_time : Z) : Z :=
  (random_time mod (UPGRADE_WAIT_BLOCK_MAX - UPGRADE_WAIT_BLOCK_MIN + 1) + UPGRADE_WAIT_BLOCK_MIN)
  * BLOCK_TIME_BASE.

(** [std::atoi]; a value outside [int] is undefined. *)
Definition atoi (s : bytes) : res Z :=
  let s := skip_ws s in
  let '(neg, s) := match s with
                   | c :: r => if code c =? 45 then (true, r) else if code c =? 43 then (false, r) else (false, s)
                   | [] => (false, []) end in
  let v := dec_value (span_digits s).1 in
  let v := if neg : bool then - v else v in
  if (- 2 ^ 31 <=? v) && (v <? 2 ^ 31) then Ok v else UB.

(** ** The texts *)

(** What is signed *)
Definition upgrade_sig_parts (pub height block_hash srd_root files_root : bytes) : list bytes :=
  [pub; height; block_hash; srd_root; files_root].
Definition upgrade_sig_len (height block_hash : bytes) : Z :=
  PUB_KEY_SIZE + zlen height + zlen block_hash + 32 + 32.

(** The pieces of the upgrade data *)
Definition upgrade_parts (pub height block_hash srd files srd_root files_root sig : bytes) : list bytes :=
  [str "{" ++ quote UPGRADE_PUBLIC_KEY ++ str ":" ++ quote (hexstring_safe pub);
   str "," ++ quote UPGRADE_BLOCK_HEIGHT ++ str ":" ++ height;
   str "," ++ quote UPGRADE_BLOCK_HASH ++ str ":" ++ quote block_hash;
   str "," ++ quote UPGRADE_SRD ++ str ":"; srd;
   str "," ++ quote UPGRADE_FILE ++ str ":"; files;
   str "," ++ quote UPGRADE_SRD_ROOT ++ str ":" ++ quote srd_root;
   str "," ++ quote UPGRADE_FILE_ROOT ++ str ":" ++ quote files_root;
   str "," ++ quote UPGRADE_SIG ++ str ":" ++ quote (hexstring_safe sig) ++ str "}"].

(** [wl_info[name].ToBytes()], copied: undefined on NULL *)
Definition root_bytes (name : bytes) (wl_info : json) : res bytes :=
  match ToBytes (jkey name wl_info) with Some h => copy 32 h | None => UB end.

(** ** Receiving the data

    [g_upgrade_buffer] with its capacity, and what was copied into it so far;
    [g_upgrade_buffer_offset] is the length of the latter. *)
Record upgrade_buffer := UpgradeBuffer { ub_size : Z; ub_data : bytes }.
Definition no_upgrade_buffer : upgrade_buffer := UpgradeBuffer 0 [].

Section upgrade.
Context {W : Type} `{!Host W} `{!UpgradeHost W} `{!Threads W}.
Abbreviation M := (M (enclave W)).

(** [store_large_data(_, ocall_store_upgrade_data)] *)
Definition store_upgrade_data (data : bytes) : M unit :=
  for_each (store_large_data data) (λ p, host_ (ocall_store_upgrade_data p.1 p.2)).

(** The second half of [id_gen_upgrade_data]: collect, sign, store *)
Definition export_upgrade (report_height : Z) (report_hash : bytes) : M crust_status :=
  let report_height_str := to_string report_height in
  srd_str ← get_wl serialize_srd;
  r ← serialize_file;
  wl_info ← gen_workload_info;
  let '(st, p_files) := r in
  if negb (is_success st) then mret st
  else
    sgx_status ← host sgx_ecc256_open_context;
    if negb (sgx_ok sgx_status) then mret CRUST_SGX_SIGN_FAILED
    else
      let len := upgrade_sig_len report_height_str report_hash in
      ok ← enc_malloc len;
      if negb ok then mret CRUST_MALLOC_FAILED
      else
        keys ← get_wl get_key_pair;
        srd_root ← of_res (root_bytes WL_SRD_ROOT_HASH wl_info);
        files_root ← of_res (root_bytes WL_FILE_ROOT_HASH wl_info);
        sigbuf ← of_res (put_all len []
          (upgrade_sig_parts (pub_key keys) report_height_str report_hash srd_root files_root));
        sig ← host (sgx_ecdsa_sign (pri_key keys) sigbuf);
        match sig with
        | None => mret CRUST_SGX_SIGN_FAILED
        | Some sig =>
            let parts := upgrade_parts (pub_key keys) report_height_str report_hash srd_str p_files
              (ToString (jkey WL_SRD_ROOT_HASH wl_info)) (ToString (jkey WL_FILE_ROOT_HASH wl_info)) sig in
            let len := zlen (concat parts) in
            ok ← enc_malloc len;
            if negb ok then mret CRUST_MALLOC_FAILED
            else
              upgrade_buffer ← of_res (put_all len [] parts);
              store_upgrade_data upgrade_buffer;;
              mret CRUST_SUCCESS
        end.

Definition gen_upgrade_data (block_height : Z) : M crust_status :=
  report_height ← get_wl get_report_height;
  if block_height <=? report_height then mret CRUST_UNEXPECTED_ERROR
  else if u64 (u64 (block_height - report_height) - WORKREPORT_REPORT_INTERVAL) <? ERA_LENGTH
  then mret CRUST_UPGRADE_WAIT_FOR_NEXT_ERA
  else
    let report_height := era_height (era_fuel block_height report_height) block_height report_height in
    ok ← enc_malloc (HASH_LENGTH * 2);
    if negb ok then mret CRUST_MALLOC_FAILED
    else
      r ← host (ocall_get_block_hash report_height);
      if negb (is_success r.1) then mret CRUST_UPGRADE_GET_BLOCK_HASH_FAILED
      else
        let report_hash := take 64 r.2 in
        rand ← host (sgx_read_rand 8);
        st ← gen_and_upload_work_report report_hash report_height (upgrade_wait (le_value rand)) false;
        if negb (is_success st) then mret CRUST_UPGRADE_GEN_WORKREPORT_FAILED
        else export_upgrade report_height report_hash.

Definition id_gen_upgrade_data (block_height : Z) : M crust_status :=
  st ← gen_upgrade_data block_height;
  (if is_success st then on_wl (set_upgrade_status ENC_UPGRADE_STATUS_SUCCESS) else mret tt);;
  mret st.

(** ** Restoring *)

(** A piece arrives; [Some] text once the transfer is at its end. *)
Definition receive_upgrade (b : upgrade_buffer) (data : bytes) (total_size : Z) (transfer_end : bool)
    : M (upgrade_buffer * (crust_status + bytes)) :=
  let start := zlen (ub_data b) =? 0 in
  ok ← (if start then enc_malloc total_size else mret true);
  if negb ok then mret (no_upgrade_buffer, inl CRUST_MALLOC_FAILED)
  else
    let size := if start then total_size else ub_size b in
    if size <? zlen (ub_data b) + zlen data then undefined
    else
      let b := UpgradeBuffer size (ub_data b ++ data) in
      if negb transfer_end then mret (b, inl CRUST_UPGRADE_NEED_LEFT_DATA)
      else mret (no_upgrade_buffer,
                 inr (if zlen (ub_data b) =? 0 then []
                      else ub_data b ++ replicate (Z.to_nat (size - zlen (ub_data b))) (chr 0))).

(** Restore the workload and verify it, up to the entry into the network *)
Definition import_upgrade (upgrade_json : json) : M (crust_status * bytes) :=
  let report_height_str := ToString (jkey UPGRADE_BLOCK_HEIGHT upgrade_json) in
  let report_hash_str := ToString (jkey UPGRADE_BLOCK_HASH upgrade_json) in
  match hex_string_to_bytes (ToString (jkey UPGRADE_PUBLIC_KEY upgrade_json)) with
  | None => mret (CRUST_UNEXPECTED_ERROR, [])
  | Some a_pub_key_u =>
      sgx_a_pub_key ← of_res (copy PUB_KEY_SIZE a_pub_key_u);
      w ← get_wl id;
      let '(st, w) := restore_srd (jkey UPGRADE_SRD upgrade_json) w in
      on_wl (λ _, w);;
      if negb (is_success st) then mret (CRUST_UPGRADE_RESTORE_SRD_FAILED, [])
      else
        on_wl (restore_file (jkey UPGRADE_FILE upgrade_json));;
        wl_info ← gen_workload_info;
        let wl_sig := ToString (jkey UPGRADE_SIG upgrade_json) in
        let len := upgrade_sig_len report_height_str report_hash_str in
        ok ← enc_malloc len;
        if negb ok then mret (CRUST_MALLOC_FAILED, [])
        else
          srd_root ← of_res (root_bytes WL_SRD_ROOT_HASH wl_info);
          files_root ← of_res (root_bytes WL_FILE_ROOT_HASH wl_info);
          sigbuf ← of_res (put_all len []
            (upgrade_sig_parts sgx_a_pub_key report_height_str report_hash_str srd_root files_root));
          sgx_status ← host sgx_ecc256_open_context;
          if negb (sgx_ok sgx_status) then mret (CRUST_SGX_SIGN_FAILED, [])
          else
            match hex_string_to_bytes wl_sig with
            | None => mret (CRUST_UNEXPECTED_ERROR, [])
            | Some wl_sig_u =>
                sgx_wl_sig ← of_res (copy 64 wl_sig_u);
                let r := sgx_ecdsa_verify sigbuf sgx_a_pub_key sgx_wl_sig in
                if negb (sgx_ok r.1) || negb r.2 then mret (CRUST_SGX_VERIFY_SIG_FAILED, [])
                else if negb (bool_decide (ToString (jkey WL_SRD_ROOT_HASH wl_info)
                                           = ToString (jkey UPGRADE_SRD_ROOT upgrade_json)))
                then mret (CRUST_UPGRADE_BAD_SRD, [])
                else if negb (bool_decide (ToString (jkey WL_FILE_ROOT_HASH wl_info)
                                           = ToString (jkey UPGRADE_FILE_ROOT upgrade_json)))
                then mret (CRUST_UPGRADE_BAD_FILE, [])
                else mret (CRUST_SUCCESS, sgx_a_pub_key)
            end
  end.

(** The entry into the network and the first report *)
Definition enter_upgrade (sgx_a_pub_key report_hash_str report_height_str : bytes) : M crust_status :=
  on_wl (set_upgrade sgx_a_pub_key);;
  st ← host ocall_entry_network;
  if negb (is_success st) then mret st
  else
    on_wl report_add_validated_proof;;
    height ← of_res (atoi report_height_str);
    gen_and_upload_work_report report_hash_str (u64 height) 0 true.

Definition restore_upgrade (upgrade_json : json) : M crust_status :=
  r ← import_upgrade upgrade_json;
  if negb (is_success r.1) then mret r.1
  else enter_upgrade r.2 (ToString (jkey UPGRADE_BLOCK_HASH upgrade_json))
         (ToString (jkey UPGRADE_BLOCK_HEIGHT upgrade_json)).

Definition id_restore_from_upgrade (b : upgrade_buffer) (data : bytes) (total_size : Z) (transfer_end : bool)
    : M (upgrade_buffer * crust_status) :=
  r ← receive_upgrade b data total_size transfer_end;
  match r with
  | (b, inl st) => mret (b, st)
  | (b, inr text) =>
      upgrade_json ← of_res (Load Raw text);
      st ← restore_upgrade upgrade_json;
      mret (b, st)
  end.
End upgrade.

(** ** Heights *)
Lemma era_height_closed fuel bh rh :
  0 <= rh < bh → bh < 2 ^ 63 → (Z.to_nat ((bh - rh) / ERA_LENGTH) < fuel)%nat →
  era_height fuel bh rh = rh + ERA_LENGTH * ((bh - rh - 1) / ERA_LENGTH).
Proof.
  unfold ERA_LENGTH. revert rh. induction fuel as [|fuel IH]; [lia|]. intros rh Hr Hb Hf. cbn [era_height].
  unfold ERA_LENGTH. rewrite (u64_small (bh - rh)) by lia.
  destruct (Z.ltb_spec 300 (bh - rh)).
  - rewrite (u64_small (rh + 300)) by lia. rewrite IH; [|lia|lia|].
    + replace (bh - rh - 1) with (bh - (rh + 300) - 1 + 1 * 300) by lia. rewrite Z.div_add by lia. lia.
    + replace (bh - rh) with (bh - (rh + 300) + 1 * 300) in Hf by lia. rewrite Z.div_add in Hf by lia.
      pose proof (Z.div_pos (bh - (rh + 300)) 300). lia.
  - rewrite Z.div_small by lia. lia.
Qed.

(** The loop that looks for the last era ends: with the fuel given to it, or any
    more, it stops at the last height a whole number of eras above the last report
    that lies below the current block, at most ERA_LENGTH below it. *)
Theorem era_height_spec bh rh n :
  0 <= rh < bh → bh < 2 ^ 63 → (era_fuel bh rh <= n)%nat →
  let h := era_height n bh rh in
  h = era_height (era_fuel bh rh) bh rh ∧
  rh <= h < bh ∧ bh - h <= ERA_LENGTH ∧ (ERA_LENGTH | h - rh).
Proof.
  intros Hr Hb Hn h. subst h. unfold era_fuel in *.
  rewrite !era_height_closed by lia. split; [done|]. unfold ERA_LENGTH.
  pose proof (Z.div_mod (bh - rh - 1) 300 ltac:(lia)). pose proof (Z.mod_pos_bound (bh - rh - 1) 300 ltac:(lia)).
  pose proof (Z.div_pos (bh - rh - 1) 300 ltac:(lia) ltac:(lia)).
  split_and!; [lia..|]. exists ((bh - rh - 1) / 300). lia.
Qed.

Lemma era_height_spec_witness :
  era_height (era_fuel 1000 350) 1000 350 = 950 ∧ 1000 - 950 <= ERA_LENGTH.
Proof.
  split; [reflexivity|].
  apply (era_height_spec 1000 350 (era_fuel 1000 350)); [split; [discriminate|reflexivity]|reflexivity|reflexivity].
Defined.

(** ** The pieces of a transfer *)
Section transfer.
Context {W : Type} `{!Host W} `{!UpgradeHost W} `{!Threads W} `{!DbLaws W}.
Implicit Types (e : enclave W).

(** The calls the application makes: every piece but the last one announces more. *)
Fixpoint restore_pieces (b : upgrade_buffer) (pieces : list bytes) (total_size : Z)
    : M (enclave W) (upgrade_buffer * crust_status) :=
  match pieces with
  | [] => mret (b, CRUST_UPGRADE_NEED_LEFT_DATA)
  | [p] => id_restore_from_upgrade b p total_size true
  | p :: pieces =>
      r ← id_restore_from_upgrade b p total_size false;
      restore_pieces r.1 pieces total_size
  end.

Lemma receive_some size data piece e b :
  data ≠ [] → zlen data + zlen piece <= size →
  receive_upgrade (UpgradeBuffer size data) piece size b e =
    Ok (if b then (no_upgrade_buffer,
                   inr ((data ++ piece) ++ replicate (Z.to_nat (size - zlen (data ++ piece))) (chr 0)))
        else (UpgradeBuffer size (data ++ piece), inl CRUST_UPGRADE_NEED_LEFT_DATA), e).
Proof.
  intros Hne Hl. assert (0 < zlen data) as Hp by (destruct data; [done|]; len).
  unfold receive_upgrade. cbn [ub_data ub_size]. destruct (Z.eqb_spec (zlen data) 0); [lia|].
  unfold mbind, m_bind, mret, m_ret. cbn [negb]. destruct (Z.ltb_spec size (zlen data + zlen piece)); [lia|].
  cbv zeta. cbn [ub_data]. destruct b; [|done]. cbn [negb].
  destruct (Z.eqb_spec (zlen (data ++ piece)) 0) as [E|]; [rewrite zlen_app in E; pose proof (zlen_nonneg piece); lia|done].
Qed.

Lemma receive_first size piece e b :
  0 <= size < 2 ^ 63 → piece ≠ [] → zlen piece <= size →
  receive_upgrade no_upgrade_buffer piece size b e =
    Ok (if b then (no_upgrade_buffer, inr (piece ++ replicate (Z.to_nat (size - zlen piece)) (chr 0)))
        else (UpgradeBuffer size piece, inl CRUST_UPGRADE_NEED_LEFT_DATA), e).
Proof.
  intros Hs Hne Hl. assert (0 < zlen piece) as Hp by (destruct piece; [done|]; len).
  unfold receive_upgrade, enc_malloc, gets, mbind, m_bind. cbn [ub_data ub_size no_upgrade_buffer zlen List.length].
  change (zlen [] =? 0) with true. cbn iota. rewrite u64_small, db_malloc by lia. cbn [negb]. rewrite zlen_nil.
  destruct (Z.ltb_spec size (0 + zlen piece)); [lia|]. cbv zeta. cbn [ub_data app].
  destruct b; [|done]. cbn [negb]. destruct (Z.eqb_spec (zlen piece) 0); [lia|done].
Qed.

Lemma restore_more b b' data size st e :
  receive_upgrade b data size false e = Ok ((b', inl st), e) →
  id_restore_from_upgrade b data size false e = Ok ((b', st), e).
Proof. intros H. unfold id_restore_from_upgrade. by rewrite (bind_run _ _ _ _ _ H). Qed.
Lemma restore_same b1 b2 d1 d2 size e :
  receive_upgrade b1 d1 size true e = receive_upgrade b2 d2 size true e →
  id_restore_from_upgrade b1 d1 size true e = id_restore_from_upgrade b2 d2 size true e.
Proof. intros H. unfold id_restore_from_upgrade, mbind at 1 3, m_bind at 1 3. by rewrite H. Qed.

Lemma restore_pieces_cons b q ps total e :
  ps ≠ [] → restore_pieces b (q :: ps) total e =
            (r ← id_restore_from_upgrade b q total false; restore_pieces r.1 ps total) e.
Proof. by destruct ps. Qed.
Lemma snoc_not_nil {A} (l : list A) x : l ++ [x] ≠ [].
Proof. by destruct l. Qed.

Lemma restore_pieces_from size data ps p e :
  data ≠ [] → Forall (λ p, p ≠ []) (ps ++ [p]) → zlen (data ++ concat (ps ++ [p])) <= size →
  restore_pieces (UpgradeBuffer size data) (ps ++ [p]) size e =
  id_restore_from_upgrade (UpgradeBuffer size data) (concat (ps ++ [p])) size true e.
Proof.
  revert data. induction ps as [|q ps IH]; intros data Hd Hf Hl.
  - cbn [app restore_pieces concat]. by rewrite app_nil_r.
  - cbn [app concat] in *. apply Forall_cons in Hf as [Hq Hf]. rewrite !zlen_app in Hl.
    pose proof (zlen_nonneg (concat (ps ++ [p]))).
    rewrite restore_pieces_cons by apply snoc_not_nil.
    erewrite bind_run; [|apply restore_more; apply (receive_some size data q e false); [done|lia]].
    cbn [fst]. rewrite IH; [|by destruct data|done|rewrite !zlen_app; lia].
    apply restore_same.
    rewrite (receive_some size (data ++ q)), (receive_some size data) by (rewrite ?zlen_app; lia || by destruct data).
    by rewrite (app_assoc data q).
Qed.

(** However the application cuts the upgrade data into (non-empty) pieces, handing
    them over one by one has the effect of handing over the whole at once. *)
Theorem pieces_equal_whole pieces e :
  pieces ≠ [] → Forall (λ p, p ≠ []) pieces → zlen (concat pieces) < 2 ^ 63 →
  let total := zlen (concat pieces) in
  restore_pieces no_upgrade_buffer pieces total e =
  id_restore_from_upgrade no_upgrade_buffer (concat pieces) total true e.
Proof.
  intros Hne Hf Hl total. subst total. destruct pieces as [|q ps]; [done|].
  apply Forall_cons in Hf as [Hq Hf]. destruct ps as [|p0 ps]; [cbn; by rewrite app_nil_r|].
  destruct (exists_last (l := p0 :: ps) ltac:(done)) as (l & p & E).
  rewrite E in *. cbn [concat] in *. set (total := zlen (q ++ concat (l ++ [p]))) in *.
  assert (total = zlen q + zlen (concat (l ++ [p]))) as Et by apply zlen_app.
  pose proof (zlen_nonneg (concat (l ++ [p]))). pose proof (zlen_nonneg q).
  rewrite restore_pieces_cons by apply snoc_not_nil.
  erewrite bind_run; [|apply restore_more; apply (receive_first total q e false); [lia|done|lia]].
  cbn [fst]. rewrite restore_pieces_from by (rewrite ?zlen_app; done || lia).
  apply restore_same. rewrite receive_some, receive_first by (rewrite ?zlen_app; done || lia || by destruct q).
  done.
Qed.
End transfer.

(** ** Roots *)

(** What [gen_workload_info] computes, for srd hashes and files *)
Definition workload_info `{!Host W} (m : list (bytes * list bytes)) (files : list json) : res json :=
  let ans :=
    if zlen m =? 0 then jkey_set WL_SRD_ROOT_HASH (jhash (replicate 32 (chr 0))) JNull
    else jkey_set WL_SRD_ROOT_HASH (jhash (sha256 (srd_hashes m)))
           (jkey_set WL_SRD_SPACE (jint (i64 (map_total m * 1024 * 1024 * 1024))) JNull) in
  if zlen files =? 0 then Ok (jkey_set WL_FILE_ROOT_HASH (jhash (replicate 32 (chr 0))) ans)
  else hs ← file_hashes files; Ok (jkey_set WL_FILE_ROOT_HASH (jhash (sha256 hs)) ans).

Section roots.
Context {W : Type} `{!Host W}.
Implicit Types (e : enclave W).
Lemma gen_workload_info_run e info e' :
  gen_workload_info e = Ok (info, e') →
  e' = e ∧ (info = JNull ∨ workload_info (srd_path2hashs_m (wl e)) (checked_files (wl e)) = Ok info).
Proof.
  intros H. unfold gen_workload_info, workload_info in *.
  inv_step H. cbv zeta in H. inv_step H.
  assert (e0 = e) as ->.
  { destruct (zlen _ =? 0); [by apply ret_Ok in H0 as [_ ->]|by unfold enc_malloc in H0; apply gets_Ok in H0 as [_ ->]]. }
  destruct x; cbn [negb] in H; [|by inv_step H; auto].
  change (checked_files (id (wl e))) with (checked_files (wl e)) in H.
  change (srd_path2hashs_m (id (wl e))) with (srd_path2hashs_m (wl e)) in H.
  destruct (zlen (checked_files (wl e)) =? 0); [inv_step H; auto|]. inv_step H.
  destruct (malloc _ _); cbn [negb] in H; [|discriminate H]. inv_step H. inv_step H.
  match goal with E : file_hashes _ = Ok _ |- _ => rewrite E end. auto.
Qed.

Lemma twp_gen_workload_info `{!DbLaws W} e info (Q : json → enclave W → Prop) :
  map_total (srd_path2hashs_m (wl e)) * HASH_LENGTH < 2 ^ 63 →
  zlen (checked_files (wl e)) * HASH_LENGTH < 2 ^ 63 →
  workload_info (srd_path2hashs_m (wl e)) (checked_files (wl e)) = Ok info → Q info e →
  twp gen_workload_info Q e.
Proof.
  intros H1 H2 Hi HQ. unfold gen_workload_info, workload_info in *. twp_wl.
  pose proof (map_total_nonneg (srd_path2hashs_m (wl e))). pose proof (zlen_nonneg (checked_files (wl e))).
  unfold HASH_LENGTH in *. cbv zeta.
  assert (∀ P : bool → enclave W → Prop, P true e →
    twp (if zlen (srd_path2hashs_m (id (wl e))) =? 0 then mret true
         else enc_malloc (map_total (srd_path2hashs_m (id (wl e))) * 32)) P e) as Hm.
  { intros P HP. destruct (zlen (srd_path2hashs_m (id (wl e))) =? 0); [exact HP|]. apply twp_malloc; [cbn; lia|exact HP]. }
  apply Hm. cbn [negb]. cbn [id] in *.
  destruct (zlen (checked_files (wl e)) =? 0); [injection Hi as <-; by twp_step|].
  twp_step. apply twp_malloc; [lia|]. cbn [negb]. twp_step.
  destruct (file_hashes (checked_files (wl e))) as [hs| | |]; try done. cbn in Hi. injection Hi as <-.
  eapply twp_of_res; [done|]. by twp_step.
Qed.
End roots.

Lemma root_bytes_length name info h : root_bytes name info = Ok h → zlen h = 32.
Proof.
  unfold root_bytes, copy. destruct (ToBytes _) as [b|]; [|done]. destruct (Z.ltb_spec (zlen b) 32); [done|].
  intros [= <-]. unfold zlen in *. rewrite length_take. lia.
Qed.
Lemma root_bytes_null name : root_bytes name JNull = UB.
Proof. done. Qed.
(** Restoring the files leaves the other fields alone. *)
Lemma restore_file_other {A} (g : workload → A) j w :
  (∀ x w, g (with_checked_files x w) = g w) → (∀ x w, g (with_wl_spec_info x w) = g w) →
  g (restore_file j w) = g w.
Proof.
  intros H1 H2. unfold restore_file. rewrite <- (H1 [] w). generalize (with_checked_files [] w).
  induction (loop_items j) as [|f l IH]; intros w0; cbn [foldl]; [done|].
  rewrite IH. unfold set_wl_spec. cbv zeta. by rewrite H2, H1.
Qed.

(** ** The text *)
Definition upgrade_fields (pub : bytes) (height : Z) (block_hash : bytes) (m : list (bytes * list bytes))
    (files : list json) (srd_root files_root sig : bytes) : list (bytes * json) :=
  [(UPGRADE_PUBLIC_KEY, JString (hexstring_safe pub));
   (UPGRADE_BLOCK_HEIGHT, JIntegral height);
   (UPGRADE_BLOCK_HASH, JString block_hash);
   (UPGRADE_SRD, srd_json m);
   (UPGRADE_FILE, JArray files);
   (UPGRADE_SRD_ROOT, JString (hexstring_safe srd_root));
   (UPGRADE_FILE_ROOT, JString (hexstring_safe files_root));
   (UPGRADE_SIG, JString (hexstring_safe sig))].

Lemma files_text_render files d :
  Forall file_ok files → files_text files = render compact d (JArray files).
Proof.
  intros Hf. unfold files_text. cbn [render lo_comma compact]. do 2 f_equal.
  change (str ",") with [chr 44]. f_equal. apply map_ext_in. intros f Hin%list_elem_of_In.
  rewrite Forall_forall in Hf. unfold dump. rewrite dump_at_render. apply strip_dump. by apply file_ok_text, Hf.
Qed.

Lemma upgrade_text pub height block_hash w srd_root files_root sig :
  srd_ok (srd_path2hashs_m w) → Forall file_ok (checked_files w) → key_ok block_hash →
  concat (upgrade_parts pub (to_string height) block_hash (serialize_srd w) (files_text (checked_files w))
            (hexstring_safe srd_root) (hexstring_safe files_root) sig)
  = render compact 1 (JObject (upgrade_fields pub height block_hash (srd_path2hashs_m w) (checked_files w)
                                 srd_root files_root sig)).
Proof.
  intros Hs Hf [Hb _]. apply escape_id in Hb. unfold upgrade_fields.
  rewrite render_object, map_map. cbn [map fst snd].
  rewrite (render_compact_depth (srd_json _) 2 1), <- (serialize_srd_render w Hs), <- (files_text_render _ 2 Hf).
  cbn [render]. rewrite !hex_escape, Hb. unfold field. cbn [fst snd lo_field lo_colon lo_close compact]. unfold upgrade_parts.
  generalize (hexstring_safe pub) (to_string height) (serialize_srd w) (files_text (checked_files w))
    (hexstring_safe srd_root) (hexstring_safe files_root) (hexstring_safe sig).
  intros. cbn [concat join app str String.list_ascii_of_string].
  repeat (rewrite <- app_assoc; cbn [app]). done.
Qed.

Lemma upgrade_fields_ok pub height block_hash m files srd_root files_root sig :
  srd_ok m → Forall file_ok files → key_ok block_hash → - 2 ^ 63 <= height < 2 ^ 63 →
  Forall (λ p, key_reads Raw p.1 ∧ text_ok Raw p.2)
    (upgrade_fields pub height block_hash m files srd_root files_root sig).
Proof.
  intros Hm Hf [_ Hb] Hh.
  assert (text_ok Raw (srd_json m)) as Hs by by apply srd_json_ok.
  assert (text_ok Raw (JArray files)) as Ht.
  { constructor. eapply Forall_impl; [exact Hf|]. intros f Hok. by apply file_ok_text. }
  unfold upgrade_fields.
  repeat (apply List.Forall_cons; [split; [apply key_reads_enclave; [done|key_ok]|cbn [snd]]|]); try apply List.Forall_nil;
    try done; constructor; try done; apply hex_no_tag.
Qed.

Definition upgrade_json pub height block_hash m files srd_root files_root sig : json :=
  JObject (map_build [] (upgrade_fields pub height block_hash m files srd_root files_root sig)).
Lemma upgrade_json_fields pub height block_hash m files srd_root files_root sig :
  let j := upgrade_json pub height block_hash m files srd_root files_root sig in
  jkey UPGRADE_PUBLIC_KEY j = JString (hexstring_safe pub) ∧ jkey UPGRADE_BLOCK_HEIGHT j = JIntegral height ∧
  jkey UPGRADE_BLOCK_HASH j = JString block_hash ∧ jkey UPGRADE_SRD j = srd_json m ∧
  jkey UPGRADE_FILE j = JArray files ∧ jkey UPGRADE_SRD_ROOT j = JString (hexstring_safe srd_root) ∧
  jkey UPGRADE_FILE_ROOT j = JString (hexstring_safe files_root) ∧
  jkey UPGRADE_SIG j = JString (hexstring_safe sig).
Proof. split_and!; reflexivity. Qed.

Lemma workload_info_roots `{!Host W} m files info :
  workload_info m files = Ok info →
  ∃ x y, jkey WL_SRD_ROOT_HASH info = jhash x ∧ jkey WL_FILE_ROOT_HASH info = jhash y.
Proof.
  unfold workload_info. intros H.
  assert (∀ z (b : bool) x1 x2 v, ∃ x y,
    let j := jkey_set WL_FILE_ROOT_HASH (jhash z)
      (if b then jkey_set WL_SRD_ROOT_HASH (jhash x1) JNull
       else jkey_set WL_SRD_ROOT_HASH (jhash x2) (jkey_set WL_SRD_SPACE v JNull)) in
    jkey WL_SRD_ROOT_HASH j = jhash x ∧ jkey WL_FILE_ROOT_HASH j = jhash y) as Hj.
  { intros z b x1 x2 v. exists (if b then x1 else x2), z. by destruct b. }
  destruct (zlen files =? 0).
  - injection H as <-. apply Hj.
  - destruct (file_hashes files); try done. cbn in H. injection H as <-. apply Hj.
Qed.

Lemma root_string name info x r :
  jkey name info = jhash x → root_bytes name info = Ok r → ToString (jkey name info) = hexstring_safe r.
Proof.
  unfold root_bytes. intros ->. cbn [ToBytes jhash]. unfold copy.
  destruct (Z.ltb_spec (zlen (take 32 x)) 32); [done|]. intros [= <-]. cbn [ToString].
  unfold _hexstring. by rewrite take_idemp.
Qed.

(** ** What the hand-over relies on

    Signatures made with a private key are valid for the matching public key, the
    hash of a block is plain text, and the application keeps what it is handed. *)
Class UpgradeLaws (W : Type) `{!Host W} `{!UpgradeHost W} := {
  key_match : bytes → bytes → Prop;
  sign_verify pri pub m w sig w' :
    key_match pri pub → sgx_ecdsa_sign pri m w = (Some sig, w') →
    zlen sig = 64 ∧ sgx_ecdsa_verify m pub sig = (SGX_SUCCESS, true);
  context_opens w : (sgx_ecc256_open_context w).1 = SGX_SUCCESS;
  block_hash_text h w :
    (ocall_get_block_hash h w).1.1 = CRUST_SUCCESS →
    zlen (ocall_get_block_hash h w).1.2 = 64 ∧ Forall is_hex (ocall_get_block_hash h w).1.2;
  upgrade_stored : W → bytes;
  upgrade_store p cover w :
    upgrade_stored (ocall_store_upgrade_data p cover w) = ocall_store (upgrade_stored w) (p, cover)
}.

Lemma hex_key_ok s : Forall is_hex s → key_ok s.
Proof.
  intros H. split; [eapply Forall_impl; [exact H|]; apply hex_escape_id|].
  intros E. destruct s as [|c s]; [done|]. apply Forall_cons in H as [H _]. injection E as -> _.
  unfold is_hex in H. cbn in H. rewrite !elem_of_cons, elem_of_nil in H. naive_solver.
Qed.

Section handover.
Context {W : Type} `{!Host W} `{!HostLaws W} `{!UpgradeHost W} `{!Threads W} `{!DbLaws W} `{!UpgradeLaws W}.
Implicit Types (e : enclave W).

Lemma store_upgrade_data_stored data e e' x :
  store_upgrade_data data e = Ok (x, e') → wl e' = wl e ∧ upgrade_stored (world e') = data.
Proof.
  intros H. unfold store_upgrade_data in H.
  assert (∀ l e, for_each l (λ p, host_ (ocall_store_upgrade_data p.1 p.2)) e = Ok (x, e') →
    wl e' = wl e ∧ upgrade_stored (world e') = fold_left ocall_store l (upgrade_stored (world e))) as Hl.
  { clear H. induction l as [|p l IH]; intros e0 H; [by apply ret_Ok in H as [_ ->]|].
    cbn [for_each] in H. inv_step H. unfold host_ in H0. inv_first H0. apply IH in H as [-> ->].
    split; [done|]. cbn [fold_left world with_world fst snd]. rewrite upgrade_store. by destruct p. }
  apply Hl in H as [-> ->]. split; [done|]. apply store_large_data_stored.
Qed.

Lemma serialize_file_run e r e' :
  serialize_file e = Ok (r, e') →
  e' = e ∧ (r.1 = CRUST_SUCCESS → r.2 = files_text (checked_files (wl e)) ∧
            0 < zlen (checked_files (wl e)) * file_item_len).
Proof.
  intros H. unfold serialize_file in H. inv_step H. cbv zeta in H. inv_step H.
  destruct (malloc _ _); cbn [negb] in H; inv_step H; [|done]. inv_step H. split; [done|]. intros _.
  cbn [snd]. match goal with E : put_all _ _ _ = Ok _ |- _ => pose proof E as E2; apply put_all_concat in E end.
  subst. unfold files_text. rewrite <- file_parts_join, !concat_app. split; [done|].
  cbn [app put_all] in E2. change (put ?n [] (str "[")) with (if 1 <=? n then Ok (str "[") else UB) in E2.
  destruct (Z.leb_spec 1 (zlen (checked_files (wl e)) * file_item_len)); [lia|discriminate E2].
Qed.

(** What a successful export has done *)
Lemma export_run height hash e e' :
  export_upgrade height hash e = Ok (CRUST_SUCCESS, e') →
  let w := wl e in
  ∃ info srd_root files_root sig w1 w2,
    wl e' = w ∧ checked_files w ≠ [] ∧
    workload_info (srd_path2hashs_m w) (checked_files w) = Ok info ∧
    root_bytes WL_SRD_ROOT_HASH info = Ok srd_root ∧ root_bytes WL_FILE_ROOT_HASH info = Ok files_root ∧
    sgx_ecdsa_sign (get_pri_key w)
      (concat (upgrade_sig_parts (get_pub_key w) (to_string height) hash srd_root files_root)) w1 = (Some sig, w2) ∧
    upgrade_stored (world e') =
      concat (upgrade_parts (get_pub_key w) (to_string height) hash (serialize_srd w) (files_text (checked_files w))
        (ToString (jkey WL_SRD_ROOT_HASH info)) (ToString (jkey WL_FILE_ROOT_HASH info)) sig).
Proof.
  intros H. unfold export_upgrade in H. cbv zeta in H. inv_step H. inv_step H.
  apply serialize_file_run in H0 as [-> Hf]. inv_step H. apply gen_workload_info_run in H0 as [-> Hi].
  match type of Hf with (?r.1 = _ → _) => destruct r as [st p_files] end. cbn [fst snd] in Hf. destruct st; cbn [is_success negb] in H; try by inv_step H.
  specialize (Hf eq_refl) as [-> Hne]. inv_step H.
  inv_if H; [|by inv_step H]. inv_step H. inv_if H; [|by inv_step H].
  repeat inv_step H.
  match type of H with (match (?f ?w).1 with _ => _ end) _ = _ =>
    destruct (f w) as [[sig|] w2] eqn:Esig; cbn [fst snd] in H; [|by inv_step H] end.
  inv_step H. inv_if H; [|by inv_step H].
  repeat inv_step H. apply store_upgrade_data_stored in H0 as [Hw Hst].
  repeat match goal with E : put_all _ _ _ = Ok _ |- _ => apply put_all_concat in E; subst end.
  destruct Hi as [->|Hi]; [by match goal with E : root_bytes WL_SRD_ROOT_HASH JNull = _ |- _ => rewrite root_bytes_null in E end|].
  intros w. do 6 eexists. split_and!; [exact Hw| |exact Hi|done|done|exact Esig|exact Hst].
  intros Enil. subst w. rewrite Enil in Hne. by vm_compute in Hne.
Qed.

(** The height an upgrade reports at: whole eras above the last report, at least one, and
    the last such height below the block. *)
Definition new_era (last h height : Z) : Prop :=
  last + ERA_LENGTH <= height < h ∧ h - height <= ERA_LENGTH ∧ (ERA_LENGTH | height - last).
Lemma new_era_height h last :
  0 <= last < h → h < 2 ^ 63 → let height := era_height (era_fuel h last) h last in
  (u64 (height - last) <? ERA_LENGTH) = false → new_era last h height.
Proof.
  intros Hr Hh height Hu. subst height. revert Hu.
  rewrite era_height_closed by (unfold era_fuel; lia). unfold new_era, ERA_LENGTH.
  pose proof (Z.div_mod (h - last - 1) 300 ltac:(lia)). pose proof (Z.mod_pos_bound (h - last - 1) 300 ltac:(lia)).
  pose proof (Z.div_pos (h - last - 1) 300 ltac:(lia) ltac:(lia)).
  rewrite u64_small by lia. intros Hu%Z.ltb_ge. split_and!; [lia..|]. exists ((h - last - 1) / 300). lia.
Qed.
(** A report that succeeds is of an era that was not reported. *)
Lemma report_not_expired hash height wait up e st e' :
  gen_and_upload_work_report hash height wait up e = Ok (st, e') → is_success st = true →
  (u64 (height - report_height (wl e)) <? ERA_LENGTH) = false.
Proof.
  intros H Hst. unfold gen_and_upload_work_report in H. apply bind_Ok in H as (st1 & e1 & H1 & H).
  unfold gen_work_report, get_wl in H1. rewrite (bind_run _ _ e (wl e) e) in H1 by done.
  destruct (height_expired height (wl e)) eqn:E; [apply ret_Ok in H1 as [-> ->]; by apply ret_Ok in H as [-> _]|].
  unfold height_expired, get_report_height in E. by apply orb_false_iff in E as [_ E].
Qed.

(** What [id_gen_upgrade_data] did when it reports success *)
Lemma id_gen_run h e e' :
  id_gen_upgrade_data h e = Ok (CRUST_SUCCESS, e') →
  0 <= report_height (wl e) → h < 2 ^ 63 →
  ∃ e1 e2 height hash,
    export_upgrade height hash e1 = Ok (CRUST_SUCCESS, e2) ∧
    e' = with_wl (set_upgrade_status ENC_UPGRADE_STATUS_SUCCESS (wl e2)) e2 ∧
    zlen hash = 64 ∧ key_ok hash ∧ new_era (report_height (wl e)) h height.
Proof.
  intros H Hr Hh. unfold id_gen_upgrade_data in H. inv_step H. inv_step H. inv_step H.
  cbn [is_success] in H1. inv_first H1.
  rename H0 into H. unfold gen_upgrade_data in H. inv_step H. unfold get_report_height in H.
  destruct (Z.leb_spec h (report_height (wl e))); [by inv_step H|].
  inv_if H; [by inv_step H|]. cbv zeta in H. inv_step H. inv_if H; [|by inv_step H]. inv_step H.
  pose proof (block_hash_text (era_height (era_fuel h (report_height (wl e))) h (report_height (wl e))) (world e)) as Hb.
  destruct (ocall_get_block_hash _ (world e)) as [[st hash] w1]. cbn [fst snd] in *.
  destruct st; cbn [is_success negb] in H; try by inv_step H. specialize (Hb eq_refl) as [Hl Hx].
  do 2 inv_step H. inv_if H; [|by inv_step H].
  do 4 eexists. split_and!; [exact H|done| | |].
  - unfold zlen in *. rewrite length_take. lia.
  - apply hex_key_ok. by apply Forall_take.
  - apply new_era_height; [lia|lia|].
    match goal with
    | E : gen_and_upload_work_report _ _ _ _ _ = Ok (?st, _), S : is_success ?st = true |- _ =>
        exact (report_not_expired _ _ _ _ _ _ _ E S)
    end.
Qed.

(** The new version accepts what a signed export contains. *)
Lemma twp_import e m files info srd_root files_root pub pri height hash sig w1 w2
    (Q : crust_status * bytes → enclave W → Prop) :
  srd_ok m → map_total m * HASH_LENGTH < 2 ^ 63 → zlen files * HASH_LENGTH < 2 ^ 63 →
  zlen pub = 64 → key_match pri pub → zlen hash = 64 → key_ok hash → 0 <= height < 2 ^ 63 →
  workload_info m files = Ok info →
  root_bytes WL_SRD_ROOT_HASH info = Ok srd_root → root_bytes WL_FILE_ROOT_HASH info = Ok files_root →
  sgx_ecdsa_sign pri (concat (upgrade_sig_parts pub (to_string height) hash srd_root files_root)) w1
    = (Some sig, w2) →
  (∀ e', srd_path2hashs_m (wl e') = m → checked_files (wl e') = files → Q (CRUST_SUCCESS, pub) e') →
  twp (import_upgrade (upgrade_json pub height hash m files srd_root files_root sig)) Q e.
Proof.
  intros Hm Hmt Hft Hpub Hkey Hhash [Hesc _] Hh Hi Hr1 Hr2 Hsig HQ.
  destruct (sign_verify _ _ _ _ _ _ Hkey Hsig) as [Hsl Hver].
  destruct (workload_info_roots _ _ _ Hi) as (x & y & Hx & Hy).
  pose proof (root_string _ _ _ _ Hx Hr1) as Hs1. pose proof (root_string _ _ _ _ Hy Hr2) as Hs2.
  pose proof (root_bytes_length _ _ _ Hr1) as Hl1. pose proof (root_bytes_length _ _ _ Hr2) as Hl2.
  pose proof (to_string_length height 20 ltac:(lia) ltac:(lia)) as Hhl. pose proof (zlen_nonneg (to_string height)).
  destruct (upgrade_json_fields pub height hash m files srd_root files_root sig) as
    (J1 & J2 & J3 & J4 & J5 & J6 & J7 & J8).
  assert (upgrade_sig_len (to_string height) hash = zlen (concat (upgrade_sig_parts pub (to_string height) hash srd_root files_root))) as Hlen.
  { unfold upgrade_sig_len, upgrade_sig_parts, PUB_KEY_SIZE. cbn [concat]. rewrite !zlen_app, zlen_nil. lia. }
  assert (0 <= upgrade_sig_len (to_string height) hash < 2 ^ 63) as Hrange
    by (unfold upgrade_sig_len, PUB_KEY_SIZE; lia).
  unfold import_upgrade. rewrite J1, J2, J3, J4, J5, J6, J7, J8. cbn [ToString]. rewrite !hex_escape.
  apply escape_id in Hesc. rewrite Hesc. rewrite hex_roundtrip by by intros E; rewrite E in Hpub.
  twp_wl. eapply twp_of_res; [by apply copy_exact|]. twp_wl. cbn [id]. rewrite restore_srd_ok by done.
  twp_wl. cbn [is_success negb]. twp_wl. cbn [wl with_wl]. set (w3 := restore_file _ _).
  assert (srd_path2hashs_m w3 = m) as E1 by (subst w3; by rewrite (restore_file_other srd_path2hashs_m)).
  assert (checked_files w3 = files) as E2 by (subst w3; by rewrite restore_file_files).
  eapply twp_gen_workload_info; cbn [wl with_wl]; rewrite ?E1, ?E2; [done..|]. cbv zeta.
  twp_step. apply twp_malloc; [done|]. cbn [negb].
  twp_step. eapply twp_of_res; [exact Hr1|]. twp_step. eapply twp_of_res; [exact Hr2|].
  twp_step. eapply twp_of_res; [apply put_all_fits; rewrite zlen_nil; lia|]. cbn [app].
  twp_step. apply twp_zoom. rewrite context_opens. cbn [sgx_ok negb].
  rewrite hex_roundtrip by by intros E; rewrite E in Hsl.
  twp_step. eapply twp_of_res; [by apply copy_exact|]. rewrite Hver. cbn [fst snd sgx_ok negb orb].
  rewrite Hs1, Hs2, !bool_decide_true by done. cbn [negb]. by twp_step; apply HQ.
Qed.

Lemma export_imported h eA eA' eB :
  id_gen_upgrade_data h eA = Ok (CRUST_SUCCESS, eA') →
  0 <= report_height (wl eA) → h < 2 ^ 63 →
  let w := wl eA' in
  srd_ok (srd_path2hashs_m w) → Forall file_ok (checked_files w) →
  map_total (srd_path2hashs_m w) * HASH_LENGTH < 2 ^ 63 → zlen (checked_files w) * HASH_LENGTH < 2 ^ 63 →
  zlen (get_pub_key w) = 64 → key_match (get_pri_key w) (get_pub_key w) →
  let text := upgrade_stored (world eA') in
  zlen text < 2 ^ 63 →
  ∃ eB1 height hash,
    id_restore_from_upgrade no_upgrade_buffer text (zlen text) true eB =
      (st ← enter_upgrade (get_pub_key w) hash (to_string height); mret (no_upgrade_buffer, st)) eB1 ∧
    srd_path2hashs_m (wl eB1) = srd_path2hashs_m w ∧ checked_files (wl eB1) = checked_files w ∧
    new_era (report_height (wl eA)) h height.
Proof.
  intros H Hr Hh w Hs Hf Hn1 Hn2 Hpub Hkey text Htext.
  destruct (id_gen_run _ _ _ H Hr Hh) as (e1 & e2 & height & hash & Hexp & -> & Hhash & Hok & Hheight).
  destruct (export_run _ _ _ _ Hexp) as (info & srd_root & files_root & sig & w1 & w2 & Hw & Hne & Hi & Hr1 & Hr2 & Hsig & Hst).
  subst w text. cbn [wl world with_wl with_upgrade_status set_upgrade_status] in *.
  unfold get_pub_key, get_pri_key in *. cbn [srd_path2hashs_m checked_files id_key_pair with_upgrade_status] in *.
  rewrite Hw in *.
  destruct (workload_info_roots _ _ _ Hi) as (x & y & Hx & Hy).
  rewrite (root_string _ _ _ _ Hx Hr1), (root_string _ _ _ _ Hy Hr2) in Hst.
  rewrite upgrade_text in Hst by done.
  set (m := srd_path2hashs_m (wl e1)) in *. set (files := checked_files (wl e1)) in *.
  set (pub := pub_key (id_key_pair (wl e1))) in *.
  set (txt := render compact 1 _) in Hst. rewrite Hst in *.
  assert (txt ≠ []) as Hnil by (subst txt; rewrite render_object; done).
  assert (Load Raw txt = Ok (upgrade_json pub height hash m files srd_root files_root sig)) as Hload.
  { apply load_fields; [apply _|]. apply upgrade_fields_ok; try done. unfold new_era, ERA_LENGTH in *; lia. }
  pose proof (twp_import eB m files info srd_root files_root pub _ height hash sig w1 w2
    (λ r e', r = (CRUST_SUCCESS, pub) ∧ srd_path2hashs_m (wl e') = m ∧ checked_files (wl e') = files)
    Hs Hn1 Hn2 Hpub Hkey Hhash Hok ltac:(unfold new_era, ERA_LENGTH in *; lia) Hi Hr1 Hr2 Hsig ltac:(done)) as Himp.
  apply twp_run in Himp as (r & eB1 & Himp & -> & Em & Efi).
  exists eB1, height, hash. split_and!; [|done..].
  pose proof (zlen_nonneg txt). unfold id_restore_from_upgrade.
  erewrite bind_run; [|apply (receive_first (zlen txt) txt eB true); [lia|done|lia]].
  rewrite Z.sub_diag. cbn [Z.to_nat replicate]. rewrite app_nil_r.
  erewrite bind_run; [|unfold of_res; rewrite Hload; done].
  destruct (upgrade_json_fields pub height hash m files srd_root files_root sig) as (_ & J2 & J3 & _).
  unfold restore_upgrade. unfold mbind at 1 2, m_bind at 1 2. rewrite Himp. cbn [fst snd is_success negb].
  rewrite J2, J3. cbn [ToString]. destruct Hok as [Hesc _]. by rewrite (escape_id _ Hesc).
Qed.

(** C7: what [id_gen_upgrade_data] hands to the application, the new version takes
    over: given the text of a successful export, [id_restore_from_upgrade] in any
    other enclave verifies it and goes on to enter the network, with exactly the srd
    hashes and the files of the old enclave and its public key as the previous
    one. *)
Theorem upgrade_roundtrip h eA eA' eB :
  id_gen_upgrade_data h eA = Ok (CRUST_SUCCESS, eA') →
  0 <= report_height (wl eA) → h < 2 ^ 63 →
  let w := wl eA' in
  srd_ok (srd_path2hashs_m w) → Forall file_ok (checked_files w) →
  map_total (srd_path2hashs_m w) * HASH_LENGTH < 2 ^ 63 → zlen (checked_files w) * HASH_LENGTH < 2 ^ 63 →
  zlen (get_pub_key w) = 64 → key_match (get_pri_key w) (get_pub_key w) →
  let text := upgrade_stored (world eA') in
  zlen text < 2 ^ 63 →
  ∃ eB1 height hash,
    id_restore_from_upgrade no_upgrade_buffer text (zlen text) true eB =
      (st ← enter_upgrade (get_pub_key w) hash (to_string height); mret (no_upgrade_buffer, st)) eB1 ∧
    srd_path2hashs_m (wl eB1) = srd_path2hashs_m w ∧ checked_files (wl eB1) = checked_files w ∧
    report_height (wl eA) <= height < h.
Proof.
  intros H Hr Hh w Hs Hf Hn1 Hn2 Hpub Hkey text Ht.
  destruct (export_imported h eA eA' eB H Hr Hh Hs Hf Hn1 Hn2 Hpub Hkey Ht) as (eB1 & height & hash & E & E1 & E2 & Hn & _).
  exists eB1, height, hash. split_and!; [done..| |]; unfold ERA_LENGTH in Hn; lia.
Qed.
End handover.

(** ** Taking over needs a valid signature *)

(** The upgrade flag and the previous key *)
Definition same_upgrade (w w' : workload) : Prop :=
  upgrade w' = upgrade w ∧ pre_pub_key w' = pre_pub_key w.
#[global] Instance same_upgrade_preorder : PreOrder same_upgrade.
Proof. split; [by intros w|]. intros a b c [? ?] [? ?]. split; congruence. Qed.

Section safety.
Context {W : Type} `{!Host W} `{!UpgradeHost W} `{!Threads W}.
Implicit Types (e : enclave W).

Lemma report_keeps_upgrade hash h up : pres (W := W) same_upgrade (gen_and_upload_work_report hash h 0 up).
Proof.
  unfold gen_and_upload_work_report, gen_work_report, report_body, report_srd_info, report_files_info,
    report_sign, get_wl, enc_malloc.
  pres; by split.
Qed.

Lemma import_keeps_upgrade j : pres (W := W) same_upgrade (import_upgrade j).
Proof.
  unfold import_upgrade. destruct (hex_string_to_bytes _) as [k|]; [|apply (pres_ret same_upgrade)]. cbv zeta.
  apply (pres_bind same_upgrade); [apply (pres_of_res same_upgrade)|intros a_pub].
  apply (pres_get_set same_upgrade).
  - intros w. unfold restore_srd. by destruct (restore_srd_paths _ _).
  - intros st. unfold gen_workload_info, get_wl, enc_malloc. pres; try (by split).
    split; by apply restore_file_other.
Qed.

Lemma import_run j e pub e' :
  import_upgrade j e = Ok ((CRUST_SUCCESS, pub), e') →
  let w := wl e' in
  ∃ key_u sig_u info srd_root files_root sig,
    hex_string_to_bytes (ToString (jkey UPGRADE_PUBLIC_KEY j)) = Some key_u ∧ copy PUB_KEY_SIZE key_u = Ok pub ∧
    hex_string_to_bytes (ToString (jkey UPGRADE_SIG j)) = Some sig_u ∧ copy 64 sig_u = Ok sig ∧
    workload_info (srd_path2hashs_m w) (checked_files w) = Ok info ∧
    root_bytes WL_SRD_ROOT_HASH info = Ok srd_root ∧ root_bytes WL_FILE_ROOT_HASH info = Ok files_root ∧
    sgx_ecdsa_verify (concat (upgrade_sig_parts pub (ToString (jkey UPGRADE_BLOCK_HEIGHT j))
      (ToString (jkey UPGRADE_BLOCK_HASH j)) srd_root files_root)) pub sig = (SGX_SUCCESS, true) ∧
    ToString (jkey WL_SRD_ROOT_HASH info) = ToString (jkey UPGRADE_SRD_ROOT j) ∧
    ToString (jkey WL_FILE_ROOT_HASH info) = ToString (jkey UPGRADE_FILE_ROOT j).
Proof.
  intros H. unfold import_upgrade in H. cbv zeta in H.
  destruct (hex_string_to_bytes (ToString (jkey UPGRADE_PUBLIC_KEY j))) as [key_u|]; [|by apply ret_Ok in H as [? _]].
  do 2 inv_step H. destruct (restore_srd _ _) as [st w]. inv_step H. inv_if H; [|by inv_step H].
  do 2 inv_step H. apply gen_workload_info_run in H0 as [-> Hi]. inv_step H. inv_if H; [|by inv_step H].
  do 4 inv_step H. inv_if H; [|by inv_step H].
  destruct (hex_string_to_bytes (ToString (jkey UPGRADE_SIG j))) as [sig_u|]; [|by inv_step H].
  inv_step H. inv_if H; [by inv_step H|]. do 2 (inv_if H; [|by inv_step H]).
  apply ret_Ok in H as [[= <-] ->].
  match goal with E : _ || _ = false |- _ => apply orb_false_iff in E as [Ev1%negb_false_iff Ev2%negb_false_iff] end.
  repeat match goal with E : bool_decide _ = true |- _ => apply bool_decide_eq_true in E end.
  repeat match goal with E : put_all _ _ _ = Ok _ |- _ => apply put_all_concat in E; subst end.
  destruct Hi as [->|Hi]; [by match goal with E : root_bytes WL_SRD_ROOT_HASH JNull = _ |- _ => rewrite root_bytes_null in E end|].
  intros w1. do 6 eexists. split_and!; try done.
  cbn [app] in Ev1, Ev2. destruct (sgx_ecdsa_verify _ _ _) as [st2 b2]. cbn [fst snd] in *.
  destruct st2, b2; done.
Qed.

(** C8: whatever bytes arrive, [id_restore_from_upgrade] becomes the successor of a
    previous enclave only if the text carries that enclave's public key and a
    signature of it that is valid for the height, the block hash and the roots of
    the srd hashes and files now restored, and names those roots; otherwise it
    reports an error and the upgrade flag and the previous key stay as they were. *)
Theorem restore_upgrade_verified b data total_size transfer_end e b' st e' :
  id_restore_from_upgrade b data total_size transfer_end e = Ok ((b', st), e') →
  (same_upgrade (wl e) (wl e') ∧ st ≠ CRUST_SUCCESS) ∨
  ∃ text j e1 pub key_u sig_u info srd_root files_root sig,
    Load Raw text = Ok j ∧ import_upgrade j e = Ok ((CRUST_SUCCESS, pub), e1) ∧
    hex_string_to_bytes (ToString (jkey UPGRADE_PUBLIC_KEY j)) = Some key_u ∧ copy PUB_KEY_SIZE key_u = Ok pub ∧
    hex_string_to_bytes (ToString (jkey UPGRADE_SIG j)) = Some sig_u ∧ copy 64 sig_u = Ok sig ∧
    workload_info (srd_path2hashs_m (wl e1)) (checked_files (wl e1)) = Ok info ∧
    root_bytes WL_SRD_ROOT_HASH info = Ok srd_root ∧ root_bytes WL_FILE_ROOT_HASH info = Ok files_root ∧
    sgx_ecdsa_verify (concat (upgrade_sig_parts pub (ToString (jkey UPGRADE_BLOCK_HEIGHT j))
      (ToString (jkey UPGRADE_BLOCK_HASH j)) srd_root files_root)) pub sig = (SGX_SUCCESS, true) ∧
    ToString (jkey WL_SRD_ROOT_HASH info) = ToString (jkey UPGRADE_SRD_ROOT j) ∧
    ToString (jkey WL_FILE_ROOT_HASH info) = ToString (jkey UPGRADE_FILE_ROOT j) ∧
    upgrade (wl e') = true ∧ pre_pub_key (wl e') = pub.
Proof.
  intros H. unfold id_restore_from_upgrade in H. inv_step H.
  assert (e0 = e ∧ ∀ b1 st1, x = (b1, inl st1) → st1 ≠ CRUST_SUCCESS) as [-> Hx].
  { unfold receive_upgrade in H0. cbv zeta in H0. inv_step H0.
    assert (e1 = e) as -> by (destruct (_ =? 0); inv_first H1; done).
    inv_if H0; [|inv_step H0; split; [done|by intros ?? [= _ <-]]]. inv_if H0; [done|].
    inv_if H0; inv_step H0; (split; [done|by intros ?? [= _ <-]]). }
  destruct x as [b1 [st1|text]].
  { apply ret_Ok in H as [[= -> ->] ->]. left. split; [done|by eapply Hx]. }
  inv_step H. inv_step H. apply ret_Ok in H as [[= -> ->] <-].
  unfold restore_upgrade in H1. apply bind_Ok in H1 as ([st2 pub] & e1 & Himp & H1). cbn [fst snd] in H1.
  destruct (decide (st2 = CRUST_SUCCESS)) as [->|Hne].
  - cbn [is_success negb] in H1. unfold enter_upgrade in H1. do 2 inv_step H1. right.
    match goal with E : Load Raw _ = Ok ?j |- _ => pose proof E as Hload end.
    destruct (import_run _ _ _ _ Himp) as (key_u & sig_u & info & r1 & r2 & sig & F).
    eexists text, _, e1, pub, key_u, sig_u, info, r1, r2, sig. split; [done|]. split; [done|].
    assert (upgrade (wl e') = true ∧ pre_pub_key (wl e') = pub) as Hup.
    { inv_if H1; [|by apply ret_Ok in H1 as [_ ->]]. do 2 inv_step H1.
      apply report_keeps_upgrade in H1 as [-> ->]. done. }
    naive_solver.
  - left. assert (negb (is_success st2) = true) as Hs by by destruct st2.
    rewrite Hs in H1. apply ret_Ok in H1 as [-> ->]. split; [|done]. by eapply import_keeps_upgrade.
Qed.
End safety.

(** ** Witnesses *)
Definition demo_upgraded : bytes := str "upgrade".
Definition demo_stored (w : demo) : bytes := default [] (map_find demo_upgraded (d_files w)).
#[global] Instance demo_upgrade_host : UpgradeHost demo := {
  sgx_ecdsa_verify m pub sig := (SGX_SUCCESS, bool_decide (sig = demo_sign (take 32 pub) m));
  ocall_get_block_hash _ w := ((CRUST_SUCCESS, replicate 64 "a"%char), w);
  ocall_store_upgrade_data p cover w := (demo_fs (map_set demo_upgraded (ocall_store (demo_stored w) (p, cover))) w).2;
  ocall_entry_network := demo_done
}.
#[global] Instance demo_upgrade_laws : UpgradeLaws demo.
Proof.
  refine {| key_match pri pub := pri = take 32 pub; upgrade_stored := demo_stored |}.
  - intros pri pub m w sig w' -> [= <- _]. split; [|cbn; by rewrite bool_decide_true].
    unfold demo_sign, zlen. rewrite length_take, !length_app, length_replicate. lia.
  - done.
  - intros h w _. split; [done|]. by apply Forall_replicate; vm_compute; repeat constructor.
  - intros p cover w. unfold demo_stored at 1. cbn [ocall_store_upgrade_data demo_upgrade_host demo_fs snd d_files].
    by rewrite map_find_set_eq.
Defined.

Definition demo_old : enclave demo :=
  with_wl (set_key_pair (EccKeyPair (replicate 64 (chr 1)) (replicate 32 (chr 1)))
    (report_add_validated_proof demo_id_workload)) demo_enclave.
Definition demo_exported : enclave demo :=
  match id_gen_upgrade_data 1000 demo_old with Ok (_, e) => e | _ => demo_enclave end.
Lemma demo_export_ok : id_gen_upgrade_data 1000 demo_old = Ok (CRUST_SUCCESS, demo_exported).
Proof. vm_compute. reflexivity. Qed.
Definition demo_text : bytes := upgrade_stored (world demo_exported).
Definition demo_import : (upgrade_buffer * crust_status) * enclave demo :=
  match id_restore_from_upgrade no_upgrade_buffer demo_text (zlen demo_text) true demo_enclave with
  | Ok r => r | _ => ((no_upgrade_buffer, CRUST_UNEXPECTED_ERROR), demo_enclave) end.
Lemma demo_import_ok :
  id_restore_from_upgrade no_upgrade_buffer demo_text (zlen demo_text) true demo_enclave
  = Ok ((no_upgrade_buffer, CRUST_SUCCESS), demo_import.2).
Proof. vm_compute. reflexivity. Qed.

Lemma demo_exported_files : checked_files (wl demo_exported) = [demo_file "f"%char (str "111")].
Proof. vm_compute. reflexivity. Qed.
Lemma demo_exported_srd : srd_path2hashs_m (wl demo_exported) = srd_path2hashs_m demo_id_workload.
Proof. vm_compute. reflexivity. Qed.
Lemma demo_exported_ok :
  srd_ok (srd_path2hashs_m (wl demo_exported)) ∧ Forall file_ok (checked_files (wl demo_exported)).
Proof.
  rewrite demo_exported_srd, demo_exported_files. split; [apply demo_storable|].
  apply Forall_singleton; by repeat constructor.
Qed.
Lemma demo_exported_sizes :
  map_total (srd_path2hashs_m (wl demo_exported)) * HASH_LENGTH < 2 ^ 63 ∧
  zlen (checked_files (wl demo_exported)) * HASH_LENGTH < 2 ^ 63 ∧
  zlen (get_pub_key (wl demo_exported)) = 64 ∧
  key_match (get_pri_key (wl demo_exported)) (get_pub_key (wl demo_exported)) ∧ zlen demo_text < 2 ^ 63.
Proof. vm_compute. by split_and!. Qed.

Lemma upgrade_roundtrip_witness :
  ∃ eB1 height hash,
    id_restore_from_upgrade no_upgrade_buffer demo_text (zlen demo_text) true demo_enclave =
      (st ← enter_upgrade (get_pub_key (wl demo_exported)) hash (to_string height);
       mret (no_upgrade_buffer, st)) eB1 ∧
    srd_path2hashs_m (wl eB1) = srd_path2hashs_m (wl demo_exported) ∧
    checked_files (wl eB1) = checked_files (wl demo_exported) ∧ 0 <= height < 1000.
Proof.
  destruct demo_exported_ok as [H1 H2]. destruct demo_exported_sizes as (H3 & H4 & H5 & H6 & H7).
  apply (upgrade_roundtrip 1000 demo_old demo_exported demo_enclave demo_export_ok);
    [discriminate|reflexivity|exact H1|exact H2|exact H3|exact H4|exact H5|exact H6|exact H7].
Defined.

Lemma restore_upgrade_verified_witness :
  ∃ pub m sig, sgx_ecdsa_verify m pub sig = (SGX_SUCCESS, true) ∧ pre_pub_key (wl demo_import.2) = pub.
Proof.
  destruct (restore_upgrade_verified no_upgrade_buffer demo_text (zlen demo_text) true demo_enclave
    no_upgrade_buffer CRUST_SUCCESS demo_import.2 demo_import_ok)
    as [[_ H]|(text & j & e1 & pub & k & s & info & r1 & r2 & sig & _ & _ & _ & _ & _ & _ & _ & _ & _ & Hv & _ & _ & _ & Hp)].
  - destruct H. reflexivity.
  - exists pub. eexists _, _. split; [exact Hv|exact Hp].
Defined.

Definition demo_pieces : list bytes := [take 100 demo_text; drop 100 demo_text].
Lemma demo_pieces_whole : concat demo_pieces = demo_text.
Proof. unfold demo_pieces. cbn [concat]. rewrite app_nil_r. apply take_drop. Qed.
Lemma demo_pieces_ok : Forall (λ p, p ≠ []) demo_pieces.
Proof. unfold demo_pieces. repeat (apply List.Forall_cons; [by vm_compute|]). apply List.Forall_nil. Qed.
Lemma pieces_equal_whole_witness :
  restore_pieces no_upgrade_buffer demo_pieces (zlen demo_text) demo_enclave =
  Ok ((no_upgrade_buffer, CRUST_SUCCESS), demo_import.2).
Proof.
  rewrite <- demo_import_ok, <- demo_pieces_whole.
  apply (pieces_equal_whole demo_pieces demo_enclave); [discriminate|exact demo_pieces_ok|].
  rewrite demo_pieces_whole. apply demo_exported_sizes.
Defined.
