(* ===== verification/Attest.v ===== *)
(** * Verifying the attestation report (enclave/identity/Identity.cpp)

    [id_verify_and_upload_identity]: the certificate chain and the signature of the
    attestation service, the quote in the report, and the identity that is signed
    and uploaded.  Certificates and keys are OpenSSL's; what is done with them is
    modelled. *)
From S2P Require Import Prelude StdMap Status Hex Json JsonParse JsonText Host.
From S2P Require Import State Demo Persist Workload Identity.

(** OpenSSL, and the layout of a quote *)
Class AttestHost (W : Type) := {
  X509 : Type;
  EVP_PKEY : Type;
  PEM_read_bio_X509 : bytes → option X509;
  (* root certificate (or NULL) and chain, the first one to be verified *)
  X509_verify_cert : option X509 → list X509 → bool;
  X509_get_pubkey : X509 → option EVP_PKEY;
  (* key, message, signature *)
  EVP_DigestVerify : EVP_PKEY → bytes → bytes → bool;
  (* the decoding of a text without line breaks; [None] is -1 *)
  BIO_read_base64 : bytes → option bytes;
  sizeof_quote : Z;
  quote_report_data : bytes → bytes;
  quote_mr_enclave : bytes → bytes;
  (* is the uninitialised [iasQuote] NULL? *)
  iasQuote_null : W → bool;
  ocall_upload_identity : bytes → W → crust_status * W
}.

Definition ln (s : String.string) : bytes := str s ++ [chr 10].
(** Intel SGX root certificate *)
Definition INTELSGXATTROOTCA : bytes :=
  ln "-----BEGIN CERTIFICATE-----" ++
  ln "MIIFSzCCA7OgAwIBAgIJANEHdl0yo7CUMA0GCSqGSIb3DQEBCwUAMH4xCzAJBgNV" ++
  ln "BAYTAlVTMQswCQYDVQQIDAJDQTEUMBIGA1UEBwwLU2FudGEgQ2xhcmExGjAYBgNV" ++
  ln "BAoMEUludGVsIENvcnBvcmF0aW9uMTAwLgYDVQQDDCdJbnRlbCBTR1ggQXR0ZXN0" ++
  ln "YXRpb24gUmVwb3J0IFNpZ25pbmcgQ0EwIBcNMTYxMTE0MTUzNzMxWhgPMjA0OTEy" ++
  ln "MzEyMzU5NTlaMH4xCzAJBgNVBAYTAlVTMQswCQYDVQQIDAJDQTEUMBIGA1UEBwwL" ++
  ln "U2FudGEgQ2xhcmExGjAYBgNVBAoMEUludGVsIENvcnBvcmF0aW9uMTAwLgYDVQQD" ++
  ln "DCdJbnRlbCBTR1ggQXR0ZXN0YXRpb24gUmVwb3J0IFNpZ25pbmcgQ0EwggGiMA0G" ++
  ln "CSqGSIb3DQEBAQUAA4IBjwAwggGKAoIBgQCfPGR+tXc8u1EtJzLA10Feu1Wg+p7e" ++
  ln "LmSRmeaCHbkQ1TF3Nwl3RmpqXkeGzNLd69QUnWovYyVSndEMyYc3sHecGgfinEeh" ++
  ln "rgBJSEdsSJ9FpaFdesjsxqzGRa20PYdnnfWcCTvFoulpbFR4VBuXnnVLVzkUvlXT" ++
  ln "L/TAnd8nIZk0zZkFJ7P5LtePvykkar7LcSQO85wtcQe0R1Raf/sQ6wYKaKmFgCGe" ++
  ln "NpEJUmg4ktal4qgIAxk+QHUxQE42sxViN5mqglB0QJdUot/o9a/V/mMeH8KvOAiQ" ++
  ln "byinkNndn+Bgk5sSV5DFgF0DffVqmVMblt5p3jPtImzBIH0QQrXJq39AT8cRwP5H" ++
  ln "afuVeLHcDsRp6hol4P+ZFIhu8mmbI1u0hH3W/0C2BuYXB5PC+5izFFh/nP0lc2Lf" ++
  ln "6rELO9LZdnOhpL1ExFOq9H/B8tPQ84T3Sgb4nAifDabNt/zu6MmCGo5U8lwEFtGM" ++
  ln "RoOaX4AS+909x00lYnmtwsDVWv9vBiJCXRsCAwEAAaOByTCBxjBgBgNVHR8EWTBX" ++
  ln "MFWgU6BRhk9odHRwOi8vdHJ1c3RlZHNlcnZpY2VzLmludGVsLmNvbS9jb250ZW50" ++
  ln "L0NSTC9TR1gvQXR0ZXN0YXRpb25SZXBvcnRTaWduaW5nQ0EuY3JsMB0GA1UdDgQW" ++
  ln "BBR4Q3t2pn680K9+QjfrNXw7hwFRPDAfBgNVHSMEGDAWgBR4Q3t2pn680K9+Qjfr" ++
  ln "NXw7hwFRPDAOBgNVHQ8BAf8EBAMCAQYwEgYDVR0TAQH/BAgwBgEB/wIBADANBgkq" ++
  ln "hkiG9w0BAQsFAAOCAYEAeF8tYMXICvQqeXYQITkV2oLJsp6J4JAqJabHWxYJHGir" ++
  ln "IEqucRiJSSx+HjIJEUVaj8E0QjEud6Y5lNmXlcjqRXaCPOqK0eGRz6hi+ripMtPZ" ++
  ln "sFNaBwLQVV905SDjAzDzNIDnrcnXyB4gcDFCvwDFKKgLRjOB/WAqgscDUoGq5ZVi" ++
  ln "zLUzTqiQPmULAQaB9c6Oti6snEFJiCQ67JLyW/E83/frzCmO5Ru6WjU4tmsmy8Ra" ++
  ln "Ud4APK0wZTGtfPXU7w+IBdG5Ez0kE1qzxGQaL4gINJ1zMyleDnbuS8UicjJijvqA" ++
  ln "152Sq049ESDz+1rRGc2NVEqh1KaGXmtXvqxXcTB+Ljy5Bw2ke0v8iGngFBPqCTVB" ++
  ln "3op5KBG3RjbF6RRSzwzuWfL7QErNC8WEy5yDVARzTA5+xmBc388v9Dm21HGfcC8O" ++
  ln "DD+gT9sSpssq0ascmvH49MOgjt1yoysLtdCtJW/9FZpoOypaHx0R+mJTLwPXVMrv" ++
  ln "DaVzWh5aiEx+idkSGMnX" ++
  str "-----END CERTIFICATE-----".

Definition IAS_CERT : bytes := str "ias_cert".
Definition IAS_SIG : bytes := str "ias_sig".
Definition IAS_ISV_BODY : bytes := str "isv_body".
Definition IAS_CHAIN_ACCOUNT_ID : bytes := str "account_id".
Definition IAS_REPORT_SIG : bytes := str "sig".
Definition IAS_ISV_BODY_TAG : bytes := str "isvEnclaveQuoteBody".

(** ** C++ strings *)

(** [std::string::find] from a position; [None] is npos. *)
Fixpoint scan_from (pat s : bytes) : option nat :=
  if bool_decide (take (List.length pat) s = pat) then Some 0%nat
  else match s with [] => None | _ :: s => S <$> scan_from pat s end.
Definition string_find (pat s : bytes) (pos : nat) : option nat :=
  if Nat.ltb (List.length s) pos then None else Nat.add pos <$> scan_from pat (drop pos s).
Definition npos : Z := 2 ^ 64 - 1.
Definition pos_of (o : option nat) : Z := match o with Some n => Z.of_nat n | None => npos end.
(** [substr] throws behind the end; a count beyond it means the rest. *)
Definition substr (s : bytes) (pos count : Z) : res bytes :=
  if zlen s <? pos then Throw else Ok (take (Z.to_nat (Z.min count (zlen s))) (drop (Z.to_nat pos) s)).
(** [c_str]: up to the first NUL *)
Fixpoint c_str (s : bytes) : bytes :=
  match s with [] => [] | c :: s => if code c =? 0 then [] else c :: c_str s end.

(** [replace] (EUtils.cpp): one replacement per turn, going on behind it *)
Fixpoint replace_at (fuel : nat) (data org det : bytes) (epos : nat) : bytes :=
  match fuel with
  | O => data
  | S fuel =>
      match string_find org data epos with
      | None => data
      | Some spos =>
          replace_at fuel (take spos data ++ det ++ drop (spos + List.length org) data) org det
            (spos + List.length det)
      end
  end.
Definition replace (data org det : bytes) : bytes := replace_at (S (List.length data)) data org det 0.

(** [strtoul(s, &e, 16)]: the value and what [e] points to *)
Fixpoint span_hex (l : bytes) : bytes * bytes :=
  match l with
  | c :: l' => if is_hexdigit c then let '(d, r) := span_hex l' in (c :: d, r) else ([], l)
  | [] => ([], [])
  end.
Definition hex_value (l : bytes) : Z := foldl (λ n c, n * 16 + char_to_int c) 0 l.
Definition strtoul16 (s : bytes) : Z * bytes :=
  let t := skip_ws s in
  let '(neg, t) := match t with
                   | c :: r => if code c =? 45 then (true, r) else if code c =? 43 then (false, r) else (false, t)
                   | [] => (false, []) end in
  let t := match t with
           | z :: x :: d :: r =>
               if (code z =? 48) && ((code x =? 120) || (code x =? 88)) && is_hexdigit d then d :: r else t
           | _ => t end in
  let '(d, r) := span_hex t in
  match d with
  | [] => (0, s)
  | _ => (u64 (if neg : bool then - hex_value d else hex_value d), r)
  end.

(** [url_decode] *)
Fixpoint url_decode (s : bytes) : res bytes :=
  match s with
  | [] => Ok []
  | c :: s =>
      if code c =? 43 then d ← url_decode s; Ok (chr 32 :: d)
      else if code c =? 37 then
        match s with
        | a :: b :: s =>
            let '(v, e) := strtoul16 (c_str [a; b]) in
            match e with
            | [] => d ← url_decode s; Ok (chr v :: d)
            | _ => Throw
            end
        | _ => Throw
        end
      else d ← url_decode s; Ok (c :: d)
  end.

(** The pieces of the chain: each begins at a BEGIN line, the first at the start. *)
Definition BEGIN : bytes := str "-----BEGIN".
Fixpoint cert_pieces (fuel : nat) (s : bytes) : list bytes :=
  match fuel with
  | O => [s]
  | S fuel =>
      match string_find BEGIN s 1 with
      | Some k => take k s :: cert_pieces fuel (drop k s)
      | None => [s]
      end
  end.
Definition cert_chain (s : bytes) : list bytes := cert_pieces (List.length s) s.

(** The one line of the first certificate's body *)
Definition cert_body (certchain_1 : bytes) : res bytes :=
  let spos := u64 (pos_of (string_find (ln "-----BEGIN CERTIFICATE-----") certchain_1 0) + 28) in
  let epos := pos_of (string_find (chr 10 :: str "-----END CERTIFICATE-----") certchain_1 0) in
  c ← substr certchain_1 spos (u64 (epos - spos)); Ok (replace c [chr 10] []).

(** The quote in the report: positions are kept as [int]. *)
Definition quote_body (isv_body : bytes) : res bytes :=
  let quoteSPos := i32 (pos_of (string_find (quote IAS_ISV_BODY_TAG ++ str ":" ++ [chr 34]) isv_body 0)) in
  let from := u64 quoteSPos in
  let quoteSPos :=
    i32 (i32 (pos_of (if zlen isv_body <? from then None
                        else string_find (chr 34 :: str ":" ++ [chr 34]) isv_body (Z.to_nat from))) + 3) in
  let quoteEPos := i32 (i32 (zlen isv_body) - 2) in
  substr isv_body (u64 quoteSPos) (u64 (i32 (quoteEPos - quoteSPos))).

Section attest.
Context {W : Type} `{!Host W} `{!AttestHost W}.
Abbreviation M := (M (enclave W)).

(** The wrappers around OpenSSL; their own allocations succeed. *)
Definition cert_load (pemdata : bytes) : option X509 := PEM_read_bio_X509 (c_str pemdata).
Definition cert_init_ca (cert : option X509) : option X509 := cert.
Definition cert_verify (store : option X509) (chain : list X509) : bool := X509_verify_cert store chain.
Definition sha256_verify (msg sig : bytes) (pkey : EVP_PKEY) : bool := EVP_DigestVerify pkey msg sig.
Definition base64_decode (msg : bytes) : M (option bytes) :=
  let msg := c_str msg in
  ok ← enc_malloc (zlen msg + 1);
  mret (if negb ok then None else BIO_read_base64 msg).

(** The account bytes behind the text that is signed: copied from NULL when the
    account does not decode. *)
Definition account_bytes (chain_account_id : bytes) : res bytes :=
  match hex_string_to_bytes chain_account_id with
  | Some b => Ok b
  | None => if 0 <? zlen chain_account_id / 2 then UB else Ok []
  end.

(** [cleanup] before the quote was allocated frees the uninitialised pointer. *)
Definition early (status : crust_status) : M crust_status :=
  null ← gets (λ e, iasQuote_null (world e));
  if null : bool then mret status else undefined.

(** The part after the quote has been found genuine *)
Definition sign_identity (certchain_1 ias_sig isv_body chain_account_id : bytes) : M crust_status :=
  w ← get_wl id;
  sgx_status ← host sgx_ecc256_open_context;
  if negb (sgx_ok sgx_status) then mret CRUST_SIGN_PUBKEY_FAILED
  else
    certchain_1 ← of_res (cert_body certchain_1);
    let len := u32 (zlen certchain_1 + zlen ias_sig + zlen isv_body + zlen chain_account_id / 2) in
    ok ← gets (λ e, malloc (world e) len);
    if negb ok then mret CRUST_SUCCESS
    else
      p_account_id_u ← of_res (account_bytes chain_account_id);
      org_data ← of_res (put_all len [] [certchain_1; ias_sig; isv_body; p_account_id_u]);
      sig ← host (sgx_ecdsa_sign (get_pri_key w) org_data);
      match sig with
      | None => mret CRUST_SIGN_PUBKEY_FAILED
      | Some sig =>
          let id_json :=
            jkey_set IAS_REPORT_SIG (JString (hexstring_safe sig))
              (jkey_set IAS_CHAIN_ACCOUNT_ID (JString chain_account_id)
                (jkey_set IAS_ISV_BODY (JString isv_body)
                  (jkey_set IAS_SIG (JString ias_sig)
                    (jkey_set IAS_CERT (JString certchain_1) JNull)))) in
          host (ocall_upload_identity (dump id_json))
      end.

(** The quote in a body whose signature is valid *)
Definition check_quote (isv_body : bytes) : M (option crust_status) :=
  ias_quote_body ← of_res (quote_body isv_body);
  decoded ← base64_decode ias_quote_body;
  match decoded with
  | None => st ← early CRUST_IAS_BAD_BODY; mret (Some st)
  | Some p_decode_quote_body =>
      ok ← enc_malloc sizeof_quote;
      if negb ok then mret (Some CRUST_SUCCESS)
      else if sizeof_quote <? zlen p_decode_quote_body then undefined
      else
        let iasQuote := p_decode_quote_body
          ++ replicate (Z.to_nat (sizeof_quote - zlen p_decode_quote_body)) (chr 0) in
        w ← get_wl id;
        if negb (bool_decide (take 64 (quote_report_data iasQuote) = get_pub_key w))
        then mret (Some CRUST_IAS_REPORTDATA_NE)
        else if negb (bool_decide (quote_mr_enclave iasQuote = get_mr_enclave w))
        then mret (Some CRUST_IAS_BADMEASUREMENT)
        else mret None
  end.

(** [response[i]] of the vector built from the array *)
Definition response_at (response : list bytes) (i : nat) : res bytes :=
  match response !! i with Some r => Ok r | None => UB end.

Definition id_verify_and_upload_identity (response : list bytes) : M crust_status :=
  chain_account_id ← get_wl get_account_id;
  certchain ← of_res (response_at response 0);
  if bool_decide (certchain = []) then mret CRUST_IAS_BAD_CERTIFICATE
  else
    match url_decode certchain with
    | Ok certchain =>
        let pieces := cert_chain certchain in
        let certchain_1 := default [] (head pieces) in
        match mapM cert_load pieces with
        | None => mret CRUST_IAS_BAD_CERTIFICATE
        | Some certvec =>
            ok ← enc_malloc (8 * (zlen certvec + 1));
            if negb ok then mret CRUST_IAS_INTERNAL_ERROR
            else if negb (cert_verify (cert_init_ca (PEM_read_bio_X509 INTELSGXATTROOTCA)) certvec)
            then early CRUST_IAS_BAD_CERTIFICATE
            else
              ias_sig ← of_res (response_at response 1);
              if bool_decide (ias_sig = []) then early CRUST_IAS_BAD_SIGNATURE
              else
                sig ← base64_decode ias_sig;
                match sig, certvec with
                | None, _ => early CRUST_IAS_BAD_SIGNATURE
                | _, [] => undefined
                | Some sig, sign_cert :: _ =>
                    match X509_get_pubkey sign_cert with
                    | None => early CRUST_IAS_GETPUBKEY_FAILED
                    | Some pkey =>
                        isv_body ← of_res (response_at response 2);
                        if negb (sha256_verify isv_body sig pkey) then early CRUST_IAS_BAD_SIGNATURE
                        else
                          r ← check_quote isv_body;
                          match r with
                          | Some status => mret status
                          | None => sign_identity certchain_1 ias_sig isv_body chain_account_id
                          end
                    end
                end
        end
    | _ => mret CRUST_IAS_BAD_CERTIFICATE
    end.
End attest.

(** ** Strings *)
Lemma string_find_char c data pos :
  string_find [c] data pos = None ↔ (List.length data < pos)%nat ∨ c ∉ drop pos data.
Proof.
  unfold string_find. destruct (Nat.ltb_spec (List.length data) pos); [split; [by left|done]|].
  assert (∀ s, scan_from [c] s = None ↔ c ∉ s) as Hf.
  { induction s as [|x s IH]; cbn [scan_from List.length take]; [split; [intros _; apply not_elem_of_nil|done]|].
    case_bool_decide as E.
    - injection E as ->. split; [done|]. intros []. by left.
    - rewrite fmap_None, IH, not_elem_of_cons. split; [intros ?; split; [|done]; intros ->; by apply E|naive_solver]. }
  rewrite fmap_None, Hf. split; [by right|]. by intros [?|?]; [lia|].
Qed.

Lemma string_find_app c a b :
  c ∉ a → string_find [c] (a ++ c :: b) 0 = Some (List.length a).
Proof.
  intros Ha. unfold string_find. cbn [Nat.ltb Nat.leb drop]. rewrite drop_0. cbn [Nat.add].
  assert (scan_from [c] (a ++ c :: b) = Some (List.length a)) as ->; [|done].
  induction a as [|x a IH]; cbn [app scan_from List.length take]; [by rewrite bool_decide_true|].
  rewrite not_elem_of_cons in Ha. destruct Ha as [Hx Ha].
  rewrite bool_decide_false by (intros E; injection E; congruence). by rewrite IH.
Qed.

(** Removing a character by [replace] is what [remove_char] does. *)
Lemma replace_at_char c fuel data epos :
  (List.length data - epos < fuel)%nat → (epos <= List.length data)%nat →
  replace_at fuel data [c] [] epos = take epos data ++ remove_char (drop epos data) c.
Proof.
  revert data epos. induction fuel as [|fuel IH]; intros data epos Hf He; [lia|]. cbn [replace_at].
  destruct (string_find [c] data epos) as [k|] eqn:E.
  - assert (∃ a b, drop epos data = a ++ c :: b ∧ c ∉ a) as (a & b & Hd & Ha).
    { assert (c ∈ drop epos data) as Hin.
      { destruct (decide (c ∈ drop epos data)) as [|Hn]; [done|].
        assert (string_find [c] data epos = None) by (apply string_find_char; by right). congruence. }
      apply list_elem_of_split_l in Hin as (a & b & Hd & Ha). eauto. }
    assert (k = (epos + List.length a)%nat) as ->.
    { pose proof (string_find_app c a b Ha) as Hs. unfold string_find in E, Hs.
      cbn [Nat.ltb Nat.leb] in Hs. rewrite drop_0, <- Hd in Hs.
      destruct (Nat.ltb_spec (List.length data) epos); [done|].
      destruct (scan_from [c] (drop epos data)); [|done]. cbn in E, Hs. congruence. }
    assert (data = take epos data ++ a ++ c :: b) as Ed by (rewrite <- Hd; by rewrite take_drop).
    assert (List.length (take epos data) = epos) as Hl by (rewrite length_take; lia).
    set (t := take epos data) in *.
    assert (take (epos + List.length a) data = t ++ a) as E1.
    { rewrite Ed, (app_assoc t a). apply take_app_length'. rewrite length_app. lia. }
    assert (drop (epos + List.length a + List.length [c]) data = b) as E2.
    { rewrite Ed. change (c :: b) with ([c] ++ b). rewrite !app_assoc. apply drop_app_length'.
      rewrite !length_app. lia. }
    rewrite E1, E2. cbn [app List.length]. rewrite Nat.add_0_r.
    assert (List.length data = (epos + List.length a + 1 + List.length b)%nat) as Hld.
    { rewrite Ed at 1. rewrite !length_app. cbn [List.length]. lia. }
    rewrite IH by (rewrite !length_app; lia).
    rewrite take_app_length', drop_app_length' by (rewrite length_app; lia).
    rewrite Hd, remove_char_app. rewrite (remove_char_id a) by done.
    change (remove_char (c :: b) c) with (filter (λ x, x ≠ c) (c :: b)).
    rewrite filter_cons_False by auto. by rewrite <- app_assoc.
  - apply string_find_char in E as [E|E]; [lia|]. by rewrite remove_char_id, take_drop.
Qed.
Lemma replace_char data c : replace data [c] [] = remove_char data c.
Proof. unfold replace. rewrite replace_at_char by lia. by rewrite drop_0. Qed.

(** The pieces of a chain make it up. *)
Lemma cert_pieces_concat fuel s : concat (cert_pieces fuel s) = s.
Proof.
  revert s. induction fuel as [|fuel IH]; intros s; cbn [cert_pieces]; [apply app_nil_r|].
  destruct (string_find BEGIN s 1); [|apply app_nil_r]. cbn [concat]. by rewrite IH, take_drop.
Qed.

(** ** Uploading needs a genuine report

    What the application was handed so far *)
Class AttestLaws (W : Type) `{!Host W} `{!AttestHost W} := {
  uploads : W → list bytes;
  uploads_open w : uploads (sgx_ecc256_open_context w).2 = uploads w;
  uploads_sign key m w : uploads (sgx_ecdsa_sign key m w).2 = uploads w;
  uploads_upload t w : uploads (ocall_upload_identity t w).2 = t :: uploads w
}.

(** A report of the attestation service about the enclave with this workload: its
    chain leads to the root, the first certificate signed the body, and the quote
    in the body names the public key and the measurement. *)
Record genuine `{!AttestHost W} (w : workload) (certchain ias_sig isv_body : bytes) : Prop := {
  gn_chain : ∃ certvec, mapM PEM_read_bio_X509 (map c_str (cert_chain certchain)) = Some certvec ∧
    X509_verify_cert (PEM_read_bio_X509 INTELSGXATTROOTCA) certvec = true ∧
    ∃ sign_cert pkey sig, head certvec = Some sign_cert ∧ X509_get_pubkey sign_cert = Some pkey ∧
      BIO_read_base64 (c_str ias_sig) = Some sig ∧ EVP_DigestVerify pkey isv_body sig = true;
  gn_quote : ∃ body decoded pad, quote_body isv_body = Ok body ∧ BIO_read_base64 (c_str body) = Some decoded ∧
    take 64 (quote_report_data (decoded ++ pad)) = get_pub_key w ∧
    quote_mr_enclave (decoded ++ pad) = get_mr_enclave w
}.

Section safety.
Context {W : Type} `{!Host W} `{!AttestHost W} `{!AttestLaws W}.
Implicit Types (e : enclave W).

Lemma base64_run msg e r e' :
  base64_decode msg e = Ok (r, e') → e' = e ∧ ∀ b, r = Some b → BIO_read_base64 (c_str msg) = Some b.
Proof.
  intros H. unfold base64_decode in H. cbv zeta in H. inv_step H. inv_step H. split; [done|].
  intros b. by destruct (malloc _ _).
Qed.
Lemma early_run st e r e' : early st e = Ok (r, e') → r = st ∧ e' = e.
Proof. intros H. unfold early in H. inv_step H. inv_if H; [by apply ret_Ok in H|done]. Qed.

Lemma check_quote_run body e r e' :
  check_quote body e = Ok (r, e') → e' = e ∧
  (r = None → ∃ b decoded pad, quote_body body = Ok b ∧ BIO_read_base64 (c_str b) = Some decoded ∧
     take 64 (quote_report_data (decoded ++ pad)) = get_pub_key (wl e) ∧
     quote_mr_enclave (decoded ++ pad) = get_mr_enclave (wl e)).
Proof.
  intros H. unfold check_quote in H. inv_step H. inv_step H. apply base64_run in H0 as [-> Hb].
  destruct x0 as [decoded|]; cbn beta iota in H.
  2: { apply bind_Ok in H as (st & e1 & Hs & H). apply early_run in Hs as [-> ->].
       apply ret_Ok in H as [-> ->]. done. }
  specialize (Hb decoded eq_refl). inv_step H. inv_if H; [|by apply ret_Ok in H as [-> ->]].
  inv_if H; [done|]. cbv zeta in H. inv_step H.
  inv_if H; [|by apply ret_Ok in H as [-> ->]]. inv_if H; [|by apply ret_Ok in H as [-> ->]].
  apply ret_Ok in H as [-> ->]. split; [done|]. intros _.
  repeat match goal with E : bool_decide _ = true |- _ => apply bool_decide_eq_true in E end.
  by eexists _, decoded, _.
Qed.

(** The identity that is uploaded: the signature covers the certificate's body, the
    service's signature, the report and the account. *)
Definition identity_text (cert ias_sig isv_body account sig : bytes) : bytes :=
  dump (jkey_set IAS_REPORT_SIG (JString (hexstring_safe sig))
    (jkey_set IAS_CHAIN_ACCOUNT_ID (JString account)
      (jkey_set IAS_ISV_BODY (JString isv_body)
        (jkey_set IAS_SIG (JString ias_sig) (jkey_set IAS_CERT (JString cert) JNull))))).

Lemma sign_identity_run cert1 ias_sig body account e st e' :
  sign_identity cert1 ias_sig body account e = Ok (st, e') →
  wl e' = wl e ∧
  (uploads (world e') = uploads (world e) ∨
   ∃ cert account_u sig w1 w2, cert_body cert1 = Ok cert ∧ account_bytes account = Ok account_u ∧
     sgx_ecdsa_sign (get_pri_key (wl e)) (cert ++ ias_sig ++ body ++ account_u) w1 = (Some sig, w2) ∧
     uploads (world e') = identity_text cert ias_sig body account sig :: uploads (world e)).
Proof.
  intros H. unfold sign_identity in H. do 2 inv_step H.
  inv_if H; [|apply ret_Ok in H as [_ ->]; split; [done|]; left; apply uploads_open].
  inv_step H. cbv zeta in H. inv_step H.
  inv_if H; [|apply ret_Ok in H as [_ ->]; split; [done|]; left; apply uploads_open].
  do 3 inv_step H. cbn [id] in H.
  match type of H with (match (?f ?w).1 with _ => _ end) _ = _ =>
    pose proof (uploads_sign (get_pri_key (wl e)) x1 w) as Hus;
    destruct (f w) as [[sig|] w2] eqn:Esig; cbn [fst snd] in H end.
  - unfold host in H. apply zoom_Ok in H as [_ ->]. split; [done|]. right.
    match goal with E : put_all _ _ _ = Ok _ |- _ => apply put_all_concat in E; cbn [concat app] in E end.
    rewrite app_nil_r in *. subst. do 5 eexists. split_and!; [done|done|exact Esig|].
    cbn [world with_world]. rewrite uploads_upload. f_equal. etransitivity; [exact Hus|apply uploads_open].
  - apply ret_Ok in H as [_ ->]. split; [done|]. left. etransitivity; [exact Hus|apply uploads_open].
Qed.

(** C9: an identity leaves the enclave only with a genuine attestation report about
    it: the certificate chain leads to Intel's root, its first certificate signed
    the report, the quote in the report names the enclave's public key and
    measurement; what is uploaded then is the report with a signature, by the
    enclave's private key, of certificate, report and account.  At most one upload
    happens and the workload never changes. *)
Theorem upload_identity_genuine response e st e' :
  id_verify_and_upload_identity response e = Ok (st, e') →
  wl e' = wl e ∧
  (uploads (world e') = uploads (world e) ∨
   ∃ r0 r1 r2 certchain cert account_u sig w1 w2,
     response !! 0%nat = Some r0 ∧ response !! 1%nat = Some r1 ∧ response !! 2%nat = Some r2 ∧
     url_decode r0 = Ok certchain ∧ genuine (wl e) certchain r1 r2 ∧
     cert_body (default [] (head (cert_chain certchain))) = Ok cert ∧
     account_bytes (get_account_id (wl e)) = Ok account_u ∧
     sgx_ecdsa_sign (get_pri_key (wl e)) (cert ++ r1 ++ r2 ++ account_u) w1 = (Some sig, w2) ∧
     uploads (world e') = identity_text cert r1 r2 (get_account_id (wl e)) sig :: uploads (world e)).
Proof.
  assert (∀ st st' e e', mret (M := M (enclave W)) (A := crust_status) st e = Ok (st', e') →
    wl e' = wl e ∧ uploads (world e') = uploads (world e)) as Hret by by intros ???? [_ ->]%ret_Ok.
  assert (∀ st st' e e', early st e = Ok (st', e') →
    wl e' = wl e ∧ uploads (world e') = uploads (world e)) as Hearly by by intros ???? [_ ->]%early_run.
  intros H. unfold id_verify_and_upload_identity in H. do 2 inv_step H.
  unfold response_at in *. destruct (response !! 0%nat) as [r0|] eqn:E0; [|done]. simplify_eq.
  inv_if H; [naive_solver|].
  match type of H with (match url_decode ?r with _ => _ end) _ = _ => destruct (url_decode r) as [certchain| | |] eqn:Eu end;
    try naive_solver. cbv zeta in H.
  destruct (mapM cert_load (cert_chain certchain)) as [certvec|] eqn:Ec; [|naive_solver].
  inv_step H. inv_if H; [|naive_solver]. inv_if H; [|naive_solver].
  inv_step H. destruct (response !! 1%nat) as [r1|] eqn:E1; [|done]. simplify_eq.
  inv_if H; [naive_solver|]. inv_step H. apply base64_run in H0 as [-> Hsig].
  match type of H with (match ?o with _ => _ end) _ = _ => destruct o as [ias_sig|]; [|naive_solver] end.
  destruct certvec as [|sign_cert certvec]; [done|]. specialize (Hsig _ eq_refl).
  destruct (X509_get_pubkey sign_cert) as [pkey|] eqn:Ep; [|naive_solver].
  inv_step H. destruct (response !! 2%nat) as [r2|] eqn:E2; [|done]. simplify_eq.
  inv_if H; [|naive_solver]. inv_step H. apply check_quote_run in H0 as [-> Hq].
  match type of H with (match ?o with _ => _ end) _ = _ => destruct o as [status|]; [naive_solver|] end.
  apply sign_identity_run in H as [Hw Hu]. split; [done|].
  destruct Hu as [Hu|(cert & account_u & sig & w1 & w2 & Hc & Ha & Hs & Hup)]; [by left|right].
  do 9 eexists. split_and!; try done. constructor; [|by apply Hq].
  exists (sign_cert :: certvec). split_and!; [|done|].
  - rewrite <- Ec. clear. induction (cert_chain certchain) as [|p ps IH]; [done|]. cbn. by rewrite IH.
  - by exists sign_cert, pkey, ias_sig.
Qed.
End safety.

(** ** Witness *)
#[global] Instance demo_attest_host : AttestHost demo := {
  X509 := bytes;
  EVP_PKEY := bytes;
  PEM_read_bio_X509 s := Some s;
  X509_verify_cert root chain := bool_decide (root = Some INTELSGXATTROOTCA) && Nat.ltb 0 (List.length chain);
  X509_get_pubkey c := Some c;
  EVP_DigestVerify _ m sig := bool_decide (take 4 m = sig);
  BIO_read_base64 s := Some s;
  sizeof_quote := 436;
  quote_report_data q := take 64 q;
  quote_mr_enclave q := take 32 (drop 64 q);
  iasQuote_null _ := true;
  ocall_upload_identity t w :=
    (CRUST_SUCCESS, DemoW (d_db w) (d_files w) (d_rand w) (t :: d_uploaded w))
}.
#[global] Instance demo_attest_laws : AttestLaws demo.
Proof. by refine {| uploads := d_uploaded |}. Defined.

Definition demo_attest : enclave demo :=
  with_wl (set_account_id (str "ab12") (set_mr_enclave (replicate 32 (chr 3)) demo_id_workload)) demo_enclave.
Definition demo_report : bytes :=
  str "{" ++ quote IAS_ISV_BODY_TAG ++ str ":" ++ quote (replicate 64 (chr 1) ++ replicate 32 (chr 3)) ++ str "}".
Definition demo_response : list bytes :=
  [str "-----BEGIN+CERTIFICATE-----%0AAB%0ACD%0A-----END+CERTIFICATE-----"; take 4 demo_report; demo_report].
Definition demo_attested : enclave demo :=
  match id_verify_and_upload_identity demo_response demo_attest with Ok (_, e) => e | _ => demo_enclave end.
Lemma demo_attested_ok :
  id_verify_and_upload_identity demo_response demo_attest = Ok (CRUST_SUCCESS, demo_attested) ∧
  List.length (d_uploaded (world demo_attested)) = 1%nat.
Proof. vm_compute. by split. Qed.

Lemma upload_identity_genuine_witness :
  ∃ certchain r1 r2 t, genuine (wl demo_attest) certchain r1 r2 ∧ uploads (world demo_attested) = [t].
Proof.
  destruct demo_attested_ok as [H Hl].
  destruct (upload_identity_genuine demo_response demo_attest CRUST_SUCCESS demo_attested H)
    as [_ [Hu|(r0 & r1 & r2 & cc & cert & au & sig & w1 & w2 & _ & _ & _ & _ & Hg & _ & _ & _ & Hu)]].
  - exfalso. change (d_uploaded (world demo_attested) = []) in Hu. rewrite Hu in Hl. discriminate Hl.
  - eexists cc, r1, r2, _. split; [exact Hg|exact Hu].
Defined.

(** Inputs evaluated: a plus sign, an escape, two characters that [strtoul] accepts
    though they are not hex digits, a cut escape. *)
Example url_decode_examples :
  url_decode (str "a+b%2Fc") = Ok (str "a b/c") ∧ url_decode (str "%-1") = Ok [chr 255] ∧
  url_decode (str "%4") = Throw ∧ url_decode (str "%zz") = Throw.
Proof. by vm_compute. Qed.
(** No room for the quote: the report is taken for verified and nothing is
    uploaded, with status SUCCESS. *)
Definition tight_host : Host demo :=
  let h := demo_host in {|
    sha256 := @sha256 demo h; malloc w n := negb (n =? 436);
    sgx_read_rand := @sgx_read_rand demo h; sgx_seal_data := @sgx_seal_data demo h;
    sgx_seal_data_ex := @sgx_seal_data_ex demo h; sgx_calc_sealed_data_size := @sgx_calc_sealed_data_size demo h;
    sgx_get_encrypt_txt_len := @sgx_get_encrypt_txt_len demo h; sgx_unseal_data := @sgx_unseal_data demo h;
    sgx_ecc256_open_context := @sgx_ecc256_open_context demo h; sgx_ecdsa_sign := @sgx_ecdsa_sign demo h;
    ocall_persist_add := @ocall_persist_add demo h; ocall_persist_add_keys := @ocall_persist_add_keys demo h;
    ocall_persist_del := @ocall_persist_del demo h; ocall_persist_del_keys := @ocall_persist_del_keys demo h;
    ocall_persist_set := @ocall_persist_set demo h; ocall_persist_get := @ocall_persist_get demo h;
    ocall_free_outer_buffer := @ocall_free_outer_buffer demo h; ocall_create_dir := @ocall_create_dir demo h;
    ocall_rename_dir := @ocall_rename_dir demo h; ocall_save_file := @ocall_save_file demo h;
    ocall_get_file := @ocall_get_file demo h; ocall_get_storage_file := @ocall_get_storage_file demo h;
    ocall_replace_file := @ocall_replace_file demo h;
    ocall_delete_folder_or_file := @ocall_delete_folder_or_file demo h;
    ocall_upload_workreport := @ocall_upload_workreport demo h; ocall_store_workload := @ocall_store_workload demo h;
    ocall_store_sealed_merkletree := @ocall_store_sealed_merkletree demo h;
    ocall_validate_init := @ocall_validate_init demo h; ocall_validate_close := @ocall_validate_close demo h;
    ocall_validate_get_file := @ocall_validate_get_file demo h
  |}.
Example attest_no_memory :
  match @id_verify_and_upload_identity demo tight_host demo_attest_host demo_response demo_attest with
  | Ok (st, e) => st = CRUST_SUCCESS ∧ d_uploaded (world e) = []
  | _ => False
  end.
Proof. vm_compute. by split. Qed.
