(* ===== verification/Invariant.v ===== *)
(** * A well-formed workload, and what every operation keeps

    The invariant of the [Workload] singleton ([typed]), and the relation every
    operation of the enclave moves it by ([evolves]): well-formed workloads stay
    well-formed, and an identity that is set stays.  One lemma per operation; the
    entry points are composed of them (Ecalls.v). *)
From S2P Require Import Prelude StdMap Status Hex Json JsonParse JsonText Host.
From S2P Require Import State Demo Persist Schedule Workload Report Srd Storage.
From S2P Require Import Validator Identity Upgrade Attest.

(** ** Parsed values are well-formed *)
Definition returns {A} (P : A → Prop) (r : res A) : Prop := ∀ a, r = Ok a → P a.
Lemma returns_Ok {A} (P : A → Prop) a : P a → returns P (Ok a).
Proof. by intros H b [= <-]. Qed.
Lemma returns_bind {A B} (P : A → Prop) (Q : B → Prop) (m : res A) (f : A → res B) :
  returns P m → (∀ a, P a → returns Q (f a)) → returns Q (m ≫= f).
Proof. intros Hm Hf b. destruct m as [a| | |]; try done. cbn. intros E. by eapply Hf; [apply Hm|]. Qed.
Lemma returns_any {A} (r : res A) : returns (λ _, True) r.
Proof. done. Qed.

Lemma stol_range l v : stol l = Some v → - 2 ^ 63 <= v < 2 ^ 63.
Proof.
  unfold stol. destruct (match l with [] => _ | _ => _ end) as [neg l'].
  destruct (span_digits l') as [[|c d] r]; [done|]. set (v' := if neg : bool then _ else _).
  destruct ((- 2 ^ 63 <=? v') && (v' <? 2 ^ 63)) eqn:E; [|done]. intros [= <-]. lia.
Qed.
Lemma jhash_ok h : 32 <= zlen h → json_ok (jhash h).
Proof. intros H. constructor. rewrite length_take. unfold zlen in H. lia. Qed.

Lemma string_value_ok raw val : returns json_ok (string_value raw val).
Proof.
  unfold string_value. destruct (_ && _); [|apply returns_Ok; constructor].
  destruct (hex_string_to_bytes _) as [h|]; [|apply returns_Ok; constructor].
  destruct (Z.ltb_spec (zlen h) 32); [by intros ? ?|]. by apply returns_Ok, jhash_ok.
Qed.
Lemma to_floating_ok v e d : returns json_ok (to_floating v e d).
Proof.
  unfold to_floating. destruct d; [destruct (decimal v)|destruct (stol v)]; try (by intros ? ?);
    apply returns_Ok; constructor.
Qed.
Lemma parse_string_ok raw c : returns (λ r, json_ok r.1) (parse_string raw c).
Proof.
  unfold parse_string. destruct (advance c); [|by intros ? ?].
  eapply returns_bind; [apply returns_any|]. intros [v r|r] _; [|apply returns_Ok; constructor].
  eapply returns_bind; [apply string_value_ok|]. intros j Hj. by apply returns_Ok.
Qed.
Lemma parse_number_ok raw c : returns (λ r, json_ok r.1) (parse_number raw c).
Proof.
  destruct c as [l|]; [|by intros ? ?]. cbn [parse_number]. destruct (span_num l) as [val l1].
  eapply returns_bind; [apply returns_any|]. intros x _. destruct (_ || _).
  - eapply returns_bind; [apply returns_any|]. intros y _.
    destruct (if code y =? 45 then _ else _) as [[l2|] sign]; [|by intros ? ?].
    destruct (span_digits l2) as [ds l3]. eapply returns_bind; [apply returns_any|]. intros z _.
    destruct (is_terminator z); [|apply returns_Ok; constructor]. destruct (stol _); [|by intros ? ?].
    eapply returns_bind; [apply to_floating_ok|]. intros j Hj. by apply returns_Ok.
  - destruct (is_terminator x); [|apply returns_Ok; constructor].
    eapply (returns_bind json_ok); [|intros j Hj; by apply returns_Ok].
    destruct (existsb _ _); [apply to_floating_ok|]. destruct (stol val) as [n|] eqn:E; [|by intros ? ?].
    apply returns_Ok. constructor. by eapply stol_range.
Qed.
Lemma parse_literal_ok raw c :
  returns (λ r, json_ok r.1) (parse_bool raw c) ∧ returns (λ r, json_ok r.1) (parse_null raw c).
Proof.
  destruct c as [l|]; [|by split]. unfold parse_bool, parse_null.
  split; repeat case_match; try (by intros ? ?); apply returns_Ok; constructor.
Qed.

Lemma parse_ok raw n :
  (∀ c, returns (λ r, json_ok r.1) (parse_next n raw c)) ∧
  (∀ acc c, Forall json_ok acc → returns (λ r, json_ok r.1) (array_loop n raw acc c)) ∧
  (∀ acc c, json_ok (JObject acc) → returns (λ r, json_ok r.1) (object_loop n raw acc c)).
Proof.
  induction n as [|n (IHn & IHa & IHo)]; [by split_and!|].
  split_and!; intros; cbn [parse_next array_loop object_loop].
  - eapply returns_bind; [apply returns_any|]. intros c1 _.
    eapply returns_bind; [apply returns_any|]. intros x _. cbv zeta.
    destruct (code x =? 91).
    { eapply returns_bind; [apply returns_any|]. intros c2 _.
      eapply returns_bind; [apply returns_any|]. intros y _.
      destruct (_ =? _); [apply returns_Ok; constructor|apply IHa]; constructor. }
    destruct (code x =? 123).
    { eapply returns_bind; [apply returns_any|]. intros c2 _.
      eapply returns_bind; [apply returns_any|]. intros y _.
      destruct (_ =? _); [apply returns_Ok|apply IHo]; repeat constructor. }
    destruct (code x =? 34); [apply parse_string_ok|].
    destruct (_ || _); [apply parse_literal_ok|]. destruct (_ =? _); [apply parse_literal_ok|].
    destruct (_ || _); [apply parse_number_ok|]. apply returns_Ok. constructor.
  - eapply returns_bind; [apply IHn|]. intros r Hr.
    eapply returns_bind; [apply returns_any|]. intros c1 _.
    eapply returns_bind; [apply returns_any|]. intros x _. cbv zeta.
    assert (Forall json_ok (acc ++ [r.1])) by (apply Forall_app; split; [done|repeat constructor; done]).
    destruct (_ =? _); [by apply IHa|]. destruct (_ =? _); apply returns_Ok; by constructor.
  - eapply returns_bind; [apply returns_any|]. intros k _.
    eapply returns_bind; [apply returns_any|]. intros c1 _.
    eapply returns_bind; [apply returns_any|]. intros x _. cbv zeta.
    destruct (negb _); [by apply returns_Ok|].
    eapply returns_bind; [apply returns_any|]. intros c2 _.
    eapply returns_bind; [apply IHn|]. intros r Hr.
    eapply returns_bind; [apply returns_any|]. intros c3 _.
    eapply returns_bind; [apply returns_any|]. intros y _.
    assert (json_ok (JObject (map_set (key_text raw k.1) r.1 acc))) by by apply (jkey_set_ok _ _ (JObject acc)).
    destruct (_ =? _); [by apply IHo|]. destruct (_ =? _); by apply returns_Ok.
Qed.
Lemma Load_ok raw s : returns json_ok (Load raw s).
Proof.
  unfold Load. destruct (_ =? _); [apply returns_Ok; constructor|].
  eapply returns_bind; [apply parse_ok|]. intros r Hr. by apply returns_Ok.
Qed.

(** ** Updates of a value *)
Lemma jkey_update_ok k f j : (∀ x, json_ok x → json_ok (f x)) → json_ok j → json_ok (jkey_update k f j).
Proof. intros Hf Hj. apply jkey_set_ok; [|done]. by apply Hf, jkey_ok. Qed.
Lemma jkey_touch_ok k j : json_ok j → json_ok (jkey_touch k j).
Proof.
  intros Hj. unfold jkey_touch, map_touch. case_match.
  - by apply ok_object; apply as_object_ok.
  - by apply (jkey_set_ok k JNull j); [constructor|].
Qed.
Lemma set_char_ok i c j : json_ok j → json_ok (set_char i c j).
Proof. intros []; cbn; try by constructor. repeat case_match; constructor. Qed.
#[export] Hint Resolve jkey_update_ok jkey_touch_ok set_char_ok : sworker.

Lemma set_cur_ok c f : json_ok f → json_ok (set_cur c f).
Proof. unfold set_cur. auto with sworker. Qed.
Lemma write_waiting_ok f : json_ok f → json_ok (write_waiting f).
Proof. unfold write_waiting. auto with sworker. Qed.
Lemma confirm_status_ok f : json_ok f → json_ok (confirm_status f).
Proof. unfold confirm_status. auto with sworker. Qed.
Lemma spec_add_ok name dn ds j : json_ok j → json_ok (spec_add name dn ds j).
Proof.
  intros Hj. unfold spec_add. apply jkey_update_ok; [|done]. intros x Hx.
  repeat (apply jkey_update_ok; [auto with sworker|]). done.
Qed.
#[export] Hint Resolve set_cur_ok write_waiting_ok confirm_status_ok spec_add_ok : sworker.

Lemma alter_ok f i l : (∀ x, json_ok x → json_ok (f x)) → Forall json_ok l → Forall json_ok (alter f i l).
Proof. intros Hf Hl. apply Forall_alter; [done|]. intros x _. apply Hf. Qed.
Lemma update_first_ok p f l l' y :
  (∀ x, json_ok x → json_ok (f x)) → update_first p f l = Some (l', y) →
  Forall json_ok l → Forall json_ok l'.
Proof.
  intros Hf. revert l'. induction l as [|x l IH]; intros l' H Hl; [done|]. cbn [update_first] in H.
  apply Forall_cons in Hl as [Hx Hl]. destruct (p x); [simplify_eq; constructor; auto|].
  destruct (update_first p f l) as [[l2 y2]|]; [|done]. simplify_eq. constructor; auto.
Qed.
Lemma update_last_ok p f l l' y :
  (∀ x, json_ok x → json_ok (f x)) → update_last p f l = Some (l', y) →
  Forall json_ok l → Forall json_ok l'.
Proof.
  unfold update_last. intros Hf H Hl. destruct (update_first p f (rev l)) as [[l2 y2]|] eqn:E; [|done].
  simplify_eq. apply Forall_rev. eapply update_first_ok; [done..|]. by apply Forall_rev.
Qed.
Lemma remove_last_ok p l l' y : remove_last p l = Some (l', y) → Forall json_ok l → Forall json_ok l'.
Proof.
  revert l' y. induction l as [|x l IH]; intros l' y H Hl; [done|]. cbn [remove_last] in H.
  apply Forall_cons in Hl as [Hx Hl]. destruct (remove_last p l) as [[l2 y2]|].
  - simplify_eq. constructor; [done|]. by eapply IH.
  - destruct (p x); [|done]. by simplify_eq.
Qed.
Lemma purge_ok l : Forall json_ok l → returns (Forall json_ok) (purge l).
Proof.
  induction 1 as [|f l Hf Hl IH]; [by apply returns_Ok|]. cbn [purge].
  eapply returns_bind; [apply returns_any|]. intros b _. eapply returns_bind; [exact IH|]. intros l' Hl'.
  apply returns_Ok. destruct b; [done|by constructor].
Qed.
Lemma report_scan_ok up l :
  Forall json_ok l → Forall json_ok (ra_files (report_scan up l)) ∧ set_ok (ra_idx (report_scan up l)).
Proof.
  unfold report_scan. assert (Forall json_ok (ra_files ra_start) ∧ set_ok (ra_idx ra_start)) as H
    by (split; constructor).
  revert H. generalize ra_start as a. induction l as [|f l IH]; intros a [Ha Hi] Hl; [done|].
  apply Forall_cons in Hl as [Hf Hl]. cbn [foldl]. apply IH; [|done].
  assert (∀ g, json_ok g → Forall json_ok (ra_files a ++ [g])) as Hg.
  { intros g Hgo. apply Forall_app. split; [done|]. repeat constructor. done. }
  unfold report_step. cbv zeta. destruct up; repeat case_match; cbn [ra_files ra_idx]; split;
    auto using set_insert_ok with sworker.
Qed.
Lemma loop_items_ok j : json_ok j → Forall json_ok (loop_items j).
Proof. destruct 1; cbn; try case_match; repeat constructor; done. Qed.

(** ** The invariant *)
Record typed (w : workload) : Prop := {
  t_srd : map_ok (srd_path2hashs_m w);
  t_checked : Forall json_ok (checked_files w);
  t_new : Forall json_ok (new_files w);
  t_reported : set_ok (reported_files_idx w);
  t_srd_info : json_ok (srd_info_json w);
  t_spec_info : json_ok (wl_spec_info w);
  t_proof : 0 <= validated_proof w <= 2;
  t_height : 0 <= report_height w < 2 ^ 64
}.
Definition same_identity (w w' : workload) : Prop :=
  is_set_key_pair w' = is_set_key_pair w ∧ id_key_pair w' = id_key_pair w ∧ account_id w' = account_id w.
(** From a well-formed workload: to a well-formed one, and an identity that is set
    stays. *)
Definition evolves (w w' : workload) : Prop :=
  typed w → typed w' ∧ (is_set_key_pair w = true → same_identity w w').
#[global] Instance evolves_preorder : PreOrder evolves.
Proof.
  split; [by intros w|]. intros a b c H1 H2 Ta. destruct (H1 Ta) as [Tb I1]. destruct (H2 Tb) as [Tc I2].
  split; [done|]. intros Ha. destruct (I1 Ha) as (E1 & E2 & E3). destruct (I2 (eq_trans E1 Ha)) as (F1 & F2 & F3).
  unfold same_identity. split_and!; congruence.
Qed.

Definition keeps_typed (w w' : workload) : Prop := typed w → typed w'.
#[global] Instance keeps_typed_preorder : PreOrder keeps_typed.
Proof. split; [by intros w T|]. intros a b c H1 H2 T. by apply H2, H1. Qed.
Lemma pres_keeps_typed {W A} (m : M (enclave W) A) : pres evolves m → pres keeps_typed m.
Proof. intros Hm e a e' H T. by apply (Hm _ _ _ H T). Qed.

Lemma workload_new_typed garbage : typed (workload_new garbage).
Proof.
  destruct garbage as [[pre keys] mr]. split; cbn; try by constructor.
  unfold wl_spec_initial, spec_init.
  assert (∀ s, json_ok s → json_ok (jkey_set WL_SIZE (jint 0) (jkey_set WL_NUM (jint 0) s))) by auto with sworker.
  repeat apply jkey_update_ok; auto with sworker.
Qed.

(** [evolve]: an update of fields other than the identity, whose new values are
    well-formed by the hints. *)
Ltac evolve :=
  let T := fresh "T" in
  intros T; split; [ destruct T; split; cbn; auto with sworker | by intros _ ].

#[export] Hint Resolve Forall_app_2 : sworker.
Lemma evolves_spec c n w : evolves w (set_wl_spec c n w).
Proof. evolve. Qed.
Lemma evolves_spec2 c r n w : evolves w (set_wl_spec2 c r n w).
Proof. unfold set_wl_spec2. case_decide; [done|]. evolve. Qed.
Lemma evolves_srd_info path n w : evolves w (set_srd_info path n w).
Proof.
  evolve.
Qed.
Lemma evolves_add_proof w : evolves w (report_add_validated_proof w).
Proof. evolve. destruct (Z.leb_spec 2 (validated_proof w)); [lia|]. rewrite i32_small; lia. Qed.
Lemma evolves_reduce_proof w : evolves w (report_reduce_validated_proof w).
Proof. evolve. destruct (Z.leb_spec (validated_proof w) 0); [lia|]. rewrite i32_small; lia. Qed.
Lemma evolves_report_result w : evolves w (handle_report_result w).
Proof.
  evolve; [|constructor]. clear t_reported0. revert t_checked0. generalize (checked_files w).
  induction (reported_files_idx w) as [|i l IH]; intros files Hf; [done|]. cbn [foldl].
  apply IH, alter_ok; auto with sworker.
Qed.
Lemma evolves_report_end h w : 0 <= h < 2 ^ 64 → evolves w (report_end h w).
Proof.
  intros Hh. unfold report_end. etransitivity; [|apply evolves_reduce_proof]. evolve.
Qed.
Lemma evolves_restore_srd j w : json_ok j → evolves w (restore_srd j w).2.
Proof.
  intros Hj. unfold restore_srd. destruct (restore_srd_paths _ _) as [m|] eqn:E; [|evolve].
  assert (map_ok m) as Hm.
  { revert E. generalize (ObjectRange j) as ps. assert (map_ok (V := list bytes) []) as H by constructor.
    revert H. generalize (@nil (bytes * list bytes)) as acc. intros acc Hacc ps. revert acc Hacc.
    induction ps as [|[path items] ps IH]; intros acc Hacc; cbn [restore_srd_paths]; [by intros [= <-]|].
    destruct (mapM srd_item (loop_items items)) as [hs|]; [|done]. cbn. apply IH. clear IH. revert acc Hacc.
    induction hs as [|h hs IHh]; intros acc Hacc; [done|]. cbn [foldl]. by apply IHh, map_set_ok. }
  clear E. evolve. revert t_srd_info0. generalize (srd_info_json w). clear Hm.
  induction m as [|p m IH]; intros info Hi; [done|]. cbn [foldl]. apply IH. auto with sworker.
Qed.
Lemma evolves_restore_file j w : json_ok j → evolves w (restore_file j w).
Proof.
  intros Hj. unfold restore_file. etransitivity; [instantiate (1 := with_checked_files [] w); evolve|].
  pose proof (loop_items_ok j Hj) as Hl. revert Hl. generalize (with_checked_files [] w) as w0.
  induction (loop_items j) as [|f l IH]; intros w0 Hl; [done|]. apply Forall_cons in Hl as [Hf Hl].
  cbn [foldl]. etransitivity; [|by apply IH]. etransitivity; [|apply evolves_spec]. evolve.
Qed.
Lemma evolves_confirm hash w : evolves w (storage_confirm_file hash w).2.
Proof.
  unfold storage_confirm_file. cbn [snd].
  assert (∀ f, json_ok f → json_ok (confirm_file f)) as Hc.
  { intros f Hf. unfold confirm_file. case_bool_decide; auto with sworker. }
  destruct (update_last _ confirm_file (checked_files w)) as [[l f]|] eqn:E1.
  - etransitivity; [|apply evolves_spec2]. evolve. by eapply update_last_ok.
  - destruct (update_last _ _ (new_files w)) as [[l f]|] eqn:E2; [|done].
    etransitivity; [|apply evolves_spec2]. evolve. eapply update_last_ok; [|done..]. auto with sworker.
Qed.
Lemma evolves_delete hash w w' f : delete_entry hash w = Some (w', f) → evolves w w'.
Proof.
  unfold delete_entry. destruct (list_find _ _) as [[i x]|].
  - intros [= <- _]. evolve. apply alter_ok; auto with sworker.
  - destruct (remove_last _ _) as [[l x]|] eqn:E; [|done]. intros [= <- _]. evolve. by eapply remove_last_ok.
Qed.
#[export] Hint Resolve evolves_spec evolves_spec2 evolves_srd_info evolves_add_proof evolves_reduce_proof
  evolves_report_result evolves_report_end evolves_restore_file evolves_confirm : sworker.

(** A computation whose results satisfy [Q] *)
Lemma pres_bind_val {W A B} R `{!PreOrder R} (Q : A → Prop) (m : M (enclave W) A) (f : A → M (enclave W) B) :
  (∀ e a e', m e = Ok (a, e') → Q a) → pres R m → (∀ a, Q a → pres R (f a)) → pres R (m ≫= f).
Proof.
  intros HQ Hm Hf e b e' (a & e1 & H1 & H2)%bind_Ok. etransitivity; [by eapply Hm|].
  eapply Hf; [by eapply HQ|done].
Qed.
Lemma pres_bind_load {W B} R `{!PreOrder R} raw s (f : json → M (enclave W) B) :
  (∀ j, json_ok j → pres R (f j)) → pres R (of_res (Load raw s) ≫= f).
Proof.
  intros Hf. apply (pres_bind_val R json_ok); [|apply (pres_of_res R)|done].
  intros e j e' [H _]%of_res_Ok. by apply Load_ok in H.
Qed.
(** The rest of a run, from whatever state it started in *)
Lemma pres_rest {W A} (R : workload → workload → Prop) (m : M (enclave W) A) e a e' :
  pres R m → m e = Ok (a, e') → R (wl e) (wl e').
Proof. intros Hm H. by eapply Hm. Qed.
(** Reading the workload: what follows may use what was read. *)
Lemma pres_bind_get {W A B} (R : workload → workload → Prop) (f : workload → A) (k : A → M (enclave W) B) :
  (∀ e a e', k (f (wl e)) e = Ok (a, e') → R (wl e) (wl e')) → pres R (get_wl f ≫= k).
Proof. intros Hk e b e' H. inv_step H. by eapply Hk. Qed.

(** Other threads are calls into the enclave too: they move the workload the same
    way (the theorem about all entry points is [ecall_evolves]). *)
Class ThreadsLaws (W : Type) `{!Threads W} : Prop := {
  others_evolve e : evolves (wl e) (wl (others_run e));
  srd_change_evolve n e : evolves (wl e) (wl (ocall_srd_change n e))
}.
#[export] Hint Resolve others_evolve srd_change_evolve : sworker.

Section operations.
Context {W : Type} `{!Host W} `{!Threads W} `{!ThreadsLaws W}.
Abbreviation pres := (pres (W := W) evolves).

(** ** The database *)
Lemma pres_pieces stop k ps st : pres (set_pieces stop k 0 ps st) ∧ pres (del_pieces k).
Proof.
  split; apply (pres_outside evolves); [apply outside_set_pieces, _|apply outside_del_pieces, _].
Qed.
Lemma pres_persist_set k v : pres (persist_set k v).
Proof.
  unfold persist_set, seal_data_mrenclave. cbv zeta.
  pose proof (pres_pieces true k) as Hp. pose proof (λ ps st, proj1 (Hp ps st)). pose proof (proj2 (Hp [] CRUST_SUCCESS)).
  pres.
Qed.
Lemma pres_persist_set_unsafe k v : pres (persist_set_unsafe k v).
Proof. apply (pres_outside evolves), outside_persist_set_unsafe, _. Qed.
Lemma pres_persist_get k : pres (persist_get k).
Proof. apply (pres_outside evolves), outside_persist_get, _. Qed.
Lemma pres_persist_get_unsafe k : pres (persist_get_unsafe k).
Proof. apply (pres_outside evolves), outside_persist_get_unsafe, _. Qed.
Lemma pres_persist_del k : pres (persist_del k).
Proof. apply (pres_outside evolves), outside_persist_del, _. Qed.
#[local] Hint Resolve pres_persist_set pres_persist_set_unsafe pres_persist_get pres_persist_get_unsafe
  pres_persist_del : sworker.

(** ** Scheduler, sealed random data *)
Lemma pres_sched id : pres (sched_add id) ∧ pres (sched_del id) ∧ pres (sched_check id).
Proof. unfold sched_add, sched_del, sched_check. split_and!; pres; auto with sworker; done. Qed.
Lemma pres_sched_check id : pres (sched_check id).
Proof. apply pres_sched. Qed.
#[local] Hint Resolve pres_sched_check : sworker.

Lemma pres_seal_leaves n i g_path base acc : pres (seal_leaves n i g_path base acc).
Proof.
  revert i acc. induction n as [|n IH]; intros i acc; cbn [seal_leaves].
  - pres.
  - unfold seal_data_mrenclave, save_file. pres.
Qed.
#[local] Hint Resolve pres_seal_leaves : sworker.
Lemma pres_srd_increase path : pres (srd_increase path).
Proof.
  unfold srd_increase, base_rand_buffer, save_m_hashs_file. pres; try done.
  etransitivity; [|apply evolves_srd_info]. evolve.
Qed.
Lemma pres_delete_files path hs : pres (delete_files path hs).
Proof. induction hs as [|h hs IH]; cbn [delete_files]; pres. Qed.
#[local] Hint Resolve pres_delete_files : sworker.
Lemma pres_delete_paths del : pres (delete_paths del).
Proof. induction del as [|[path hs] del IH]; cbn [delete_paths]; pres; auto with sworker. Qed.
Lemma erase_all_ok del m m' hs : erase_all del m = Ok (m', hs) → map_ok m → map_ok m'.
Proof.
  revert m m' hs. induction del as [|[path idxs] del IH]; intros m m' hs; cbn [erase_all].
  - by intros [= <- _].
  - destruct (erase_idxs _ _) as [r| | |]; cbn [mbind res_bind]; try done. cbv zeta.
    destruct (erase_all del _) as [[m2 hs2]| | |] eqn:E; cbn [mbind res_bind fst snd]; try done.
    intros [= <- _] Hm. eapply IH; [exact E|]. destruct idxs; auto with sworker.
Qed.
Lemma pres_srd_decrease n del : pres (srd_decrease n del).
Proof.
  unfold srd_decrease. apply pres_bind_get. intros e a e'. cbv zeta. intros H.
  inv_if H; [by apply ret_Ok in H as [_ ->]|]. destruct (choose_loop _ _ _ _ _ _) as [[del' k]|]; [|done].
  inv_step H. destruct x as [m' hs]. cbn [fst snd] in H. pose proof (erase_all_ok _ _ _ _ E) as Hok.
  inv_step H. inv_step H. apply pres_delete_paths in H0. apply ret_Ok in H as [_ ->].
  etransitivity; [|exact H0]. evolve.
Qed.
Lemma pres_store_srd_info : pres store_srd_info.
Proof. unfold store_srd_info, get_wl. pres. Qed.
#[local] Hint Resolve pres_store_srd_info : sworker.
Lemma pres_srd_change : pres srd_change.
Proof. unfold srd_change, take_srd_change. pres; auto with sworker; done. Qed.
Lemma pres_pop_hashes path n : pres (pop_hashes path n).
Proof.
  induction n as [|n IH]; cbn [pop_hashes]; [pres|]. unfold get_wl. pres; auto with sworker. evolve.
Qed.
#[local] Hint Resolve pres_pop_hashes : sworker.
Lemma map_touch_ok {V} (d : V) k m : map_ok m → map_ok (map_touch d k m).
Proof. intros H. unfold map_touch. case_match; auto with sworker. Qed.
Lemma pres_srd_update hashs : pres (srd_update_metadata hashs).
Proof.
  unfold srd_update_metadata. apply (pres_bind evolves); [apply (pres_of_res evolves)|intros j].
  apply (pres_bind evolves); [|intros; pres]. apply (pres_for_each evolves). intros p. unfold get_wl.
  pres; auto with sworker. evolve. by apply map_touch_ok.
Qed.
Lemma pres_set_srd_change n : pres (set_srd_change n).
Proof. unfold set_srd_change, get_wl. pres; done. Qed.

(** ** Reports *)
Lemma pres_report_files up : pres (report_files_info up).
Proof.
  unfold report_files_info. apply pres_bind_get. intros e a e' H.
  apply bind_Ok in H as (files & e1 & [Hp ->]%of_res_Ok & H). cbv zeta in H.
  apply bind_Ok in H as ([] & e1 & ->%modify_Ok & H).
  transitivity (wl (with_wl (with_reported_files_idx (ra_idx (report_scan up files))
    (with_checked_files (ra_files (report_scan up files)) (wl e))) e)).
  - intros T. split; [|by intros _]. destruct (report_scan_ok up files).
    { eapply purge_ok; [apply T|exact Hp]. }
    destruct T. by split.
  - eapply (pres_rest evolves); [|exact H]. pres.
Qed.
#[local] Hint Resolve pres_report_files : sworker.
Lemma pres_report_body hash h up : pres (report_body hash h up).
Proof. unfold report_body, report_srd_info, report_sign, get_wl. pres; done. Qed.
#[local] Hint Resolve pres_report_body : sworker.
Lemma pres_gen_and_upload hash h wait up : 0 <= h < 2 ^ 64 → pres (gen_and_upload_work_report hash h wait up).
Proof. intros Hh. unfold gen_and_upload_work_report, gen_work_report, get_wl. pres; auto with sworker. Qed.

(** ** Files *)
Lemma pres_seal_leaf path s : pres (seal_leaf path s).
Proof. unfold seal_leaf, seal_data_mrsigner. cbv zeta. pres. Qed.
#[local] Hint Resolve pres_seal_leaf : sworker.
Lemma pres_seal_links rec n is_ s sub : (∀ s, pres (rec s)) → pres (seal_links rec n is_ s sub).
Proof.
  intros Hr. revert s sub. induction is_ as [|i is_ IH]; intros; cbn [seal_links]; cbv zeta; pres.
Qed.
Lemma pres_seal_tree fuel path s : pres (_storage_seal_file fuel path s).
Proof.
  revert s. induction fuel as [|fuel IH]; intros s; cbn [_storage_seal_file]; cbv zeta.
  - apply (pres_of_res evolves).
  - pose proof (pres_seal_links _ (ToInt (jkey MT_LINKS_NUM (se_json s)))
      (seq 0 (Z.to_nat (ToInt (jkey MT_LINKS_NUM (se_json s))))) (Seal (se_json s) (se_tree s ++ str "{" ++ quote MT_LINKS ++ str ": [") 0 (se_num s)) [] IH).
    pres.
Qed.
#[local] Hint Resolve pres_seal_tree : sworker.
Lemma pres_bind_hash {B} p (f : json → Host.M (enclave W) B) :
  (∀ j, json_ok j → pres (f j)) → pres (of_res (hash_value p) ≫= f).
Proof.
  intros Hf. apply (pres_bind_val evolves json_ok); [|apply (pres_of_res evolves)|done].
  intros e j e' [H _]%of_res_Ok. unfold hash_value in H. destruct (Z.ltb_spec (zlen p) HASH_LENGTH); [done|].
  injection H as <-. by apply jhash_ok.
Qed.
(** [pres], keeping that parsed values and hashes are well-formed *)
Ltac pres_json :=
  repeat first [ apply pres_bind_hash; intros ? ? | apply (pres_bind_load evolves); intros ? ? | pres_step ].
Lemma pres_storage_seal p_tree path : pres (storage_seal_file p_tree path).
Proof.
  unfold storage_seal_file, get_wl. cbv zeta. pres_json; auto with sworker.
  evolve. apply Forall_app_2; [done|]. apply List.Forall_cons; [|constructor]. auto 10 with sworker.
Qed.
Lemma pres_storage_unseal files dir : pres (storage_unseal_file files dir).
Proof. apply (pres_outside evolves), outside_unseal_file; try apply _; by intros. Qed.
Lemma pres_storage_confirm {A} hash (k : crust_status → Host.M (enclave W) A) :
  (∀ st, pres (k st)) →
  pres (w ← get_wl id; let '(st, w) := storage_confirm_file hash w in on_wl (λ _, w);; k st).
Proof. intros Hk. apply (pres_get_set evolves); [intros w; apply evolves_confirm|done]. Qed.
Lemma pres_storage_delete hash : pres (storage_delete_file hash).
Proof.
  unfold storage_delete_file. apply pres_bind_get. intros e a e' H. cbn [id] in H.
  destruct (delete_entry hash (wl e)) as [[w f]|] eqn:E; [|by apply ret_Ok in H as [_ ->]].
  apply evolves_delete in E. inv_step H. etransitivity; [exact E|].
  change w with (wl (with_wl w e)). eapply (pres_rest evolves); [|exact H]. pres; auto with sworker.
Qed.

(** ** Validation *)
Lemma pres_choose_idxs n m s : pres (choose_idxs n m s).
Proof.
  revert s. induction n as [|n IH]; intros; cbn [choose_idxs]; unfold read_rand_val; cbv zeta; pres.
Qed.
#[local] Hint Resolve pres_choose_idxs : sworker.
Lemma pres_srd_random_delete n del : pres (srd_random_delete n del).
Proof. pose proof pres_srd_decrease. unfold srd_random_delete. cbv zeta. pres. Qed.
#[local] Hint Resolve pres_srd_random_delete : sworker.
Lemma pres_check_srd idxs del : pres (check_srd idxs del).
Proof.
  revert del. induction idxs as [|[i j] idxs IH]; intros; cbn [check_srd]; unfold get_wl, bad_srd, read_rand_val;
    cbv zeta; pres.
Qed.
#[local] Hint Resolve pres_check_srd : sworker.
Lemma pres_validate_srd : pres validate_srd.
Proof. unfold validate_srd, get_wl. cbv zeta. pres. Qed.
Lemma pres_check_file f : pres (check_file f).
Proof. apply (pres_outside evolves), outside_check_file. Qed.
Lemma pres_choose_files n size : pres (choose_files n size).
Proof. apply (pres_outside evolves), outside_choose_files. Qed.
#[local] Hint Resolve pres_check_file pres_choose_files : sworker.
Lemma pres_check_files idxs changed : pres (check_files idxs changed).
Proof.
  revert changed. induction idxs as [|i idxs IH]; intros; cbn [check_files]; [pres|].
  unfold get_wl, set_status. pres; evolve; apply alter_ok; auto with sworker.
Qed.
#[local] Hint Resolve pres_check_files : sworker.
Lemma pres_validate_files : pres validate_meaningful_file.
Proof.
  unfold validate_meaningful_file, get_wl. pres; try (by evolve).
  apply (pres_for_each evolves). intros p. unfold record_change, get_wl. pres; auto with sworker.
Qed.
End operations.

(** ** Keys, metadata, upgrade, attestation *)
Section identity.
Context {W : Type} `{!Host W} `{!IdHost W} `{!UpgradeHost W} `{!AttestHost W} `{!Threads W} `{!ThreadsLaws W}.
Abbreviation pres := (pres (W := W) evolves).
Implicit Types (e : enclave W).

Lemma pres_gen_key_pair account : pres (id_gen_key_pair account).
Proof.
  intros e a e' H. destruct (is_set_key_pair (wl e)) eqn:Hs.
  - unfold id_gen_key_pair, try_get_key_pair in H. inv_step H. rewrite Hs in H.
    by apply ret_Ok in H as [_ ->].
  - enough (State.pres keeps_typed (id_gen_key_pair account)) as Hp.
    { intros T. split; [by eapply Hp|]. by rewrite Hs. }
    unfold id_gen_key_pair, get_wl. pres; by intros [].
Qed.
Lemma get_metadata_run e r e' : id_get_metadata e = Ok (r, e') → json_ok r.2.
Proof.
  unfold id_get_metadata. intros H. inv_step H. destruct x as [st data].
  assert (∀ (st : crust_status) e e', mret (M := M (enclave W)) (st, JNull) e = Ok (r, e') → json_ok r.2) as Hn.
  { intros ? ? ? [-> _]%ret_Ok. constructor. }
  destruct st; try (by eapply Hn). destruct data as [data|]; [|by eapply Hn].
  inv_if H; [by eapply Hn|]. inv_if H; [done|]. apply bind_Ok in H as (j & e1 & [Hj _]%of_res_Ok & H).
  apply Load_ok in Hj. inv_if H; [by apply ret_Ok in H as [-> _]|]. cbv zeta in H.
  apply (jkey_touch_ok ID_KEY_PAIR) in Hj.
  destruct (hex_string_to_bytes _) as [k|]; [|by apply ret_Ok in H as [-> _]].
  inv_step H. inv_if H; [|by apply ret_Ok in H as [-> _]]. inv_step H.
  inv_if H; by apply ret_Ok in H as [-> _].
Qed.
Lemma pres_get_metadata : pres id_get_metadata.
Proof.
  pose proof (pres_persist_get (W := W)). unfold id_get_metadata, get_wl. pres.
Qed.
Lemma pres_store_metadata : pres id_store_metadata.
Proof.
  pose proof (pres_persist_set (W := W)). pose proof (pres_persist_set_unsafe (W := W)).
  unfold id_store_metadata, get_wl. pres.
Qed.

(** Restoring the metadata puts another identity in place. *)
Lemma pres_restore_metadata : State.pres (W := W) keeps_typed id_restore_metadata.
Proof.
  unfold id_restore_metadata. apply (pres_bind_val keeps_typed (λ r, json_ok r.2)).
  { intros e r e'. apply get_metadata_run. }
  { apply pres_keeps_typed, pres_get_metadata. }
  intros [st j] Hj. cbn [snd] in *. cbv zeta.
  assert (∀ s, State.pres (W := W) keeps_typed (persist_set_unsafe DB_SRD_INFO s)) as Hset
    by (intros; apply pres_keeps_typed, pres_persist_set_unsafe).
  destruct (_ <=? _); [pres|].
  apply (pres_bind keeps_typed); [|intros _].
  { unfold restore_spec. apply (pres_bind keeps_typed).
    { apply pres_keeps_typed, pres_persist_get_unsafe. }
    intros [st' data]. destruct st'; try solve [pres]. destruct data as [data|]; [|pres]. apply pres_bind_get. intros e a e' H. cbn [id] in H.
    apply bind_Ok in H as (w & e1 & [Hw ->]%of_res_Ok & ->%modify_Ok). cbn [wl with_wl].
    unfold restore_wl_spec_info in Hw. destruct (Load Text _) as [x| | |] eqn:E; try done.
    injection Hw as <-. apply Load_ok in E. intros []. split; try done. }
  apply (pres_bind keeps_typed); [|intros st'].
  { destruct (is_object _); [|pres].
    apply (pres_get_set keeps_typed); [|intros; pres]. intros w T. by apply evolves_restore_srd; auto with sworker. }
  destruct (negb (is_success st')); [pres|]. apply (pres_bind keeps_typed); [unfold get_wl; pres|intros info].
  apply (pres_bind keeps_typed); [apply Hset|intros _]. apply (pres_bind keeps_typed); [|intros _].
  { unfold restore_files. cbv zeta. pres. intros []. split; try done. apply as_array_ok. auto with sworker. }
  unfold restore_pre_pub_key. pres; intros []; split; try done. apply u64_range.
Qed.

(** ** Upgrade *)
Lemma pres_workload_info : pres gen_workload_info.
Proof. unfold gen_workload_info, get_wl. cbv zeta. pres. Qed.
Lemma pres_serialize_file : pres serialize_file.
Proof. unfold serialize_file, get_wl. cbv zeta. pres. Qed.
#[local] Hint Resolve pres_workload_info pres_serialize_file : sworker.
Lemma pres_export height hash : pres (export_upgrade height hash).
Proof.
  unfold export_upgrade, store_upgrade_data, get_wl. cbv zeta. pres.
  apply (pres_for_each evolves). intros p. apply (pres_host evolves).
Qed.
Lemma era_height_range fuel bh rh : 0 <= rh < 2 ^ 64 → 0 <= era_height fuel bh rh < 2 ^ 64.
Proof.
  revert rh. induction fuel as [|fuel IH]; intros rh Hr; cbn [era_height]; [done|].
  destruct (_ <? _); [|done]. apply IH, u64_range.
Qed.
Lemma pres_gen_upgrade h : pres (id_gen_upgrade_data h).
Proof.
  unfold id_gen_upgrade_data. apply (pres_bind evolves); [|intros st; pres; evolve].
  unfold gen_upgrade_data. apply pres_bind_get. intros e a e' H T. revert T.
  enough (0 <= report_height (wl e) < 2 ^ 64 → evolves (wl e) (wl e')) as Hr by (intros T; by apply Hr; [apply T|]).
  intros Hh. eapply (pres_rest evolves); [|exact H].
  pose proof (era_height_range (era_fuel h (get_report_height (wl e))) h _ Hh) as Hera.
  pose proof (λ b c d, pres_gen_and_upload (W := W) b _ c d Hera). pose proof pres_export.
  unfold enc_malloc. pres.
Qed.

Lemma pres_import j : json_ok j → pres (import_upgrade j).
Proof.
  intros Hj. unfold import_upgrade. cbv zeta.
  destruct (hex_string_to_bytes _) as [k|]; [|pres].
  apply (pres_bind evolves); [pres|intros a_pub].
  apply (pres_get_set evolves); [intros w; apply evolves_restore_srd; auto with sworker|intros st].
  pres; auto with sworker.
Qed.
Lemma pres_enter pub hash height : pres (enter_upgrade pub hash height).
Proof.
  pose proof (λ a h b c, pres_gen_and_upload (W := W) a (u64 h) b c (u64_range h)).
  unfold enter_upgrade. pres; auto with sworker. evolve.
Qed.
Lemma pres_restore_from_upgrade b data size fin : pres (id_restore_from_upgrade b data size fin).
Proof.
  unfold id_restore_from_upgrade. apply (pres_bind evolves).
  { unfold receive_upgrade. cbv zeta. pres. }
  intros [b' [st|text]]; [pres|]. apply (pres_bind_load evolves). intros j Hj.
  apply (pres_bind evolves); [|intros; pres]. unfold restore_upgrade.
  apply (pres_bind evolves); [by apply pres_import|intros r]. pose proof pres_enter. pres.
Qed.

(** ** Attestation, measurement, information *)
Lemma pres_verify_identity response : pres (id_verify_and_upload_identity response).
Proof.
  unfold id_verify_and_upload_identity, early, base64_decode, check_quote, sign_identity, get_wl. cbv zeta.
  pres.
Qed.
Lemma pres_measurement hw info account :
  pres id_gen_sgx_measurement ∧ pres (id_get_quote_report hw info) ∧ pres (id_cmp_chain_account_id account) ∧
  pres id_get_info ∧ pres get_workload.
Proof.
  unfold id_gen_sgx_measurement, id_get_quote_report, id_cmp_chain_account_id, id_get_info, get_workload, get_wl.
  cbv zeta. split_and!; pres; try done. evolve.
Qed.
End identity.

(** A hash of any length is taken over: [restore_srd] does not test that one has
    HASH_LENGTH bytes, and later copies read beyond a shorter one. *)
Example restore_srd_short :
  srd_path2hashs_m (restore_srd (JObject [(str "/d", JArray [JString (str "00")])]) demo_workload).2
  = [(str "/d", [[chr 0]])].
Proof. reflexivity. Qed.
