(* ===== verification/Ecalls.v ===== *)
(** * The entry points of the enclave (enclave/Enclave.cpp)

    Every ecall: the refusal of new work while an upgrade is in progress, the
    bookkeeping of the scheduler around the work, and one turn of the main loop.
    [run_ecall] gathers them, so that the theorems of this file hold for any
    sequence of calls the application makes. *)
From S2P Require Import Prelude StdMap Status Hex Json JsonParse JsonText Host.
From S2P Require Import State Demo Persist Schedule Workload Report Srd Storage.
From S2P Require Import Validator Identity Upgrade Attest Invariant.

Section ecalls.
Context {W : Type} `{!Host W} `{!IdHost W} `{!UpgradeHost W} `{!AttestHost W} `{!Threads W}.
Abbreviation M := (M (enclave W)).

(** Refuse with [refused] while an upgrade is in progress. *)
Definition gated {A} (refused : A) (m : M A) : M A :=
  status ← get_wl get_upgrade_status;
  if bool_decide (ENC_UPGRADE_STATUS_PROCESS = status) then mret refused else m.
(** [sched_add], the work, [sched_del] *)
Definition scheduled {A} (id : sched_process) (m : M A) : M A :=
  sched_add id;; ret ← m; sched_del id;; mret ret.

(** ** Sealed random data *)
Definition ecall_srd_increase (path : bytes) : M unit :=
  gated tt (scheduled SCHED_SRD_CHANGE (srd_increase path)).
Definition ecall_srd_decrease (change : Z) : M Z :=
  scheduled SCHED_SRD_CHANGE (srd_decrease change []).
(** The sum of two [long]s: undefined when it overflows. *)
Definition ecall_srd_set_change (change : Z) : M unit :=
  c ← get_srd_change;
  if (c + change <? - 2 ^ 63) || (2 ^ 63 <=? c + change) then undefined
  else set_srd_change (c + change).
Definition ecall_srd_update_metadata (hashs : bytes) : M unit :=
  scheduled SCHED_SRD_CHECK_RESERVED (srd_update_metadata hashs).

(** ** The main loop: one turn, and [n] turns. The other threads run while it
    sleeps. *)
Definition main_loop_turn : M unit :=
  scheduled SCHED_VALIDATE_FILE validate_meaningful_file;;
  scheduled SCHED_VALIDATE_SRD validate_srd;;
  scheduled SCHED_SRD_CHANGE srd_change;;
  id_store_metadata;;
  on_wl report_add_validated_proof;;
  modify others_run.
Fixpoint ecall_main_loop (turns : nat) : M unit :=
  match turns with
  | O => mret tt
  | S turns => main_loop_turn;; ecall_main_loop turns
  end.

(** ** Identity and reports *)
Definition ecall_restore_metadata : M crust_status := id_restore_metadata.
Definition ecall_cmp_chain_account_id (account_id : bytes) : M crust_status :=
  id_cmp_chain_account_id account_id.
Definition ecall_gen_and_upload_work_report (block_hash : bytes) (block_height : Z) : M crust_status :=
  gated CRUST_UPGRADE_WAIT_FOR_NEXT_ERA
    (scheduled SCHED_GET_WORKREPORT (gen_and_upload_work_report block_hash block_height 0 false)).
Definition ecall_gen_key_pair (account_id : option bytes) : M sgx_status := id_gen_key_pair account_id.
Definition ecall_get_quote_report (hw_sim : bool) (target_info : bytes) : M (sgx_status * bytes) :=
  id_get_quote_report hw_sim target_info.
Definition ecall_gen_sgx_measurement : M sgx_status := id_gen_sgx_measurement.
Definition ecall_verify_and_upload_identity (IASReport : list bytes) : M crust_status :=
  id_verify_and_upload_identity IASReport.

(** ** Files *)
Definition ecall_seal_file (p_tree path : bytes) : M (crust_status * bytes) :=
  gated (CRUST_UPGRADE_WAIT_FOR_NEXT_ERA, []) (scheduled SCHED_SEAL (storage_seal_file p_tree path)).
Definition ecall_unseal_file (files : list bytes) (p_dir : bytes) : M (crust_status * bytes) :=
  gated (CRUST_UPGRADE_WAIT_FOR_NEXT_ERA, []) (scheduled SCHED_UNSEAL (storage_unseal_file files p_dir)).
Definition ecall_confirm_file (hash : bytes) : M crust_status :=
  gated CRUST_UPGRADE_WAIT_FOR_NEXT_ERA
    (scheduled SCHED_CONFIRM_FILE
       (w ← get_wl id; let '(st, w) := storage_confirm_file hash w in on_wl (λ _, w);; mret st)).
Definition ecall_delete_file (hash : bytes) : M crust_status :=
  gated CRUST_UPGRADE_WAIT_FOR_NEXT_ERA (scheduled SCHED_DELETE_FILE (storage_delete_file hash)).

(** ** Upgrade *)
Definition ecall_enable_upgrade (block_height : Z) : M crust_status :=
  crust_status ← get_wl (try_report_work block_height);
  (if is_success crust_status then on_wl (set_upgrade_status ENC_UPGRADE_STATUS_PROCESS) else mret tt);;
  mret crust_status.
Definition ecall_disable_upgrade : M unit := on_wl (set_upgrade_status ENC_UPGRADE_STATUS_NONE).
Definition ecall_gen_upgrade_data (block_height : Z) : M crust_status := id_gen_upgrade_data block_height.
Definition ecall_restore_from_upgrade (b : upgrade_buffer) (meta : bytes) (total_size : Z) (transfer_end : bool)
    : M (upgrade_buffer * crust_status) :=
  gated (b, CRUST_UPGRADE_WAIT_FOR_NEXT_ERA) (id_restore_from_upgrade b meta total_size transfer_end).

(** ** Information *)
Definition ecall_id_get_info : M unit := id_get_info.
Definition ecall_get_workload : M unit := gated tt (get_workload;; mret tt).
End ecalls.

(** ** Any call of the application *)
Inductive ecall :=
| SrdIncrease (path : bytes)
| SrdDecrease (change : Z)
| SrdSetChange (change : Z)
| SrdUpdateMetadata (hashs : bytes)
| MainLoop (turns : nat)
| RestoreMetadata
| CmpChainAccountId (account_id : bytes)
| GenAndUploadWorkReport (block_hash : bytes) (block_height : Z)
| GenKeyPair (account_id : option bytes)
| GetQuoteReport (hw_sim : bool) (target_info : bytes)
| GenSgxMeasurement
| VerifyAndUploadIdentity (IASReport : list bytes)
| SealFile (p_tree path : bytes)
| UnsealFile (files : list bytes) (p_dir : bytes)
| ConfirmFile (hash : bytes)
| DeleteFile (hash : bytes)
| EnableUpgrade (block_height : Z)
| DisableUpgrade
| GenUpgradeData (block_height : Z)
| RestoreFromUpgrade (meta : bytes) (total_size : Z) (transfer_end : bool)
| IdGetInfo
| GetWorkload.

#[global] Instance ecall_eq_dec : EqDecision ecall.
Proof. solve_decision. Defined.

(** Is this a call an upgrade in progress refuses? *)
Definition refusable (c : ecall) : bool :=
  match c with
  | SrdIncrease _ | GenAndUploadWorkReport _ _ | SealFile _ _ | UnsealFile _ _ | ConfirmFile _ | DeleteFile _
  | RestoreFromUpgrade _ _ _ | GetWorkload => true
  | _ => false
  end.

Section run.
Context {W : Type} `{!Host W} `{!IdHost W} `{!UpgradeHost W} `{!AttestHost W} `{!Threads W}.
Abbreviation M := (M (enclave W)).

(** What a call hands back, as far as a refusal can be told from it *)
Definition run_ecall (c : ecall) (b : upgrade_buffer) : M (upgrade_buffer * option crust_status) :=
  let status (m : M crust_status) := st ← m; mret (b, Some st) in
  let pair {A} (m : M (crust_status * A)) := r ← m; mret (b, Some r.1) in
  let other {A} (m : M A) := m;; mret (b, None) in
  match c with
  | SrdIncrease path => other (ecall_srd_increase path)
  | SrdDecrease change => other (ecall_srd_decrease change)
  | SrdSetChange change => other (ecall_srd_set_change change)
  | SrdUpdateMetadata hashs => other (ecall_srd_update_metadata hashs)
  | MainLoop turns => other (ecall_main_loop turns)
  | RestoreMetadata => status ecall_restore_metadata
  | CmpChainAccountId account_id => status (ecall_cmp_chain_account_id account_id)
  | GenAndUploadWorkReport hash height => status (ecall_gen_and_upload_work_report hash height)
  | GenKeyPair account_id => other (ecall_gen_key_pair account_id)
  | GetQuoteReport hw_sim target_info => other (ecall_get_quote_report hw_sim target_info)
  | GenSgxMeasurement => other ecall_gen_sgx_measurement
  | VerifyAndUploadIdentity report => status (ecall_verify_and_upload_identity report)
  | SealFile p_tree path => pair (ecall_seal_file p_tree path)
  | UnsealFile files p_dir => pair (ecall_unseal_file files p_dir)
  | ConfirmFile hash => status (ecall_confirm_file hash)
  | DeleteFile hash => status (ecall_delete_file hash)
  | EnableUpgrade height => status (ecall_enable_upgrade height)
  | DisableUpgrade => other ecall_disable_upgrade
  | GenUpgradeData height => status (ecall_gen_upgrade_data height)
  | RestoreFromUpgrade meta size fin =>
      r ← ecall_restore_from_upgrade b meta size fin; mret (r.1, Some r.2)
  | IdGetInfo => other ecall_id_get_info
  | GetWorkload => other ecall_get_workload
  end.

(** A sequence of calls, with what each handed back *)
Fixpoint run_ecalls (cs : list ecall) (b : upgrade_buffer) : M (upgrade_buffer * list (option crust_status)) :=
  match cs with
  | [] => mret (b, [])
  | c :: cs =>
      r ← run_ecall c b;
      rs ← run_ecalls cs r.1;
      mret (rs.1, r.2 :: rs.2)
  end.
End run.

(** ** What every call keeps *)

(** Block heights are [size_t]. *)
Definition args_ok (c : ecall) : Prop :=
  match c with
  | GenAndUploadWorkReport _ height => 0 <= height < 2 ^ 64
  | _ => True
  end.

Section calls.
Context {W : Type} `{!Host W} `{!IdHost W} `{!UpgradeHost W} `{!AttestHost W} `{!Threads W} `{!ThreadsLaws W}.
Abbreviation pres := (pres (W := W) evolves).
Implicit Types (e : enclave W).

Lemma pres_gated {A} (a : A) m : pres m → pres (gated a m).
Proof. intros Hm. unfold gated, get_wl. pres. Qed.
Lemma pres_scheduled {A} id (m : M (enclave W) A) : pres m → pres (scheduled id m).
Proof. intros Hm. unfold scheduled. pose proof (λ i, proj1 (pres_sched (W := W) i)).
  pose proof (λ i, proj1 (proj2 (pres_sched (W := W) i))). pres. Qed.
#[local] Hint Resolve pres_gated pres_scheduled pres_srd_increase pres_srd_decrease pres_srd_update
  pres_set_srd_change pres_validate_files pres_validate_srd pres_srd_change pres_store_metadata
  pres_gen_and_upload pres_gen_key_pair pres_verify_identity pres_storage_seal pres_storage_unseal
  pres_storage_delete pres_gen_upgrade pres_restore_from_upgrade : sworker.

Lemma pres_main_loop n : pres (ecall_main_loop n).
Proof.
  induction n as [|n IH]; cbn [ecall_main_loop]; [pres|]. apply (pres_bind evolves); [|done].
  unfold main_loop_turn. pres; auto with sworker.
  etransitivity; [apply evolves_add_proof|]. apply (others_evolve (with_wl _ e)).
Qed.
Lemma pres_enable h : pres (ecall_enable_upgrade h).
Proof. unfold ecall_enable_upgrade, get_wl. pres. evolve. Qed.
Lemma pres_set_change n : pres (ecall_srd_set_change n).
Proof. unfold ecall_srd_set_change, get_srd_change. pres. Qed.
Lemma pres_confirm hash : pres (ecall_confirm_file hash).
Proof. apply pres_gated, pres_scheduled, pres_storage_confirm. intros. apply (pres_ret evolves). Qed.
Lemma pres_disable : pres ecall_disable_upgrade.
Proof. apply (pres_on_wl evolves). intros w. evolve. Qed.
#[local] Hint Resolve pres_main_loop pres_enable pres_set_change pres_confirm pres_disable : sworker.
Lemma ecall_evolves c b : c ≠ RestoreMetadata → args_ok c → pres (run_ecall c b).
Proof.
  intros Hc Ha. destruct (pres_measurement (W := W) true [] []) as (H1 & _ & _ & H4 & H5).
  pose proof (λ hw i, proj1 (proj2 (pres_measurement (W := W) hw i []))) as H2.
  pose proof (λ a, proj1 (proj2 (proj2 (pres_measurement (W := W) true [] a)))) as H3.
  destruct c; try done; cbn [run_ecall args_ok] in *; cbv zeta;
    (apply (pres_bind evolves); [|intros; apply (pres_ret evolves)]); auto with sworker.
  all: try (apply pres_gated); try (apply pres_scheduled); auto with sworker. apply (pres_bind evolves); [done|intros; apply (pres_ret evolves)].
Qed.
Lemma ecall_keeps_typed c b : args_ok c → State.pres (W := W) keeps_typed (run_ecall c b).
Proof.
  intros Ha. destruct (decide (c = RestoreMetadata)) as [->|Hc].
  - cbn [run_ecall]. apply (pres_bind keeps_typed); [apply pres_restore_metadata|intros; pres].
  - by apply pres_keeps_typed, ecall_evolves.
Qed.
Lemma ecalls_pres R `{!PreOrder R} cs b :
  (∀ c b, c ∈ cs → State.pres (W := W) R (run_ecall c b)) → State.pres (W := W) R (run_ecalls cs b).
Proof.
  revert b. induction cs as [|c cs IH]; intros b Hc; cbn [run_ecalls]; [apply (pres_ret R)|].
  apply (pres_bind R); [apply Hc; left|intros r].
  apply (pres_bind R); [apply IH; intros; apply Hc; by right|intros; apply (pres_ret R)].
Qed.

(** C10: the workload is always well-formed: from a freshly constructed enclave,
    whatever sequence of calls the application makes, and whatever the other
    threads and the host answer, every run that returns leaves sorted maps and
    sets, values as the JSON class makes them, at most two validated proofs and a
    64-bit report height. *)
Theorem ecalls_well_typed garbage cs b e rs e' :
  wl e = workload_new garbage → Forall args_ok cs → run_ecalls cs b e = Ok (rs, e') → typed (wl e').
Proof.
  intros He Ha H. rewrite Forall_forall in Ha.
  eapply (ecalls_pres keeps_typed); [|exact H|].
  - intros c b' Hc. by apply ecall_keeps_typed, Ha.
  - rewrite He. apply workload_new_typed.
Qed.

(** C29: an identity does not change hands: once the enclave has a key pair, no
    sequence of calls replaces the keys or the account, except the restoring of
    metadata. *)
Theorem identity_stays cs b e rs e' :
  typed (wl e) → is_set_key_pair (wl e) = true → RestoreMetadata ∉ cs → Forall args_ok cs →
  run_ecalls cs b e = Ok (rs, e') →
  is_set_key_pair (wl e') = true ∧ id_key_pair (wl e') = id_key_pair (wl e) ∧
  account_id (wl e') = account_id (wl e).
Proof.
  intros Ht Hs Hr Ha H. rewrite Forall_forall in Ha.
  assert (evolves (wl e) (wl e')) as Hev.
  { eapply (ecalls_pres evolves); [|exact H]. intros c b' Hc. apply ecall_evolves; [by intros ->|by apply Ha]. }
  destruct (Hev Ht) as [_ Hi]. destruct (Hi Hs) as (E & ? & ?). split_and!; [by rewrite E|done..].
Qed.
End calls.

(** ** The upgrade gate *)

(** The answer of a call that is refused *)
Definition refusal (c : ecall) : option crust_status :=
  match c with
  | SrdIncrease _ | GetWorkload => None
  | _ => Some CRUST_UPGRADE_WAIT_FOR_NEXT_ERA
  end.

Section upgrade.
Context {W : Type} `{!Host W} `{!IdHost W} `{!UpgradeHost W} `{!AttestHost W} `{!Threads W}.
Implicit Types (e : enclave W).

Lemma gated_refuses {A} (refused : A) m e :
  upgrade_status (wl e) = ENC_UPGRADE_STATUS_PROCESS → gated refused m e = Ok (refused, e).
Proof.
  intros He. unfold gated, get_wl, gets, mbind, m_bind, get_upgrade_status. rewrite He. done.
Qed.

(** C30: while an upgrade is in progress the enclave refuses all new work: any
    sequence of the calls that seal, unseal, confirm, delete, report, take over an
    upgrade or add random data is answered by a refusal each, and leaves the whole
    enclave, its counters and the world as they were. *)
Theorem upgrade_refuses cs b e :
  upgrade_status (wl e) = ENC_UPGRADE_STATUS_PROCESS → Forall (λ c, refusable c = true) cs →
  run_ecalls cs b e = Ok ((b, map refusal cs), e).
Proof.
  intros He. induction 1 as [|c cs Hc _ IH]; [done|]. cbn [run_ecalls map].
  rewrite (bind_run _ _ _ (b, refusal c) e); [by rewrite (bind_run _ _ _ _ _ IH)|].
  destruct c; try done; cbn [run_ecall refusal]; cbv zeta;
    (eapply eq_trans; [eapply bind_run, (gated_refuses _ _ _ He)|done]).
Qed.

(** The statuses the export can end in *)
Definition export_status (st : crust_status) : Prop :=
  st ∈ [CRUST_SUCCESS; CRUST_MALLOC_FAILED; CRUST_UPGRADE_GET_BLOCK_HASH_FAILED;
        CRUST_UPGRADE_GEN_WORKREPORT_FAILED; CRUST_SGX_SIGN_FAILED].
(** What a computation answers, if it returns *)
Definition answers {A} (Q : A → Prop) (m : M (enclave W) A) : Prop := ∀ e a e', m e = Ok (a, e') → Q a.
Lemma answers_ret {A} (Q : A → Prop) a : Q a → answers Q (mret a).
Proof. by intros H e b e' [-> _]%ret_Ok. Qed.
Lemma answers_any {A} (m : M (enclave W) A) : answers (λ _, True) m.
Proof. done. Qed.
Lemma answers_bind {A B} (P : A → Prop) (Q : B → Prop) (m : M (enclave W) A) (f : A → M (enclave W) B) :
  answers P m → (∀ a, P a → answers Q (f a)) → answers Q (m ≫= f).
Proof. intros Hm Hf e b e' (a & e1 & H1 & H2)%bind_Ok. eapply Hf; [by eapply Hm|done]. Qed.
Ltac answers :=
  repeat first
    [ apply answers_ret
    | solve [auto]
    | eapply answers_bind; [apply answers_any|intros ? _]
    | progress cbv zeta
    | lazymatch goal with
      | |- answers _ (if ?b then _ else _) => destruct b eqn:?
      | |- answers _ (match ?x with _ => _ end) => destruct x eqn:?
      end ].

Lemma serialize_file_answers :
  answers (λ r, r.1 = CRUST_SUCCESS ∨ r.1 = CRUST_MALLOC_FAILED) (serialize_file (W := W)).
Proof. unfold serialize_file. answers; auto. Qed.
Lemma export_answers height hash : answers export_status (export_upgrade (W := W) height hash).
Proof.
  unfold export_upgrade. eapply answers_bind; [apply answers_any|intros srd_str _].
  eapply answers_bind; [apply serialize_file_answers|intros [st files] Hst]. cbn [fst] in Hst.
  assert (export_status st) by (unfold export_status; destruct Hst as [->| ->]; set_solver).
  answers; unfold export_status; set_solver.
Qed.

Lemma gen_upgrade_answers h e st e' :
  report_height (wl e) < h →
  ERA_LENGTH <= u64 (u64 (h - report_height (wl e)) - WORKREPORT_REPORT_INTERVAL) →
  ecall_gen_upgrade_data h e = Ok (st, e') → export_status st.
Proof.
  intros Hh Hw H. unfold ecall_gen_upgrade_data, id_gen_upgrade_data in H.
  apply bind_Ok in H as (st' & e1 & H & H2). inv_step H2. apply ret_Ok in H2 as [-> _].
  unfold gen_upgrade_data in H. apply bind_Ok in H as (rh & e2 & [-> ->]%gets_Ok & H).
  unfold get_report_height in H.
  destruct (Z.leb_spec h (report_height (wl e))); [lia|].
  destruct (Z.ltb_spec (u64 (u64 (h - report_height (wl e)) - WORKREPORT_REPORT_INTERVAL)) ERA_LENGTH); [lia|].
  revert H. apply (λ Ha : answers _ _, Ha e st' e1).
  pose proof export_answers. answers; unfold export_status; set_solver.
Qed.

(** C31: an upgrade that was allowed is ready to be exported: once [ecall_enable_upgrade]
    has succeeded at a height at least ten above the last report, the era
    [ecall_gen_upgrade_data] finds at that height can be reported, and the call fails
    only for lack of memory, a missing block hash, a report that cannot be made or
    sent, or a failing signature. *)
Theorem enabled_upgrade_ready h e e1 :
  let era := era_height (era_fuel h (report_height (wl e))) h (report_height (wl e)) in
  0 <= report_height (wl e) → report_height (wl e) + 10 <= h → h < 2 ^ 63 →
  ecall_enable_upgrade h e = Ok (CRUST_SUCCESS, e1) →
  upgrade_status (wl e1) = ENC_UPGRADE_STATUS_PROCESS ∧
  era < h <= era + ERA_LENGTH ∧ height_expired era (wl e1) = false ∧
  report_condition (wl e1) = CRUST_SUCCESS ∧
  ∀ st e2, ecall_gen_upgrade_data h e1 = Ok (st, e2) → export_status st.
Proof.
  intros era H0 Hh Hmax H. unfold ecall_enable_upgrade in H. inv_step H.
  destruct (is_success (try_report_work h (wl e))) eqn:Hs;
    [|inv_step H; apply ret_Ok in H as [E _]; by rewrite <- E in Hs].
  apply is_success_true in Hs. inv_step H. apply ret_Ok in H as [_ ->].
  apply try_report_work_iff in Hs as (Hera & Hp & Hr & Hf); [|lia..].
  assert (era = report_height (wl e) + ERA_LENGTH * ((h - report_height (wl e) - 1) / ERA_LENGTH)) as Ee.
  { apply era_height_closed; [lia..|]. unfold era_fuel. lia. }
  unfold ERA_LENGTH in *. pose proof (Z.div_mod (h - report_height (wl e) - 1) 300 ltac:(lia)).
  pose proof (Z.mod_pos_bound (h - report_height (wl e) - 1) 300 ltac:(lia)).
  cbn [wl with_wl]. split_and!; [done|lia..| | |].
  - unfold height_expired, get_report_height, ERA_LENGTH. cbn [report_height set_upgrade_status with_upgrade_status].
    rewrite u64_small by lia. lia.
  - unfold report_condition, get_restart_flag, report_has_validated_proof, get_report_file_flag,
      set_upgrade_status. cbn [restart_flag validated_proof report_files with_upgrade_status].
    rewrite Hr, Hf. by destruct (Z.ltb_spec 0 (validated_proof (wl e))); [|lia].
  - intros st e2. apply gen_upgrade_answers; cbn [wl with_wl report_height set_upgrade_status with_upgrade_status]; [lia|].
    unfold WORKREPORT_REPORT_INTERVAL, ERA_LENGTH. rewrite !u64_small; rewrite ?u64_small; lia.
Qed.
End upgrade.

(** ** Evaluated *)
#[global] Instance demo_threads_laws : ThreadsLaws demo.
Proof. by split. Qed.

Definition demo_keys : ecc_key_pair := EccKeyPair (replicate 64 (chr 1)) (replicate 32 (chr 2)).
Definition demo_new : workload := workload_new ([], demo_keys, []).
Definition demo_fresh : enclave demo := with_wl demo_new demo_enclave.
(** A run that is known to return *)
Definition run_of {S A} (r : res (A * S)) (d : A * S) : A * S := match r with Ok p => p | _ => d end.
Definition did_return {A} (r : res A) : bool := match r with Ok _ => true | _ => false end.
Lemma run_of_ok {S A} (r : res (A * S)) d : did_return r = true → r = Ok ((run_of r d).1, (run_of r d).2).
Proof. by destruct r as [[]| | |]. Qed.

(** The first start: keys, a task, an identity compared *)
Definition demo_calls : list ecall :=
  [GenKeyPair (Some (str "acc")); SrdSetChange 3; MainLoop 1; GetWorkload; CmpChainAccountId (str "acc")].
Definition demo_started : (upgrade_buffer * list (option crust_status)) * enclave demo :=
  run_of (run_ecalls demo_calls no_upgrade_buffer demo_fresh) ((no_upgrade_buffer, []), demo_enclave).
Lemma demo_started_ok :
  run_ecalls demo_calls no_upgrade_buffer demo_fresh = Ok (demo_started.1, demo_started.2).
Proof.
  assert (did_return (run_ecalls demo_calls no_upgrade_buffer demo_fresh) = true) as H by (vm_compute; reflexivity).
  exact (run_of_ok _ ((no_upgrade_buffer, []), demo_enclave) H).
Qed.
Lemma demo_started_answers :
  demo_started.1.2 = [None; None; None; None; Some CRUST_SUCCESS] ∧
  validated_proof (wl demo_started.2) = 1 ∧ is_set_key_pair (wl demo_started.2) = true.
Proof. vm_compute. split_and!; reflexivity. Qed.
Lemma demo_calls_ok : Forall args_ok demo_calls.
Proof. repeat (apply List.Forall_cons; [exact I|]). apply List.Forall_nil. Qed.

Lemma ecalls_well_typed_witness : typed (wl demo_started.2).
Proof.
  apply (ecalls_well_typed ([], demo_keys, []) demo_calls no_upgrade_buffer demo_fresh demo_started.1);
    [reflexivity|apply demo_calls_ok|apply demo_started_ok].
Defined.

Definition demo_enabled : enclave demo :=
  with_wl (with_is_set_key_pair true (with_validated_proof 1 demo_new)) demo_enclave.
Lemma demo_enabled_typed : typed (wl demo_enabled).
Proof. destruct (workload_new_typed ([], demo_keys, [])). by split. Qed.
Definition demo_later_calls : list ecall := [GenKeyPair (Some (str "other")); SrdSetChange 3; MainLoop 1].
Lemma demo_later_calls_ok : Forall args_ok demo_later_calls.
Proof. repeat (apply List.Forall_cons; [exact I|]). apply List.Forall_nil. Qed.
Definition demo_later : (upgrade_buffer * list (option crust_status)) * enclave demo :=
  run_of (run_ecalls demo_later_calls no_upgrade_buffer demo_enabled) ((no_upgrade_buffer, []), demo_enclave).
Lemma demo_later_ok :
  run_ecalls demo_later_calls no_upgrade_buffer demo_enabled = Ok (demo_later.1, demo_later.2).
Proof.
  assert (did_return (run_ecalls demo_later_calls no_upgrade_buffer demo_enabled) = true) as H by (vm_compute; reflexivity).
  exact (run_of_ok _ ((no_upgrade_buffer, []), demo_enclave) H).
Qed.

Lemma identity_stays_witness : id_key_pair (wl demo_later.2) = demo_keys.
Proof.
  apply (identity_stays demo_later_calls no_upgrade_buffer demo_enabled demo_later.1);
    [apply demo_enabled_typed|reflexivity| |apply demo_later_calls_ok|apply demo_later_ok].
  unfold demo_later_calls. rewrite !elem_of_cons, elem_of_nil. intros H. repeat destruct H as [H|H]; done.
Defined.

Definition demo_process : enclave demo :=
  with_wl (set_upgrade_status ENC_UPGRADE_STATUS_PROCESS (wl demo_enabled)) demo_enabled.
Lemma upgrade_refuses_witness :
  run_ecalls [SealFile [] []; GetWorkload; DeleteFile (str "f")] no_upgrade_buffer demo_process
  = Ok ((no_upgrade_buffer,
         [Some CRUST_UPGRADE_WAIT_FOR_NEXT_ERA; None; Some CRUST_UPGRADE_WAIT_FOR_NEXT_ERA]), demo_process).
Proof.
  apply (upgrade_refuses [SealFile [] []; GetWorkload; DeleteFile (str "f")] no_upgrade_buffer demo_process);
    [reflexivity|]. repeat (apply List.Forall_cons; [reflexivity|]). apply List.Forall_nil.
Defined.

Lemma enabled_upgrade_ready_witness :
  report_condition (wl demo_process) = CRUST_SUCCESS.
Proof.
  apply (enabled_upgrade_ready 1000 demo_enabled demo_process); try reflexivity; cbn; lia.
Defined.
