(* ===== verification/EnclaveLocks.v ===== *)
(** * The mutexes of the enclave

    Every function of the enclave that uses a mutex, as the [prog] of Lock.v it is:
    what it locks and unlocks, which guarded variables it reads and writes, where it
    may return, on each branch.  The other files say what the functions compute, one at
    a time; here they run at the same time, in any number of threads. *)
From stdpp Require Import relations.
From S2P Require Import Prelude.
From S2P Require Import Lock.

(** The mutexes.  [app_srd_info_mutex] is the application's, behind
    [ocall_srd_info_lock]; the last three are too, and AppLocks.v uses them. *)
Inductive mutex :=
| g_gen_work_report | g_metadata_mutex | g_srd_mutex | app_srd_info_mutex | g_checked_files_mutex | g_new_files_mutex
| g_file_buffer_mutex | g_base_rand_buffer_mutex | ocall_upgrade_mutex | g_srd_change_mutex | g_sched_mutex
| srd_info_mutex | wl_spec_info_mutex | g_report_flag_mutex | validated_mutex | g_workload_mutex
| g_task_mutex | upgrade_status_mutex | log_mutex.
(** The variables: those that have a mutex, and, last, those of the application that
    have none *)
Inductive field :=
| srd_path2hashs_m | checked_files | new_files | reported_files_idx | g_srd_change | g_func_m | srd_info_json
| wl_spec_info | report_files | validated_proof | g_work_report
| g_running_task_num | g_running_task_um | upgrade_status | log_buf
| g_waiting_task_sum_v | g_invoked_ecalls_um | enclave_workload | enclave_id_info | upgrade_data | change_srd_num | debug_flag.
#[global] Instance mutex_eq_dec : EqDecision mutex.
Proof. solve_decision. Defined.
#[global] Instance field_eq_dec : EqDecision field.
Proof. solve_decision. Defined.
(** The mutex of each; for those that have none, one nobody would take for it *)
Definition guard (x : field) : mutex :=
  match x with
  | srd_path2hashs_m => g_srd_mutex | checked_files | reported_files_idx => g_checked_files_mutex | new_files => g_new_files_mutex
  | g_srd_change => g_srd_change_mutex | g_func_m => g_sched_mutex | srd_info_json => srd_info_mutex
  | wl_spec_info => wl_spec_info_mutex | report_files => g_report_flag_mutex | validated_proof => validated_mutex
  | g_work_report => g_gen_work_report
  | upgrade_status => upgrade_status_mutex | log_buf => log_mutex | _ => g_task_mutex
  end.

Abbreviation prog := (@prog mutex field).
Definition lock (m : mutex) : prog := Do (Acq m).
Definition unlock (m : mutex) : prog := Do (Rel m).
Definition rd (x : field) : prog := Do (Use false x).
Definition wr (x : field) : prog := Do (Use true x).
Definition maybe (p : prog) : prog := Choose p Skip.
Declare Scope sync_scope.
Delimit Scope sync_scope with sync.
Bind Scope sync_scope with Lock.prog.
Infix "▷" := Seq (at level 60, right associativity) : sync_scope.
#[local] Open Scope sync_scope.

Section progs.
(** May an allocation fail?  And what does the application do when it is called from
    inside with nothing held (by [ocall_srd_change], [ocall_entry_network])? *)
Context (oom : bool) (asked : prog).
Definition if_oom (p : prog) : prog := if oom then maybe p else Skip.

(** ** workload/Workload.cpp *)
Definition sync_get_instance : prog := maybe (lock g_workload_mutex ▷ unlock g_workload_mutex).
Definition sync_get_srd_info : prog := lock srd_info_mutex ▷ rd srd_info_json ▷ unlock srd_info_mutex.
Definition sync_set_srd_info : prog := lock srd_info_mutex ▷ rd srd_info_json ▷ wr srd_info_json ▷ unlock srd_info_mutex.
Definition sync_set_wl_spec : prog := lock wl_spec_info_mutex ▷ rd wl_spec_info ▷ wr wl_spec_info ▷ unlock wl_spec_info_mutex.
(** With the two statuses, nothing happens when they are equal. *)
Definition sync_set_wl_spec_related : prog := Call (maybe Exit ▷ sync_set_wl_spec).
Definition sync_add_new_file : prog := lock g_new_files_mutex ▷ wr new_files ▷ unlock g_new_files_mutex.
Definition sync_set_report_file_flag : prog := lock g_report_flag_mutex ▷ wr report_files ▷ unlock g_report_flag_mutex.
Definition sync_get_report_file_flag : prog := lock g_report_flag_mutex ▷ rd report_files ▷ unlock g_report_flag_mutex.
Definition sync_handle_report_result : prog :=
  lock g_checked_files_mutex ▷ Loop (rd reported_files_idx ▷ rd checked_files ▷ maybe (wr checked_files)) ▷ wr reported_files_idx ▷ unlock g_checked_files_mutex.
Definition sync_report_add_validated_proof : prog := lock validated_mutex ▷ rd validated_proof ▷ wr validated_proof ▷ unlock validated_mutex.
Definition sync_report_reduce_validated_proof : prog := lock validated_mutex ▷ rd validated_proof ▷ wr validated_proof ▷ unlock validated_mutex.
Definition sync_report_has_validated_proof : prog := lock validated_mutex ▷ rd validated_proof ▷ unlock validated_mutex.
Definition sync_try_report_work : prog :=
  Call (maybe Exit ▷ sync_report_has_validated_proof ▷ maybe Exit ▷ maybe Exit ▷ sync_get_report_file_flag).
Definition sync_serialize_srd : prog := lock g_srd_mutex ▷ Loop (rd srd_path2hashs_m) ▷ unlock g_srd_mutex.
Definition sync_serialize_file : prog :=
  Call (lock g_checked_files_mutex ▷ rd checked_files ▷ if_oom Exit ▷ Loop (rd checked_files) ▷ unlock g_checked_files_mutex).
Definition sync_gen_workload_info : prog :=
  Call (rd srd_path2hashs_m ▷ maybe (Loop (rd srd_path2hashs_m) ▷ if_oom Exit ▷ Loop (rd srd_path2hashs_m)) ▷ rd checked_files ▷ Loop (rd checked_files)).
Definition sync_restore_srd : prog :=
  Call (Loop (rd srd_path2hashs_m) ▷ wr srd_path2hashs_m ▷ Loop (maybe (Loop (rd srd_path2hashs_m) ▷ wr srd_path2hashs_m ▷ Exit) ▷ wr srd_path2hashs_m)
    ▷ Loop (rd srd_path2hashs_m ▷ wr srd_info_json)).
Definition sync_restore_file : prog := wr checked_files ▷ Loop (wr checked_files ▷ sync_set_wl_spec).

(** ** schedule/Schedule.cpp *)
Definition sync_sched_add : prog := lock g_sched_mutex ▷ wr g_func_m ▷ unlock g_sched_mutex.
Definition sync_sched_del : prog := lock g_sched_mutex ▷ wr g_func_m ▷ unlock g_sched_mutex.
(** [ocall_usleep] between the unlock and the lock *)
Definition sync_sched_check (m : mutex) : prog :=
  lock g_sched_mutex ▷ Loop (rd g_func_m) ▷ unlock g_sched_mutex ▷ maybe (unlock m ▷ lock m).

(** ** srd/Srd.cpp *)
Definition sync_get_srd_change : prog := lock g_srd_change_mutex ▷ rd g_srd_change ▷ unlock g_srd_change_mutex.
Definition sync_set_srd_change : prog :=
  maybe (lock g_srd_mutex ▷ sync_get_instance ▷ Loop (rd srd_path2hashs_m) ▷ unlock g_srd_mutex)
  ▷ lock g_srd_change_mutex ▷ wr g_srd_change ▷ unlock g_srd_change_mutex.
Definition sync_srd_change : prog :=
  lock g_srd_change_mutex ▷ rd g_srd_change ▷ wr g_srd_change ▷ unlock g_srd_change_mutex
  ▷ maybe asked ▷ lock app_srd_info_mutex ▷ sync_get_instance ▷ sync_get_srd_info ▷ unlock app_srd_info_mutex.
Definition sync_srd_increase : prog :=
  Call (sync_get_instance
    ▷ maybe (Scoped g_base_rand_buffer_mutex (Lock ▷ Choose Skip (if_oom Exit)))
    ▷ maybe Exit ▷ if_oom Exit ▷ Loop (maybe Exit) ▷ if_oom Exit ▷ maybe Exit
    ▷ lock g_srd_mutex ▷ wr srd_path2hashs_m ▷ Loop (rd srd_path2hashs_m) ▷ unlock g_srd_mutex ▷ sync_set_srd_info).
Definition sync_srd_decrease : prog :=
  Call (sync_get_instance ▷ Loop (rd srd_path2hashs_m) ▷ maybe Exit ▷ Loop (rd srd_path2hashs_m)
    ▷ Loop (rd srd_path2hashs_m ▷ wr srd_path2hashs_m) ▷ Loop sync_set_srd_info).
Definition sync_srd_update_metadata : prog :=
  lock g_srd_mutex ▷ lock app_srd_info_mutex ▷ sync_get_instance
  ▷ Loop (sync_sched_check g_srd_mutex ▷ rd srd_path2hashs_m ▷ Loop (rd srd_path2hashs_m ▷ wr srd_path2hashs_m ▷ maybe sync_set_srd_info))
  ▷ sync_get_srd_info ▷ unlock app_srd_info_mutex ▷ unlock g_srd_mutex.

(** ** validator/Validator.cpp *)
Definition sync_srd_random_delete : prog := Call (maybe Exit ▷ sync_srd_decrease).
Definition sync_validate_srd : prog :=
  Call (sync_get_instance ▷ maybe Exit ▷ sync_get_instance ▷ lock g_srd_mutex ▷ Loop (rd srd_path2hashs_m)
    ▷ Loop (sync_sched_check g_srd_mutex ▷ rd srd_path2hashs_m) ▷ sync_srd_random_delete ▷ unlock g_srd_mutex).
Definition sync_validate_meaningful_file : prog :=
  Call (sync_get_instance ▷ maybe Exit ▷ sync_get_instance
    ▷ Scoped g_checked_files_mutex (Lock
        ▷ lock g_new_files_mutex ▷ rd new_files ▷ maybe (wr checked_files ▷ wr new_files) ▷ unlock g_new_files_mutex
        ▷ maybe (rd checked_files ▷ maybe sync_set_report_file_flag ▷ Exit)
        ▷ Loop (rd checked_files)
        ▷ Loop (sync_sched_check g_checked_files_mutex ▷ rd checked_files
            ▷ Loop (maybe (sync_set_report_file_flag ▷ Exit) ▷ maybe (wr checked_files)) ▷ maybe (wr checked_files))
        ▷ Loop (rd checked_files ▷ sync_set_wl_spec_related) ▷ Unlock)).

(** ** storage/Storage.cpp *)
Definition sync_seal_leaf : prog := lock g_file_buffer_mutex ▷ Call (maybe Exit) ▷ unlock g_file_buffer_mutex.
Definition sync_storage_seal_file : prog :=
  Call (sync_get_instance ▷ lock g_checked_files_mutex ▷ rd checked_files ▷ unlock g_checked_files_mutex
    ▷ lock g_new_files_mutex ▷ rd new_files ▷ unlock g_new_files_mutex
    ▷ maybe Exit ▷ Loop sync_seal_leaf ▷ maybe Exit ▷ sync_add_new_file ▷ sync_set_wl_spec).
Definition sync_storage_unseal_file : prog :=
  Call (maybe Exit ▷ lock g_file_buffer_mutex ▷ Call (Loop (maybe Exit)) ▷ unlock g_file_buffer_mutex).
Definition sync_storage_confirm_file : prog :=
  Call (sync_get_instance ▷ lock g_checked_files_mutex ▷ Loop (rd checked_files ▷ maybe (wr checked_files))
    ▷ maybe (lock g_new_files_mutex ▷ Loop (rd new_files ▷ maybe (wr new_files)) ▷ unlock g_new_files_mutex)
    ▷ unlock g_checked_files_mutex ▷ maybe sync_set_wl_spec_related).
Definition sync_storage_delete_file : prog :=
  Call (lock g_checked_files_mutex ▷ sync_get_instance ▷ Loop (rd checked_files ▷ maybe (wr checked_files))
    ▷ maybe (lock g_new_files_mutex ▷ Loop (rd new_files ▷ maybe (wr new_files)) ▷ unlock g_new_files_mutex)
    ▷ unlock g_checked_files_mutex ▷ maybe sync_set_wl_spec).

(** ** report/Report.cpp *)
Definition sync_gen_work_report : prog :=
  Call (sync_get_instance ▷ maybe Exit ▷ Choose Skip (sync_report_has_validated_proof ▷ maybe sync_get_report_file_flag)
    ▷ maybe (sync_set_report_file_flag ▷ sync_report_reduce_validated_proof ▷ Exit)
    ▷ Call (lock g_srd_mutex ▷ Loop (rd srd_path2hashs_m) ▷ if_oom Exit ▷ Loop (rd srd_path2hashs_m) ▷ unlock g_srd_mutex
        ▷ lock g_checked_files_mutex ▷ Loop (rd checked_files ▷ maybe (wr checked_files)) ▷ wr reported_files_idx
        ▷ Loop (rd checked_files ▷ maybe (wr checked_files) ▷ maybe (wr reported_files_idx))
        ▷ maybe (if_oom Exit ▷ Loop (rd checked_files)) ▷ unlock g_checked_files_mutex
        ▷ maybe Exit ▷ wr g_work_report)
    ▷ sync_set_report_file_flag ▷ sync_report_reduce_validated_proof).
Definition sync_gen_and_upload_work_report (locked : bool) : prog :=
  Call (Scoped g_gen_work_report ((if locked then Lock else Skip)
    ▷ sync_gen_work_report ▷ maybe Exit ▷ rd g_work_report ▷ maybe (sync_get_instance ▷ sync_handle_report_result))).

(** ** identity/Identity.cpp *)
Definition sync_id_get_metadata (locked : bool) : prog :=
  (if locked then lock g_metadata_mutex else Skip) ▷ sync_get_instance ▷ Call (maybe Exit) ▷ (if locked then unlock g_metadata_mutex else Skip).
Definition sync_id_store_metadata : prog :=
  Call (sync_get_instance ▷ maybe Exit ▷ lock g_metadata_mutex ▷ sync_get_instance ▷ rd wl_spec_info
    ▷ Loop (rd srd_path2hashs_m) ▷ rd checked_files ▷ if_oom Exit ▷ Loop (rd srd_path2hashs_m) ▷ Loop (rd checked_files) ▷ unlock g_metadata_mutex).
Definition sync_id_restore_metadata : prog :=
  Call (sync_id_get_metadata true ▷ maybe Exit ▷ sync_get_instance ▷ maybe (wr wl_spec_info) ▷ maybe (sync_restore_srd ▷ maybe Exit)
    ▷ sync_get_srd_info ▷ maybe (wr checked_files ▷ Loop (wr checked_files)) ▷ maybe Exit).
Definition sync_store_large_data (m : mutex) : prog := lock m ▷ unlock m.
Definition sync_id_gen_upgrade_data : prog :=
  lock g_gen_work_report
  ▷ Call (sync_get_instance ▷ maybe Exit ▷ sync_gen_and_upload_work_report false ▷ maybe Exit
      ▷ sync_serialize_srd ▷ sync_serialize_file ▷ sync_gen_workload_info ▷ maybe Exit ▷ sync_store_large_data ocall_upgrade_mutex)
  ▷ unlock g_gen_work_report.
Definition sync_id_restore_from_upgrade : prog :=
  Call (if_oom Exit ▷ maybe Exit ▷ sync_get_instance ▷ maybe Exit
    ▷ Call (sync_restore_srd ▷ maybe Exit ▷ sync_restore_file ▷ sync_gen_workload_info ▷ maybe Exit
        ▷ asked ▷ maybe Exit ▷ sync_report_add_validated_proof ▷ sync_gen_and_upload_work_report true)).

(** ** Enclave.cpp *)
Definition sync_upgrade_gate : prog := sync_get_instance ▷ maybe Exit.
Definition sync_task (p : prog) : prog := sync_sched_add ▷ p ▷ sync_sched_del.
Definition sync_ecall_srd_increase : prog := Call (sync_upgrade_gate ▷ sync_task sync_srd_increase).
Definition sync_ecall_srd_decrease : prog := sync_task sync_srd_decrease.
Definition sync_ecall_srd_set_change : prog := sync_get_srd_change ▷ sync_set_srd_change.
Definition sync_ecall_srd_update_metadata : prog := sync_task sync_srd_update_metadata.
(** Any number of turns *)
Definition sync_ecall_main_loop : prog :=
  Loop (sync_task sync_validate_meaningful_file ▷ sync_task sync_validate_srd ▷ sync_task sync_srd_change
    ▷ sync_id_store_metadata ▷ sync_get_instance ▷ sync_report_add_validated_proof).
Definition sync_ecall_gen_and_upload_work_report : prog := Call (sync_upgrade_gate ▷ sync_task (sync_gen_and_upload_work_report true)).
Definition sync_ecall_seal_file : prog := Call (sync_upgrade_gate ▷ sync_task sync_storage_seal_file).
Definition sync_ecall_unseal_file : prog := Call (sync_upgrade_gate ▷ sync_task sync_storage_unseal_file).
Definition sync_ecall_confirm_file : prog := Call (sync_upgrade_gate ▷ sync_task sync_storage_confirm_file).
Definition sync_ecall_delete_file : prog := Call (sync_upgrade_gate ▷ sync_task sync_storage_delete_file).
Definition sync_ecall_enable_upgrade : prog := sync_get_instance ▷ sync_try_report_work.
Definition sync_get_workload : prog :=
  lock wl_spec_info_mutex ▷ rd wl_spec_info ▷ unlock wl_spec_info_mutex ▷ sync_get_srd_info ▷ sync_get_srd_change.
Definition sync_ecall_get_workload : prog := Call (sync_upgrade_gate ▷ sync_get_instance ▷ sync_get_workload).
Definition sync_ecall_restore_from_upgrade : prog := Call (sync_upgrade_gate ▷ sync_id_restore_from_upgrade).
End progs.

(** ** Every entry point *)
Inductive entry :=
| ecall_srd_increase | ecall_srd_decrease | ecall_srd_set_change | ecall_srd_update_metadata | ecall_main_loop
| ecall_restore_metadata | ecall_gen_and_upload_work_report | ecall_seal_file | ecall_unseal_file | ecall_confirm_file
| ecall_delete_file | ecall_enable_upgrade | ecall_gen_upgrade_data | ecall_restore_from_upgrade | ecall_get_workload
| ecall_other.   (* those that only ask for the instance of Workload *)
#[global] Instance entry_eq_dec : EqDecision entry.
Proof. solve_decision. Defined.
Definition entries : list entry :=
  [ecall_srd_increase; ecall_srd_decrease; ecall_srd_set_change; ecall_srd_update_metadata; ecall_main_loop;
   ecall_restore_metadata; ecall_gen_and_upload_work_report; ecall_seal_file; ecall_unseal_file; ecall_confirm_file;
   ecall_delete_file; ecall_enable_upgrade; ecall_gen_upgrade_data; ecall_restore_from_upgrade; ecall_get_workload; ecall_other].
Definition body_asking (oom : bool) (asked : prog) (e : entry) : prog :=
  match e with
  | ecall_srd_increase => sync_ecall_srd_increase oom
  | ecall_srd_decrease => sync_ecall_srd_decrease
  | ecall_srd_set_change => sync_ecall_srd_set_change
  | ecall_srd_update_metadata => sync_ecall_srd_update_metadata
  | ecall_main_loop => sync_ecall_main_loop oom asked
  | ecall_restore_metadata => sync_id_restore_metadata
  | ecall_gen_and_upload_work_report => sync_ecall_gen_and_upload_work_report oom
  | ecall_seal_file => sync_ecall_seal_file
  | ecall_unseal_file => sync_ecall_unseal_file
  | ecall_confirm_file => sync_ecall_confirm_file
  | ecall_delete_file => sync_ecall_delete_file
  | ecall_enable_upgrade => sync_ecall_enable_upgrade
  | ecall_gen_upgrade_data => sync_id_gen_upgrade_data oom
  | ecall_restore_from_upgrade => sync_ecall_restore_from_upgrade oom asked
  | ecall_get_workload => sync_ecall_get_workload
  | ecall_other => sync_get_instance
  end.
(** The enclave alone *)
Definition body (oom : bool) : entry → prog := body_asking oom Skip.

(** The order in which the enclave locks *)
Definition rank (m : mutex) : nat :=
  match m with
  | g_gen_work_report => 0 | g_metadata_mutex => 1 | g_srd_mutex => 2 | app_srd_info_mutex => 3 | g_checked_files_mutex => 4
  | g_new_files_mutex => 5 | g_file_buffer_mutex | g_base_rand_buffer_mutex | ocall_upgrade_mutex => 6
  | g_srd_change_mutex | g_sched_mutex | srd_info_mutex | wl_spec_info_mutex | g_report_flag_mutex | validated_mutex => 7
  | g_workload_mutex => 8 | g_task_mutex | upgrade_status_mutex => 9 | log_mutex => 10
  end.
Definition update : prog := Loop sync_ecall_srd_update_metadata.

(** ** Order *)
Lemma order_kept e : e ≠ ecall_srd_update_metadata → obeys rank (in_order rank app_srd_info_mutex) (body false e) = true.
Proof. destruct e; try (intros _; vm_compute; reflexivity). intros H. exfalso. by apply H. Qed.
Lemma update_order : obeys rank (in_order_but rank app_srd_info_mutex) update = true.
Proof. vm_compute. reflexivity. Qed.
(** Giving [g_srd_mutex] away for a moment, [srd_update_metadata] takes it again below the
    application's mutex that it keeps. *)
Example update_breaks_order : obeys rank (in_order rank app_srd_info_mutex) update = false.
Proof. vm_compute. reflexivity. Qed.

(** A thread that runs one entry point after another *)
Abbreviation runs e t := (trace_of (body false e) t).
Lemma entries_ordered tu ts : trace_of update tu → Forall (λ t, ∃ e, e ≠ ecall_srd_update_metadata ∧ runs e t) ts →
  ∀ i t, (tu :: ts) !! i = Some t → follow rank (ordered rank app_srd_info_mutex 0 i) [] t = Some [].
Proof.
  intros Hu Ht [|i] t Hi; cbn in Hi.
  - injection Hi as <-. unfold ordered. rewrite decide_True by done. exact (obeys_sound _ _ _ _ update_order Hu).
  - unfold ordered. rewrite decide_False by done. rewrite Forall_forall in Ht.
    destruct (Ht t) as (e & He & Hr); [by eapply list_elem_of_lookup_2|]. exact (obeys_sound _ _ _ _ (order_kept e He) Hr).
Qed.

(** The enclave does not deadlock while memory lasts.  Let one thread update the srd
    metadata, over and over (the application's check of the reserved space), and let
    any number of threads run the other entry points, each down any branch it may
    take.  However the threads are interleaved, as long as one of them has anything
    left to do one of them can go on; they come to an end within as many steps as
    there is work, and then nobody holds a mutex. *)
Theorem enclave_deadlock_free tu ts T :
  trace_of update tu → Forall (λ t, ∃ e, e ≠ ecall_srd_update_metadata ∧ runs e t) ts →
  rtc (step rank) (start (tu :: ts)) T →
  (finished T ∨ ∃ T', step rank T T') ∧
  ∀ n T', nsteps (step rank) n (start (tu :: ts)) T' → (n + todo T' <= todo (start (tu :: ts)))%nat.
Proof.
  intros Hu Ht Hr. split; [|intros n T'; apply steps_bounded].
  eapply threads_end; [by apply entries_ordered|done].
Qed.

(** With two threads that update the srd metadata the enclave can deadlock: the first
    gives [g_srd_mutex] away in [sched_check] and keeps the lock on the srd info, the
    second takes the one and waits for the other. *)
Theorem two_updates_deadlock :
  ∃ t t' T, runs ecall_srd_update_metadata t ∧ runs ecall_srd_update_metadata t' ∧
    rtc (step rank) (start [t; t']) T ∧ stuck rank T.
Proof.
  apply (deadlock_found rank _ [false; true; false; true] _ [false; true; false; true] 8 4). vm_compute. reflexivity.
Qed.

(** A report that finds no memory for the srd hashes leaves [g_srd_mutex] locked: from
    then on every thread that asks for it waits for ever. *)
Theorem failed_report_deadlocks :
  ∃ t t' T, trace_of (body true ecall_gen_and_upload_work_report) t ∧ runs ecall_srd_set_change t' ∧
    rtc (step rank) (start [t; t']) T ∧ stuck rank T.
Proof.
  apply (deadlock_found rank _ [false; false; false; false; true; false; false; true] _ [true] 17 3). vm_compute. reflexivity.
Qed.

(** ** Races *)
Definition keeps_guard (x : field) (e : entry) : bool := obeys rank (guarded guard x) (body false e).
(** Who does not keep to the mutex of a variable: the decrease of srd, which locks nothing;
    the metadata, stored under a mutex of its own; and what runs at the start and in an upgrade. *)
Definition careless (x : field) : list entry :=
  match x with
  | srd_path2hashs_m => [ecall_srd_decrease; ecall_main_loop; ecall_restore_metadata; ecall_gen_upgrade_data; ecall_restore_from_upgrade]
  | checked_files => [ecall_main_loop; ecall_restore_metadata; ecall_gen_upgrade_data; ecall_restore_from_upgrade]
  | srd_info_json => [ecall_restore_metadata; ecall_restore_from_upgrade]
  | wl_spec_info => [ecall_main_loop; ecall_restore_metadata]
  | _ => []
  end.
Lemma careful x e : bool_decide (e ∈ careless x) = negb (keeps_guard x e).
Proof. destruct x, e; vm_compute; reflexivity. Qed.

(** C13: The entry points, but for those that [careless] names, do not race for a variable:
    no thread is about to use it while another is about to write it, whatever the
    interleaving.  For [new_files], the reported indexes, the srd task, the counters of
    the scheduler, the report flag, the validated proofs and the work report that is
    every entry point. *)
Theorem enclave_race_free x ts T :
  Forall (λ t, ∃ e, (e ∉ careless x) ∧ runs e t) ts → rtc (step rank) (start ts) T → ¬ races T x.
Proof.
  intros Ht Hr. apply (no_race rank guard x ts T); [|done]. eapply Forall_impl; [exact Ht|].
  intros t (e & He & Hrun). apply (obeys_sound _ _ (body false e)); [|done]. apply negb_false_iff. change (negb (keeps_guard x e) = false).
  rewrite <- careful. by apply bool_decide_eq_false_2.
Qed.

(** The metadata is stored, in every turn of the main loop, from files that another
    thread may be changing: a work report, which erases entries of [checked_files],
    holds [g_checked_files_mutex], and [id_store_metadata] does not ask for it. *)
Theorem metadata_race :
  ∃ t t' T, runs ecall_main_loop t ∧ runs ecall_gen_and_upload_work_report t' ∧
    rtc (step rank) (start [t; t']) T ∧ races T checked_files.
Proof.
  apply (race_found rank _ [true] _ [false; false; false; false; true; false; false; false; true; true] 36 8). vm_compute. reflexivity.
Qed.
(** The decrease of srd erases hashes without any lock, while the check of the reserved
    space may be erasing hashes under [g_srd_mutex]. *)
Theorem decrease_race :
  ∃ t t' T, runs ecall_srd_decrease t ∧ runs ecall_srd_update_metadata t' ∧
    rtc (step rank) (start [t; t']) T ∧ races T srd_path2hashs_m.
Proof.
  apply (race_found rank _ [false; false; false; false; true] _ [false; true; false; true] 4 9). vm_compute. reflexivity.
Qed.

(** ** Witnesses *)
Definition demo_update : list act := way update [true; false; true; false; true].
Definition demo_threads : list (list act) :=
  [way (body false ecall_main_loop) [true]; way (body false ecall_confirm_file) []; way (body false ecall_gen_upgrade_data) []].
Lemma enclave_deadlock_free_witness :
  (finished (start (demo_update :: demo_threads)) ∨ ∃ T', step rank (start (demo_update :: demo_threads)) T') ∧
  ∀ n T', nsteps (step rank) n (start (demo_update :: demo_threads)) T' → (n + todo T' <= todo (start (demo_update :: demo_threads)))%nat.
Proof.
  apply (enclave_deadlock_free demo_update demo_threads).
  - apply way_trace. vm_compute. by eexists.
  - constructor; [exists ecall_main_loop|constructor; [exists ecall_confirm_file|constructor; [exists ecall_gen_upgrade_data|constructor]]];
      (split; [discriminate|apply way_trace; vm_compute; by eexists]).
  - constructor.
Defined.
Lemma enclave_race_free_witness : ¬ races (start [way (body false ecall_confirm_file) []; way (body false ecall_delete_file) []]) checked_files.
Proof.
  apply (enclave_race_free checked_files [way (body false ecall_confirm_file) []; way (body false ecall_delete_file) []]).
  - constructor; [exists ecall_confirm_file|constructor; [exists ecall_delete_file|constructor]];
      (split; [apply (bool_decide_eq_false_1 (_ ∈ careless checked_files)); reflexivity|apply way_trace; vm_compute; by eexists]).
  - constructor.
Defined.
