(* ===== verification/AppLocks.v ===== *)
(** * The mutexes of the node

    The application around [EnclaveLocks]: the queue in front of the enclave, the status
    of an upgrade, the log, and the variables it has no mutex for.  Outside of the
    functions of this file the application locks nothing, so a thread of the node is any
    sequence of them; a call of the enclave goes through its wrapper, and wherever the
    enclave may log, it may log here. *)
From stdpp Require Import relations.
From S2P Require Import Prelude.
From S2P Require Import Lock.
From S2P Require Import EnclaveLocks.
#[local] Open Scope sync_scope.

(** ** log/Log.cpp *)
Definition sync_print_log : prog := lock log_mutex ▷ wr log_buf ▷ unlock log_mutex.
Definition sync_Log_debug : prog := rd debug_flag ▷ maybe sync_print_log.
Definition sync_log : prog := Choose sync_print_log sync_Log_debug.

(** ** process/EnclaveData.cpp *)
Definition sync_get_upgrade_status : prog := lock upgrade_status_mutex ▷ rd upgrade_status ▷ unlock upgrade_status_mutex.
Definition sync_set_upgrade_status (disable : prog) : prog :=
  Call (Scoped upgrade_status_mutex (Lock ▷ rd upgrade_status ▷ maybe Exit ▷ wr upgrade_status ▷ sync_log ▷ Unlock
    ▷ sync_get_upgrade_status ▷ maybe disable)).

(** ** ecalls/ECalls.cpp

    A turn of the loop that waits; [try_lock] that fails changes nothing, one that succeeds
    locks.  The last turn enters, or, for a call of low priority, gives up. *)
Definition sync_queue_waits : prog :=
  Loop (rd g_invoked_ecalls_um)
  ▷ maybe (rd g_running_task_num
      ▷ maybe (lock g_task_mutex ▷ rd g_running_task_num ▷ Loop (rd g_waiting_task_sum_v) ▷ unlock g_task_mutex ▷ maybe sync_log)).
Definition sync_queue_enters : prog :=
  Loop (rd g_invoked_ecalls_um) ▷ rd g_running_task_num
  ▷ lock g_task_mutex ▷ rd g_running_task_num ▷ Loop (rd g_waiting_task_sum_v)
  ▷ rd g_running_task_um ▷ wr g_running_task_um ▷ maybe (wr g_running_task_num) ▷ unlock g_task_mutex.
Definition sync_queue_gives_up : prog := sync_queue_waits ▷ wr g_running_task_um ▷ sync_log.
Definition sync_try_get_enclave (late : bool) : prog :=
  wr g_waiting_task_sum_v ▷ rd g_invoked_ecalls_um ▷ maybe (wr g_invoked_ecalls_um) ▷ wr g_invoked_ecalls_um
  ▷ Loop sync_queue_waits ▷ Choose sync_queue_enters (if late then sync_queue_gives_up else sync_queue_enters)
  ▷ wr g_waiting_task_sum_v ▷ maybe (wr g_invoked_ecalls_um).
Definition sync_free_enclave : prog :=
  lock g_task_mutex ▷ wr g_running_task_um ▷ wr g_running_task_num ▷ unlock g_task_mutex ▷ wr g_invoked_ecalls_um.
Definition sync_get_upgrade_ecalls_num : prog := Loop (rd g_invoked_ecalls_um).
Definition sync_show_enclave_thread_info : prog := Loop (rd g_running_task_um).
(** A wrapper around what the enclave does *)
Definition sync_wrapped (late : bool) (ecall : prog) : prog := Call (sync_try_get_enclave late ▷ (if late then maybe Exit else Skip) ▷ ecall ▷ sync_free_enclave).

(** ** ocalls/OCalls.cpp

    Before whatever the enclave itself does it may log. *)
Definition of_application (a : @Lock.act mutex field) : bool :=
  match a with
  | Acq m | Rel m => (rank g_workload_mutex <? rank m)%nat
  | Use _ x => bool_decide (x ∈ [g_running_task_num; g_running_task_um; upgrade_status; log_buf; g_waiting_task_sum_v;
      g_invoked_ecalls_um; enclave_workload; enclave_id_info; upgrade_data; change_srd_num; debug_flag])
  end.
Fixpoint logging (p : prog) : prog :=
  match p with
  | Seq p q => Seq (logging p) (logging q)
  | Choose p q => Choose (logging p) (logging q)
  | Loop p => Loop (logging p)
  | Call p => Call (logging p)
  | Scoped m p => Scoped m (logging p)
  | Do a => if of_application a then p else Loop sync_log ▷ p
  | _ => Loop sync_log ▷ p
  end.
Definition sync_ocall_store_workload : prog := Choose (wr enclave_workload) (rd enclave_workload ▷ wr enclave_workload).
Definition sync_ocall_store_upgrade_data : prog := Choose (wr upgrade_data) (rd upgrade_data ▷ wr upgrade_data).
Definition sync_ocall_store_enclave_id_info : prog := wr enclave_id_info.
(** Which of them an entry point calls, as often as it likes *)
Definition stores (e : entry) : prog :=
  match e with
  | ecall_get_workload => Loop sync_ocall_store_workload
  | ecall_gen_upgrade_data => Loop sync_ocall_store_upgrade_data
  | ecall_other => maybe sync_ocall_store_enclave_id_info
  | _ => Skip
  end.
(** [g_task_priority_um]: which wait a limited time *)
Definition timed (e : entry) : bool := bool_decide (e ∈ [ecall_srd_increase; ecall_get_workload; ecall_other]).
Definition sync_ecall (asked : prog) (e : entry) : prog := sync_wrapped (timed e) (logging (body_asking false asked e) ▷ stores e).

(** ** process/Srd.cpp *)
Definition sync_get_decrease_srd_info : prog := lock app_srd_info_mutex ▷ unlock app_srd_info_mutex ▷ maybe sync_log.
Definition sync_check_reserved_turn : prog :=
  Call (sync_get_upgrade_status ▷ maybe Exit ▷ lock app_srd_info_mutex ▷ unlock app_srd_info_mutex ▷ maybe Exit
    ▷ maybe (sync_ecall Skip ecall_srd_update_metadata ▷ maybe sync_log)).
(** [ocall_srd_change]: what does not fit on the disks is added to the next change; many
    threads increase, each adding what failed to the next change too, and this one waits
    for them, or it decreases; [ocall_entry_network] goes through three entry points. *)
Definition sync_asked : prog :=
  Loop (Choose sync_log (Choose sync_get_decrease_srd_info
    (Choose (sync_ecall Skip ecall_srd_set_change)
      (Choose (sync_ecall Skip ecall_srd_increase ▷ maybe (sync_ecall Skip ecall_srd_set_change))
        (Choose (sync_ecall Skip ecall_srd_decrease) (sync_ecall Skip ecall_other)))))).

(** ** http/ApiHandler.h *)
Definition sync_route_workload : prog := sync_ecall Skip ecall_get_workload ▷ maybe sync_log ▷ rd enclave_workload.
Definition sync_route_id_info : prog := sync_ecall Skip ecall_other ▷ rd enclave_id_info.
Definition sync_route_change_srd : prog :=
  wr change_srd_num ▷ rd change_srd_num
  ▷ Choose sync_log (rd change_srd_num ▷ sync_ecall Skip ecall_srd_set_change ▷ rd change_srd_num ▷ sync_log).
Definition sync_route_upgrade_data : prog := rd upgrade_data ▷ sync_log.
Definition sync_route_debug : prog := wr debug_flag ▷ sync_log.

(** ** The threads *)
Inductive call :=
| a_log | a_get_upgrade_status | a_set_upgrade_status | a_get_upgrade_ecalls_num | a_show_enclave_thread_info | a_route_workload | a_route_id_info
| a_route_change_srd | a_route_upgrade_data | a_route_debug | a_ecall (e : entry).
Definition call_prog (c : call) : prog :=
  match c with
  | a_log => sync_log
  | a_get_upgrade_status => sync_get_upgrade_status
  | a_set_upgrade_status => sync_set_upgrade_status (sync_ecall Skip ecall_other)
  | a_get_upgrade_ecalls_num => sync_get_upgrade_ecalls_num
  | a_show_enclave_thread_info => sync_show_enclave_thread_info
  | a_route_workload => sync_route_workload
  | a_route_id_info => sync_route_id_info
  | a_route_change_srd => sync_route_change_srd
  | a_route_upgrade_data => sync_route_upgrade_data
  | a_route_debug => sync_route_debug
  | a_ecall e => sync_ecall sync_asked e
  end.
Abbreviation calls c t := (trace_of (call_prog c) t).
Definition check_reserved : prog := Loop sync_check_reserved_turn.

(** ** Order *)
Lemma call_order c : c ≠ a_ecall ecall_srd_update_metadata → obeys rank (in_order rank app_srd_info_mutex) (call_prog c) = true.
Proof. destruct c as [| | | | | | | | | |[]]; try (intros _; vm_compute; reflexivity). intros H. exfalso. by apply H. Qed.
Lemma check_order : obeys rank (in_order_but rank app_srd_info_mutex) check_reserved = true.
Proof. vm_compute. reflexivity. Qed.

(** One thing after the other *)
#[local] Abbreviation act := (@act mutex field).
Definition made_of (P : list act → Prop) (t : list act) : Prop := ∃ ts, t = concat ts ∧ Forall P ts.
Lemma made_of_follow ok (P : list act → Prop) t :
  (∀ t, P t → follow rank ok [] t = Some []) → made_of P t → follow rank ok [] t = Some [].
Proof. intros H (ts & -> & Hts). apply follow_concat. by eapply Forall_impl. Qed.
(** A thread of the application *)
Definition app_thread : list act → Prop := made_of (λ t, ∃ c, c ≠ a_ecall ecall_srd_update_metadata ∧ calls c t).
Lemma threads_ordered tu ts : trace_of check_reserved tu → Forall app_thread ts →
  ∀ i t, (tu :: ts) !! i = Some t → follow rank (ordered rank app_srd_info_mutex 0 i) [] t = Some [].
Proof.
  intros Hu Ht [|i] t Hi; cbn in Hi.
  - injection Hi as <-. unfold ordered. rewrite decide_True by done. exact (obeys_sound _ _ _ _ check_order Hu).
  - unfold ordered. rewrite decide_False by done. rewrite Forall_forall in Ht.
    eapply made_of_follow; [|by eapply Ht, list_elem_of_lookup_2].
    intros t' (c & Hc & Hr). exact (obeys_sound _ _ _ _ (call_order c Hc) Hr).
Qed.

(** C6: The node does not deadlock while memory lasts: one thread checks the reserved space,
    any number of others serve requests, report, run the main loop of the enclave and
    watch an upgrade, call after call, logging as they go, in any interleaving of their
    steps inside and outside of the enclave.  As long as one of them has anything left to
    do, one of them can go on, and in the end nobody holds a mutex. *)
Theorem node_deadlock_free tu ts T :
  trace_of check_reserved tu → Forall app_thread ts → rtc (step rank) (start (tu :: ts)) T →
  (finished T ∨ ∃ T', step rank T T') ∧
  ∀ n T', nsteps (step rank) n (start (tu :: ts)) T' → (n + todo T' <= todo (start (tu :: ts)))%nat.
Proof.
  intros Hu Ht Hr. split; [|intros n T'; apply steps_bounded].
  eapply threads_end; [by apply threads_ordered|done].
Qed.

(** ** Races

    What every call of the node uses only under its mutex *)
Definition kept : list field :=
  [new_files; reported_files_idx; g_srd_change; g_func_m; report_files; validated_proof; g_work_report; upgrade_status; log_buf].
Lemma call_guarded c : forallb (λ x, obeys rank (guarded guard x) (call_prog c)) kept = true.
Proof. destruct c as [| | | | | | | | | |[]]; vm_compute; reflexivity. Qed.
Lemma check_guarded : forallb (λ x, obeys rank (guarded guard x) check_reserved) kept = true.
Proof. vm_compute. reflexivity. Qed.

(** C39: Nobody in the node, whatever it is asked to do, races for the new files, the indexes of
    the report, the srd task, the counters of the scheduler, the flags of the reports, the
    report itself, the status of the upgrade and the buffer of the log. *)
Theorem node_race_free x ts T :
  x ∈ kept → Forall (made_of (λ t, trace_of check_reserved t ∨ ∃ c, calls c t)) ts → rtc (step rank) (start ts) T → ¬ races T x.
Proof.
  intros Hx%list_elem_of_In Ht Hr. apply (no_race rank guard x ts T); [|done]. eapply Forall_impl; [exact Ht|].
  intros t. apply made_of_follow. clear t. intros t [Hc|(c & Hc)]; eapply (obeys_sound rank); try exact Hc.
  - exact (proj1 (forallb_forall _ _) check_guarded x Hx).
  - exact (proj1 (forallb_forall _ _) (call_guarded c) x Hx).
Qed.

(** Two calls at the same time race *)
Definition race (c c' : call) (x : field) : Prop :=
  ∃ t t' T, calls c t ∧ calls c' t' ∧ rtc (step rank) (start [t; t']) T ∧ races T x.
(** Straight through the queue *)
Definition enters : list bool := [false; false; true; false; false; true; false; false].

(** Two requests to change the srd share the variable for the number: the second may write
    it between the test of the first and its use. *)
Theorem change_srd_race : race a_route_change_srd a_route_change_srd change_srd_num.
Proof. apply (race_found rank _ [] _ [] 2 0). vm_compute. reflexivity. Qed.
(** The workload that a request shows comes from a string that the enclave may be writing
    for another one. *)
Theorem workload_race : race a_route_workload a_route_workload enclave_workload.
Proof. apply (race_found rank _ enters _ (enters ++ replicate 15 false ++ [true; true]) 25 20). vm_compute. reflexivity. Qed.
Theorem id_info_race : race a_route_id_info a_route_id_info enclave_id_info.
Proof. apply (race_found rank _ enters _ (enters ++ replicate 2 false ++ [true; true]) 16 11). vm_compute. reflexivity. Qed.
(** Any two calls of the enclave race for the counters of the queue: an increment that gets
    lost makes a counter too small, or, lost at the end of a call, too large for ever. *)
Theorem counter_race e e' : race (a_ecall e) (a_ecall e') g_waiting_task_sum_v ∧ race (a_ecall e) (a_ecall e') g_invoked_ecalls_um.
Proof.
  split; [apply (race_found rank _ enters _ enters 0 0)|apply (race_found rank _ enters _ enters 1 2)];
    destruct e, e'; vm_compute; reflexivity.
Qed.
(** The number of running tasks is looked at before the lock is taken. *)
Theorem running_num_race e e' : race (a_ecall e) (a_ecall e') g_running_task_num.
Proof. apply (race_found rank _ enters _ enters 3 8). destruct e, e'; vm_compute; reflexivity. Qed.
(** Whoever is put off for too long erases itself from the table of running tasks without
    the lock, while others go through the table. *)
Theorem timeout_race e e' : timed e = true → race (a_ecall e) (a_ecall e') g_running_task_um.
Proof. intros He. apply (race_found rank _ [false; false] _ enters 3 7). destruct e; try discriminate He; destruct e'; vm_compute; reflexivity. Qed.

(** ** Witnesses *)
Definition demo_check : list act := way check_reserved [true].
Definition demo_request : list act := way (call_prog a_route_workload) (enters ++ replicate 15 false ++ [true; true]).
Definition demo_main : list act := way (call_prog (a_ecall ecall_main_loop)) enters.
Definition demo_set : list act := way (call_prog a_set_upgrade_status) [false].
Lemma demo_request_calls : calls a_route_workload demo_request.
Proof. apply way_trace. vm_compute. by eexists. Qed.
Lemma demo_main_calls : calls (a_ecall ecall_main_loop) demo_main.
Proof. apply way_trace. vm_compute. by eexists. Qed.
Lemma demo_set_calls : calls a_set_upgrade_status demo_set.
Proof. apply way_trace. vm_compute. by eexists. Qed.
Lemma node_deadlock_free_witness :
  (finished (start [demo_check; demo_request ++ demo_set; demo_main]) ∨
     ∃ T', step rank (start [demo_check; demo_request ++ demo_set; demo_main]) T') ∧
  ∀ n T', nsteps (step rank) n (start [demo_check; demo_request ++ demo_set; demo_main]) T' →
    (n + todo T' <= todo (start [demo_check; demo_request ++ demo_set; demo_main]))%nat.
Proof.
  apply (node_deadlock_free demo_check [demo_request ++ demo_set; demo_main]).
  - apply way_trace. vm_compute. by eexists.
  - constructor; [|constructor; [|constructor]].
    + exists [demo_request; demo_set]. split; [reflexivity|].
      constructor; [exists a_route_workload; split; [discriminate|exact demo_request_calls]|].
      constructor; [exists a_set_upgrade_status; split; [discriminate|exact demo_set_calls]|constructor].
    + exists [demo_main]. split; [reflexivity|]. constructor; [exists (a_ecall ecall_main_loop); split; [discriminate|exact demo_main_calls]|constructor].
  - constructor.
Defined.
Lemma node_race_free_witness : ¬ races (start [demo_request; demo_request]) log_buf.
Proof.
  apply (node_race_free log_buf [demo_request; demo_request]).
  - apply (bool_decide_eq_true_1 (log_buf ∈ kept)). reflexivity.
  - constructor; [|constructor; [|constructor]]; (exists [demo_request]; split; [reflexivity|]; constructor; [right; exists a_route_workload; exact demo_request_calls|constructor]).
  - constructor.
Defined.
