(* ===== verification/AppJson.v ===== *)
(** * JSON in the application (app/utils/Json.hpp)

    The application has its own copy of the class JSON: no hashes, [ToString] only
    of strings, arrays printed over several lines, a mark for line breaks.  Values
    and subscripts are those of [Json], the parser is the [AppText] reader of
    [JsonParse]; here are the printer and what each side makes of the other's text. *)
From S2P Require Import Prelude StdMap Status Hex Json JsonParse JsonText.

(** The functions of the parser *)
Definition app_consume_ws : cursor → res cursor := consume_ws AppText.
Definition app_parse_string : cursor → res (json * cursor) := parse_string AppText.
Definition app_parse_number : cursor → res (json * cursor) := parse_number AppText.
Definition app_parse_bool : cursor → res (json * cursor) := parse_bool AppText.
Definition app_parse_null : cursor → res (json * cursor) := parse_null AppText.
Definition app_array_loop (fuel : nat) : list json → cursor → res (json * cursor) := array_loop fuel AppText.
Definition app_object_loop (fuel : nat) : list (bytes * json) → cursor → res (json * cursor) := object_loop fuel AppText.
Definition app_parse_next (fuel : nat) : cursor → res (json * cursor) := parse_next fuel AppText.
Definition app_Load (s : bytes) : res json := Load AppText s.

(** [dump]; a value of class [Hash] does not occur and would print as nothing. *)
Fixpoint app_dump_at (depth : nat) (j : json) : bytes :=
  match j with
  | JNull => str "null"
  | JObject m =>
      [chr 123; chr 10]
      ++ join [chr 44; chr 10]
           (map (λ p, pad depth ++ quote p.1 ++ [chr 32; chr 58; chr 32]
                        ++ app_dump_at (S depth) p.2) m)
      ++ [chr 10] ++ drop 2 (pad depth) ++ [chr 125]
  | JArray l =>
      [chr 91; chr 10] ++ pad depth
      ++ join ([chr 44; chr 32; chr 10] ++ pad depth) (map (app_dump_at (S depth)) l)
      ++ [chr 10] ++ drop 2 (pad depth) ++ [chr 93]
  | JHash _ => []
  | JString s => quote (app_json_escape s)
  | JFloating d => double_to_string d
  | JIntegral z => to_string z
  | JBoolean b => if b then str "true" else str "false"
  end.
Definition app_dump (j : json) : bytes := app_dump_at 1 j.

(** ** Texts both sides understand *)

(** Values of objects, numbers and booleans: what the two processes tell each
    other. *)
Inductive shared : json → Prop :=
| sh_object m : map_ok m → Forall (λ p, key_ok p.1 ∧ app_json_escape p.1 = p.1) m →
    Forall (λ p, shared p.2) m → shared (JObject m)
| sh_integral z : - 2 ^ 63 <= z < 2 ^ 63 → shared (JIntegral z)
| sh_boolean b : shared (JBoolean b).

Lemma shared_dump j : ∀ d, shared j → app_dump_at d j = dump_at d j.
Proof.
  induction j as [|m IH|l IH|h|s|f|z|b] using json_nested_ind; intros d Hj; inversion Hj as [? _ _ Hm| |]; subst; try done.
  cbn [app_dump_at dump_at]. do 3 f_equal. apply map_ext_in. intros p Hp%list_elem_of_In.
  rewrite Forall_forall in IH, Hm. by rewrite IH by auto.
Qed.
Lemma shared_text raw j : shared j → text_ok raw j.
Proof.
  induction j as [|m IH|l IH|h|s|f|z|b] using json_nested_ind; intros Hj; inversion Hj as [? Hm Hk Hv| |]; subst;
    try (by constructor).
  constructor; [done| |].
  - eapply Forall_impl; [exact Hk|]. intros p [? ?]. by split.
  - rewrite Forall_forall in *. auto.
Qed.

(** The enclave and the application read each other's texts: an object of keys,
    numbers and booleans printed by either is read back by both, by every version
    of [Load], as the same object, and both print it the same. *)
Theorem shared_roundtrip raw m :
  shared (JObject m) →
  app_dump (JObject m) = dump (JObject m) ∧
  Load raw (app_dump (JObject m)) = Ok (JObject m) ∧ Load raw (dump (JObject m)) = Ok (JObject m).
Proof.
  intros Hm. assert (app_dump (JObject m) = dump (JObject m)) as -> by by apply shared_dump.
  split_and!; [done|by apply load_dump_ok; [apply shared_text|]..].
Qed.

Definition demo_deletion : json := JObject [(str "/mnt/a", JIntegral 2); (str "/mnt/b", JIntegral 7)].
Lemma demo_deletion_shared : shared demo_deletion.
Proof.
  constructor; [repeat constructor| |].
  - repeat (apply List.Forall_cons; [split; [key_ok|by vm_compute]|]). apply List.Forall_nil.
  - repeat (apply List.Forall_cons; [constructor; cbn; lia|]). apply List.Forall_nil.
Qed.
Lemma shared_roundtrip_witness : Load Text (app_dump demo_deletion) = Ok demo_deletion.
Proof. apply (shared_roundtrip Text _ demo_deletion_shared). Defined.

(** What is not shared: a hash is a string to the application, and an array is
    printed differently. *)
Example app_reads_hash :
  app_Load (dump (JArray [JHash (replicate 32 (chr 0))]))
  = Ok (JArray [JString (HASH_TAG ++ hexstring_safe (replicate 32 (chr 0)))]).
Proof. by vm_compute. Qed.
