(* ===== verification/AppData.v ===== *)
(** * What the application keeps (app/database/DataBase.cpp, app/process/EnclaveData.cpp,
    the data calls of app/ocalls/OCalls.cpp)

    The application keeps a LevelDB database and three texts of the enclave: its
    identity, its workload and the upgrade data.  [node_host] puts the application's
    calls in place of the abstract ones of [Host]; the laws the enclave relies on
    hold of them ([node_db_laws]). *)
From S2P Require Import Prelude StdMap Status Hex Json JsonParse Host State Demo Persist Identity.
From S2P Require Import Upgrade Attest AppJson.

(** LevelDB: the status is [ok] or not; a failed [Get] leaves the empty value. *)
Class LevelDb (W : Type) := {
  leveldb_Get : bytes → W → bool * bytes;
  leveldb_Put : bytes → bytes → W → bool * W;
  leveldb_Delete : bytes → W → bool * W
}.

(** ** The database *)
Section database.
Context {W : Type} `{!LevelDb W}.

Definition DataBase_add (key value : bytes) (w : W) : crust_status * W :=
  let old_val := (leveldb_Get key w).2 in
  let value := if bool_decide (old_val = []) then value else value ++ str ";" ++ old_val in
  let '(ok, w) := leveldb_Put key value w in
  (if ok then CRUST_SUCCESS else CRUST_PERSIST_ADD_FAILED, w).
Definition DataBase_del (key : bytes) (w : W) : crust_status * W :=
  let '(ok, w) := leveldb_Delete key w in
  (if ok then CRUST_SUCCESS else CRUST_PERSIST_DEL_FAILED, w).
Definition DataBase_set (key value : bytes) (w : W) : crust_status * W :=
  let '(ok, w) := leveldb_Put key value w in
  (if ok then CRUST_SUCCESS else CRUST_PERSIST_SET_FAILED, w).
Definition DataBase_get (key : bytes) (w : W) : crust_status * bytes :=
  let '(ok, value) := leveldb_Get key w in
  (if ok then CRUST_SUCCESS else CRUST_PERSIST_GET_FAILED, value).
End database.

(** ** The texts of the enclave *)
Inductive upgrade_status_t :=
| UPGRADE_STATUS_NONE | UPGRADE_STATUS_STOP_WORKREPORT | UPGRADE_STATUS_PROCESS
| UPGRADE_STATUS_END | UPGRADE_STATUS_COMPLETE | UPGRADE_STATUS_EXIT.
#[global] Instance upgrade_status_eq_dec : EqDecision upgrade_status_t.
Proof. solve_decision. Defined.

Record EnclaveData := EnclaveDataC {
  enclave_id_info : bytes;
  enclave_workload : bytes;
  upgrade_data : bytes;
  app_upgrade_status : upgrade_status_t
}.
Definition EnclaveData_new : EnclaveData := EnclaveDataC [] [] [] UPGRADE_STATUS_NONE.
Definition set_enclave_id_info (t : bytes) (d : EnclaveData) : EnclaveData :=
  EnclaveDataC t (enclave_workload d) (upgrade_data d) (app_upgrade_status d).
Definition set_enclave_workload (t : bytes) (d : EnclaveData) : EnclaveData :=
  EnclaveDataC (enclave_id_info d) t (upgrade_data d) (app_upgrade_status d).
Definition set_upgrade_data (t : bytes) (d : EnclaveData) : EnclaveData :=
  EnclaveDataC (enclave_id_info d) (enclave_workload d) t (app_upgrade_status d).

(** The application: what lies below it, and what it keeps itself *)
Record node (W : Type) := Node {
  n_os : W;
  n_data : EnclaveData;
  sealed_tree_map : list (bytes * bytes)
}.
Arguments Node {W}.
Arguments n_os {W}.
Arguments n_data {W}.
Arguments sealed_tree_map {W}.

Section ocalls.
Context {W : Type}.
Implicit Types (n : node W).

(** A call that only concerns what lies below *)
Definition below {A} (f : W → A * W) n : A * node W :=
  let '(a, w) := f (n_os n) in (a, Node w (n_data n) (sealed_tree_map n)).
Definition on_data (f : EnclaveData → EnclaveData) n : node W :=
  Node (n_os n) (f (n_data n)) (sealed_tree_map n).

Context `{!LevelDb W}.

Definition app_persist_add (key value : bytes) : node W → crust_status * node W := below (DataBase_add key value).
Definition app_persist_del (key : bytes) : node W → crust_status * node W := below (DataBase_del key).
Definition app_persist_set (key value : bytes) : node W → crust_status * node W := below (DataBase_set key value).
(** A failure leaves no value; the buffer is always allocated. *)
Definition app_persist_get (key : bytes) n : (crust_status * bytes) * node W :=
  match DataBase_get key (n_os n) with
  | (CRUST_SUCCESS, val) => ((CRUST_SUCCESS, val), n)
  | (st, _) => ((st, []), n)
  end.
Definition app_free_outer_buffer n : crust_status * node W := (CRUST_SUCCESS, n).

(** The value of a key is an object whose keys are the set; a missing value, or one
    that is no object, becomes one. *)
Definition app_persist_add_keys (key keys : bytes) n : res (crust_status * node W) :=
  det_json ← app_Load (DataBase_get key (n_os n)).2;
  add_keys_json ← app_Load keys;
  let det_json := fold_left (λ j it, jkey_set (app_ToString it) (JBoolean true) j)
                    (ArrayRange add_keys_json) det_json in
  let '(st, n) := below (DataBase_set key (app_dump det_json)) n in
  Ok (st, n).
(** Erasing from the range of a value that is no object is an access through NULL. *)
Definition app_persist_del_keys (key keys : bytes) n : res (crust_status * node W) :=
  det_json ← app_Load (DataBase_get key (n_os n)).2;
  del_keys_json ← app_Load keys;
  det_json ← match det_json with
             | JObject m => Ok (JObject (fold_left (λ m it, map_erase (app_ToString it) m)
                                  (ArrayRange del_keys_json) m))
             | _ => if bool_decide (ArrayRange del_keys_json = []) then Ok det_json else UB
             end;
  let '(st, n) := below (DataBase_set key (app_dump det_json)) n in
  Ok (st, n).

Definition app_store_enclave_id_info (info : bytes) n : node W := on_data (set_enclave_id_info info) n.
Definition app_store_workload (data : bytes) (cover : bool) n : node W :=
  if cover then on_data (set_enclave_workload data) n
  else on_data (set_enclave_workload (enclave_workload (n_data n) ++ data)) n.
Definition app_store_upgrade_data (data : bytes) (cover : bool) n : node W :=
  if cover then on_data (set_upgrade_data data) n
  else on_data (set_upgrade_data (upgrade_data (n_data n) ++ data)) n.
Definition app_store_sealed_merkletree (org_root_hash tree_data : bytes) n : node W :=
  Node (n_os n) (n_data n) (map_set org_root_hash tree_data (sealed_tree_map n)).
End ocalls.

(** ** The application as the host of the enclave

    SGX, files and network are those of the world below. *)
Section hosts.
Context {W : Type} `{!LevelDb W}.

Definition node_host `{!Host W} : Host (node W) := {|
  sha256 := sha256;
  malloc n := malloc (n_os n);
  sgx_read_rand k := below (sgx_read_rand k);
  sgx_seal_data m := below (sgx_seal_data m);
  sgx_seal_data_ex m := below (sgx_seal_data_ex m);
  sgx_calc_sealed_data_size := sgx_calc_sealed_data_size;
  sgx_get_encrypt_txt_len := sgx_get_encrypt_txt_len;
  sgx_unseal_data := sgx_unseal_data;
  sgx_ecc256_open_context := below sgx_ecc256_open_context;
  sgx_ecdsa_sign key m := below (sgx_ecdsa_sign key m);
  ocall_persist_add := app_persist_add;
  ocall_persist_add_keys k v := below (ocall_persist_add_keys k v);
  ocall_persist_del := app_persist_del;
  ocall_persist_del_keys k v := below (ocall_persist_del_keys k v);
  ocall_persist_set := app_persist_set;
  ocall_persist_get := app_persist_get;
  ocall_free_outer_buffer := app_free_outer_buffer;
  ocall_create_dir p := below (ocall_create_dir p);
  ocall_rename_dir p q := below (ocall_rename_dir p q);
  ocall_save_file p d := below (ocall_save_file p d);
  ocall_get_file p := below (ocall_get_file p);
  ocall_get_storage_file p := below (ocall_get_storage_file p);
  ocall_replace_file p q d := below (ocall_replace_file p q d);
  ocall_delete_folder_or_file p := below (ocall_delete_folder_or_file p);
  ocall_upload_workreport r := below (ocall_upload_workreport r);
  ocall_store_workload := app_store_workload;
  ocall_store_sealed_merkletree := app_store_sealed_merkletree;
  ocall_validate_init := below ocall_validate_init;
  ocall_validate_close n := (below (λ w, (tt, ocall_validate_close w)) n).2;
  ocall_validate_get_file r b := below (ocall_validate_get_file r b)
|}.
Definition node_upgrade_host `{!UpgradeHost W} : UpgradeHost (node W) := {|
  sgx_ecdsa_verify := sgx_ecdsa_verify;
  ocall_get_block_hash h := below (ocall_get_block_hash h);
  ocall_store_upgrade_data := app_store_upgrade_data;
  ocall_entry_network := below ocall_entry_network
|}.
Definition node_id_host `{!IdHost W} : IdHost (node W) := {|
  sgx_ecc256_create_key_pair := below sgx_ecc256_create_key_pair;
  sgx_create_report target data := below (sgx_create_report target data);
  report_mr_enclave := report_mr_enclave;
  ocall_store_enclave_id_info := app_store_enclave_id_info
|}.
Definition node_attest_host `{!AttestHost W} : AttestHost (node W) := {|
  X509 := X509;
  EVP_PKEY := EVP_PKEY;
  PEM_read_bio_X509 := PEM_read_bio_X509;
  X509_verify_cert := X509_verify_cert;
  X509_get_pubkey := X509_get_pubkey;
  EVP_DigestVerify := EVP_DigestVerify;
  BIO_read_base64 := BIO_read_base64;
  sizeof_quote := sizeof_quote;
  quote_report_data := quote_report_data;
  quote_mr_enclave := quote_mr_enclave;
  iasQuote_null n := iasQuote_null (n_os n);
  ocall_upload_identity t := below (ocall_upload_identity t)
|}.
End hosts.

(** ** The laws *)

(** LevelDB keeps what it is given, each key apart: a write or deletion it reports done
    is done; of the key of one that failed nothing is known. *)
Class LevelDbLaws (W : Type) `{!LevelDb W} := {
  content : W → bytes → option bytes;
  get_content k w :
    leveldb_Get k w = match content w k with Some v => (true, v) | None => (false, []) end;
  put_content k v w :
    ((leveldb_Put k v w).1 = true → content (leveldb_Put k v w).2 k = Some v) ∧
    ∀ k', k ≠ k' → content (leveldb_Put k v w).2 k' = content w k';
  delete_content k w :
    ((leveldb_Delete k w).1 = true → content (leveldb_Delete k w).2 k = None) ∧
    ∀ k', k ≠ k' → content (leveldb_Delete k w).2 k' = content w k'
}.
(** No write and no deletion fails. *)
Class LevelDbHealthy (W : Type) `{!LevelDb W} : Prop := {
  put_healthy k v w : (leveldb_Put k v w).1 = true;
  delete_healthy k w : (leveldb_Delete k w).1 = true
}.

Section laws.
Context {W : Type} `{!LevelDb W} `{!LevelDbLaws W} `{!Host W}.
(** What the enclave needs of the world below *)
Class BelowLaws : Prop := {
  below_malloc (w : W) n : 0 <= n < 2 ^ 63 → malloc w n = true;
  below_seal src (w : W) :
    (sgx_seal_data_ex src w).1.1 = SGX_SUCCESS →
    sgx_unseal_data (sgx_seal_data_ex src w).1.2 = Some src ∧
    zlen (sgx_seal_data_ex src w).1.2 = u32 (sgx_calc_sealed_data_size (u32 (zlen src)));
  below_seal_db src (w : W) k : content (sgx_seal_data_ex src w).2 k = content w k
}.
Context `{!BelowLaws}.

#[local] Existing Instance node_host.
#[global] Instance node_db_laws : @DbLaws (node W) node_host.
Proof.
  refine {| db n k := content (n_os n) k |}.
  - intros k v n. pose proof (put_content k v (n_os n)) as Hc. cbn [ocall_persist_set node_host].
    unfold app_persist_set, below, DataBase_set. destruct (leveldb_Put k v (n_os n)) as [[] w]; cbn in *; destruct Hc; split; auto; done.
  - intros k n. cbn [ocall_persist_get node_host]. unfold app_persist_get, DataBase_get. rewrite get_content.
    by destruct (content (n_os n) k).
  - intros k n. cbn [ocall_persist_del node_host]. unfold app_persist_del, below, DataBase_del.
    pose proof (delete_content k (n_os n)) as Hd. destruct (leveldb_Delete k (n_os n)) as [[] w]; cbn in *; destruct Hd; split; auto; done.
  - done.
  - intros n. apply below_malloc.
Defined.
#[global] Instance node_db_healthy `{!LevelDbHealthy W} : @DbHealthy (node W) node_host.
Proof.
  split; intros; cbn [ocall_persist_set ocall_persist_del node_host];
    unfold app_persist_set, app_persist_del, below, DataBase_set, DataBase_del.
  - pose proof (put_healthy k v (n_os w)). destruct (leveldb_Put k v (n_os w)). cbn in *. by subst.
  - pose proof (delete_healthy k (n_os w)). destruct (leveldb_Delete k (n_os w)). cbn in *. by subst.
Qed.
#[global] Instance node_seal_laws : @SealLaws (node W) node_host node_db_laws.
Proof.
  split.
  - intros src n. cbn [sgx_seal_data_ex node_host sgx_unseal_data sgx_calc_sealed_data_size]. unfold below.
    pose proof (below_seal src (n_os n)) as Hs. by destruct (sgx_seal_data_ex src (n_os n)).
  - intros src n k. cbn [db node_db_laws sgx_seal_data_ex node_host]. unfold below.
    pose proof (below_seal_db src (n_os n) k) as Hs. by destruct (sgx_seal_data_ex src (n_os n)).
Qed.

(** C34: storing without sealing, through DataBase and LevelDB.  Whatever LevelDB does,
    only keys that belong to the one that is stored change, and a value that needs no
    pieces is in LevelDB if it is reported stored.  As long as no write and no
    deletion of LevelDB fails, every value is reported stored and is, whole or in
    pieces and whatever was there before, and it is read back in full. *)
Theorem application_stores (e : enclave (node W)) key value :
  let leveldb (e : enclave (node W)) := content (n_os (world e)) in
  wp (persist_set_unsafe key value)
     (λ st e', (∀ k, ¬ family key k → leveldb e' k = leveldb e k) ∧
        (st = CRUST_SUCCESS → zlen value <= OCALL_STORE_THRESHOLD → leveldb e' key = Some value)) e ∧
  (LevelDbHealthy W → sum_fine (leveldb e) key → zlen value < 2 ^ 50 →
   twp (persist_set_unsafe key value)
      (λ st e', st = CRUST_SUCCESS ∧ stored (leveldb e') key value ∧
         (∀ k, ¬ family key k → leveldb e' k = leveldb e k) ∧
         twp (persist_get_unsafe key) (λ r _, r = (CRUST_SUCCESS, Some value)) e') e).
Proof.
  intros leveldb. split.
  - pose proof (beside_persist_set_unsafe key (leveldb e) value e (λ k _, eq_refl)) as H1.
    pose proof (small_written key value e) as H2. unfold wp in *.
    destruct (persist_set_unsafe key value e) as [[st e']| | |]; [|done..]. split; [|by auto].
    apply H1.
  - intros Hok Hs Hv. eapply (twp_persist_set_unsafe e _ _ (leveldb e)); [by apply db_is_refl|done..|].
    intros e' f' He' Hst _ Ho. assert (∀ k, leveldb e' k = f' k) as Hc by apply He'.
    split_and!; [done| |intros k Hk; by rewrite Hc, Ho|].
    + destruct Hst as [[H1 H2]|(ps & H1 & H2 & H3 & H4)]; [left|right; exists ps]; rewrite !Hc; [done|].
      split_and!; try done. intros j p Hj. rewrite Hc. by apply H4.
    + eapply twp_get_stored; [done|exact He'|exact Hst|done].
Qed.
End laws.

(** ** Evaluated *)
#[global] Instance demo_leveldb : LevelDb demo := {|
  leveldb_Get k w := match map_find k (d_db w) with Some v => (true, v) | None => (false, []) end;
  leveldb_Put k v w := (true, (demo_db (map_set k v) w).2);
  leveldb_Delete k w := (true, (demo_db (drop_key k) w).2)
|}.
#[global] Instance demo_leveldb_laws : LevelDbLaws demo.
Proof.
  refine {| content w k := map_find k (d_db w) |}; [done| |].
  - intros k v w. split; intros; cbn; rewrite map_find_set; [by rewrite decide_True|by rewrite decide_False].
  - intros k w. split; intros; cbn; rewrite map_find_drop_key; [by rewrite decide_True|by rewrite decide_False].
Defined.
#[global] Instance demo_leveldb_healthy : LevelDbHealthy demo.
Proof. by split. Qed.

#[global] Instance demo_below_laws : BelowLaws (W := demo).
Proof.
  split; [|apply (seal_ok (W := demo))|done]. intros w n Hn. rewrite demo_malloc. lia.
Qed.
Definition demo_node : node demo := Node (world demo_enclave) EnclaveData_new [].
Definition node_enclave : enclave (node demo) :=
  Enclave (wl demo_enclave) (g_func_m demo_enclave) 0 None [] demo_node.
Lemma application_stores_witness :
  twp (@persist_set_unsafe _ node_host (str "srd_info") (str "{}")) (λ st _, st = CRUST_SUCCESS) node_enclave.
Proof.
  eapply twp_mono; [apply (proj2 (application_stores node_enclave (str "srd_info") (str "{}")))|];
    [apply demo_leveldb_healthy|left; reflexivity|reflexivity|]. by intros st e' (? & _).
Defined.

(** A disk that refuses the first piece of a value: the pieces are reported written. *)
Definition demo_full : LevelDb demo := {|
  leveldb_Get := leveldb_Get;
  leveldb_Put k v w := if bool_decide (k = str "files_0") then (false, w) else leveldb_Put k v w;
  leveldb_Delete := leveldb_Delete
|}.
Example piece_lost :
  match @set_pieces _ (@node_host _ demo_full _) false (str "files") 0 [str "one"; str "two"] CRUST_SUCCESS node_enclave with
  | Ok ((st, n), e) => st = CRUST_SUCCESS ∧ n = 2 ∧ content (n_os (world e)) (str "files_0") = None
  | _ => False
  end.
Proof. by vm_compute. Qed.

(** Deleting keys of a value that is missing goes through NULL. *)
Example del_keys_of_nothing :
  app_persist_del_keys (str "k") (dump (JArray [JString (str "a")])) demo_node = UB.
Proof. by vm_compute. Qed.
