(* ===== verification/AppTask.v ===== *)
(** * The queue in front of the enclave (app/ecalls/ECalls.cpp)

    The application lets at most ENC_MAX_THREAD_NUM threads into the enclave.  A
    call waits in [try_get_enclave] until no task that blocks it is in flight, no
    task of higher priority waits and a slot is free, and gives the slot back in
    [free_enclave].  One turn of the waiting loop is cut where other threads can
    come between: the test for blocking tasks, the attempt under the lock, the
    end of the turn.  [do_event] interleaves any number of threads, each of which may
    call the enclave again while the enclave has called it. *)
From stdpp Require Import gmap.
From S2P Require Import Prelude Status.

Definition ENC_MAX_THREAD_NUM : Z := 15.
Definition ENC_RESERVED_THREAD_NUM : Z := 1.
Definition ENC_PRIO_TIMEOUT_THRESHOLD : Z := 1.
Definition ENC_PERMANENT_TASK_NUM : Z := 1.
Definition ENC_HIGHEST_PRIORITY : Z := 0.
Definition ENC_TASK_TIMEOUT : Z := 30.

Abbreviation name := String.string.

Definition g_task_priority_um : gmap name nat := list_to_map [
  ("Ecall_restore_metadata"%string, 0%nat);
  ("Ecall_gen_key_pair"%string, 0%nat);
  ("Ecall_cmp_chain_account_id"%string, 0%nat);
  ("Ecall_get_quote_report"%string, 0%nat);
  ("Ecall_verify_and_upload_identity"%string, 0%nat);
  ("Ecall_gen_sgx_measurement"%string, 0%nat);
  ("Ecall_main_loop"%string, 0%nat);
  ("Ecall_gen_and_upload_work_report"%string, 0%nat);
  ("Ecall_confirm_file"%string, 0%nat);
  ("Ecall_delete_file"%string, 0%nat);
  ("Ecall_gen_upgrade_data"%string, 0%nat);
  ("Ecall_restore_from_upgrade"%string, 0%nat);
  ("Ecall_enable_upgrade"%string, 0%nat);
  ("Ecall_disable_upgrade"%string, 0%nat);
  ("Ecall_seal_file"%string, 1%nat);
  ("Ecall_unseal_file"%string, 1%nat);
  ("Ecall_srd_decrease"%string, 1%nat);
  ("Ecall_srd_update_metadata"%string, 1%nat);
  ("Ecall_srd_set_change"%string, 1%nat);
  ("Ecall_srd_increase"%string, 2%nat);
  ("Ecall_id_get_info"%string, 3%nat);
  ("Ecall_get_workload"%string, 3%nat)].
Definition priority (tname : name) : nat := default 0%nat (g_task_priority_um !! tname).

Definition g_block_tasks_um : gmap name (list name) := list_to_map [
  ("Ecall_srd_increase"%string,
   ["Ecall_seal_file"; "Ecall_unseal_file"; "Ecall_gen_and_upload_work_report"; "Ecall_confirm_file"]%string);
  ("Ecall_confirm_file"%string, ["Ecall_gen_and_upload_work_report"]%string);
  ("Ecall_delete_file"%string, ["Ecall_gen_and_upload_work_report"]%string)].
Definition g_upgrade_block_task : list name :=
  ["Ecall_seal_file"; "Ecall_unseal_file"; "Ecall_srd_decrease"; "Ecall_srd_increase"; "Ecall_confirm_file";
   "Ecall_delete_file"]%string.

(** The globals; a thread id is a number.  Counters absent from a map are zero, as
    [operator[]] makes them. *)
Record tasks := Tasks {
  g_waiting_task_sum_v : list Z;
  g_invoked_ecalls_um : gmap name Z;
  g_running_task_um : gmap nat (gmap name Z);
  g_running_task_num : Z
}.
Definition no_tasks : tasks := Tasks [0; 0; 0; 0] ∅ ∅ 0.

Definition counter {K} `{Countable K} (k : K) (m : gmap K Z) : Z := default 0 (m !! k).
Definition add_counter {K} `{Countable K} (k : K) (d : Z) (m : gmap K Z) : gmap K Z := <[k := counter k m + d]> m.

Definition get_higher_prio_waiting_task_num (prio : nat) (t : tasks) : Z :=
  foldr Z.add 0 (take prio (g_waiting_task_sum_v t)).
Definition get_upgrade_ecalls_num (t : tasks) : Z :=
  foldr (λ task n, if 0 <? counter task (g_invoked_ecalls_um t)
                   then counter task (g_invoked_ecalls_um t) + n else n) 0 g_upgrade_block_task.

(** ** The parts of [try_get_enclave] *)

(** Before the loop: one more waiting, one more in flight *)
Definition enter (tname : name) (t : tasks) : tasks :=
  Tasks (alter (Z.add 1) (priority tname) (g_waiting_task_sum_v t))
    (add_counter tname 1 (g_invoked_ecalls_um t)) (g_running_task_um t) (g_running_task_num t).

(** Is a task that blocks this one in flight? *)
Definition task_blocked (tname : name) (t : tasks) : bool :=
  existsb (λ btask, 0 <? counter btask (g_invoked_ecalls_um t)) (default [] (g_block_tasks_um !! tname)).

(** The three situations in which the lock is given back *)
Definition refused (tname : name) (t : tasks) : bool :=
  (ENC_MAX_THREAD_NUM <=? g_running_task_num t)
  || ((ENC_HIGHEST_PRIORITY <? Z.of_nat (priority tname))
      && (ENC_MAX_THREAD_NUM - g_running_task_num t <=? ENC_RESERVED_THREAD_NUM))
  || (0 <? get_higher_prio_waiting_task_num (priority tname) t - ENC_PERMANENT_TASK_NUM).

(** Taking the slot; a thread that is already entered only counts the task. *)
Definition acquire (tid : nat) (tname : name) (t : tasks) : tasks :=
  match g_running_task_um t !! tid with
  | None => Tasks (g_waiting_task_sum_v t) (g_invoked_ecalls_um t)
              (<[tid := {[tname := 1]}]> (g_running_task_um t)) (g_running_task_num t + 1)
  | Some info => Tasks (g_waiting_task_sum_v t) (g_invoked_ecalls_um t)
              (<[tid := add_counter tname 1 info]> (g_running_task_um t)) (g_running_task_num t)
  end.
Definition erase_running (tid : nat) (t : tasks) : tasks :=
  Tasks (g_waiting_task_sum_v t) (g_invoked_ecalls_um t) (delete tid (g_running_task_um t)) (g_running_task_num t).

#[global] Instance sgx_status_eq_dec : EqDecision sgx_status.
Proof. solve_decision. Defined.
(** Behind the loop *)
Definition leave (tname : name) (st : sgx_status) (t : tasks) : tasks :=
  Tasks (alter (Z.add (-1)) (priority tname) (g_waiting_task_sum_v t))
    (if decide (st = SGX_SUCCESS) then g_invoked_ecalls_um t else add_counter tname (-1) (g_invoked_ecalls_um t))
    (g_running_task_um t) (g_running_task_num t).

(** [free_enclave] *)
Definition free_enclave (tid : nat) (tname : name) (t : tasks) : tasks :=
  Tasks (g_waiting_task_sum_v t) (add_counter tname (-1) (g_invoked_ecalls_um t))
    (delete tid (g_running_task_um t)) (g_running_task_num t - 1).

(** ** A thread on its way *)

(** At the top of the loop; past the test for blocking tasks; at the label [loop];
    out of the loop; in the enclave. *)
Inductive phase := Looping | Passed | AtLoop | Leaving | Inside.
#[global] Instance phase_eq_dec : EqDecision phase.
Proof. solve_decision. Defined.
Record thread := Thread { th_name : name; th_status : sgx_status; th_timeout : Z; th_phase : phase }.
Definition with_phase (p : phase) (th : thread) : thread := Thread (th_name th) (th_status th) (th_timeout th) p.
Definition with_status (st : sgx_status) (th : thread) : thread := Thread (th_name th) st (th_timeout th) (th_phase th).

(** The next step of a thread.  [lock_free]: does [try_lock] get the lock?  The test
    of the number before it and the one under it are one step; [None]: the thread
    has returned. *)
Definition thread_step (lock_free : bool) (tid : nat) (th : thread) (t : tasks) : tasks * option thread :=
  match th_phase th with
  | Looping =>
      if task_blocked (th_name th) t
      then (t, Some (with_phase AtLoop (with_status SGX_ERROR_DEVICE_BUSY th)))
      else (t, Some (with_phase Passed th))
  | Passed =>
      if negb (g_running_task_num t <? ENC_MAX_THREAD_NUM) || negb lock_free || refused (th_name th) t
      then (t, Some (with_phase AtLoop th))
      else (acquire tid (th_name th) t, Some (with_phase Leaving th))
  | AtLoop =>
      if ENC_PRIO_TIMEOUT_THRESHOLD <? Z.of_nat (priority (th_name th)) then
        let timeout := th_timeout th + 1 in
        if ENC_TASK_TIMEOUT <=? timeout
        then (erase_running tid t, Some (Thread (th_name th) SGX_ERROR_SERVICE_TIMEOUT timeout Leaving))
        else (t, Some (Thread (th_name th) (th_status th) timeout Looping))
      else (t, Some (with_phase Looping th))
  | Leaving =>
      (leave (th_name th) (th_status th) t,
       if decide (th_status th = SGX_SUCCESS) then Some (with_phase Inside th) else None)
  | Inside => (free_enclave tid (th_name th) t, None)
  end.

(** ** Many threads

    A call of a thread, by the thread and the depth: 0 is the call from outside, and
    while the enclave, inside of it, has called the application, the thread may make
    the next one, under its own id. *)
Abbreviation frame := (nat * nat)%type.
Inductive event := Enter (tid depth : nat) (tname : name) | Step (tid depth : nat) (lock_free : bool).
(** The globals, the calls under way, and how often a call from within found its thread
    entered already *)
Record config := Config { c_tasks : tasks; c_calls : gmap frame thread; c_again : Z }.

Definition is_inside (th : thread) : bool := bool_decide (th_phase th = Inside).
(** May the thread start a call at this depth? *)
Definition may_call (tid depth : nat) (ths : gmap frame thread) : bool :=
  match ths !! (tid, depth) with
  | Some _ => false
  | None =>
      match depth with
      | O => true
      | S d => match ths !! (tid, d) with Some th => is_inside th | None => false end
      end
  end.
(** A call from within that takes its slot although its thread has one *)
Definition again (tid depth : nat) (th : thread) (t : tasks) (r : option thread) : bool :=
  bool_decide (depth ≠ 0%nat ∧ th_phase th = Passed ∧ th_status th = SGX_SUCCESS ∧ th_phase <$> r = Some Leaving ∧
    is_Some (g_running_task_um t !! tid)).

(** [None]: the event cannot happen; a call waits while the thread is in a deeper one. *)
Definition do_event (ev : event) (c : config) : option config :=
  let t := c_tasks c in
  let ths := c_calls c in
  match ev with
  | Enter tid depth tname =>
      if may_call tid depth ths
      then Some (Config (enter tname t) (<[(tid, depth) := Thread tname SGX_SUCCESS 0 Looping]> ths) (c_again c))
      else None
  | Step tid depth lock_free =>
      match ths !! (tid, depth), ths !! (tid, S depth) with
      | Some th, None =>
          let '(t', r) := thread_step lock_free tid th t in
          Some (Config t' (match r with Some th => <[(tid, depth) := th]> ths | None => delete (tid, depth) ths end)
                  (c_again c + if again tid depth th t r then 1 else 0))
      | _, _ => None
      end
  end.
Fixpoint do_events (evs : list event) (c : config) : option config :=
  match evs with [] => Some c | ev :: evs => do_event ev c ≫= do_events evs end.

Definition config_start : config := Config no_tasks ∅ 0.
Inductive reachable : config → Prop :=
| reachable_start : reachable config_start
| reachable_event ev c c' : reachable c → do_event ev c = Some c' → reachable c'.

(** ** Lemmas: counting calls *)
Definition tally (P : frame → thread → bool) (ths : gmap frame thread) : Z :=
  Z.of_nat (size (filter (λ p : frame * thread, P p.1 p.2 = true) ths)).
Definition one (b : bool) : Z := if b then 1 else 0.

Lemma tally_insert P fr th ths :
  ths !! fr = None → tally P (<[fr := th]> ths) = tally P ths + one (P fr th).
Proof.
  intros Hn. unfold tally. destruct (P fr th) eqn:E; cbn [one].
  - rewrite map_filter_insert_True by done. rewrite map_size_insert_None; [lia|].
    apply map_lookup_filter_None. by left.
  - rewrite map_filter_insert_not'; [lia|cbn; congruence|]. by intros y Hy; rewrite Hn in Hy.
Qed.
Lemma tally_delete P fr th ths :
  ths !! fr = Some th → tally P (delete fr ths) = tally P ths - one (P fr th).
Proof.
  intros Hs. rewrite <- (insert_delete_id ths fr th Hs) at 2.
  rewrite tally_insert by apply lookup_delete_eq. lia.
Qed.
Lemma tally_update P fr th th' ths :
  ths !! fr = Some th → tally P (<[fr := th']> ths) = tally P ths - one (P fr th) + one (P fr th').
Proof.
  intros Hs. rewrite <- insert_delete_eq, tally_insert by apply lookup_delete_eq.
  by rewrite (tally_delete P fr th).
Qed.
Lemma tally_same P fr th th' ths :
  ths !! fr = Some th → P fr th' = P fr th → tally P (<[fr := th']> ths) = tally P ths.
Proof. intros Hs HP. rewrite (tally_update P fr th) by done. rewrite HP. lia. Qed.
Lemma tally_nonneg P ths : 0 <= tally P ths.
Proof. unfold tally. lia. Qed.

Lemma counter_add n k d (m : gmap name Z) :
  counter n (add_counter k d m) = counter n m + (if decide (k = n) then d else 0).
Proof.
  unfold counter at 1, add_counter. destruct (decide (k = n)) as [->|].
  - by rewrite lookup_insert_eq.
  - rewrite lookup_insert_ne by done. unfold counter. lia.
Qed.
Lemma priority_lt tname : (priority tname < 4)%nat.
Proof.
  unfold priority. destruct (g_task_priority_um !! tname) as [p|] eqn:E; cbn; [|lia].
  assert (map_Forall (λ _ q, (q < 4)%nat) g_task_priority_um) as H
    by (apply (bool_decide_unpack _); vm_compute; exact I).
  by apply (H tname).
Qed.

(** ** The invariant *)
Definition holds (th : thread) : Prop :=
  th_phase th = Inside ∨ (th_phase th = Leaving ∧ th_status th = SGX_SUCCESS).
#[global] Instance holds_dec th : Decision (holds th).
Proof. unfold holds. apply _. Defined.
Definition waits_at (p : nat) (_ : frame) (th : thread) : bool :=
  bool_decide (th_phase th ≠ Inside ∧ priority (th_name th) = p).
Definition runs (tname : name) (_ : frame) (th : thread) : bool := bool_decide (th_name th = tname).
(** A call from within that has its slot *)
Definition inner (fr : frame) (th : thread) : bool := bool_decide (fr.2 ≠ 0%nat ∧ holds th).
(** [U] has every thread that is entered in the map or whose call from outside has a slot. *)
Definition covers (U : gset nat) (t : tasks) (ths : gmap frame thread) : Prop :=
  (∀ tid, is_Some (g_running_task_um t !! tid) → tid ∈ U) ∧
  (∀ tid th, ths !! (tid, 0%nat) = Some th → holds th → tid ∈ U).

Record queue_ok (c : config) : Prop := {
  q_stack tid d th : c_calls c !! (tid, S d) = Some th → ∃ th0, c_calls c !! (tid, d) = Some th0 ∧ th_phase th0 = Inside;
  q_num : g_running_task_num (c_tasks c) <= ENC_MAX_THREAD_NUM;
  q_slots : ∃ U, covers U (c_tasks c) (c_calls c) ∧
    Z.of_nat (size U) + tally inner (c_calls c) <= g_running_task_num (c_tasks c) + c_again c;
  q_waiting p : (p < 4)%nat → g_waiting_task_sum_v (c_tasks c) !! p = Some (tally (waits_at p) (c_calls c));
  q_invoked tname : counter tname (g_invoked_ecalls_um (c_tasks c)) = tally (runs tname) (c_calls c)
}.

(** The effect of one call's step on the two counters *)
Lemma waiting_shift (v : list Z) ths ths' p0 d :
  (∀ p, (p < 4)%nat → v !! p = Some (tally (waits_at p) ths)) →
  (∀ p, tally (waits_at p) ths' = tally (waits_at p) ths + (if decide (p = p0) then d else 0)) →
  ∀ p, (p < 4)%nat → alter (Z.add d) p0 v !! p = Some (tally (waits_at p) ths').
Proof.
  intros Hv Ht p Hp. rewrite Ht. destruct (decide (p = p0)) as [->|Hne].
  - rewrite list_lookup_alter_eq, Hv by done. cbn. f_equal. lia.
  - rewrite list_lookup_alter_ne, Hv by done. f_equal. lia.
Qed.
Lemma one_decide (P : Prop) `{!Decision P} : one (bool_decide P) = if decide P then 1 else 0.
Proof. by unfold one; case_bool_decide; case_decide. Qed.

(** Below a call that is under way the thread is inside, at every depth. *)
Lemma outside_inside c tid d th :
  queue_ok c → c_calls c !! (tid, S d) = Some th → ∃ th0, c_calls c !! (tid, 0%nat) = Some th0 ∧ th_phase th0 = Inside.
Proof.
  intros Hq. revert th. induction d as [|d IH]; intros th Hth; [by eapply q_stack|].
  destruct (q_stack _ Hq _ _ _ Hth) as (th1 & H1 & _). by eapply IH.
Qed.
(** The stack when the topmost call of a thread changes or goes *)
Lemma stack_update c tid d th x :
  queue_ok c → c_calls c !! (tid, d) = Some th → c_calls c !! (tid, S d) = None →
  let ths := match x with Some th' => <[(tid, d) := th']> (c_calls c) | None => delete (tid, d) (c_calls c) end in
  ∀ i e th, ths !! (i, S e) = Some th → ∃ th0, ths !! (i, e) = Some th0 ∧ th_phase th0 = Inside.
Proof.
  intros Hq Hth Htop ths i e y Hy. assert ((i, e) ≠ (tid, d)) as Hne.
  { intros [= -> ->]. subst ths. destruct x; [rewrite lookup_insert_ne in Hy by congruence|rewrite lookup_delete_ne in Hy by congruence];
      by rewrite Htop in Hy. }
  assert (∃ y0, c_calls c !! (i, S e) = Some y0) as [y0 Hy0].
  { destruct (decide ((i, S e) = (tid, d))) as [[= -> <-]|Hn]; [by eexists|].
    subst ths. destruct x; [rewrite lookup_insert_ne in Hy by congruence|rewrite lookup_delete_ne in Hy by congruence]; by eexists. }
  destruct (q_stack _ Hq _ _ _ Hy0) as (th0 & H0 & Hp). exists th0. split; [|done].
  subst ths. destruct x; [by rewrite lookup_insert_ne by congruence|by rewrite lookup_delete_ne by congruence].
Qed.

Lemma queue_enter tid d tname c :
  queue_ok c → may_call tid d (c_calls c) = true →
  queue_ok (Config (enter tname (c_tasks c)) (<[(tid, d) := Thread tname SGX_SUCCESS 0 Looping]> (c_calls c)) (c_again c)).
Proof.
  intros Hq Hmay. unfold may_call in Hmay. destruct (c_calls c !! (tid, d)) as [?|] eqn:Hnew; [done|].
  pose proof Hq as [Hst Hn (U & [HU1 HU2] & HU) Hw Hi]. split; cbn [c_tasks c_calls c_again enter g_running_task_um
    g_running_task_num g_waiting_task_sum_v g_invoked_ecalls_um].
  - intros i e th Hth. destruct (decide ((i, S e) = (tid, d))) as [[= -> <-]|Hne].
    + destruct (c_calls c !! (tid, e)) as [th0|] eqn:H0; [|done]. apply bool_decide_eq_true in Hmay.
      exists th0. split; [|done]. rewrite lookup_insert_ne; [done|]. intros [= E]. lia.
    + rewrite lookup_insert_ne in Hth by congruence. destruct (Hst _ _ _ Hth) as (th0 & H0 & Hp).
      exists th0. split; [|done]. rewrite lookup_insert_ne; [done|]. intros E. by rewrite <- E, Hnew in H0.
  - done.
  - exists U. split; [split; [done|]|].
    + intros i th Hth Hh. destruct (decide ((i, 0%nat) = (tid, d))) as [E|Hne].
      * rewrite <- E, lookup_insert_eq in Hth. injection Hth as <-. by destruct Hh as [|[]].
      * rewrite lookup_insert_ne in Hth by congruence. by eapply HU2.
    + rewrite tally_insert by done. unfold inner at 2. rewrite bool_decide_eq_false_2; [cbn [one]; lia|].
      intros [_ [H|[H _]]]; discriminate H.
  - apply (waiting_shift _ (c_calls c)); [done|]. intros p. rewrite tally_insert by done.
    unfold waits_at at 2. rewrite one_decide. cbn. repeat case_decide; naive_solver.
  - intros n. rewrite counter_add, Hi, tally_insert by done. unfold runs at 3. rewrite one_decide. cbn.
    by repeat case_decide.
Qed.

(** A step inside the waiting loop: only the slots may change. *)
Lemma queue_wait tid d th th' c t' k :
  queue_ok c → c_calls c !! (tid, d) = Some th → c_calls c !! (tid, S d) = None → th_name th' = th_name th →
  th_phase th ≠ Inside → th_phase th' ≠ Inside →
  g_waiting_task_sum_v t' = g_waiting_task_sum_v (c_tasks c) → g_invoked_ecalls_um t' = g_invoked_ecalls_um (c_tasks c) →
  g_running_task_num t' <= ENC_MAX_THREAD_NUM →
  (∀ U, covers U (c_tasks c) (c_calls c) → ∃ U', covers U' t' (<[(tid, d) := th']> (c_calls c)) ∧
     Z.of_nat (size U') + one (inner (tid, d) th') - one (inner (tid, d) th) - g_running_task_num t' - k
       <= Z.of_nat (size U) - g_running_task_num (c_tasks c)) →
  queue_ok (Config t' (<[(tid, d) := th']> (c_calls c)) (c_again c + k)).
Proof.
  intros Hq Hth Htop Hname Hp Hp' Ew Ei Hn' HU. pose proof Hq as [Hst Hn (U & HcU & HsU) Hw Hi].
  split; cbn [c_tasks c_calls c_again]; [|done|..].
  - apply (stack_update c tid d th (Some th') Hq Hth Htop).
  - destruct (HU U HcU) as (U' & Hc & Hs). exists U'. split; [done|]. rewrite (tally_update _ _ th) by done. lia.
  - intros p Hlt. rewrite Ew, Hw by done. f_equal. symmetry. apply (tally_same _ _ th); [done|].
    unfold waits_at. rewrite Hname. apply bool_decide_ext. tauto.
  - intros n. rewrite Ei, Hi. symmetry. apply (tally_same _ _ th); [done|]. unfold runs. by rewrite Hname.
Qed.
(** The same when the slots stay as they are *)
Lemma covers_update U t ths tid d th' t' :
  covers U t ths → (∀ i, is_Some (g_running_task_um t' !! i) → i = tid ∨ is_Some (g_running_task_um t !! i)) →
  (is_Some (g_running_task_um t' !! tid) ∨ d = 0%nat ∧ holds th' → tid ∈ U) →
  covers U t' (<[(tid, d) := th']> ths).
Proof.
  intros [H1 H2] Hum Ht. split.
  - intros i Hi. destruct (Hum i Hi) as [->|]; [apply Ht; by left|by apply H1].
  - intros i th Hth Hh. destruct (decide ((i, 0%nat) = (tid, d))) as [[= -> <-]|Hne].
    + rewrite lookup_insert_eq in Hth. injection Hth as ->. apply Ht. by right.
    + rewrite lookup_insert_ne in Hth by congruence. by eapply H2.
Qed.
Lemma queue_wait_same tid d th th' c :
  queue_ok c → c_calls c !! (tid, d) = Some th → c_calls c !! (tid, S d) = None → th_name th' = th_name th →
  th_phase th ≠ Inside → th_phase th ≠ Leaving → th_phase th' ≠ Inside → th_phase th' ≠ Leaving →
  queue_ok (Config (c_tasks c) (<[(tid, d) := th']> (c_calls c)) (c_again c + 0)).
Proof.
  intros Hq Hth Htop Hname Hp1 Hp2 Hp3 Hp4. apply (queue_wait _ _ th); try done; [apply Hq|].
  intros U HU. exists U. split.
  - apply (covers_update U (c_tasks c)); [done|by right|]. intros [H|[_ [H|[H _]]]]; [by apply HU|done..].
  - unfold inner. rewrite !bool_decide_eq_false_2; [lia|..]; intros [_ [H|[H _]]]; done.
Qed.

Lemma refused_false tname t :
  refused tname t = false →
  g_running_task_num t < ENC_MAX_THREAD_NUM ∧
  ((0 < priority tname)%nat → g_running_task_num t + ENC_RESERVED_THREAD_NUM < ENC_MAX_THREAD_NUM) ∧
  get_higher_prio_waiting_task_num (priority tname) t <= ENC_PERMANENT_TASK_NUM.
Proof. unfold refused, ENC_HIGHEST_PRIORITY. intros H. lia. Qed.

Lemma queue_acquire tid d th c :
  queue_ok c → c_calls c !! (tid, d) = Some th → c_calls c !! (tid, S d) = None → th_phase th = Passed →
  refused (th_name th) (c_tasks c) = false →
  queue_ok (Config (acquire tid (th_name th) (c_tasks c)) (<[(tid, d) := with_phase Leaving th]> (c_calls c))
    (c_again c + if again tid d th (c_tasks c) (Some (with_phase Leaving th)) then 1 else 0)).
Proof.
  intros Hq Hth Htop Hp Hr. pose proof (q_num _ Hq) as Hn. apply refused_false in Hr as (Hlt & _ & _).
  assert (inner (tid, d) th = false) as Hin.
  { unfold inner. rewrite bool_decide_eq_false_2; [done|]. intros [_ [H|[H _]]]; by rewrite Hp in H. }
  assert (∀ U, covers U (c_tasks c) (c_calls c) → d ≠ 0%nat → tid ∈ U) as Hnested.
  { intros U HU Hd. destruct d as [|d]; [done|]. destruct (q_stack _ Hq _ _ _ Hth) as (th1 & H1 & H2).
    destruct d as [|d]; [eapply HU; [exact H1|by left]|].
    destruct (outside_inside _ _ _ _ Hq H1) as (th0 & H0 & H3). eapply HU; [exact H0|by left]. }
  unfold acquire, again. destruct (g_running_task_um (c_tasks c) !! tid) as [info|] eqn:E;
    apply (queue_wait _ _ th); try done; cbn [g_running_task_um g_running_task_num]; try (by rewrite Hp); try lia.
  - intros U HU. exists U. split.
    + apply (covers_update U (c_tasks c)); [done| |].
      * cbn [g_running_task_um]. intros i Hi. destruct (decide (i = tid)) as [->|]; [by left|].
        right. by rewrite lookup_insert_ne in Hi.
      * intros _. apply HU. by rewrite E.
    + rewrite Hin. unfold inner. cbn [fst snd one]. case_bool_decide as H1; cbn [one]; case_bool_decide as H2; try lia.
      exfalso. apply H2. destruct H1 as [Hd [H|[_ H]]]; [discriminate H|]. by split_and!.
  - intros U HU. destruct (decide (d = 0%nat)) as [->|Hd].
    + exists ({[tid]} ∪ U). split.
      * apply (covers_update _ (c_tasks c)); [destruct HU as [H1 H2]; split; [intros i H|intros i x H H']; apply elem_of_union_r; [by apply H1|by eapply H2]| |].
        -- cbn [g_running_task_um]. intros i Hi. destruct (decide (i = tid)) as [->|]; [by left|].
           right. by rewrite lookup_insert_ne in Hi.
        -- intros _. by apply elem_of_union_l, elem_of_singleton.
      * rewrite Hin. unfold inner. rewrite !bool_decide_eq_false_2 by (intros [Hz _]; by destruct Hz). cbn [one].
        pose proof (size_union_alt {[tid]} U). rewrite size_singleton in *.
        assert (size (U ∖ {[tid]}) <= size U)%nat by (apply subseteq_size; set_solver). lia.
    + exists U. split.
      * apply (covers_update U (c_tasks c)); [done| |auto].
        cbn [g_running_task_um]. intros i Hi. destruct (decide (i = tid)) as [->|]; [by left|].
        right. by rewrite lookup_insert_ne in Hi.
      * rewrite Hin. unfold one. repeat case_match; lia.
Qed.
Lemma queue_at_loop tid d th c lf :
  queue_ok c → c_calls c !! (tid, d) = Some th → c_calls c !! (tid, S d) = None → th_phase th = AtLoop →
  let r := thread_step lf tid th (c_tasks c) in
  ∃ th', r.2 = Some th' ∧ queue_ok (Config r.1 (<[(tid, d) := th']> (c_calls c)) (c_again c + 0)).
Proof.
  intros Hq Hth Htop Hp. cbv zeta. unfold thread_step. rewrite Hp.
  destruct (_ <? _); [destruct (_ <=? _)|]; cbn [fst snd]; eexists; (split; [done|]);
    try (apply (queue_wait_same _ _ th); try done; by rewrite Hp).
  apply (queue_wait _ _ th); try done; try (by rewrite Hp); [apply Hq|]. intros U HU. exists U. split.
  - apply (covers_update U (c_tasks c)); [done| |].
    + cbn. intros i Hi. destruct (decide (i = tid)) as [->|]; [by left|]. right. by rewrite lookup_delete_ne in Hi.
    + cbn. rewrite lookup_delete_eq. intros [[? H]|[_ [H|[_ H]]]]; done.
  - unfold inner. rewrite !bool_decide_eq_false_2; [cbn; lia|..]; intros [_ [H|[H1 H2]]]; cbn in *; congruence.
Qed.
Lemma covers_delete U t ths tid d : covers U t ths → covers U t (delete (tid, d) ths).
Proof.
  intros [H1 H2]. split; [done|]. intros i th Hth Hh. destruct (decide ((i, 0%nat) = (tid, d))) as [E|Hne].
  - by rewrite <- E, lookup_delete_eq in Hth.
  - rewrite lookup_delete_ne in Hth by congruence. by eapply H2.
Qed.
Lemma queue_leave tid d th c lf :
  queue_ok c → c_calls c !! (tid, d) = Some th → c_calls c !! (tid, S d) = None → th_phase th = Leaving →
  let r := thread_step lf tid th (c_tasks c) in
  queue_ok (Config r.1 (match r.2 with Some th' => <[(tid, d) := th']> (c_calls c) | None => delete (tid, d) (c_calls c) end)
    (c_again c + 0)).
Proof.
  intros Hq Hth Htop Hp. pose proof Hq as [Hst Hn (U & HU & Hs) Hw Hi]. cbv zeta.
  pose proof (stack_update c tid d th (thread_step lf tid th (c_tasks c)).2 Hq Hth Htop) as Hstack.
  unfold thread_step in *. rewrite Hp in *. cbn [fst snd] in *. rewrite Z.add_0_r.
  assert (∀ p, waits_at p (tid, d) th = bool_decide (p = priority (th_name th))) as Hwt.
  { intros p. unfold waits_at. rewrite Hp. apply bool_decide_ext. naive_solver. }
  unfold leave. case_decide as Hok; split; cbn [c_tasks c_calls c_again g_running_task_um g_running_task_num
    g_waiting_task_sum_v g_invoked_ecalls_um]; try done.
  - exists U. split.
    + apply (covers_update U (c_tasks c)); [done|by right|].
      intros [H|[-> _]]; [by apply HU|]. eapply HU; [exact Hth|by right].
    + rewrite (tally_same _ _ th); [lia|done|]. unfold inner. apply bool_decide_ext. unfold holds. cbn. tauto.
  - apply (waiting_shift _ (c_calls c)); [done|]. intros p. rewrite (tally_update _ _ th) by done. rewrite Hwt, one_decide.
    unfold waits_at at 2. cbn. rewrite bool_decide_eq_false_2 by tauto. cbn [one]. case_decide; lia.
  - intros n. rewrite Hi. symmetry. by apply (tally_same _ _ th).
  - exists U. split; [by apply covers_delete|]. rewrite (tally_delete _ _ th) by done.
    unfold inner at 2. rewrite bool_decide_eq_false_2; [cbn [one]; lia|]. intros [_ [H|[_ H]]]; congruence.
  - apply (waiting_shift _ (c_calls c)); [done|]. intros p. rewrite (tally_delete _ _ th), Hwt, one_decide by done.
    case_decide; lia.
  - intros n. rewrite counter_add, Hi, (tally_delete _ _ th) by done. unfold runs. rewrite one_decide.
    case_decide; lia.
Qed.
Lemma queue_free tid d th c :
  queue_ok c → c_calls c !! (tid, d) = Some th → c_calls c !! (tid, S d) = None → th_phase th = Inside →
  queue_ok (Config (free_enclave tid (th_name th) (c_tasks c)) (delete (tid, d) (c_calls c)) (c_again c + 0)).
Proof.
  intros Hq Hth Htop Hp. pose proof Hq as [Hst Hn (U & HU & Hs) Hw Hi].
  pose proof (stack_update c tid d th None Hq Hth Htop) as Hstack. cbn in Hstack. rewrite Z.add_0_r.
  split; cbn [c_tasks c_calls c_again free_enclave g_running_task_um g_running_task_num g_waiting_task_sum_v
    g_invoked_ecalls_um]; [done|lia|..].
  - apply (covers_delete _ _ _ tid d) in HU as HU'. rewrite (tally_delete _ _ th) by done.
    destruct (decide (d = 0%nat)) as [->|Hd].
    + assert (tid ∈ U) as Hin by (eapply HU; [exact Hth|by left]).
      exists (U ∖ {[tid]}). split; [split|].
      * cbn. intros i Hi'. destruct (decide (i = tid)) as [->|Hne]; [rewrite lookup_delete_eq in Hi'; by destruct Hi'|].
        rewrite lookup_delete_ne in Hi' by done. apply HU in Hi'. set_solver.
      * intros i y Hy Hh. destruct (decide (i = tid)) as [->|Hne]; [by rewrite lookup_delete_eq in Hy|].
        assert (i ∈ U) by (by eapply HU'). set_solver.
      * rewrite size_difference by set_solver. rewrite size_singleton.
        assert (size U ≠ 0%nat) by (intros E%size_empty_inv; set_solver).
        unfold inner at 2. rewrite bool_decide_eq_false_2 by (intros [Hz _]; by destruct Hz). cbn [one]. lia.
    + exists U. split; [split|].
      * cbn. intros i Hi'. destruct (decide (i = tid)) as [->|Hne]; [rewrite lookup_delete_eq in Hi'; by destruct Hi'|].
        rewrite lookup_delete_ne in Hi' by done. by apply HU.
      * apply HU'.
      * unfold inner at 2. rewrite bool_decide_eq_true_2; [cbn [one]; lia|]. split; [done|by left].
  - intros p Hlt. rewrite Hw by done. f_equal. rewrite (tally_delete _ _ th) by done.
    unfold waits_at at 3. rewrite Hp, one_decide, decide_False by naive_solver. lia.
  - intros n. rewrite counter_add, Hi, (tally_delete _ _ th) by done. unfold runs at 3. rewrite one_decide.
    case_decide; lia.
Qed.

Lemma again_passed tid d th t r : th_phase th ≠ Passed → again tid d th t r = false.
Proof. intros H. unfold again. apply bool_decide_eq_false_2. tauto. Qed.
Lemma queue_step tid d lf th c :
  queue_ok c → c_calls c !! (tid, d) = Some th → c_calls c !! (tid, S d) = None →
  let r := thread_step lf tid th (c_tasks c) in
  queue_ok (Config r.1 (match r.2 with Some th' => <[(tid, d) := th']> (c_calls c) | None => delete (tid, d) (c_calls c) end)
    (c_again c + if again tid d th (c_tasks c) r.2 then 1 else 0)).
Proof.
  intros Hq Hth Htop. cbv zeta. destruct (th_phase th) eqn:Hp; try (rewrite again_passed by by rewrite Hp).
  - unfold thread_step. rewrite Hp. destruct (task_blocked _ _); cbn [fst snd];
      apply (queue_wait_same _ _ th); try done; by rewrite Hp.
  - unfold thread_step. rewrite Hp. destruct (_ || refused _ _) eqn:Hr; cbn [fst snd].
    + unfold again. rewrite bool_decide_eq_false_2 by (intros (_ & _ & _ & H & _); discriminate H).
      apply (queue_wait_same _ _ th); try done; by rewrite Hp.
    + apply orb_false_iff in Hr as [_ Hr]. by apply queue_acquire.
  - destruct (queue_at_loop tid d th c lf Hq Hth Htop Hp) as (th' & E & Hq'). by rewrite E.
  - by apply queue_leave.
  - unfold thread_step. rewrite Hp. cbn [fst snd]. by apply queue_free.
Qed.
Lemma queue_event ev c c' : queue_ok c → do_event ev c = Some c' → queue_ok c'.
Proof.
  intros Hq. destruct ev as [tid d tname|tid d lock_free]; cbn [do_event].
  - destruct (may_call _ _ _) eqn:E; [|done]. intros [= <-]. by apply queue_enter.
  - destruct (c_calls c !! (tid, d)) as [th|] eqn:Hth; [|done].
    destruct (c_calls c !! (tid, S d)) eqn:Htop; [done|].
    pose proof (queue_step tid d lock_free th c Hq Hth Htop) as H. cbv zeta in H.
    destruct (thread_step lock_free tid th (c_tasks c)) as [t' r]. by intros [= <-].
Qed.
Lemma reachable_ok c : reachable c → queue_ok c.
Proof.
  induction 1 as [|ev c c' _ IH Hev]; [|by eapply queue_event].
  split; cbn; [done|done| | |done].
  - exists ∅. split; [split|]; [by intros i [? H]|by intros i th H|by vm_compute].
  - intros p Hp. do 4 (destruct p as [|p]; [done|]). lia.
Qed.
(** Sums of counts *)
Lemma tally_ext P Q ths : (∀ fr th, P fr th = Q fr th) → tally P ths = tally Q ths.
Proof. intros H. unfold tally. f_equal. f_equal. apply map_filter_ext. intros i th _. cbn. by rewrite H. Qed.
Lemma tally_false ths : tally (λ _ _, false) ths = 0.
Proof.
  unfold tally. replace (filter _ ths) with (∅ : gmap frame thread); [done|].
  symmetry. apply map_empty. intros i. apply map_lookup_filter_None. right. by intros th _.
Qed.
Lemma tally_orb P Q ths :
  (∀ fr th, P fr th && Q fr th = false) → tally (λ fr th, P fr th || Q fr th) ths = tally P ths + tally Q ths.
Proof.
  intros H. induction ths as [|i th ths Hi IH] using map_ind; [done|].
  rewrite !tally_insert, IH by done. specialize (H i th). destruct (P i th), (Q i th); cbn in *; done || lia.
Qed.

(** The threads of which a list of disjoint classes [f k] holds *)
Lemma tally_sum {K} (f : K → frame → thread → bool) l ths :
  NoDup l → (∀ j k fr th, f j fr th = true → f k fr th = true → j = k) →
  foldr (λ k n, tally (f k) ths + n) 0 l = tally (λ fr th, existsb (λ k, f k fr th) l) ths.
Proof.
  intros Hl Hf. induction Hl as [|k l Hk _ IH]; cbn [foldr existsb]; [by rewrite tally_false|].
  rewrite IH, tally_orb; [done|]. intros fr th. destruct (f k fr th) eqn:E; [|done]. cbn.
  apply not_true_iff_false. rewrite existsb_exists. intros (j & Hj & Ej).
  rewrite (Hf k j fr th E Ej) in Hk. by apply Hk, list_elem_of_In.
Qed.

(** *** Calls from within *)
Fixpoint nested (evs : list event) : Z :=
  match evs with
  | [] => 0
  | Enter _ depth _ :: evs => (if decide (depth = 0%nat) then 0 else 1) + nested evs
  | _ :: evs => nested evs
  end.
(** A call from within that has not come to its slot *)
Definition pending (fr : frame) (th : thread) : bool :=
  bool_decide (fr.2 ≠ 0%nat ∧ th_phase th ≠ Leaving ∧ th_phase th ≠ Inside).
Lemma pending_waits fr th :
  th_phase th ≠ Leaving → th_phase th ≠ Inside → pending fr th = bool_decide (fr.2 ≠ 0%nat).
Proof. intros H1 H2. unfold pending. apply bool_decide_ext. tauto. Qed.
Lemma pending_step tid d lf th t :
  one (again tid d th t (thread_step lf tid th t).2)
  + match (thread_step lf tid th t).2 with Some th' => one (pending (tid, d) th') | None => 0 end <= one (pending (tid, d) th).
Proof.
  assert (∀ b, 0 <= one b <= 1) as H01 by (by intros []).
  destruct (th_phase th) eqn:Hp; try (rewrite again_passed by by rewrite Hp);
    rewrite ?(pending_waits (tid, d) th) by by rewrite Hp.
  - unfold thread_step. rewrite Hp. destruct (task_blocked _ _); cbn [snd]; by rewrite pending_waits.
  - unfold thread_step. rewrite Hp. destruct (_ || refused _ _); cbn [snd].
    + unfold again. rewrite bool_decide_eq_false_2 by (intros (_ & _ & _ & H & _); discriminate H).
      by rewrite pending_waits.
    + assert (pending (tid, d) (with_phase Leaving th) = false) as ->.
      { unfold pending. apply bool_decide_eq_false_2. cbn. tauto. }
      unfold again. cbn [fst snd one]. case_bool_decide as H; cbn [one]; [rewrite bool_decide_eq_true_2 by apply H; cbn; lia|].
      destruct (H01 (bool_decide (d ≠ 0%nat))). lia.
  - unfold thread_step. rewrite Hp. destruct (_ <? _); [destruct (_ <=? _)|]; cbn [snd]; try (by rewrite pending_waits).
    match goal with |- context [pending ?f ?x] => assert (pending f x = false) as -> end.
    { unfold pending. apply bool_decide_eq_false_2. cbn. tauto. }
    cbn [one]. rewrite Z.add_0_l. apply H01.
  - unfold thread_step. rewrite Hp. cbn [snd one]. destruct (H01 (pending (tid, d) th)).
    case_decide; [|lia]. assert (pending (tid, d) (with_phase Inside th) = false) as ->.
    { unfold pending. apply bool_decide_eq_false_2. cbn. tauto. }
    cbn [one]. lia.
  - unfold thread_step. rewrite Hp. cbn [snd one]. destruct (H01 (pending (tid, d) th)). lia.
Qed.
Lemma again_event ev c c' :
  do_event ev c = Some c' →
  c_again c' + tally pending (c_calls c') <= c_again c + tally pending (c_calls c) + nested [ev].
Proof.
  destruct ev as [tid d tname|tid d lf]; cbn [do_event nested].
  - destruct (may_call tid d (c_calls c)) eqn:E; [|done]. intros [= <-]. cbn [c_again c_calls].
    rewrite tally_insert by (unfold may_call in E; by destruct (c_calls c !! (tid, d))).
    rewrite pending_waits by done. cbn [snd]. rewrite one_decide. repeat case_decide; try lia; done.
  - destruct (c_calls c !! (tid, d)) as [th|] eqn:Hth; [|done]. destruct (c_calls c !! (tid, S d)); [done|].
    pose proof (pending_step tid d lf th (c_tasks c)) as H. destruct (thread_step lf tid th (c_tasks c)) as [t' r].
    intros [= <-]. cbn [fst snd c_again c_calls] in *. destruct r as [th'|].
    + rewrite (tally_update _ _ th) by done. unfold one in H at 1. case_match; lia.
    + rewrite (tally_delete _ _ th) by done. unfold one in H at 1. case_match; lia.
Qed.
Lemma again_nested evs c c' :
  do_events evs c = Some c' → c_again c' + tally pending (c_calls c') <= c_again c + tally pending (c_calls c) + nested evs.
Proof.
  revert c. induction evs as [|ev evs IH]; intros c; cbn [do_events]; [intros [= <-]; cbn; lia|].
  destruct (do_event ev c) as [c1|] eqn:E; cbn [mbind option_bind]; [|done]. intros H%IH.
  apply again_event in E. destruct ev; cbn [nested] in *; lia.
Qed.
Lemma reachable_events evs c c' : reachable c → do_events evs c = Some c' → reachable c'.
Proof.
  revert c. induction evs as [|ev evs IH]; intros c Hc; cbn [do_events]; [by intros [= <-]|].
  destruct (do_event ev c) as [c1|] eqn:E; [|done]. apply IH. by eapply reachable_event.
Qed.

(** The threads whose call from outside is in the enclave *)
Definition threads_inside (c : config) : Z :=
  tally (λ fr th, bool_decide (fr.2 = 0%nat) && is_inside th) (c_calls c).
Lemma inside_covered U t ths :
  covers U t ths → tally (λ fr th, bool_decide (fr.2 = 0%nat) && is_inside th) ths <= Z.of_nat (size U).
Proof.
  intros [_ HU]. assert (∀ tid th, ths !! (tid, 0%nat) = Some th → is_inside th = true → tid ∈ U) as H.
  { intros tid th Hth Hi%bool_decide_eq_true. eapply HU; [exact Hth|by left]. }
  clear HU. revert U H. induction ths as [|[i e] th ths Hi IH] using map_ind; intros U H; [change (0 <= Z.of_nat (size U)); lia|].
  rewrite tally_insert by done. cbn [snd].
  destruct (bool_decide (e = 0%nat) && is_inside th) eqn:E; cbn [one].
  - apply andb_true_iff in E as [->%bool_decide_eq_true Hin].
    assert (i ∈ U) by (eapply H; [apply lookup_insert_eq|done]).
    specialize (IH (U ∖ {[i]})). rewrite size_difference, size_singleton in IH by set_solver.
    assert (size U ≠ 0%nat) by (intros E0%size_empty_inv; set_solver).
    enough (tally (λ fr th, bool_decide (fr.2 = 0%nat) && is_inside th) ths <= Z.of_nat (size U - 1)) by lia.
    apply IH. intros j x Hx Hxi. assert (j ≠ i) as Hne by (intros ->; by rewrite Hi in Hx).
    assert (j ∈ U); [|set_solver]. eapply H; [|exact Hxi]. rewrite lookup_insert_ne; [done|congruence].
  - rewrite Z.add_0_r. apply IH. intros j x Hx Hxi. eapply H; [|exact Hxi].
    rewrite lookup_insert_ne; [done|]. intros [= E1 E2]. subst. by rewrite Hi in Hx.
Qed.

(** ** Properties *)
Section properties.
Implicit Types (t : tasks) (c : config).

(** C23: the limit on the threads in the enclave, however the calls of any number of
    threads interleave, fail, time out or return, and call again from within: the
    counter the code tests never exceeds ENC_MAX_THREAD_NUM, and it falls behind the
    threads inside at most by one for each call from within that found its thread
    entered already, and so by no more than there were calls from within.  Without
    such calls there are never more than ENC_MAX_THREAD_NUM threads inside. *)
Theorem enclave_threads_bounded evs c :
  do_events evs config_start = Some c →
  threads_inside c <= g_running_task_num (c_tasks c) + c_again c ∧
  g_running_task_num (c_tasks c) <= ENC_MAX_THREAD_NUM ∧ c_again c <= nested evs ∧
  threads_inside c <= ENC_MAX_THREAD_NUM + nested evs.
Proof.
  intros Hr. pose proof (again_nested _ _ _ Hr) as Ha. apply (reachable_events _ _ _ reachable_start) in Hr.
  apply reachable_ok in Hr as [_ Hn (U & HU & Hs) _ _]. pose proof (inside_covered _ _ _ HU) as H.
  pose proof (tally_nonneg inner (c_calls c)). pose proof (tally_nonneg pending (c_calls c)).
  change (c_again config_start + tally pending (c_calls config_start)) with 0 in Ha. unfold threads_inside.
  split_and!; lia.
Qed.

(** The number the application waits on before an upgrade is exact: it counts
    the threads in flight with a call that an upgrade must not meet, and is zero
    only when there is none. *)
Theorem upgrade_ecalls_exact c :
  reachable c →
  get_upgrade_ecalls_num (c_tasks c) = tally (λ _ th, bool_decide (th_name th ∈ g_upgrade_block_task)) (c_calls c).
Proof.
  intros Hr. apply reachable_ok in Hr as [_ _ _ _ Hi]. set (ths := c_calls c) in *.
  transitivity (foldr (λ k n, tally (runs k) ths + n) 0 g_upgrade_block_task).
  - unfold get_upgrade_ecalls_num. induction g_upgrade_block_task as [|k l IH]; [done|]. cbn [foldr].
    rewrite IH, Hi. pose proof (tally_nonneg (runs k) ths). destruct (Z.ltb_spec 0 (tally (runs k) ths)); lia.
  - rewrite tally_sum.
    + apply tally_ext. intros fr th. apply eq_true_iff_eq. rewrite existsb_exists, bool_decide_eq_true.
      setoid_rewrite <- list_elem_of_In. unfold runs. setoid_rewrite bool_decide_eq_true. naive_solver.
    + by apply (bool_decide_unpack _); vm_compute.
    + intros j k fr th Hj%bool_decide_eq_true Hk%bool_decide_eq_true. congruence.
Qed.

(** Waiting with a priority above [p] *)
Definition waits_above (p : nat) (_ : frame) (th : thread) : bool :=
  bool_decide (th_phase th ≠ Inside) && Nat.ltb (priority (th_name th)) p.
Lemma higher_waiting p c :
  queue_ok c → (p <= 4)%nat → get_higher_prio_waiting_task_num p (c_tasks c) = tally (waits_above p) (c_calls c).
Proof.
  intros [_ _ _ Hw _] Hp. set (ths := c_calls c) in *. unfold get_higher_prio_waiting_task_num.
  transitivity (foldr (λ k n, tally (waits_at k) ths + n) 0 (seq 0 p)).
  - replace (take p (g_waiting_task_sum_v (c_tasks c))) with (map (λ k, tally (waits_at k) ths) (seq 0 p));
      [by induction (seq 0 p) as [|k l IH]; cbn; [|rewrite IH]|].
    apply list_eq. intros k. rewrite list_lookup_fmap. destruct (decide (k < p)%nat) as [Hk|Hk].
    + rewrite lookup_seq_lt, lookup_take_lt, Hw by lia. done.
    + rewrite lookup_seq_ge, lookup_take_ge by lia. done.
  - rewrite tally_sum; [|apply NoDup_seq|].
    + apply tally_ext. intros fr th. apply eq_true_iff_eq. unfold waits_above, waits_at.
      rewrite existsb_exists, andb_true_iff, bool_decide_eq_true, Nat.ltb_lt.
      setoid_rewrite bool_decide_eq_true. setoid_rewrite in_seq. split; [naive_solver lia|].
      intros [H1 H2]. exists (priority (th_name th)). split; [lia|done].
    + intros j k fr th [_ Hj]%bool_decide_eq_true [_ Hk]%bool_decide_eq_true. congruence.
Qed.

(** Who takes a slot: only when fewer than the maximum are taken, at most
    ENC_PERMANENT_TASK_NUM threads of higher priority wait, and, for a task below
    the highest priority, such that ENC_RESERVED_THREAD_NUM slots stay free. *)
Theorem slot_taken_in_order tid d lock_free th c t' th' :
  reachable c → c_calls c !! (tid, d) = Some th → th_phase th = Passed →
  thread_step lock_free tid th (c_tasks c) = (t', Some th') → th_phase th' = Leaving →
  g_running_task_num (c_tasks c) < ENC_MAX_THREAD_NUM ∧
  tally (waits_above (priority (th_name th))) (c_calls c) <= ENC_PERMANENT_TASK_NUM ∧
  ((0 < priority (th_name th))%nat → g_running_task_num t' <= ENC_MAX_THREAD_NUM - ENC_RESERVED_THREAD_NUM).
Proof.
  intros Hr Hth Hp Hstep Hl. apply reachable_ok in Hr. unfold thread_step in Hstep. rewrite Hp in Hstep.
  destruct (_ || refused _ _) eqn:E; injection Hstep as <- <-; [discriminate Hl|].
  apply orb_false_iff in E as [_ (H1 & H2 & H3)%refused_false].
  rewrite (higher_waiting _ c) in H3 by (done || pose proof (priority_lt (th_name th)); lia).
  split_and!; [done|done|]. intros H0. specialize (H2 H0). unfold acquire. case_match; cbn; lia.
Qed.

(** A call that was refused once *)
Definition failing (th : thread) : Prop := th_status th ≠ SGX_SUCCESS ∧ th_phase th ≠ Inside.
Lemma failing_step lock_free tid th t t' th' :
  failing th → thread_step lock_free tid th t = (t', Some th') → failing th'.
Proof.
  intros [Hs Hp]. unfold thread_step. destruct (th_phase th); repeat case_match; intros [= <- <-]; by split.
Qed.

(** No call is started at that place in [evs]. *)
Definition no_enter (fr : frame) (evs : list event) : Prop := ∀ tname, Enter fr.1 fr.2 tname ∉ evs.
(** What an event does to a call that is under way *)
Lemma call_event fr ev c c' :
  no_enter fr [ev] → do_event ev c = Some c' →
  c_calls c' !! fr = c_calls c !! fr ∨
  ∃ lf th, ev = Step fr.1 fr.2 lf ∧ c_calls c !! fr = Some th ∧
    c_calls c' !! fr = (thread_step lf fr.1 th (c_tasks c)).2.
Proof.
  intros Hne Hev. destruct ev as [i e n|i e lf]; cbn [do_event] in Hev.
  - destruct (may_call _ _ _); [|done]. injection Hev as <-. left. cbn [c_calls]. rewrite lookup_insert_ne; [done|].
    intros <-. apply (Hne n). left.
  - destruct (c_calls c !! (i, e)) as [th|] eqn:Hth; [|done]. destruct (c_calls c !! (i, S e)); [done|].
    destruct (thread_step lf i th (c_tasks c)) as [t' r] eqn:Hst. injection Hev as <-. cbn [c_calls].
    destruct (decide ((i, e) = fr)) as [<-|Hi].
    + right. exists lf, th. split_and!; [done|done|]. cbn [fst snd]. rewrite Hst. cbn [snd].
      destruct r; [by rewrite lookup_insert_eq|by rewrite lookup_delete_eq].
    + left. destruct r; [by rewrite lookup_insert_ne|by rewrite lookup_delete_ne].
Qed.
Lemma thread_events (P : thread → Prop) fr evs c c' :
  (∀ lock_free t t' th th', P th → thread_step lock_free fr.1 th t = (t', Some th') → P th') →
  no_enter fr evs → do_events evs c = Some c' →
  (∀ th, c_calls c !! fr = Some th → P th) → ∀ th, c_calls c' !! fr = Some th → P th.
Proof.
  intros HP. revert c. induction evs as [|ev evs IH]; intros c Hne; cbn [do_events]; [by intros [= <-]|].
  destruct (do_event ev c) as [c1|] eqn:Hev; cbn [mbind option_bind]; [|done]. intros Hevs Hc.
  apply (IH c1); [intros n Hn; apply (Hne n); by right|done|]. intros th Hth.
  destruct (call_event fr ev c c1) as [E|(lf & th0 & _ & H0 & E)]; [intros n Hn%list_elem_of_singleton; apply (Hne n); rewrite Hn; left|done|..].
  - apply Hc. by rewrite <- E.
  - rewrite Hth in E. destruct (thread_step lf fr.1 th0 (c_tasks c)) as [t' r] eqn:Hst. cbn [snd] in E. subst r.
    eapply HP; [by apply Hc|exact Hst].
Qed.

(** A call that met a blocking task once never gets in: the status stays BUSY when
    the blocking task is gone, so whatever happens later, a slot taken included, the
    call returns without having entered the enclave. *)
Theorem blocked_call_never_enters fr th evs c c' :
  c_calls c !! fr = Some th → th_status th = SGX_ERROR_DEVICE_BUSY → th_phase th ≠ Inside →
  no_enter fr evs → do_events evs c = Some c' →
  ∀ th', c_calls c' !! fr = Some th' → th_phase th' ≠ Inside.
Proof.
  intros Hth Hs Hp Hne Hevs th' Hth'.
  apply (thread_events failing fr evs c c') in Hth' as [_ H]; [done|..|done|done|].
  - intros lf t t' x x'. apply failing_step.
  - intros x Hx. rewrite Hth in Hx. simplify_eq. split; [by rewrite Hs|done].
Qed.

(** What is left of a wait with a time limit, in steps of the waiting thread *)
Definition patience (th : thread) : Z :=
  let turns := ENC_TASK_TIMEOUT - th_timeout th in
  match th_phase th with
  | Looping => 3 * turns + 1 | Passed => 3 * turns | AtLoop => 3 * turns - 1 | Leaving => 1 | Inside => 0
  end.
Definition impatient (th : thread) : Prop :=
  ENC_PRIO_TIMEOUT_THRESHOLD < Z.of_nat (priority (th_name th)) ∧
  (th_phase th ≠ Leaving → th_phase th ≠ Inside → th_timeout th < ENC_TASK_TIMEOUT).
Lemma patience_step lock_free tid th t t' th' :
  impatient th → thread_step lock_free tid th t = (t', Some th') →
  th_phase th ≠ Inside ∧ impatient th' ∧ patience th' < patience th.
Proof.
  unfold impatient, patience, thread_step, ENC_TASK_TIMEOUT. intros [Hprio Ht].
  destruct (th_phase th) eqn:Hp; try specialize (Ht ltac:(done) ltac:(done)); repeat case_match; intros [= <- <-];
    cbn in *; split_and!; try done; try lia.
Qed.
Fixpoint own_steps (fr : frame) (evs : list event) : Z :=
  match evs with
  | [] => 0
  | Step i e _ :: evs => (if decide ((i, e) = fr) then 1 else 0) + own_steps fr evs
  | _ :: evs => own_steps fr evs
  end.

Lemma patience_events fr evs c c' th' :
  no_enter fr evs → do_events evs c = Some c' → c_calls c' !! fr = Some th' →
  ∃ th, c_calls c !! fr = Some th ∧ (impatient th → impatient th' ∧ patience th' + own_steps fr evs <= patience th).
Proof.
  revert c. induction evs as [|ev evs IH]; intros c Hne; cbn [do_events].
  { intros [= <-] Hth. exists th'. split; [done|]. intros. split; [done|cbn; lia]. }
  destruct (do_event ev c) as [c1|] eqn:Hev; cbn [mbind option_bind]; [|done]. intros Hevs Hth'.
  destruct (IH c1) as (th1 & Hth1 & Hp1); [intros n Hn; apply (Hne n); by right|done..|]. clear IH Hevs.
  assert (no_enter fr [ev]) as Hne1 by (intros n Hn%list_elem_of_singleton; apply (Hne n); rewrite Hn; left).
  destruct (call_event fr ev c c1 Hne1 Hev) as [E|(lf & th0 & -> & H0 & E)].
  - rewrite E in Hth1. exists th1. split; [done|]. intros Him. destruct (Hp1 Him) as [? Hle]. split; [done|].
    destruct ev as [|i e lf]; cbn [own_steps]; [done|]. case_decide as Hfr; [|lia]. exfalso. subst fr.
    cbn [do_event] in Hev. rewrite Hth1 in Hev. destruct (c_calls c !! (i, S e)); [done|].
    destruct (thread_step lf i th1 (c_tasks c)) as [t' r] eqn:Hst. injection Hev as <-. cbn [c_calls] in E.
    assert (r = Some th1) as -> by (destruct r; [by rewrite lookup_insert_eq, Hth1 in E|by rewrite lookup_delete_eq, Hth1 in E]).
    destruct (patience_step _ _ _ _ _ _ Him Hst) as (_ & _ & Hlt). lia.
  - rewrite Hth1 in E. destruct (thread_step lf fr.1 th0 (c_tasks c)) as [t' r] eqn:Hst. cbn [snd] in E. subst r.
    exists th0. split; [done|]. intros Him. destruct (patience_step _ _ _ _ _ _ Him Hst) as (_ & Him1 & Hlt).
    destruct (Hp1 Him1). split; [done|]. cbn [own_steps]. rewrite decide_True by (by destruct fr). lia.
Qed.

(** A call of low priority gives up: however the others behave, it waits at most
    ninety of its own steps, three for each of the ENC_TASK_TIMEOUT turns, before it
    is in the enclave or has returned. *)
Theorem low_priority_gives_up fr tname evs c c1 c' th :
  ENC_PRIO_TIMEOUT_THRESHOLD < Z.of_nat (priority tname) →
  do_event (Enter fr.1 fr.2 tname) c = Some c1 → no_enter fr evs → do_events evs c1 = Some c' →
  c_calls c' !! fr = Some th → th_phase th ≠ Inside → own_steps fr evs <= 3 * ENC_TASK_TIMEOUT.
Proof.
  intros Hprio Hev Hne Hevs Hth Hout. destruct (patience_events _ _ _ _ _ Hne Hevs Hth) as (th1 & Hth1 & Hp).
  cbn [do_event] in Hev. destruct (may_call _ _ _); [|done]. injection Hev as <-.
  cbn [c_calls] in Hth1. replace (fr.1, fr.2) with fr in Hth1 by (by destruct fr).
  rewrite lookup_insert_eq in Hth1. injection Hth1 as <-.
  destruct Hp as [[_ Hto] Hle]; [by split|]. unfold patience, ENC_TASK_TIMEOUT in *. cbn in Hle.
  destruct (th_phase th); try done; try specialize (Hto ltac:(done) ltac:(done)); lia.
Qed.
End properties.

(** A task blocked by a work report takes its slot after the report is done, fails
    all the same, and keeps the slot although no thread is left. *)
Definition leaking : list event :=
  [Enter 1 0 "Ecall_gen_and_upload_work_report"; Step 1 0 true; Step 1 0 true; Step 1 0 true;
   Enter 2 0 "Ecall_confirm_file"; Step 2 0 true; Step 1 0 true;
   Step 2 0 true; Step 2 0 true; Step 2 0 true; Step 2 0 true].
Example busy_slot_leaks :
  (λ c, (g_running_task_num (c_tasks c), size (c_calls c))) <$> do_events leaking config_start = Some (1, 0%nat).
Proof. vm_compute. reflexivity. Qed.

(** A call made from within a call of the same thread gives the slot back twice: when
    the main loop has made one, fifteen others find place beside it, and when all
    have returned the counter is -1. *)
Definition into (tid depth : nat) (tname : name) : list event :=
  [Enter tid depth tname; Step tid depth true; Step tid depth true; Step tid depth true].
Definition crowd : list event :=
  into 1 0 "Ecall_main_loop" ++ into 1 1 "Ecall_srd_set_change" ++ [Step 1 1 true]
  ++ concat (map (λ tid, into tid 0 "Ecall_gen_key_pair") (seq 2 15)).
Example sixteen_inside :
  (λ c, (threads_inside c, g_running_task_num (c_tasks c), c_again c)) <$> do_events crowd config_start = Some (16, 15, 1).
Proof. vm_compute. reflexivity. Qed.
Example nested_call_frees_twice :
  (λ c, (size (c_calls c), g_running_task_num (c_tasks c)))
    <$> do_events (crowd ++ map (λ tid, Step tid 0 true) (seq 1 16)) config_start = Some (0%nat, -1).
Proof. vm_compute. reflexivity. Qed.

(** ** Evaluated *)
Definition run_events (evs : list event) : config := default config_start (do_events evs config_start).
Lemma run_events_reachable evs : reachable (run_events evs).
Proof.
  unfold run_events. destruct (do_events evs config_start) as [c|] eqn:E; [|apply reachable_start].
  eapply reachable_events; [apply reachable_start|exact E].
Qed.
(** Two threads inside, one waiting *)
Definition busy : list event :=
  into 1 0 "Ecall_main_loop" ++ into 2 0 "Ecall_seal_file" ++ [Enter 3 0 "Ecall_get_workload"; Step 3 0 true].
Lemma busy_reachable : reachable (run_events busy).
Proof. apply run_events_reachable. Qed.
Lemma busy_counts :
  threads_inside (run_events busy) = 2 ∧ g_running_task_num (c_tasks (run_events busy)) = 2 ∧
  get_upgrade_ecalls_num (c_tasks (run_events busy)) = 1.
Proof. vm_compute. done. Qed.

Lemma enclave_threads_bounded_witness : threads_inside (run_events crowd) <= ENC_MAX_THREAD_NUM + nested crowd ∧ nested crowd = 1.
Proof.
  split; [|by vm_compute]. apply (enclave_threads_bounded crowd (run_events crowd)).
  vm_compute. reflexivity.
Defined.
Lemma upgrade_ecalls_exact_witness :
  tally (λ _ th, bool_decide (th_name th ∈ g_upgrade_block_task)) (c_calls (run_events busy)) = 1.
Proof.
  destruct busy_counts as (_ & _ & E). rewrite <- E. symmetry. apply (upgrade_ecalls_exact _ busy_reachable).
Defined.
Definition third : thread := Thread "Ecall_get_workload" SGX_SUCCESS 0 Passed.
Lemma third_passed : c_calls (run_events busy) !! (3, 0)%nat = Some third.
Proof. vm_compute. done. Qed.
Lemma third_step :
  thread_step true 3 third (c_tasks (run_events busy))
  = (acquire 3 (th_name third) (c_tasks (run_events busy)), Some (with_phase Leaving third)).
Proof. vm_compute. done. Qed.
Lemma slot_taken_in_order_witness :
  g_running_task_num (acquire 3 (th_name third) (c_tasks (run_events busy))) <= 14.
Proof.
  apply (slot_taken_in_order 3 0 true third _ _ _ busy_reachable third_passed eq_refl third_step eq_refl).
  vm_compute. lia.
Defined.
Definition blocked_at : config := default config_start (do_events (take 6 leaking) config_start).
Definition blocked_later : config := default config_start (do_events (take 4 (drop 6 leaking)) blocked_at).
Definition blocked_thread : thread := Thread "Ecall_confirm_file" SGX_ERROR_DEVICE_BUSY 0 AtLoop.
Lemma blocked_facts :
  c_calls blocked_at !! (2, 0)%nat = Some blocked_thread ∧
  do_events (take 4 (drop 6 leaking)) blocked_at = Some blocked_later ∧
  c_calls blocked_later !! (2, 0)%nat = Some (with_phase Leaving blocked_thread).
Proof. vm_compute. done. Qed.
Lemma blocked_no_enter : no_enter (2, 0)%nat (take 4 (drop 6 leaking)).
Proof.
  intros n H. cbn in H. rewrite !elem_of_cons, elem_of_nil in H. by repeat destruct H as [H|H].
Qed.
Lemma blocked_call_never_enters_witness : th_phase (with_phase Leaving blocked_thread) ≠ Inside.
Proof.
  destruct blocked_facts as (H1 & H2 & H3).
  apply (blocked_call_never_enters (2, 0)%nat blocked_thread (take 4 (drop 6 leaking)) blocked_at blocked_later H1
    eq_refl ltac:(done) blocked_no_enter H2 _ H3).
Defined.
Definition before_third : config := run_events (take 8 busy).
Definition third_entered : config := default config_start (do_event (Enter 3 0 "Ecall_get_workload") before_third).
Definition third_events : list event := [Step 3 0 true; Step 3 0 false; Step 3 0 true].
Definition third_later : config := default config_start (do_events third_events third_entered).
Lemma third_facts :
  do_event (Enter 3 0 "Ecall_get_workload") before_third = Some third_entered ∧
  do_events third_events third_entered = Some third_later ∧
  c_calls third_later !! (3, 0)%nat = Some (Thread "Ecall_get_workload" SGX_SUCCESS 1 Looping).
Proof. vm_compute. done. Qed.
Lemma third_no_enter : no_enter (3, 0)%nat third_events.
Proof. intros n H. unfold third_events in H. rewrite !elem_of_cons, elem_of_nil in H. by repeat destruct H as [H|H]. Qed.
Lemma low_priority_gives_up_witness : own_steps (3, 0)%nat third_events <= 90.
Proof.
  destruct third_facts as (H1 & H2 & H3).
  apply (low_priority_gives_up (3, 0)%nat "Ecall_get_workload" third_events before_third third_entered third_later _
    ltac:(vm_compute; reflexivity) H1 third_no_enter H2 H3 ltac:(done)).
Defined.
