(* ===== verification/AppEcalls.v ===== *)
(** * Calling the enclave through the queue (app/ecalls/ECalls.cpp)

    [try_get_enclave] as one thread runs it, the others acting while it sleeps, and
    the wrappers [Ecall_*]: wait for a slot, call the enclave, give the slot back.
    The status the SGX runtime itself reports for a call is success. *)
From stdpp Require Import gmap.
From S2P Require Import Prelude StdMap Status Hex Json JsonParse JsonText Host.
From S2P Require Import State Demo Persist Schedule Workload Report Srd Storage.
From S2P Require Import Validator Identity Upgrade Attest Ecalls AppTask.

(** The application's queue, and the enclave with its upgrade buffer *)
Record app (W : Type) := App { a_tasks : tasks; a_enclave : enclave W; a_buffer : upgrade_buffer }.
Arguments App {W}.
Arguments a_tasks {W}.
Arguments a_enclave {W}.
Arguments a_buffer {W}.

(** What the other threads of the application do while one sleeps, whether a [try_lock]
    gets the lock, and which entry points the thread calls again, in order, while a
    call of the given one has called the application *)
Class AppThreads (W : Type) := {
  app_others : app W → app W;
  try_lock : app W → bool;
  calls_back : name → app W → list name
}.

Section wrappers.
Context {W : Type} `{!Host W} `{!IdHost W} `{!UpgradeHost W} `{!AttestHost W} `{!Threads W} `{!AppThreads W}.
Abbreviation M := (Host.M (app W)).
Abbreviation E := (Host.M (enclave W)).

Definition on_tasks (f : tasks → tasks) : M unit :=
  modify (λ a, App (f (a_tasks a)) (a_enclave a) (a_buffer a)).
(** A call into the enclave *)
Definition in_enclave {A} (m : E A) : M A := λ a,
  match m (a_enclave a) with
  | Ok (x, e) => Ok (x, App (a_tasks a) e (a_buffer a))
  | UB => UB | Throw => Throw | NoFuel => NoFuel
  end.

(** The waiting loop; the end of a turn sleeps. *)
Fixpoint wait_loop (fuel : nat) (tid : nat) (th : thread) : M sgx_status :=
  match fuel with
  | O => of_res NoFuel
  | S fuel =>
      a ← get;
      let '(t, r) := thread_step (try_lock a) tid th (a_tasks a) in
      on_tasks (λ _, t);;
      match r with
      | None => mret (th_status th)
      | Some th' =>
          match th_phase th' with
          | Inside => mret SGX_SUCCESS
          | Looping => modify app_others;; wait_loop fuel tid th'
          | _ => wait_loop fuel tid th'
          end
      end
  end.
Definition try_get_enclave (fuel tid : nat) (tname : name) : M sgx_status :=
  on_tasks (enter tname);; wait_loop fuel tid (Thread tname SGX_SUCCESS 0 Looping).

Variable fuel : nat.
Variable tid : nat.

(** The body every wrapper has *)
Definition wrapped {A} (tname : name) (call : M A) : M (sgx_status * option A) :=
  ret ← try_get_enclave fuel tid tname;
  if negb (sgx_ok ret) then mret (ret, None)
  else
    x ← call;
    on_tasks (free_enclave tid tname);;
    mret (SGX_SUCCESS, Some x).

(** Two entry points call functions of the application from which the enclave may be
    entered again: the main loop changes the srd ([ocall_srd_change]) and an upgrade
    enters the network ([ocall_entry_network]).  What such a call does to the enclave
    is part of what the function does to it; here is its way through the queue. *)
Fixpoint calling_back (ns : list name) : M unit :=
  match ns with
  | [] => mret tt
  | n :: ns => wrapped n (mret tt);; calling_back ns
  end.
Definition in_enclave_back {A} (tname : name) (m : E A) : M A :=
  ns ← gets (calls_back tname);
  x ← in_enclave m;
  calling_back ns;;
  mret x.

Definition Ecall_srd_increase (path : bytes) : M (sgx_status * option unit) :=
  wrapped "Ecall_srd_increase" (in_enclave (ecall_srd_increase path)).
Definition Ecall_srd_decrease (change : Z) : M (sgx_status * option Z) :=
  wrapped "Ecall_srd_decrease" (in_enclave (ecall_srd_decrease (i64 change))).
Definition Ecall_main_loop (turns : nat) : M (sgx_status * option unit) :=
  wrapped "Ecall_main_loop" (in_enclave_back "Ecall_main_loop" (ecall_main_loop turns)).
Definition Ecall_restore_metadata : M (sgx_status * option crust_status) :=
  wrapped "Ecall_restore_metadata" (in_enclave ecall_restore_metadata).
Definition Ecall_cmp_chain_account_id (account_id : bytes) : M (sgx_status * option crust_status) :=
  wrapped "Ecall_cmp_chain_account_id" (in_enclave (ecall_cmp_chain_account_id account_id)).
Definition Ecall_gen_and_upload_work_report (block_hash : bytes) (block_height : Z)
    : M (sgx_status * option crust_status) :=
  wrapped "Ecall_gen_and_upload_work_report"
    (in_enclave (ecall_gen_and_upload_work_report block_hash block_height)).
Definition Ecall_gen_key_pair (account_id : option bytes) : M (sgx_status * option sgx_status) :=
  wrapped "Ecall_gen_key_pair" (in_enclave (ecall_gen_key_pair account_id)).
Definition Ecall_get_quote_report (hw_sim : bool) (target_info : bytes)
    : M (sgx_status * option (sgx_status * bytes)) :=
  wrapped "Ecall_get_quote_report" (in_enclave (ecall_get_quote_report hw_sim target_info)).
Definition Ecall_gen_sgx_measurement : M (sgx_status * option sgx_status) :=
  wrapped "Ecall_gen_sgx_measurement" (in_enclave ecall_gen_sgx_measurement).
Definition Ecall_verify_and_upload_identity (IASReport : list bytes) : M (sgx_status * option crust_status) :=
  wrapped "Ecall_verify_and_upload_identity" (in_enclave (ecall_verify_and_upload_identity IASReport)).
Definition Ecall_seal_file (p_tree path : bytes) : M (sgx_status * option (crust_status * bytes)) :=
  wrapped "Ecall_seal_file" (in_enclave (ecall_seal_file p_tree path)).
Definition Ecall_unseal_file (files : list bytes) (p_dir : bytes)
    : M (sgx_status * option (crust_status * bytes)) :=
  wrapped "Ecall_unseal_file" (in_enclave (ecall_unseal_file files p_dir)).
Definition Ecall_srd_set_change (change : Z) : M (sgx_status * option unit) :=
  wrapped "Ecall_srd_set_change" (in_enclave (ecall_srd_set_change change)).
Definition Ecall_srd_update_metadata (hashs : bytes) : M (sgx_status * option unit) :=
  wrapped "Ecall_srd_update_metadata" (in_enclave (ecall_srd_update_metadata hashs)).
Definition Ecall_confirm_file (hash : bytes) : M (sgx_status * option crust_status) :=
  wrapped "Ecall_confirm_file" (in_enclave (ecall_confirm_file hash)).
Definition Ecall_delete_file (hash : bytes) : M (sgx_status * option crust_status) :=
  wrapped "Ecall_delete_file" (in_enclave (ecall_delete_file hash)).
Definition Ecall_gen_upgrade_data (block_height : Z) : M (sgx_status * option crust_status) :=
  wrapped "Ecall_gen_upgrade_data" (in_enclave (ecall_gen_upgrade_data block_height)).
(** The buffer is a global of the enclave. *)
Definition Ecall_restore_from_upgrade (meta : bytes) (total_size : Z) (transfer_end : bool)
    : M (sgx_status * option crust_status) :=
  wrapped "Ecall_restore_from_upgrade"
    (a ← get;
     r ← in_enclave_back "Ecall_restore_from_upgrade"
           (ecall_restore_from_upgrade (a_buffer a) meta total_size transfer_end);
     modify (λ a, App (a_tasks a) (a_enclave a) r.1);;
     mret r.2).
Definition Ecall_enable_upgrade (block_height : Z) : M (sgx_status * option crust_status) :=
  wrapped "Ecall_enable_upgrade" (in_enclave (ecall_enable_upgrade block_height)).
Definition Ecall_disable_upgrade : M (sgx_status * option unit) :=
  wrapped "Ecall_disable_upgrade" (in_enclave ecall_disable_upgrade).
Definition Ecall_id_get_info : M (sgx_status * option unit) :=
  wrapped "Ecall_id_get_info" (in_enclave ecall_id_get_info).
Definition Ecall_get_workload : M (sgx_status * option unit) :=
  wrapped "Ecall_get_workload" (in_enclave ecall_get_workload).

(** Any of them, with the status of the enclave where there is one *)
Definition Ecall (c : ecall) : M (sgx_status * option (option crust_status)) :=
  let status (m : M (sgx_status * option crust_status)) := r ← m; mret (r.1, Some <$> r.2) in
  let pair {A} (m : M (sgx_status * option (crust_status * A))) := r ← m; mret (r.1, (λ x, Some x.1) <$> r.2) in
  let other {A} (m : M (sgx_status * option A)) := r ← m; mret (r.1, (λ _, None) <$> r.2) in
  match c with
  | SrdIncrease path => other (Ecall_srd_increase path)
  | SrdDecrease change => other (Ecall_srd_decrease change)
  | SrdSetChange change => other (Ecall_srd_set_change change)
  | SrdUpdateMetadata hashs => other (Ecall_srd_update_metadata hashs)
  | MainLoop turns => other (Ecall_main_loop turns)
  | RestoreMetadata => status Ecall_restore_metadata
  | CmpChainAccountId account_id => status (Ecall_cmp_chain_account_id account_id)
  | GenAndUploadWorkReport hash height => status (Ecall_gen_and_upload_work_report hash height)
  | GenKeyPair account_id => other (Ecall_gen_key_pair account_id)
  | GetQuoteReport hw_sim target_info => other (Ecall_get_quote_report hw_sim target_info)
  | GenSgxMeasurement => other Ecall_gen_sgx_measurement
  | VerifyAndUploadIdentity report => status (Ecall_verify_and_upload_identity report)
  | SealFile p_tree path => pair (Ecall_seal_file p_tree path)
  | UnsealFile files p_dir => pair (Ecall_unseal_file files p_dir)
  | ConfirmFile hash => status (Ecall_confirm_file hash)
  | DeleteFile hash => status (Ecall_delete_file hash)
  | EnableUpgrade height => status (Ecall_enable_upgrade height)
  | DisableUpgrade => other Ecall_disable_upgrade
  | GenUpgradeData height => status (Ecall_gen_upgrade_data height)
  | RestoreFromUpgrade meta size fin => status (Ecall_restore_from_upgrade meta size fin)
  | IdGetInfo => other Ecall_id_get_info
  | GetWorkload => other Ecall_get_workload
  end.
End wrappers.

Definition name_of (c : ecall) : name :=
  match c with
  | SrdIncrease _ => "Ecall_srd_increase"
  | SrdDecrease _ => "Ecall_srd_decrease"
  | SrdSetChange _ => "Ecall_srd_set_change"
  | SrdUpdateMetadata _ => "Ecall_srd_update_metadata"
  | MainLoop _ => "Ecall_main_loop"
  | RestoreMetadata => "Ecall_restore_metadata"
  | CmpChainAccountId _ => "Ecall_cmp_chain_account_id"
  | GenAndUploadWorkReport _ _ => "Ecall_gen_and_upload_work_report"
  | GenKeyPair _ => "Ecall_gen_key_pair"
  | GetQuoteReport _ _ => "Ecall_get_quote_report"
  | GenSgxMeasurement => "Ecall_gen_sgx_measurement"
  | VerifyAndUploadIdentity _ => "Ecall_verify_and_upload_identity"
  | SealFile _ _ => "Ecall_seal_file"
  | UnsealFile _ _ => "Ecall_unseal_file"
  | ConfirmFile _ => "Ecall_confirm_file"
  | DeleteFile _ => "Ecall_delete_file"
  | EnableUpgrade _ => "Ecall_enable_upgrade"
  | DisableUpgrade => "Ecall_disable_upgrade"
  | GenUpgradeData _ => "Ecall_gen_upgrade_data"
  | RestoreFromUpgrade _ _ _ => "Ecall_restore_from_upgrade"
  | IdGetInfo => "Ecall_id_get_info"
  | GetWorkload => "Ecall_get_workload"
  end%string.

(** ** What the queue adds to a call *)

(** Equal as far as the code can tell: a counter of zero may be present or not. *)
Definition same_tasks (t t' : tasks) : Prop :=
  g_waiting_task_sum_v t' = g_waiting_task_sum_v t ∧ g_running_task_um t' = g_running_task_um t ∧
  g_running_task_num t' = g_running_task_num t ∧
  ∀ n, counter n (g_invoked_ecalls_um t') = counter n (g_invoked_ecalls_um t).

(** The same, but for [k] slots given back too often *)
Definition given_back (k : Z) (t t' : tasks) : Prop :=
  g_waiting_task_sum_v t' = g_waiting_task_sum_v t ∧ g_running_task_um t' = g_running_task_um t ∧
  g_running_task_num t' = g_running_task_num t - k ∧
  ∀ n, counter n (g_invoked_ecalls_um t') = counter n (g_invoked_ecalls_um t).

(** The tasks while the call runs, and after it *)
Definition entered (tid : nat) (tname : name) (t : tasks) : tasks :=
  leave tname SGX_SUCCESS (acquire tid tname (enter tname t)).
Lemma round_trip tid tname t :
  g_running_task_um t !! tid = None → same_tasks t (free_enclave tid tname (entered tid tname t)).
Proof.
  intros Hn. unfold entered, leave, acquire. cbn [enter g_running_task_um]. rewrite Hn.
  unfold same_tasks, free_enclave. cbn [enter g_waiting_task_sum_v g_invoked_ecalls_um g_running_task_um g_running_task_num].
  split_and!.
  - apply list_eq. intros i. destruct (decide (i = priority tname)) as [->|Hi].
    + rewrite !list_lookup_alter_eq. destruct (g_waiting_task_sum_v t !! priority tname) as [z|]; [|done].
      cbn. f_equal. lia.
    + by rewrite !list_lookup_alter_ne.
  - rewrite delete_insert_eq. by apply delete_id.
  - lia.
  - intros n. rewrite decide_True by done. rewrite !counter_add. case_decide; lia.
Qed.

(** A call from within, on the queue *)
Definition back (tid : nat) (n : name) (t : tasks) : tasks := free_enclave tid n (entered tid n t).
(** The first one finds its thread entered, gives the slot back and takes the thread out
    of the map; the others, and what is left of the call they are made from, come and
    go; when that returns, it gives back the slot once more. *)
Lemma back_first tid tname n t :
  g_running_task_um t !! tid = None →
  let t1 := back tid n (entered tid tname t) in
  g_running_task_um t1 = g_running_task_um t ∧ g_running_task_num t1 = g_running_task_num t ∧
  g_waiting_task_sum_v t1 = g_waiting_task_sum_v t ∧
  ∀ m, counter m (g_invoked_ecalls_um t1) = counter m (g_invoked_ecalls_um t) + (if decide (tname = m) then 1 else 0).
Proof.
  intros Hn. pose proof (round_trip tid tname t Hn) as (Hw & _ & _ & Hc).
  assert (g_running_task_um (entered tid tname t) = <[tid := {[tname := 1]}]> (g_running_task_um t)) as Eum.
  { unfold entered, leave, acquire. cbn [enter g_running_task_um]. by rewrite Hn. }
  assert (g_running_task_num (entered tid tname t) = g_running_task_num t + 1) as Enum.
  { unfold entered, leave, acquire. cbn [enter g_running_task_um]. by rewrite Hn. }
  intros t1. subst t1. remember (entered tid tname t) as t0 eqn:E0. clear E0.
  unfold back, entered, leave, acquire. cbn [enter g_running_task_um]. rewrite Eum, lookup_insert_eq. unfold free_enclave in *.
  cbn [enter g_waiting_task_sum_v g_invoked_ecalls_um g_running_task_um g_running_task_num] in *.
  split_and!.
  - rewrite insert_insert_eq, delete_insert_eq. by apply delete_id.
  - lia.
  - rewrite Hw. apply list_eq. intros i. destruct (decide (i = priority n)) as [->|Hi].
    + rewrite !list_lookup_alter_eq. destruct (g_waiting_task_sum_v t !! priority n); [|done]. cbn. f_equal. lia.
    + by rewrite !list_lookup_alter_ne.
  - intros m. specialize (Hc m). rewrite decide_True by done. rewrite !counter_add in *.
    repeat case_decide; lia.
Qed.
Lemma back_more tid n t :
  g_running_task_um t !! tid = None → same_tasks t (back tid n t).
Proof. apply round_trip. Qed.
Lemma same_tasks_trans t1 t2 t3 : same_tasks t1 t2 → same_tasks t2 t3 → same_tasks t1 t3.
Proof.
  intros (A1 & B1 & C1 & D1) (A2 & B2 & C2 & D2). split_and!; [congruence..|]. intros n. by rewrite D2, D1.
Qed.
Lemma back_all tid ns t :
  g_running_task_um t !! tid = None → same_tasks t (fold_left (λ t n, back tid n t) ns t).
Proof.
  revert t. induction ns as [|n ns IH]; intros t Ht; cbn [fold_left]; [by split_and!|].
  pose proof (back_more tid n t Ht) as Hs. eapply same_tasks_trans; [exact Hs|]. apply IH.
  destruct Hs as (_ & -> & _). done.
Qed.
Lemma round_trip_back tid tname ns t :
  g_running_task_um t !! tid = None →
  given_back (if decide (ns = []) then 0 else 1) t
    (free_enclave tid tname (fold_left (λ t n, back tid n t) ns (entered tid tname t))).
Proof.
  intros Ht. destruct ns as [|n ns]; cbn [fold_left].
  { rewrite decide_True by done. destruct (round_trip tid tname t Ht) as (? & ? & ? & ?). split_and!; try done. lia. }
  rewrite decide_False by done.
  destruct (back_first tid tname n t Ht) as (H1 & H2 & H3 & H4).
  set (t1 := back tid n _) in *. destruct (back_all tid ns t1) as (G1 & G2 & G3 & G4); [by rewrite H1|].
  set (t2 := fold_left _ _ _) in *. unfold given_back, free_enclave.
  cbn [g_waiting_task_sum_v g_invoked_ecalls_um g_running_task_um g_running_task_num]. split_and!.
  - by rewrite G1, H3.
  - rewrite G2, H1. by apply delete_id.
  - rewrite G3, H2. cbn. lia.
  - intros m. rewrite counter_add, G4, H4. case_decide; lia.
Qed.

Section properties.
Context {W : Type} `{!Host W} `{!IdHost W} `{!UpgradeHost W} `{!AttestHost W} `{!Threads W} `{!AppThreads W}.
Implicit Types (a : app W).

(** The way to the enclave is open: no blocking task, a slot, no queue in front *)
Record way_open (tname : name) a : Prop := {
  free_blocked : task_blocked tname (enter tname (a_tasks a)) = false;
  free_slot : refused tname (enter tname (a_tasks a)) = false;
  free_lock : try_lock (App (enter tname (a_tasks a)) (a_enclave a) (a_buffer a)) = true
}.
(** and the thread is not inside already. *)
Record way_free (tid : nat) (tname : name) a : Prop := {
  free_way : way_open tname a;
  free_thread : g_running_task_um (a_tasks a) !! tid = None
}.
Definition with_tasks (t : tasks) a : app W := App t (a_enclave a) (a_buffer a).
(** It is open for one call after the other from within. *)
Fixpoint ways_open (tid : nat) (ns : list name) a : Prop :=
  match ns with
  | [] => True
  | n :: ns => way_open n a ∧ ways_open tid ns (with_tasks (back tid n (a_tasks a)) a)
  end.
Lemma wait_step fuel tid th th' t a :
  thread_step (try_lock a) tid th (a_tasks a) = (t, Some th') → th_phase th' ≠ Looping →
  wait_loop (S fuel) tid th a =
  (if decide (th_phase th' = Inside) then mret SGX_SUCCESS else wait_loop fuel tid th')
    (App t (a_enclave a) (a_buffer a)).
Proof.
  intros Hst Hp. cbn [wait_loop]. unfold get, mbind, m_bind, on_tasks, modify. rewrite Hst.
  case_decide as Hi; [by rewrite Hi|]. by destruct (th_phase th').
Qed.
Lemma try_get_open fuel tid tname a :
  way_open tname a → (4 <= fuel)%nat →
  try_get_enclave fuel tid tname a = Ok (SGX_SUCCESS, with_tasks (entered tid tname (a_tasks a)) a).
Proof.
  intros [Hb Hs Hl] Hf. do 4 (destruct fuel as [|fuel]; [lia|]).
  pose proof (refused_false _ _ Hs) as (Hnum & _ & _). apply Z.ltb_lt in Hnum.
  unfold try_get_enclave. rewrite (bind_run _ _ _ tt (App (enter tname (a_tasks a)) (a_enclave a) (a_buffer a))) by done.
  rewrite (wait_step _ _ _ (Thread tname SGX_SUCCESS 0 Passed) (enter tname (a_tasks a)));
    [rewrite decide_False by done|unfold thread_step; cbn; by rewrite Hb|done].
  rewrite (wait_step _ _ _ (Thread tname SGX_SUCCESS 0 Leaving) (acquire tid tname (enter tname (a_tasks a))));
    [rewrite decide_False by done|unfold thread_step; cbn [th_phase a_tasks th_name a_enclave a_buffer]; by rewrite Hl, Hs, Hnum|done].
  by rewrite (wait_step _ _ _ (Thread tname SGX_SUCCESS 0 Inside) (entered tid tname (a_tasks a))).
Qed.

(** A wrapper around a call into the enclave alone *)
Lemma wrapped_open {A} fuel tid tname (call : Host.M (app W) A) a :
  way_open tname a → (4 <= fuel)%nat →
  wrapped fuel tid tname call a =
  (x ← call; on_tasks (free_enclave tid tname);; mret (SGX_SUCCESS, Some x))
    (with_tasks (entered tid tname (a_tasks a)) a).
Proof. intros Hw Hf. unfold wrapped. by rewrite (bind_run _ _ _ _ _ (try_get_open _ tid _ _ Hw Hf)). Qed.
Lemma calling_back_open fuel tid ns a :
  ways_open tid ns a → (4 <= fuel)%nat →
  calling_back fuel tid ns a = Ok (tt, with_tasks (fold_left (λ t n, back tid n t) ns (a_tasks a)) a).
Proof.
  intros Hw Hf. revert a Hw. induction ns as [|n ns IH]; intros a Hw; cbn [calling_back fold_left]; [by destruct a|].
  destruct Hw as [Hn Hw]. rewrite (bind_run _ _ a (SGX_SUCCESS, Some tt) (with_tasks (back tid n (a_tasks a)) a)).
  - rewrite IH by done. done.
  - by rewrite wrapped_open.
Qed.

(** Which calls are made from within a call that begins in [a] *)
Definition entered_app (tid : nat) (tname : name) a : app W := with_tasks (entered tid tname (a_tasks a)) a.
Definition from_within (tid : nat) (c : ecall) a : list name :=
  match c with
  | MainLoop _ | RestoreFromUpgrade _ _ _ => calls_back (name_of c) (entered_app tid (name_of c) a)
  | _ => []
  end.

(** The outcome of a call from outside, given that of the call itself, and how many slots
    are given back too often *)
Definition passed_on (k : Z) a (inner : res ((upgrade_buffer * option crust_status) * enclave W))
    (outer : res ((sgx_status * option (option crust_status)) * app W)) : Prop :=
  match inner with
  | Ok (r, e) => ∃ t, outer = Ok ((SGX_SUCCESS, Some r.2), App t e r.1) ∧ given_back k (a_tasks a) t
  | UB => outer = UB | Throw => outer = Throw | NoFuel => outer = NoFuel
  end.
Lemma passed_on_call {A} fuel tid tname (m : Host.M (enclave W) A) (f : A → option crust_status) a :
  way_free tid tname a → (4 <= fuel)%nat →
  passed_on 0 a ((x ← m; mret (a_buffer a, f x)) (a_enclave a))
    ((r ← wrapped fuel tid tname (in_enclave m); mret (r.1, f <$> r.2)) a).
Proof.
  intros [Hw Ht] Hf. unfold mbind at 2, m_bind at 2. rewrite wrapped_open by done. unfold in_enclave, mbind, m_bind.
  cbn [a_enclave a_tasks a_buffer with_tasks].
  destruct (m (a_enclave a)) as [[x e]| | |]; cbn; [|done..].
  eexists. split; [done|]. apply (round_trip_back tid tname [] _ Ht).
Qed.
Lemma in_enclave_back_open {A} fuel tid tname (m : Host.M (enclave W) A) a :
  (4 <= fuel)%nat → (∀ x e, m (a_enclave a) = Ok (x, e) → ways_open tid (calls_back tname a) (App (a_tasks a) e (a_buffer a))) →
  in_enclave_back fuel tid tname m a =
  match m (a_enclave a) with
  | Ok (x, e) => Ok (x, App (fold_left (λ t n, back tid n t) (calls_back tname a) (a_tasks a)) e (a_buffer a))
  | UB => UB | Throw => Throw | NoFuel => NoFuel
  end.
Proof.
  intros Hf Hw. unfold in_enclave_back. rewrite (bind_run (gets _) _ a (calls_back tname a) a) by done.
  unfold in_enclave. unfold mbind at 1, m_bind at 1. destruct (m (a_enclave a)) as [[x e]| | |]; [|done..].
  erewrite bind_run; [|by apply calling_back_open; [apply (Hw x)|]]. done.
Qed.

(** Arguments that keep their value on the way in: [size_t] becomes [long]. *)
Definition passed_unchanged (c : ecall) : Prop :=
  match c with SrdDecrease change => 0 <= change < 2 ^ 63 | _ => True end.

(** C24: the queue is transparent, for every entry point: when nothing stands in the way
    of a call, nor of the calls made from within it, the call through its wrapper does
    to the enclave exactly what the call itself does, with its answer.  As far as this
    thread is concerned it leaves the queue as it found it; only if there was a call
    from within, which the main loop and the restoring of an upgrade make, the counter
    of the threads inside is one too low afterwards. *)
Theorem wrapper_transparent fuel tid c a :
  way_free tid (name_of c) a → passed_unchanged c → (4 <= fuel)%nat →
  let ns := from_within tid c a in
  (∀ r e, run_ecall c (a_buffer a) (a_enclave a) = Ok (r, e) →
     ways_open tid ns (App (entered tid (name_of c) (a_tasks a)) e (a_buffer a))) →
  passed_on (if decide (ns = []) then 0 else 1) a (run_ecall c (a_buffer a) (a_enclave a)) (Ecall fuel tid c a).
Proof.
  intros Hw Hc Hf ns Hns. destruct c; cbn [name_of passed_unchanged from_within] in *; subst ns;
    try (by apply (passed_on_call fuel tid _ _ (λ _, None)));
    try (by apply (passed_on_call fuel tid _ _ Some));
    try (by apply (passed_on_call fuel tid _ _ (λ x, Some x.1))).
  - cbn [run_ecall Ecall]. unfold Ecall_srd_decrease. rewrite i64_small by lia.
    by apply (passed_on_call fuel tid _ _ (λ _, None)).
  - cbn [run_ecall Ecall] in *. unfold Ecall_main_loop. destruct Hw as [Hw Ht].
    unfold mbind, m_bind. rewrite wrapped_open by done. unfold mbind, m_bind. rewrite in_enclave_back_open; [|done|].
    2: { intros x e E. apply (Hns (a_buffer a, None)). by rewrite (bind_run _ _ _ _ _ E). }
    cbn [a_enclave a_tasks a_buffer with_tasks].
    destruct (ecall_main_loop turns (a_enclave a)) as [[x e]| | |]; cbn; [|done..].
    eexists. split; [done|]. by apply round_trip_back.
  - cbn [run_ecall Ecall] in *. unfold Ecall_restore_from_upgrade. destruct Hw as [Hw Ht].
    unfold mbind, m_bind. rewrite wrapped_open by done. unfold mbind, m_bind, get, modify. cbn [a_buffer with_tasks].
    rewrite in_enclave_back_open; [|done|].
    2: { intros x e E. apply (Hns (x.1, Some x.2)). by rewrite (bind_run _ _ _ _ _ E). }
    cbn [a_enclave a_tasks a_buffer with_tasks].
    destruct (ecall_restore_from_upgrade _ _ _ _ (a_enclave a)) as [[[b st] e]| | |]; cbn; [|done..].
    eexists. split; [done|]. by apply round_trip_back.
Qed.

(** The state of the enclave, without the queue *)
Definition enclave_of a : enclave W * upgrade_buffer := (a_enclave a, a_buffer a).
Lemma wait_loop_frame fuel tid th a st a' :
  (∀ a, enclave_of (app_others a) = enclave_of a) →
  wait_loop fuel tid th a = Ok (st, a') → enclave_of a' = enclave_of a.
Proof.
  intros Ho. revert th a. induction fuel as [|fuel IH]; intros th a; [done|]. cbn [wait_loop].
  unfold get, mbind, m_bind, on_tasks, modify. destruct (thread_step _ _ _ _) as [t r].
  destruct r as [th'|]; [|by intros [_ ->]%ret_Ok]. destruct (th_phase th');
    try (by intros ->%IH); try (by intros [_ ->]%ret_Ok). intros ->%IH. by rewrite Ho.
Qed.
Lemma wrapped_refused {A} fuel tid tname (call : Host.M (app W) A) a st x a' :
  (∀ a, enclave_of (app_others a) = enclave_of a) →
  wrapped fuel tid tname call a = Ok ((st, x), a') → st ≠ SGX_SUCCESS →
  x = None ∧ enclave_of a' = enclave_of a.
Proof.
  intros Ho H Hst. unfold wrapped in H. apply bind_Ok in H as (ret & a1 & H1 & H).
  unfold try_get_enclave in H1. apply bind_Ok in H1 as ([] & a2 & ->%modify_Ok & H1).
  apply wait_loop_frame in H1; [|done]. destruct (sgx_ok ret) eqn:E; cbn [negb] in H.
  - apply bind_Ok in H as (y & a3 & _ & H). apply bind_Ok in H as ([] & a4 & _ & H).
    by apply ret_Ok in H as [[= -> _] _].
  - apply ret_Ok in H as [[= _ ->] ->]. done.
Qed.
Lemma answer_refused {A} fuel tid tname (call : Host.M (app W) A) (f : A → option crust_status) a st r a' :
  (∀ a, enclave_of (app_others a) = enclave_of a) →
  (r ← wrapped fuel tid tname call; mret (r.1, f <$> r.2)) a = Ok ((st, r), a') → st ≠ SGX_SUCCESS →
  r = None ∧ enclave_of a' = enclave_of a.
Proof.
  intros Ho H Hst. apply bind_Ok in H as ([st1 x] & a1 & H1 & H). apply ret_Ok in H as [[= -> ->] ->].
  by destruct (wrapped_refused _ _ _ _ _ _ _ _ Ho H1 Hst) as [-> ?].
Qed.

(** A call the queue turns away, busy or timed out, has not touched the enclave:
    as long as the other threads leave it alone, it is as before, and there is no
    answer. *)
Theorem refused_call_untouched fuel tid c a st r a' :
  (∀ a, enclave_of (app_others a) = enclave_of a) →
  Ecall fuel tid c a = Ok ((st, r), a') → st ≠ SGX_SUCCESS →
  r = None ∧ enclave_of a' = enclave_of a.
Proof. intros Ho. destruct c; by apply answer_refused. Qed.
End properties.

(** ** Evaluated *)

(** Nobody else; the work report that blocks a confirmation stays in flight. *)
#[global] Instance demo_app_threads : AppThreads demo := {
  app_others a := a;
  try_lock _ := true;
  calls_back tname _ :=
    if decide (tname = "Ecall_main_loop"%string) then ["Ecall_srd_set_change"; "Ecall_srd_decrease"]%string else []
}.
Definition demo_app : app demo := App no_tasks demo_fresh no_upgrade_buffer.
Definition demo_call : ecall := GenKeyPair (Some (str "acc")).
Lemma demo_way_free c : c = demo_call ∨ c = MainLoop 0 → way_free 7 (name_of c) demo_app.
Proof. by intros [->| ->]; (split; [split|]); vm_compute. Qed.
(** A call of the main loop with two calls from within *)
Lemma wrapper_transparent_witness :
  passed_on 0 demo_app (run_ecall demo_call no_upgrade_buffer demo_fresh) (Ecall 4 7 demo_call demo_app) ∧
  passed_on 1 demo_app (run_ecall (MainLoop 0) no_upgrade_buffer demo_fresh) (Ecall 4 7 (MainLoop 0) demo_app).
Proof.
  split.
  - apply (wrapper_transparent 4 7 demo_call demo_app (demo_way_free _ (or_introl eq_refl)) I); [lia|]. intros r e _. exact I.
  - apply (wrapper_transparent 4 7 (MainLoop 0) demo_app (demo_way_free _ (or_intror eq_refl)) I); [lia|].
    intros r e _. split; [|split; [|exact I]]; split; vm_compute; reflexivity.
Defined.

(** A workload query while the slots are full gives up after ENC_TASK_TIMEOUT turns. *)
Definition full_tasks : tasks := Tasks [0; 0; 0; 0] ∅ ∅ 15.
Definition full_app : app demo := App full_tasks demo_fresh no_upgrade_buffer.
Definition full_later : app demo := match Ecall 91 7 GetWorkload full_app with Ok r => r.2 | _ => full_app end.
Lemma full_ok :
  match Ecall 91 7 GetWorkload full_app with
  | Ok ((st, r), _) => st = SGX_ERROR_SERVICE_TIMEOUT ∧ r = None
  | _ => False
  end.
Proof. vm_compute. done. Qed.
Lemma full_run : Ecall 91 7 GetWorkload full_app = Ok ((SGX_ERROR_SERVICE_TIMEOUT, None), full_later).
Proof.
  pose proof full_ok as H. unfold full_later. destruct (Ecall 91 7 GetWorkload full_app) as [[[st r] a]| | |]; try done.
  by destruct H as [-> ->].
Qed.
Lemma refused_call_untouched_witness : enclave_of full_later = enclave_of full_app.
Proof. apply (refused_call_untouched 91 7 GetWorkload full_app SGX_ERROR_SERVICE_TIMEOUT None); [done|apply full_run|done]. Defined.
