(* ===== verification/AppSrd.v ===== *)
(** * Distributing random data over disks (app/process/Srd.cpp, the disk space of
    app/utils/FileUtils.cpp)

    The enclave hands a task to the application: so many gigabytes more or less.
    Here is how it is spread over the disks of the configuration, what of it goes
    back to the enclave, and the check of the reserved space.  Each of the loops
    that deal out gigabytes one at a time is [deal]. *)
From stdpp Require Import gmap.
From S2P Require Import Prelude StdMap Status Hex Json JsonParse JsonText Host.
From S2P Require Import State Demo Srd Identity Upgrade Attest Ecalls AppTask AppEcalls.
From S2P Require Import AppJson AppData.

(** ** Dealing out

    Round after round over a list, one unit for every entry that has some left,
    until nothing is left to deal; the log names who got one. *)
Section deal.
Context {A : Type} (name : A → bytes) (left : A → Z) (take1 : A → A).

Fixpoint deal_round (l : list A) (acc : Z) : list A * list bytes * Z :=
  match l with
  | [] => ([], [], acc)
  | x :: l' =>
      if acc =? 0 then (l, [], 0)
      else if 0 <? left x then
        let '(l', log, acc) := deal_round l' (acc - 1) in (take1 x :: l', name x :: log, acc)
      else
        let '(l', log, acc) := deal_round l' acc in (x :: l', log, acc)
  end.
(** [None]: the loop goes on for ever; [S] of the number of rounds is enough. *)
Fixpoint deal (fuel : nat) (l : list A) (acc : Z) : option (list A * list bytes) :=
  if acc =? 0 then Some (l, [])
  else match fuel with
       | O => None
       | S fuel =>
           let '(l, log, acc) := deal_round l acc in
           '(l, log') ← deal fuel l acc; Some (l, log ++ log')
       end.
End deal.

(** ** Space on disks *)
Record statfs_t := Statfs { f_blocks : Z; f_bsize : Z; f_bavail : Z; f_fsid : bytes }.
Class DiskOs (W : Type) := {
  access : bytes → W → bool;
  system : bytes → W → Z * W;
  statfs : bytes → W → option statfs_t
}.

Section space.
Context {W : Type} `{!DiskOs W}.
Definition create_directory (path : bytes) (w : W) : bool * W :=
  if access path w then (true, w)
  else let '(r, w) := system (str "mkdir -p " ++ path) w in (negb (r =? -1), w).
Definition get_total_space_under_dir_r (path : bytes) (unit : Z) (w : W) : Z :=
  match statfs path w with
  | None => 0
  | Some d => Z.shiftr (u64 (f_blocks d * f_bsize d)) unit
  end.
Definition get_avail_space_under_dir_r (path : bytes) (unit : Z) (w : W) : Z :=
  match statfs path w with
  | None => 0
  | Some d => Z.shiftr (u64 (f_bavail d * f_bsize d)) unit
  end.
Definition get_total_space_under_dir_g (path : bytes) : W → Z := get_total_space_under_dir_r path 30.
Definition get_avail_space_under_dir_g (path : bytes) : W → Z := get_avail_space_under_dir_r path 30.

(** Of the paths on the same disk the first; a path whose disk cannot be asked ends
    the search. *)
Fixpoint valid_paths (paths : list json) (fsid_s ans : list bytes) (w : W) : list bytes * W :=
  match paths with
  | [] => (ans, w)
  | p :: paths =>
      let path := app_ToString p in
      let '(ok, w) := create_directory path w in
      if negb ok then valid_paths paths fsid_s ans w
      else
        match statfs path w with
        | None => (ans, w)
        | Some disk_info =>
            let fsid_str := take (List.length (f_fsid disk_info)) (hexstring_safe (f_fsid disk_info)) in
            if bool_decide (fsid_str ∈ fsid_s) then valid_paths paths fsid_s ans w
            else valid_paths paths (fsid_str :: fsid_s) (ans ++ [path]) w
        end
  end.
Definition get_valid_srd_path (srd_paths : json) (w : W) : list json * W :=
  let '(ans, w) := valid_paths (ArrayRange srd_paths) [] [] w in (map JString ans, w).
End space.

(** One entry of the JSON object [disk_info_json] *)
Record disk := Disk { d_available : Z; d_total : Z; d_left : Z; d_increased : Z }.
(** What the functions use of the configuration *)
Record srd_config := SrdConfig { srd_paths : json; srd_path : bytes }.
(** An entry of [disk_info_v] *)
Record holder := Holder { h_path : bytes; h_available : Z; h_assigned : Z }.

Section plans.
Context {W : Type} `{!DiskOs W}.

Definition disk_info (reserved : Z) (w : W) (path : bytes) : disk :=
  let available := get_avail_space_under_dir_g path w in
  let available := if available <=? reserved then 0 else available - reserved in
  Disk available (get_total_space_under_dir_g path w) available 0.
Definition add_disk (reserved : Z) (w : W) (a : list (bytes * disk) * Z) (path : bytes) : list (bytes * disk) * Z :=
  let d := disk_info reserved w path in (map_set path d a.1, u64 (a.2 + d_available d)).

(** Giving an entry one gigabyte *)
Definition increase1 (p : bytes * disk) : bytes * disk :=
  (p.1, Disk (d_available p.2) (d_total p.2) (d_left p.2 - 1) (d_increased p.2 + 1)).
Definition unplan1 (p : bytes * disk) : bytes * disk :=
  (p.1, Disk (d_available p.2) (d_total p.2) (d_left p.2) (d_increased p.2 - 1)).

(** The disks of the configuration, and what they have together *)
Definition ask_disks (cfg : srd_config) (reserved : Z) (w : W) : (list (bytes * disk) * Z) * W :=
  if negb (zlen (ArrayRange (srd_paths cfg)) =? 0) then
    let '(paths, w) := get_valid_srd_path (srd_paths cfg) w in
    (fold_left (add_disk reserved w) (map app_ToString paths) ([], 0), w)
  else
    let '(ok, w) := create_directory (srd_path cfg) w in
    (if ok : bool then add_disk reserved w ([], 0) (srd_path cfg) else ([], 0), w).
(** The disks with what each gets, and how much can be given out *)
Definition get_increase_srd_info (cfg : srd_config) (reserved true_srd_capacity : Z) (w : W)
    : option (list (bytes * disk) * Z) * W :=
  let '((disk_info_json, total_avail), w) := ask_disks cfg reserved w in
  let true_srd_capacity := Z.min total_avail true_srd_capacity in
  (r ← deal fst (λ p, d_left p.2) increase1 (Z.to_nat true_srd_capacity) disk_info_json true_srd_capacity;
   Some (r.1, true_srd_capacity), w).
(** The path of each gigabyte to be sealed, in order *)
Definition increase_paths (disks : list (bytes * disk)) (true_increase : Z) : option (list bytes) :=
  snd <$> deal fst (λ p, d_increased p.2) unplan1 (Z.to_nat true_increase) disks true_increase.

(** The disks that hold random data, as the enclave reported them *)
Definition holder_of (w : W) (p : bytes * json) : option holder :=
  if negb (hasKey (str "assigned") p.2) || (ToInt (jkey (str "assigned") p.2) =? 0) then None
  else Some (Holder p.1 (get_avail_space_under_dir_g p.1 w) (ToInt (jkey (str "assigned") p.2))).
Definition give_up1 (h : holder) : holder := Holder (h_path h) (h_available h) (h_assigned h - 1).
Definition decrease_info (disk_info_json : json) (true_srd_capacity : Z) (w : W)
    : option (list (bytes * Z)) * Z :=
  let disk_info_v := omap (holder_of w) (ObjectRange disk_info_json) in
  let total_assigned := fold_left (λ n h, u64 (n + h_assigned h)) disk_info_v 0 in
  let true_srd_capacity := Z.min total_assigned true_srd_capacity in
  (r ← deal h_path h_assigned give_up1 (Z.to_nat true_srd_capacity) disk_info_v true_srd_capacity;
   Some (fold_left (λ ans path, map_set path (map_get 0 path ans + 1) ans) r.2 []), true_srd_capacity).
End plans.

(** ** The task of the enclave, and the check of the reserved space *)

(** The application with its enclave, the reserved space and the capacity of the
    configuration *)
Record srd_node (W : Type) := SrdNode {
  s_app : app (node W);
  g_srd_reserved_space : Z;
  srd_capacity : Z
}.
Arguments SrdNode {W}.
Arguments s_app {W}.
Arguments g_srd_reserved_space {W}.
Arguments srd_capacity {W}.
Definition DEFAULT_SRD_RESERVED : Z := 50.

Section change.
Context {W : Type} `{!LevelDb W} `{!DiskOs W}.
Abbreviation M := (Host.M (srd_node W)).

Definition get_reserved_space : srd_node W → Z := g_srd_reserved_space.
Definition set_reserved_space (reserved : Z) (s : srd_node W) : srd_node W :=
  SrdNode (s_app s) reserved (srd_capacity s).
(** The capacity never falls below zero. *)
Definition change_srd_capacity (change : Z) (s : srd_node W) : srd_node W :=
  SrdNode (s_app s) (g_srd_reserved_space s)
    (if (0 <=? change) || (- change <=? srd_capacity s) then u64 (srd_capacity s + change) else 0).

Definition os (s : srd_node W) : W := n_os (world (a_enclave (s_app s))).
Definition with_os (w : W) (s : srd_node W) : srd_node W :=
  let e := a_enclave (s_app s) in
  let n := world e in
  SrdNode (App (a_tasks (s_app s)) (with_world (Node w (n_data n) (sealed_tree_map n)) e) (a_buffer (s_app s)))
    (g_srd_reserved_space s) (srd_capacity s).
Definition on_app {A} (m : Host.M (app (node W)) A) : M A := λ s,
  match m (s_app s) with
  | Ok (x, a) => Ok (x, SrdNode a (g_srd_reserved_space s) (srd_capacity s))
  | UB => UB | Throw => Throw | NoFuel => NoFuel
  end.
(** A loop that does not end *)
Definition ends {A} (o : option A) : M A := match o with Some a => mret a | None => of_res NoFuel end.

Context `{!Host (node W)} `{!IdHost (node W)} `{!UpgradeHost (node W)} `{!AttestHost (node W)}
  `{!Threads (node W)} `{!AppThreads (node W)}.
Variable fuel : nat.
(** The calling thread, and the one of the thread pool *)
Variables tid pool : nat.

(** One gigabyte sealed by the thread pool; a failure goes back into the task. *)
Definition srd_task (path : bytes) : M unit :=
  r ← on_app (Ecall_srd_increase fuel pool path);
  if sgx_ok r.1 then mret tt else on_app (Ecall_srd_set_change fuel pool 1);; mret tt.

(** The tasks of the pool run one after another here; what the others do meanwhile is
    [app_others]. *)
Definition app_srd_change (cfg : srd_config) (change : Z) : M unit :=
  if 0 <? change then
    reserved ← gets get_reserved_space;
    r ← zoom os with_os (get_increase_srd_info cfg reserved change);
    r ← ends r;
    let '(disk_info_json, true_increase) := r in
    (if true_increase <? change
     then on_app (Ecall_srd_set_change fuel tid (change - true_increase));; mret tt
     else mret tt);;
    if true_increase =? 0 then mret tt
    else
      paths ← ends (increase_paths disk_info_json true_increase);
      for_each paths srd_task;;
      modify (change_srd_capacity (i32 true_increase))
  else if change <? 0 then
    w ← gets os;
    r ← (match DataBase_get DB_SRD_INFO w with
         | (CRUST_SUCCESS, disk_info_str) =>
             j ← of_res (app_Load disk_info_str);
             let '(info, n) := decrease_info j (- change) w in
             _ ← ends info;
             mret n
         | _ => mret (- change)
         end);
    let true_decrease : Z := r in
    if true_decrease =? 0 then mret tt
    else
      r ← on_app (Ecall_srd_decrease fuel tid true_decrease);
      modify (change_srd_capacity (i32 (u64 (default 0 r.2))))
  else mret tt.

(** How much of a disk has to go *)
Definition del_space (reserved : Z) (w : W) (p : bytes * json) : option Z :=
  let avail_space := i64 (get_avail_space_under_dir_g p.1 w) in
  if avail_space <? reserved
  then Some (Z.min (reserved - avail_space) (ToInt (jkey (str "assigned") p.2))) else None.
Definition del_info (reserved : Z) (w : W) (srd_info_json : json) : list (bytes * json) :=
  omap (λ p, d ← del_space reserved w p; Some (p.1, JIntegral d)) (ObjectRange srd_info_json).
(** One turn of [srd_check_reserved], the sleep left out *)
Definition srd_check_reserved_turn : M unit :=
  w ← gets os;
  reserved ← gets get_reserved_space;
  match DataBase_get DB_SRD_INFO w with
  | (CRUST_SUCCESS, srd_info_str) =>
      srd_info_json ← of_res (app_Load srd_info_str);
      match del_info reserved w srd_info_json with
      | [] => mret tt
      | del_info_json =>
          on_app (Ecall_srd_update_metadata fuel tid (app_dump (JObject del_info_json)));; mret tt
      end
  | _ => mret tt
  end.
End change.

(** ** Lemmas: what is dealt out *)
Definition Zsum (ns : list Z) : Z := foldr Z.add 0 ns.
Lemma Zsum_cons n ns : Zsum (n :: ns) = n + Zsum ns.
Proof. done. Qed.
(** How often [k] is in a log *)
Definition occurrences (k : bytes) (log : list bytes) : Z := Zsum (map (λ x, if decide (x = k) then 1 else 0) log).
Lemma occurrences_app k a b : occurrences k (a ++ b) = occurrences k a + occurrences k b.
Proof. unfold occurrences, Zsum. induction a as [|x a IH]; [done|]. cbn in *. lia. Qed.

Section dealing.
Context {A : Type} (name : A → bytes) (left : A → Z) (take1 : A → A).
Hypothesis left_take1 : ∀ a, left (take1 a) = left a - 1.
Hypothesis name_take1 : ∀ a, name (take1 a) = name a.
Abbreviation deal := (deal name left take1).
Abbreviation deal_round := (deal_round name left take1).

(** An entry after it got [n] units *)
Definition given (n : Z) (a : A) : A := Nat.iter (Z.to_nat n) take1 a.
Lemma left_given n a : 0 <= n → left (given n a) = left a - n.
Proof.
  intros Hn. assert (∀ k, left (Nat.iter k take1 a) = left a - Z.of_nat k) as H.
  { induction k as [|k IH]; [cbn; lia|]. change (Nat.iter (S k) take1 a) with (take1 (Nat.iter k take1 a)).
    rewrite left_take1, IH. lia. }
  unfold given. rewrite H. lia.
Qed.
Lemma name_given n a : name (given n a) = name a.
Proof.
  unfold given. induction (Z.to_nat n) as [|k IH]; [done|].
  change (Nat.iter (S k) take1 a) with (take1 (Nat.iter k take1 a)). by rewrite name_take1, IH.
Qed.
Lemma given_given n n' a : 0 <= n → 0 <= n' → given n' (given n a) = given (n + n') a.
Proof. intros. unfold given. by rewrite Z2Nat.inj_add, Nat.add_comm, Nat.iter_add. Qed.

(** What an entry can give *)
Definition room (a : A) : Z := Z.max 0 (left a).
Definition rooms (l : list A) : Z := Zsum (map room l).
Lemma rooms_nonneg l : 0 <= rooms l.
Proof. unfold rooms, Zsum. induction l as [|a l IH]; [done|]. cbn. unfold room at 1. lia. Qed.
(** [l'] is [l] after the amounts [ns], which [log] lists by name. *)
Record dealt (l : list A) (ns : list Z) (l' : list A) (log : list bytes) : Prop := {
  dl_given : Forall3 (λ a n a', a' = given n a ∧ 0 <= n <= room a) l ns l';
  dl_log k : occurrences k log = Zsum (zip_with (λ a n, if decide (name a = k) then n else 0) l ns)
}.

Lemma Zsum_zeros (l : list A) : Zsum (map (λ _, 0) l) = 0.
Proof. induction l as [|a l IH]; [done|]. cbn [map]. rewrite Zsum_cons. lia. Qed.
Lemma dealt_nothing l : dealt l (map (λ _, 0) l) l [].
Proof.
  split.
  - induction l as [|a l IH]; constructor; [|done]. unfold room. split; [done|lia].
  - intros k. induction l as [|a l IH]; [done|]. cbn [zip_with map]. rewrite Zsum_cons, <- IH.
    by destruct (decide _).
Qed.
Lemma dealt_cons a n l ns l' log log1 :
  0 <= n <= room a → (∀ k, occurrences k log1 = if decide (name a = k) then n else 0) →
  dealt l ns l' log → dealt (a :: l) (n :: ns) (given n a :: l') (log1 ++ log).
Proof.
  intros Hn Hl [Hg Hlog]. split; [by constructor|]. intros k.
  cbn [zip_with]. by rewrite Zsum_cons, occurrences_app, Hl, Hlog.
Qed.
Lemma dealt_trans l ns l' log ns' l'' log' :
  dealt l ns l' log → dealt l' ns' l'' log' → dealt l (zip_with Z.add ns ns') l'' (log ++ log').
Proof.
  intros [Hg Hl] [Hg' Hl']. split.
  - clear Hl Hl'. revert ns' l'' Hg'. induction Hg as [|a n a' l ns l' [-> Hn] _ IH]; intros ns' l'' Hg';
      inversion Hg' as [|? n' a2 ? ? ? [-> Hn'] Hr]; subst; [constructor|]. cbn. constructor; [|by apply IH].
    unfold room in *. rewrite left_given in Hn' by lia. rewrite given_given by lia. split; [done|lia].
  - intros k. rewrite occurrences_app, Hl, Hl'. clear Hl Hl'. revert ns' l'' Hg'.
    induction Hg as [|a n a' l ns l' [-> Hn] _ IH]; intros ns' l'' Hg';
      inversion Hg' as [|? n' a2 ? ? ? [-> Hn'] Hr]; subst; [done|].
    cbn [zip_with]. rewrite !Zsum_cons, name_given. specialize (IH _ _ Hr). destruct (decide _); lia.
Qed.

(** One round: everybody who has some left gets one, or the units run out. *)
Lemma deal_round_spec l acc :
  0 <= acc →
  ∃ ns l' log acc', deal_round l acc = (l', log, acc') ∧ dealt l ns l' log ∧ Zsum ns + acc' = acc ∧
    0 <= acc' ∧ (0 < acc → acc <= rooms l → acc' < acc) ∧ Forall2 (λ a n, 0 <= n <= Z.min (room a) 1) l ns ∧
    (0 < acc' → Forall2 (λ a n, n = Z.min (room a) 1) l ns) ∧ zlen log = Zsum ns.
Proof.
  revert acc. induction l as [|a l IH]; intros acc Hacc; cbn [AppSrd.deal_round].
  { exists [], [], [], acc. split_and!; try done; try apply (dealt_nothing []); try (by constructor). unfold rooms. cbn. lia. }
  destruct (Z.eqb_spec acc 0) as [->|Hne].
  { exists (map (λ _, 0) (a :: l)), (a :: l), [], 0. split_and!; try done; try apply dealt_nothing.
    - rewrite Zsum_zeros. lia.
    - apply Forall2_fmap_r, Forall_Forall2_diag, Forall_forall. intros x _. unfold room, compose. cbn beta. lia.
    - by rewrite Zsum_zeros. }
  assert (0 <= rooms l) as Hrl by apply rooms_nonneg.
  assert (rooms (a :: l) = room a + rooms l) as Hr by done.
  destruct (Z.ltb_spec 0 (left a)) as [Hl|Hl].
  - destruct (IH (acc - 1)) as (ns & l' & log & acc' & E & Hd & Hs & H0 & Hlt & Hb & Hall & Hlen); [lia|]. rewrite E.
    exists (1 :: ns), (take1 a :: l'), (name a :: log), acc'. split_and!; try done.
    + apply (dealt_cons a 1 l ns l' log [name a]); [unfold room; lia| |done].
      intros k. unfold occurrences. cbn. by destruct (decide _).
    + rewrite Zsum_cons. lia.
    + intros _ _. assert (0 <= Zsum ns); [|lia]. clear -Hb. induction Hb; [done|]. rewrite Zsum_cons. lia.
    + constructor; [unfold room; lia|done].
    + intros H. constructor; [unfold room; lia|by apply Hall].
    + rewrite zlen_cons, Zsum_cons. lia.
  - destruct (IH acc Hacc) as (ns & l' & log & acc' & E & Hd & Hs & H0 & Hlt & Hb & Hall & Hlen). rewrite E.
    exists (0 :: ns), (a :: l'), log, acc'. split_and!; try done.
    + apply (dealt_cons a 0 l ns l' log []); [unfold room; lia| |done]. intros k. cbn. by destruct (decide _).
    + intros Hp Hle. apply Hlt; [done|]. unfold room in Hr at 1. lia.
    + constructor; [unfold room; lia|done].
    + intros H. constructor; [unfold room; lia|by apply Hall].
Qed.

Lemma dealt_rooms l ns l' log : dealt l ns l' log → rooms l' = rooms l - Zsum ns.
Proof.
  intros [Hg _]. induction Hg as [|a n a' l ns l' [-> Hn] _ IH]; [done|].
  unfold rooms in *. cbn [map]. rewrite !Zsum_cons, IH. unfold room at 1. rewrite left_given by lia.
  unfold room in *. lia.
Qed.
(** As evenly as it goes: [r] to everybody who has as much, and one more to some *)
Definition evenly (l : list A) (ns : list Z) : Prop :=
  ∃ r, 0 <= r ∧ Forall2 (λ a n, n = Z.min (room a) r ∨ n = Z.min (room a) (r + 1)) l ns.
Lemma evenly_round l ns l' log ns' :
  dealt l ns l' log → Forall2 (λ a n, n = Z.min (room a) 1) l ns → evenly l' ns' → evenly l (zip_with Z.add ns ns').
Proof.
  intros [Hg _] Ha (r & Hr & Hl). exists (r + 1). split; [lia|]. revert Ha ns' Hl.
  induction Hg as [|a n a' l ns l' [-> Hn] _ IH]; intros Ha ns' Hl; [constructor|].
  inversion Ha as [|? ? ? ? -> Ha']; inversion Hl as [|? n' ? ? Hn' Hl']; subst. cbn. constructor; [|by apply IH].
  unfold room in *. rewrite left_given in Hn' by lia. lia.
Qed.

Lemma deal_nothing fuel l : deal fuel l 0 = Some (l, []).
Proof. by destruct fuel. Qed.
Lemma Zsum_zip l ns l1 log ns' l2 log' :
  dealt l ns l1 log → dealt l1 ns' l2 log' → Zsum (zip_with Z.add ns ns') = Zsum ns + Zsum ns'.
Proof.
  intros [Hg _] [Hg' _]. revert ns' l2 Hg'.
  induction Hg as [|a n a' l ns l' _ _ IH]; intros ns' l2 Hg'; inversion Hg'; subst; [done|].
  cbn [zip_with]. rewrite !Zsum_cons. erewrite IH by done. lia.
Qed.

(** Dealing ends, deals exactly what there is to deal, within the rooms, evenly. *)
Lemma deal_spec fuel l acc :
  0 <= acc <= rooms l → acc <= Z.of_nat fuel →
  ∃ ns l' log, deal fuel l acc = Some (l', log) ∧ dealt l ns l' log ∧ Zsum ns = acc ∧ zlen log = acc ∧ evenly l ns.
Proof.
  revert l acc. induction fuel as [|fuel IH]; intros l acc Hacc Hf.
  all: destruct (Z.eq_dec acc 0) as [->|Hne];
    [exists (map (λ _, 0) l), l, []; rewrite Zsum_zeros, deal_nothing; split_and!; [done|apply dealt_nothing|done..|];
     exists 0; (split; [done|]); apply Forall2_fmap_r, Forall_Forall2_diag, Forall_forall; intros x _;
     unfold room, compose; lia|].
  { lia. }
  cbn [AppSrd.deal]. destruct (Z.eqb_spec acc 0) as [|_]; [done|].
  destruct (deal_round_spec l acc) as (ns & l1 & log & acc' & -> & Hd & Hs & H0 & Hlt & Hb & Hall & Hlen); [lia|].
  specialize (Hlt ltac:(lia) ltac:(lia)). pose proof (dealt_rooms _ _ _ _ Hd) as Hr.
  destruct (Z.eq_dec acc' 0) as [->|Hne'].
  - rewrite deal_nothing. exists ns, l1, log. cbn. rewrite app_nil_r. split_and!; [done|done|lia..|].
    exists 0. split; [done|]. eapply Forall2_impl; [exact Hb|]. intros a n Hn. unfold room in *. lia.
  - destruct (IH l1 acc') as (ns' & l2 & log' & -> & Hd' & Hs' & Hlen' & Hev); [lia..|].
    exists (zip_with Z.add ns ns'), l2, (log ++ log').
    split_and!; [done|by eapply dealt_trans| |rewrite zlen_app; lia|].
    + rewrite (Zsum_zip _ _ _ _ _ _ _ Hd Hd'). lia.
    + eapply evenly_round; [exact Hd|apply Hall; lia|done].
Qed.

(** When as much is dealt as there is room for, everybody gets all of his room, and
    is named as often if the names differ. *)
Lemma dealt_full l ns l' log : dealt l ns l' log → Zsum ns = rooms l → ns = map room l.
Proof.
  intros [Hg _]. unfold rooms. induction Hg as [|a n a' l ns l' [_ Hn] Hr IH]; [done|].
  cbn [map]. rewrite !Zsum_cons. intros E.
  assert (Zsum ns <= Zsum (map room l)); [|rewrite IH by lia; f_equal; lia].
  clear -Hr. induction Hr as [|b m b' l ns l' [_ Hm] _ IH]; [done|]. cbn [map]. rewrite !Zsum_cons. lia.
Qed.
Lemma named_once (f : A → Z) l a :
  NoDup (map name l) → a ∈ l →
  Zsum (zip_with (λ x n, if decide (name x = name a) then n else 0) l (map f l)) = f a.
Proof.
  intros Hn Ha. induction l as [|x l IH]; [by apply elem_of_nil in Ha|]. cbn [map zip_with] in *.
  apply NoDup_cons in Hn as [Hx Hn]. rewrite Zsum_cons. apply elem_of_cons in Ha as [->|Ha].
  - rewrite decide_True by done. assert (∀ l, name x ∉ map name l →
      Zsum (zip_with (λ y n, if decide (name y = name x) then n else 0) l (map f l)) = 0) as Hz.
    { clear. induction l as [|y l IH]; [done|]. cbn [map zip_with]. rewrite not_elem_of_cons. intros [? ?].
      rewrite Zsum_cons, decide_False, IH by done. done. }
    rewrite Hz by done. lia.
  - rewrite decide_False, IH by done || (intros E; apply Hx; rewrite E; by apply list_elem_of_fmap_2). lia.
Qed.
End dealing.

(** ** Lemmas: the plans *)
Section planning.
Context {W : Type} `{!DiskOs W}.

Lemma avail_range path (w : W) : 0 <= get_avail_space_under_dir_g path w < 2 ^ 34.
Proof.
  unfold get_avail_space_under_dir_g, get_avail_space_under_dir_r. destruct (statfs path w) as [d|]; [|lia].
  rewrite Z.shiftr_div_pow2 by lia. pose proof (u64_range (f_bavail d * f_bsize d)) as [H0 H1].
  split; [apply Z.div_pos; lia|]. apply Z.div_lt_upper_bound; lia.
Qed.
Lemma disk_available reserved (w : W) path :
  0 <= reserved →
  let d := disk_info reserved w path in
  0 <= d_available d < 2 ^ 34 ∧ d_left d = d_available d ∧ d_increased d = 0 ∧
  (0 < d_available d → d_available d + reserved = get_avail_space_under_dir_g path w).
Proof.
  intros Hr. pose proof (avail_range path w). unfold disk_info. cbn.
  destruct (Z.leb_spec (get_avail_space_under_dir_g path w) reserved); cbn; lia.
Qed.

Lemma valid_paths_sublist paths fsid_s ans (w : W) :
  ∃ l, (valid_paths paths fsid_s ans w).1 = ans ++ l ∧ l `sublist_of` map app_ToString paths.
Proof.
  revert fsid_s ans w. induction paths as [|p paths IH]; intros fsid_s ans w; cbn [valid_paths map].
  { exists []. by rewrite app_nil_r. }
  destruct (create_directory _ w) as [ok w1].
  assert (∀ f w, ∃ l, (valid_paths paths f ans w).1 = ans ++ l ∧ l `sublist_of` app_ToString p :: map app_ToString paths) as Hskip.
  { intros f w'. destruct (IH f ans w') as (l & E & Hl). exists l. split; [done|by apply sublist_cons]. }
  destruct ok; cbn [negb]; [|apply Hskip]. destruct (statfs _ w1) as [d|].
  - destruct (bool_decide _); [apply Hskip|].
    destruct (IH (take (List.length (f_fsid d)) (hexstring_safe (f_fsid d)) :: fsid_s) (ans ++ [app_ToString p]) w1)
      as (l & E & Hl).
    exists (app_ToString p :: l). split; [by rewrite E, <- app_assoc|by apply sublist_skip].
  - exists []. rewrite app_nil_r. split; [done|apply sublist_nil_l].
Qed.

(** The disks asked so far, with the sum of what they have *)
Record asked (reserved : Z) (w : W) (a : list (bytes * disk) * Z) : Prop := {
  ak_map : map_ok a.1;
  ak_disk : Forall (λ p, p.2 = disk_info reserved w p.1) a.1;
  ak_total : a.2 = Zsum (map (λ p, d_available p.2) a.1)
}.
Lemma available_bound reserved (w : W) m :
  0 <= reserved → Forall (λ p, p.2 = disk_info reserved w p.1) m →
  0 <= Zsum (map (λ p : bytes * disk, d_available p.2) m) <= zlen m * 2 ^ 34.
Proof.
  intros Hr. induction 1 as [|[k d] m Hd _ IH]; [done|]. cbn [map snd fst] in *. subst d.
  pose proof (disk_available reserved w k Hr). rewrite Zsum_cons, zlen_cons. cbv zeta in *. lia.
Qed.
Lemma add_disk_asked reserved (w : W) a path :
  0 <= reserved → zlen a.1 < 2 ^ 29 → path ∉ map fst a.1 → asked reserved w a →
  asked reserved w (add_disk reserved w a path) ∧
  map fst (add_disk reserved w a path).1 ≡ₚ path :: map fst a.1.
Proof.
  intros Hr Hlen Hp [Hm Hd Ht]. unfold add_disk. cbn [fst snd].
  pose proof (map_set_new path (disk_info reserved w path) a.1 Hp) as Hnew. split; [split; cbn [fst snd]|].
  - by apply map_set_ok.
  - rewrite Hnew. by constructor.
  - pose proof (available_bound reserved w a.1 Hr Hd). pose proof (disk_available reserved w path Hr) as Hav.
    cbv zeta in Hav. rewrite u64_small by lia. rewrite Ht.
    assert (∀ l l', l ≡ₚ l' → Zsum l = Zsum l') as Hperm.
    { induction 1; rewrite ?Zsum_cons in *; try done; try lia; congruence. }
    rewrite (Hperm _ _ (Permutation_map (λ p : bytes * disk, d_available p.2) Hnew)). cbn [map snd].
    rewrite Zsum_cons. lia.
  - by rewrite Hnew.
Qed.
Lemma add_disks_asked reserved (w : W) paths a :
  0 <= reserved → NoDup (paths ++ map fst a.1) → zlen paths + zlen a.1 < 2 ^ 29 → asked reserved w a →
  asked reserved w (fold_left (add_disk reserved w) paths a).
Proof.
  intros Hr. revert a. induction paths as [|p paths IH]; intros a Hn Hl Ha; [done|]. cbn [fold_left].
  rewrite <- app_comm_cons in Hn. apply NoDup_cons in Hn as [Hp Hn]. rewrite zlen_cons in Hl.
  pose proof (zlen_nonneg paths). rewrite not_elem_of_app in Hp.
  destruct (add_disk_asked reserved w a p Hr) as [Ha' Hf]; [lia|naive_solver|done|].
  apply IH; [| |done].
  - rewrite Hf, <- Permutation_middle. apply NoDup_cons. rewrite not_elem_of_app. naive_solver.
  - assert (zlen (add_disk reserved w a p).1 = 1 + zlen a.1) as ->; [|lia].
    apply Permutation_length in Hf. unfold zlen. cbn [List.length] in Hf. rewrite !length_map in Hf. lia.
Qed.

(** The paths of the configuration: different, and without characters that are
    escaped *)
Definition config_ok (cfg : srd_config) : Prop :=
  ∃ ps, ArrayRange (srd_paths cfg) = map JString ps ∧ NoDup ps ∧ zlen ps < 2 ^ 29 ∧
        Forall (λ s, app_json_escape s = s) ps.
Lemma ask_disks_asked cfg reserved (w : W) :
  0 <= reserved → config_ok cfg →
  asked reserved (ask_disks cfg reserved w).2 (ask_disks cfg reserved w).1.
Proof.
  intros Hr (ps & Eps & Hn & Hl & Hesc). unfold ask_disks.
  assert (∀ w, asked reserved w ([], 0)) as H0.
  { intros w'. split; [constructor|constructor|done]. }
  destruct (negb _).
  - unfold get_valid_srd_path. destruct (valid_paths_sublist (ArrayRange (srd_paths cfg)) [] [] w) as (l & E & Hsub).
    destruct (valid_paths _ _ _ w) as [ans w']. cbn [fst snd Datatypes.app] in *. subst ans.
    rewrite Eps, map_map in Hsub. cbn [app_ToString] in Hsub.
    assert (∀ l, Forall (λ s, app_json_escape s = s) l → map app_json_escape l = l) as Hid.
    { clear. induction 1 as [|s l Hs _ IH]; [done|]. cbn. by rewrite Hs, IH. }
    rewrite Hid in Hsub by done.
    assert (Forall (λ s, app_json_escape s = s) l) as Hl'.
    { rewrite Forall_forall in Hesc |- *. intros s Hs. apply Hesc. by eapply elem_of_sublist. }
    rewrite map_map. cbn [app_ToString]. rewrite Hid by done. apply add_disks_asked; try done.
    + rewrite app_nil_r. by eapply sublist_NoDup.
    + apply sublist_length in Hsub. cbn. unfold zlen in *. cbn. lia.
  - destruct (create_directory _ w) as [[] w']; [|apply H0]. apply add_disk_asked; try done. set_solver.
Qed.

(** The fields of an entry after it got [n] gigabytes *)
Lemma increased_given n (p : bytes * disk) :
  0 <= n → (given increase1 n p).1 = p.1 ∧ d_available (given increase1 n p).2 = d_available p.2 ∧
  d_increased (given increase1 n p).2 = d_increased p.2 + n.
Proof.
  intros Hn. assert (∀ k, let q := Nat.iter k increase1 p in q.1 = p.1 ∧ d_available q.2 = d_available p.2 ∧
    d_increased q.2 = d_increased p.2 + Z.of_nat k) as H.
  { induction k as [|k (H1 & H2 & H3)]; [by rewrite Z.add_0_r|]. cbv zeta.
    change (Nat.iter (S k) increase1 p) with (increase1 (Nat.iter k increase1 p)). cbn. rewrite H1, H2, H3. split_and!; [done|done|lia]. }
  destruct (H (Z.to_nat n)) as (H1 & H2 & H3). rewrite Z2Nat.id in H3 by done. done.
Qed.

Lemma increased_given_all m ns l :
  Forall3 (λ p n q, q = given increase1 n p ∧ 0 <= n <= room (λ p, d_left p.2) p) m ns l →
  Forall (λ p : bytes * disk, d_increased p.2 = 0) m →
  map fst l = map fst m ∧ map (λ p, d_available p.2) l = map (λ p, d_available p.2) m ∧
  map (λ p, d_increased p.2) l = ns.
Proof.
  induction 1 as [|p n q m ns l [-> Hn] _ IH]; intros Hz; [done|]. apply Forall_cons in Hz as [Hz Hm].
  destruct (increased_given n p) as (E1 & E2 & E3); [lia|]. destruct (IH Hm) as (F1 & F2 & F3).
  cbn [map]. rewrite E1, E2, E3, F1, F2, F3, Hz. done.
Qed.

(** What a disk gets: within what it has beyond the reserved space *)
Definition fits (reserved : Z) (w : W) (p : bytes * disk) : Prop :=
  0 <= d_increased p.2 <= d_available p.2 ∧
  (0 < d_increased p.2 → d_increased p.2 + reserved <= get_avail_space_under_dir_g p.1 w).
Definition even_shares (l : list (bytes * disk)) : Prop :=
  ∃ r, Forall (λ p, d_increased p.2 = Z.min (d_available p.2) r ∨
                    d_increased p.2 = Z.min (d_available p.2) (r + 1)) l.
Lemma plan_fits reserved (w : W) m ns l :
  0 <= reserved → Forall (λ p, p.2 = disk_info reserved w p.1) m →
  Forall3 (λ p n q, q = given increase1 n p ∧ 0 <= n <= room (λ p, d_left p.2) p) m ns l →
  Forall (fits reserved w) l ∧ (evenly (λ p, d_left p.2) m ns → even_shares l).
Proof.
  intros Hr Hd Hg. assert (Forall2 (λ q n, d_increased q.2 = n) l ns ∧ Forall2 (λ p q, d_left p.2 = d_available q.2) m l ∧
    Forall (fits reserved w) l) as (Hi & Ha & Hf).
  { revert Hd. induction Hg as [|[k d] n q m ns l [-> Hn] _ IH]; intros Hd; [done|].
    apply Forall_cons in Hd as [E Hd]. cbn [fst snd] in E. subst d. destruct (IH Hd) as (I1 & I2 & I3).
    destruct (increased_given n (k, disk_info reserved w k)) as (E1 & E2 & E3); [lia|].
    destruct (disk_available reserved w k Hr) as (A1 & A2 & A3 & A4). cbn [fst snd] in *.
    unfold room in Hn. cbn [snd] in Hn. split_and!; constructor; try done; unfold fits; cbn [snd]; try lia.
    rewrite E1, E2, E3. lia. }
  split; [done|]. intros (r & Hr0 & Hev). exists r. clear -Hi Ha Hev Hr Hd Hf. revert ns Hi Hev.
  induction Ha as [|p q m l Hpq _ IH]; intros ns Hi Hev; [constructor|].
  inversion Hi as [|? n ? ns' Hq Hi']; subst. inversion Hev as [|? ? ? ? Hn Hev']; subst.
  apply Forall_cons in Hf as [[Hf _] Hf']. apply Forall_cons in Hd as [_ Hd].
  constructor; [|by eapply IH]. unfold room in Hn. lia.
Qed.

Lemma map_ok_names {V} (m : list (bytes * V)) : map_ok m → NoDup (map fst m).
Proof.
  induction m as [|[k v] m IH]; [constructor|]. intros [Hk Hm]%map_ok_cons. cbn [map fst]. constructor; [|auto].
  intros ([k' v'] & E & Hp)%list_elem_of_fmap. rewrite Forall_forall in Hk. apply (key_lt_irrefl k).
  cbn in E. subst k'. apply (Hk _ Hp).
Qed.

(** A task is spread over the disks as it should be.  Whatever disks there are,
    the plan ends and gives out as much as is asked for and available; every disk
    keeps its reserved space, the disks get the same, up to one gigabyte, unless
    they are full; and the list of paths names each disk as often as it is given. *)
Theorem increase_plan cfg reserved capacity (w : W) :
  0 <= reserved → 0 <= capacity → config_ok cfg →
  ∃ disks n w' paths,
    get_increase_srd_info cfg reserved capacity w = (Some (disks, n), w') ∧
    n = Z.min (Zsum (map (λ p, d_available p.2) disks)) capacity ∧
    Zsum (map (λ p, d_increased p.2) disks) = n ∧ Forall (fits reserved w') disks ∧ even_shares disks ∧
    increase_paths disks n = Some paths ∧ zlen paths = n ∧
    ∀ p, p ∈ disks → occurrences p.1 paths = d_increased p.2.
Proof.
  intros Hr Hc Hcfg. unfold get_increase_srd_info. pose proof (ask_disks_asked cfg reserved w Hr Hcfg) as Ha.
  destruct (ask_disks cfg reserved w) as [[m total] w']. destruct Ha as [Hm Hd Ht]. cbn [fst snd] in *. subst total.
  assert (Forall (λ p, d_left p.2 = d_available p.2 ∧ 0 <= d_available p.2 ∧ d_increased p.2 = 0) m) as Hf.
  { eapply Forall_impl; [exact Hd|]. intros [k d] E. cbn [fst snd] in *. subst d.
    destruct (disk_available reserved w' k Hr) as (? & ? & ? & _). split_and!; lia. }
  set (n := Z.min _ capacity).
  assert (rooms (λ p, d_left p.2) m = Zsum (map (λ p, d_available p.2) m)) as Hrooms.
  { unfold rooms. f_equal. apply map_ext_in. intros p Hp%list_elem_of_In. rewrite Forall_forall in Hf.
    destruct (Hf p Hp) as (? & ? & _). unfold room. lia. }
  pose proof (rooms_nonneg (λ p : bytes * disk, d_left p.2) m) as H0.
  destruct (deal_spec fst (λ p, d_left p.2) increase1 (λ _, eq_refl) (λ _, eq_refl) (Z.to_nat n) m n)
    as (ns & l & log & E & [Hg _] & Hs & _ & Hev); [lia..|].
  destruct (increased_given_all m ns l Hg) as (F1 & F2 & F3); [by eapply Forall_impl; [exact Hf|]; intros p (_ & _ & ?)|].
  destruct (plan_fits reserved w' m ns l Hr Hd Hg) as [Hfit Heven].
  assert (rooms (λ p, d_increased p.2) l = n) as Hrl.
  { rewrite <- Hs, <- F3. unfold rooms. f_equal. apply map_ext_in. intros p Hp%list_elem_of_In.
    rewrite Forall_forall in Hfit. destruct (Hfit p Hp) as [? _]. unfold room. lia. }
  destruct (deal_spec fst (λ p, d_increased p.2) unplan1 (λ _, eq_refl) (λ _, eq_refl) (Z.to_nat n) l n)
    as (ns' & l' & paths & E' & Hd' & Hs' & Hlen & _); [lia..|].
  exists l, n, w', paths. rewrite E. cbn [mbind option_bind fst]. unfold increase_paths. rewrite E', F2, F3.
  split_and!; try done; [by apply Heven|]. intros p Hp.
  rewrite (dl_log _ _ _ _ _ _ _ Hd'), (dealt_full _ _ _ _ _ _ _ Hd') by lia.
  rewrite (named_once fst _ l p); [| |done].
  - rewrite Forall_forall in Hfit. destruct (Hfit p Hp) as [? _]. unfold room. lia.
  - rewrite F1. by apply map_ok_names.
Qed.

(** What is taken back ends too: no more than the enclave reported, from the disks it
    is on. *)
Lemma decrease_ends info capacity (w : W) :
  0 <= capacity → Forall (λ p, 0 <= ToInt (jkey (str "assigned") p.2)) (ObjectRange info) →
  Zsum (map h_assigned (omap (holder_of w) (ObjectRange info))) < 2 ^ 64 →
  ∃ ans, decrease_info info capacity w
         = (Some ans, Z.min (Zsum (map h_assigned (omap (holder_of w) (ObjectRange info)))) capacity).
Proof.
  intros Hc Hf Hs. unfold decrease_info.
  set (hs := omap (holder_of w) (ObjectRange info)) in *.
  assert (Forall (λ h, 0 <= h_assigned h) hs) as Hh.
  { apply Forall_forall. intros h (p & Hp & E)%list_elem_of_omap. rewrite Forall_forall in Hf.
    specialize (Hf p Hp). unfold holder_of in E. destruct (negb _ || _); [done|]. by injection E as <-. }
  assert (∀ n, 0 <= n → n + Zsum (map h_assigned hs) < 2 ^ 64 →
    fold_left (λ n h, u64 (n + h_assigned h)) hs n = n + Zsum (map h_assigned hs) ∧
    rooms h_assigned hs = Zsum (map h_assigned hs) ∧ 0 <= Zsum (map h_assigned hs)) as Hsum.
  { clear Hs Hf. clearbody hs. induction Hh as [|h hs Hh _ IH]; intros n Hn Hlt.
    { cbn. unfold rooms, Zsum. cbn. split_and!; lia. }
    cbn [fold_left map] in *. rewrite Zsum_cons in *.
    destruct (IH 0) as (_ & _ & H0); [lia| |].
    - assert (0 <= Zsum (map h_assigned hs)) as H0; [|lia].
      destruct (Z_lt_le_dec (Zsum (map h_assigned hs)) 0) as [Hneg|]; [|done]. by destruct (IH 0); lia.
    - destruct (IH (u64 (n + h_assigned h))) as (E1 & E2 & _); [apply u64_range|rewrite u64_small; lia|].
      rewrite E1, u64_small by lia. unfold rooms in *. cbn [map]. rewrite Zsum_cons, E2.
      unfold room at 1. split_and!; lia. }
  destruct (Hsum 0) as (E1 & E2 & E3); [lia..|]. rewrite E1, Z.add_0_l.
  destruct (deal_spec h_path h_assigned give_up1 (λ _, eq_refl) (λ _, eq_refl)
    (Z.to_nat (Z.min (Zsum (map h_assigned hs)) capacity)) hs (Z.min (Zsum (map h_assigned hs)) capacity))
    as (ns & l & log & E & _); [lia..|]. rewrite E. by eexists.
Qed.
End planning.

(** ** The check of the reserved space *)
Section reserved.
Context {W : Type} `{!LevelDb W} `{!DiskOs W} `{!Host (node W)} `{!IdHost (node W)} `{!UpgradeHost (node W)}
  `{!AttestHost (node W)} `{!Threads (node W)} `{!AppThreads (node W)}.
Implicit Types (s : srd_node W).

Lemma del_info_keys reserved (w : W) m :
  map_ok m → map_ok (del_info reserved w (JObject m)) ∧
  ∀ k v, (k, v) ∈ del_info reserved w (JObject m) ↔
         ∃ j d, (k, j) ∈ m ∧ del_space reserved w (k, j) = Some d ∧ v = JIntegral d.
Proof.
  unfold del_info. cbn [ObjectRange as_object]. induction m as [|[k j] m IH]; intros Hm.
  { split; [constructor|]. intros k v. split; [by intros ?%elem_of_nil|]. by intros (? & ? & ?%elem_of_nil & _). }
  apply map_ok_cons in Hm as [Hk Hm]. destruct (IH Hm) as [Hok Hin]. cbn [omap list_omap].
  destruct (del_space reserved w (k, j)) as [d|] eqn:E; cbn [mbind option_bind fst].
  - split.
    + apply map_ok_cons. split; [|done]. rewrite Forall_forall in Hk |- *. intros [k' v] Hp.
      apply Hin in Hp as (j' & d' & Hp & _). apply (Hk _ Hp).
    + intros k' v. rewrite elem_of_cons, Hin. setoid_rewrite elem_of_cons. naive_solver.
  - split; [done|]. intros k' v. rewrite Hin. setoid_rewrite elem_of_cons. naive_solver.
Qed.
Lemma shared_int m k : shared (JObject m) → - 2 ^ 63 <= ToInt (jkey k (JObject m)) < 2 ^ 63.
Proof.
  intros Hm. inversion Hm as [? _ _ Hv| |]; subst. unfold jkey, map_get. cbn [as_object].
  destruct (map_find k m) as [j|] eqn:E; [|cbn; lia]. cbn [default]. apply map_find_elem in E.
  rewrite Forall_forall in Hv. pose proof (Hv _ E) as Hj. cbn [snd] in Hj. destruct Hj; cbn; lia.
Qed.
Lemma del_info_shared reserved (w : W) m :
  0 <= reserved < 2 ^ 63 → shared (JObject m) → shared (JObject (del_info reserved w (JObject m))).
Proof.
  intros Hr Hm. inversion Hm as [? Hok Hkey Hv| |]; subst. destruct (del_info_keys reserved w m Hok) as [Hd Hin].
  rewrite Forall_forall in Hkey, Hv. constructor; [done|apply Forall_forall; intros [k v] Hp..];
    apply Hin in Hp as (j & d & Hp & E & ->); [apply (Hkey _ Hp)|]. constructor. unfold del_space in E.
  pose proof (avail_range k w). cbn [fst snd] in E. rewrite i64_small in E by lia.
  destruct (Z.ltb_spec (get_avail_space_under_dir_g k w) reserved); [|done]. injection E as <-.
  assert (∀ k, - 2 ^ 63 <= ToInt (jkey k j) < 2 ^ 63) as Hint.
  { intros k'. pose proof (Hv _ Hp) as Hj. cbn [snd] in Hj.
    destruct Hj; [by apply shared_int; constructor|cbn; lia..]. }
  specialize (Hint (str "assigned")). cbn [str String.list_ascii_of_string] in *. lia.
Qed.

(** The check of the reserved space asks the enclave for the right deletions: from
    the srd info the enclave stored, the paths whose disk has less than the reserved
    space, each with what is missing or, if less, all it holds; the enclave parses
    the text into exactly these.  With nothing missing nothing is asked. *)
Theorem check_reserved_asks fuel tid s m :
  DataBase_get DB_SRD_INFO (os s) = (CRUST_SUCCESS, dump (JObject m)) → shared (JObject m) →
  0 <= get_reserved_space s < 2 ^ 63 →
  ∃ dels text,
    Load Text text = Ok (JObject dels) ∧
    srd_check_reserved_turn fuel tid s =
      (if bool_decide (dels = []) then mret tt
       else on_app (Ecall_srd_update_metadata fuel tid text);; mret tt) s ∧
    ∀ k v, (k, v) ∈ dels ↔
      ∃ j, (k, j) ∈ m ∧ get_avail_space_under_dir_g k (os s) < get_reserved_space s ∧
           v = JIntegral (Z.min (get_reserved_space s - get_avail_space_under_dir_g k (os s))
                                (ToInt (jkey (str "assigned") j))).
Proof.
  intros Hdb Hm Hr. pose proof (del_info_shared _ (os s) m Hr Hm) as Hdel.
  inversion Hm as [? Hok _ _| |]; subst. destruct (del_info_keys (get_reserved_space s) (os s) m Hok) as [_ Hin].
  exists (del_info (get_reserved_space s) (os s) (JObject m)),
    (app_dump (JObject (del_info (get_reserved_space s) (os s) (JObject m)))). split_and!.
  - unfold app_dump. rewrite shared_dump by done. by apply load_dump_ok; [apply shared_text|].
  - unfold srd_check_reserved_turn, gets. unfold mbind at 1 2, m_bind at 1 2. rewrite Hdb.
    unfold app_Load. rewrite load_dump_ok; [|by apply shared_text|done]. unfold of_res, mbind, m_bind. cbn [fst snd].
    by destruct (del_info (get_reserved_space s) (os s) (JObject m)).
  - intros k v. rewrite Hin. unfold del_space. pose proof (avail_range k (os s)). cbn [fst snd].
    rewrite i64_small by lia. split.
    + intros (j & d & Hj & E & ->). exists j. destruct (Z.ltb_spec (get_avail_space_under_dir_g k (os s)) (get_reserved_space s));
        [|done]. by injection E as <-.
    + intros (j & Hj & Hlt & ->). exists j. eexists. split; [done|]. split; [|done].
      destruct (Z.ltb_spec (get_avail_space_under_dir_g k (os s)) (get_reserved_space s)); [done|lia].
Qed.
End reserved.

(** ** Evaluated *)

(** Two disks: /a has 53 gigabytes left, /b has 60; a path of /a's disk is not used
    twice. *)
#[global] Instance demo_disks : DiskOs demo := {
  access path _ := bool_decide (path ∈ [str "/a"; str "/b"; str "/a2"]);
  system _ w := (256, w);
  statfs path _ :=
    if bool_decide (path = str "/a") || bool_decide (path = str "/a2")
    then Some (Statfs (100 * 2 ^ 18) 4096 (53 * 2 ^ 18) (replicate 8 (chr 1)))
    else if bool_decide (path = str "/b")
    then Some (Statfs (100 * 2 ^ 18) 4096 (60 * 2 ^ 18) (replicate 8 (chr 2))) else None
}.
Definition demo_config : srd_config :=
  SrdConfig (JArray [JString (str "/a"); JString (str "/b"); JString (str "/a2")]) (str "/c").
Lemma demo_config_ok : config_ok demo_config.
Proof.
  exists [str "/a"; str "/b"; str "/a2"]. split; [reflexivity|]. split; [|split; [reflexivity|]].
  - apply (bool_decide_unpack (NoDup _)). by vm_compute.
  - repeat (apply List.Forall_cons; [by vm_compute|]). apply List.Forall_nil.
Qed.
(** Eight gigabytes: three fit on /a, /b gets the other five; a failed mkdir counts as
    success, but its disk cannot be asked. *)
Example demo_increase :
  get_increase_srd_info demo_config DEFAULT_SRD_RESERVED 8 (world demo_enclave)
  = (Some ([(str "/a", Disk 3 100 0 3); (str "/b", Disk 10 100 5 5)], 8), world demo_enclave).
Proof. by vm_compute. Qed.
Lemma increase_plan_witness :
  ∃ disks n w' paths,
    get_increase_srd_info demo_config 50 8 (world demo_enclave) = (Some (disks, n), w') ∧
    increase_paths disks n = Some paths ∧ zlen paths = n.
Proof.
  destruct (increase_plan demo_config 50 8 (world demo_enclave)) as (disks & n & w' & paths & H1 & _ & _ & _ & _ & H2 & H3 & _);
    [lia|lia|apply demo_config_ok|].
  exists disks, n, w', paths. done.
Defined.
Example demo_decrease :
  decrease_info (JObject [(str "/a", JObject [(str "assigned", JIntegral 1)]); (str "/b", JObject [(str "assigned", JIntegral 9)]);
                          (str "/c", JObject [])]) 5 (world demo_enclave)
  = (Some [(str "/a", 1); (str "/b", 4)], 5).
Proof. by vm_compute. Qed.

Section demo_application.
#[local] Existing Instance node_host.
#[local] Existing Instance node_upgrade_host.
#[local] Existing Instance node_id_host.
#[local] Existing Instance node_attest_host.
#[local] Instance demo_node_threads : Threads (node demo) := { others_run e := e; ocall_srd_change _ e := e }.
#[local] Instance demo_node_app : AppThreads (node demo) := {
  app_others a := a;
  try_lock _ := true;
  calls_back tname _ :=
    if decide (tname = "Ecall_restore_from_upgrade"%string)
    then ["Ecall_get_quote_report"; "Ecall_verify_and_upload_identity"]%string else []
}.

Definition demo_srd_info : list (bytes * json) :=
  [(str "/a", JObject [(str "assigned", JIntegral 4)]); (str "/b", JObject [(str "assigned", JIntegral 9)])].
Lemma demo_srd_info_shared : shared (JObject demo_srd_info).
Proof.
  assert (∀ n, 0 <= n < 100 → shared (JObject [(str "assigned", JIntegral n)])) as H.
  { intros n Hn. constructor; [repeat constructor| |]; (apply List.Forall_cons; [|apply List.Forall_nil]).
    - split; [key_ok|by vm_compute].
    - constructor. lia. }
  constructor; [repeat constructor| |].
  - repeat (apply List.Forall_cons; [split; [key_ok|by vm_compute]|]). apply List.Forall_nil.
  - repeat (apply List.Forall_cons; [apply H; lia|]). apply List.Forall_nil.
Qed.
Definition demo_srd_node : srd_node demo :=
  SrdNode (App no_tasks
    (Enclave demo_new (λ _, 0) 0 None []
      (Node (DataBase_set DB_SRD_INFO (dump (JObject demo_srd_info)) (world demo_enclave)).2 EnclaveData_new []))
    no_upgrade_buffer) 55 0.
Lemma check_reserved_asks_witness :
  ∃ dels text, Load Text text = Ok (JObject dels) ∧
    srd_check_reserved_turn 4 7 demo_srd_node =
      (if bool_decide (dels = []) then mret tt
       else on_app (Ecall_srd_update_metadata 4 7 text);; mret tt) demo_srd_node ∧
    (str "/a", JIntegral 2) ∈ dels.
Proof.
  destruct (check_reserved_asks 4 7 demo_srd_node demo_srd_info) as (dels & text & H1 & H2 & H3);
    [by vm_compute|exact demo_srd_info_shared|by vm_compute|].
  exists dels, text. split; [exact H1|]. split; [exact H2|]. apply H3.
  exists (JObject [(str "assigned", JIntegral 4)]). split; [by left|]. split; by vm_compute.
Defined.

(** The capacity of the configuration grows by what was deleted (both gigabytes,
    although one was asked for). *)
Definition full_srd_node : srd_node demo :=
  SrdNode (App no_tasks
    (Enclave demo_id_workload (λ _, 0) 0 None []
      (Node (DataBase_set DB_SRD_INFO (dump (JObject demo_srd_info)) (world demo_enclave)).2 EnclaveData_new []))
    no_upgrade_buffer) 50 100.
Example capacity_grows :
  match app_srd_change 4 7 8 demo_config (-1) full_srd_node with
  | Ok (_, s) => map_total (srd_path2hashs_m demo_id_workload) = 2 ∧
                 map_total (srd_path2hashs_m (wl (a_enclave (s_app s)))) = 0 ∧ srd_capacity s = 102
  | _ => False
  end.
Proof. by vm_compute. Qed.
End demo_application.
