(* ===== verification/AppText.v ===== *)
(** * Texts of the application (app/utils/Common.cpp, app/utils/FormatUtils.cpp, the
    parameters of a request in app/http/ApiHandler.cpp)

    Addresses and their parts, the parameters of a request, the two directions of a
    Merkle tree as JSON.  Searching and replacing are those of [Attest], which the
    enclave has too. *)
From S2P Require Import Prelude StdMap Status Hex Json JsonParse JsonText Host.
From S2P Require Import State Demo Merkle Attest AppJson.

(** The characters from [a] to before [b] *)
Definition slice (s : bytes) (a b : nat) : bytes := take (b - a) (drop a s).

(** [atoi], as the C library does it: [strtol] cut to an [int] *)
Definition atoi (s : bytes) : Z :=
  let t := skip_ws s in
  let '(neg, t) := match t with
                   | c :: r => if code c =? 45 then (true, r) else if code c =? 43 then (false, r) else (false, t)
                   | [] => (false, []) end in
  let n := dec_value (span_digits t).1 in
  i32 (if neg : bool then Z.max (- n) (- 2 ^ 63) else Z.min n (2 ^ 63 - 1)).

(** ** Addresses *)
Record UrlEndPoint := UrlEnd { ue_ip : bytes; ue_base : bytes; ue_port : Z }.

Definition get_url_end_point (url : bytes) : UrlEndPoint :=
  let '(proto_type, spos) :=
    match string_find (str "://") url 0 with
    | Some epos => (take epos url, (epos + 3)%nat)
    | None => ([], 0%nat)
    end in
  match string_find (str ":") url spos with
  | None =>
      match string_find (str "/") url spos with
      | None => UrlEnd (drop spos url) [] (-1)
      | Some epos =>
          UrlEnd (slice url spos epos) (drop epos url)
            (if bool_decide (proto_type = str "https") then 443
             else if bool_decide (proto_type = str "http") then 80 else -1)
      end
  | Some epos =>
      let ip := slice url spos epos in
      let spos := S epos in
      match string_find (str "/") url spos with
      | None => UrlEnd ip [] (atoi (drop spos url))
      | Some epos => UrlEnd ip (drop epos url) (atoi (slice url spos epos))
      end
  end.

(** ** Requests *)

(** The loop over the parameters; a part without [=] ends it. *)
Fixpoint get_params_from (fuel : nat) (url : bytes) (spos : nat) (ans : list (bytes * bytes)) : list (bytes * bytes) :=
  match fuel with
  | O => ans
  | S fuel =>
      if Nat.ltb spos (List.length url) then
        let epos := default (List.length url) (string_find (str "&") url spos) in
        match string_find (str "=") url spos with
        | None => ans
        | Some ppos =>
            if Nat.ltb epos ppos then ans
            else get_params_from fuel url (S epos) (map_set (slice url spos ppos) (slice url (S ppos) epos) ans)
        end
      else ans
  end.
Definition get_params (url : bytes) : list (bytes * bytes) :=
  match string_find (str "?") url 0 with
  | None => []
  | Some spos => get_params_from (List.length url) url (S spos) []
  end.
Definition path_cat (base path : bytes) : bytes :=
  match base with
  | [] => path
  | _ => (if bool_decide (drop (List.length base - 1) base = [chr 47])
          then take (List.length base - 1) base else base) ++ path
  end.

(** ** Small functions *)
Definition remove_chars_from_string (s chars_to_remove : bytes) : bytes :=
  fold_left remove_char chars_to_remove s.
Definition is_number (s : bytes) : bool := forallb is_hexdigit s.
(** What [srand_string] adds to the time *)
Fixpoint seed_sum (i : Z) (seed : bytes) (acc : Z) : Z :=
  match seed with
  | [] => acc
  | c :: seed => seed_sum (i + 1) seed (u32 (acc + (if code c <? 128 then code c else code c - 256) * (i + 1)))
  end.
Definition srand_string (seed : bytes) (time : Z) : Z := u32 (time + seed_sum 0 seed 0).

(** The decoded characters are written to a buffer as long as the text, and the
    loop writes its terminating NUL, and another one. *)
Definition htoi (a b : ascii) : Z :=
  let digit c := if is_digit c then code c - 48
                 else (if (65 <=? code c) && (code c <=? 90) then code c + 32 else code c) - 97 + 10 in
  digit a * 16 + digit b.
Fixpoint flat_loop (fuel : nat) (room len : Z) (rest : bytes) (dest : bytes) : res bytes :=
  match fuel with
  | O => NoFuel
  | S fuel =>
      let put c l := if room <=? zlen dest then UB else flat_loop fuel room l (drop 1 rest) (dest ++ [c]) in
      if len <? 0 then if room <=? zlen dest then UB else Ok dest
      else
        let len := len - 1 in
        match rest with
        | [] => put (chr 0) len
        | c :: t =>
            if code c =? 43 then put (chr 32) len
            else
              match t with
              | a :: b :: t =>
                  if (code c =? 37) && (2 <=? len) && is_hexdigit a && is_hexdigit b then
                    if room <=? zlen dest then UB
                    else flat_loop fuel room (len - 2) t (dest ++ [chr (htoi a b)])
                  else put c len
              | _ => put c len
              end
        end
  end.
Definition flat_urlformat (url : bytes) : res bytes :=
  flat_loop (S (S (List.length url))) (zlen url) (zlen url) url [].

(** ** Merkle trees as JSON *)
Fixpoint deserialize_merkle_tree_from_json (fuel : nat) (tree_json : json) : option MerkleTree :=
  match fuel with
  | O => None
  | S fuel =>
      if negb (is_object tree_json) then None
      else
        let hash := c_str (app_ToString (jkey (str "hash") tree_json)) in
        let links_num := u64 (ToInt (jkey (str "links_num") tree_json)) in
        ts ← deser_links (deserialize_merkle_tree_from_json fuel) links_num
               (as_array (jkey (str "links") tree_json));
        Some (MTree hash 0 ts)
  end.
Fixpoint serialize_merkletree_to_json (root : MerkleTree) : json :=
  let 'MTree hash _ links := root in
  let tree := jkey_set (str "links_num") (jint (zlen links)) (jkey_set (str "hash") (JString hash) jobject) in
  match links with
  | [] => tree
  | _ => jkey_set (str "links") (JArray (map serialize_merkletree_to_json links)) tree
  end.

(** The three removals of the application *)
Definition app_strip (data : bytes) : bytes :=
  remove_char (remove_char (remove_char data (chr 92)) (chr 10)) (chr 32).

(** ** Lemmas: searching *)
Lemma scan_from_app c p a b : c ∉ a → scan_from (c :: p) (a ++ c :: p ++ b) = Some (List.length a).
Proof.
  induction a as [|x a IH]; intros Ha.
  - cbn [Datatypes.app scan_from]. rewrite bool_decide_true; [done|].
    change (c :: p ++ b) with ((c :: p) ++ b). by rewrite take_app_length.
  - apply not_elem_of_cons in Ha as [Hx Ha]. cbn [Datatypes.app scan_from List.length].
    rewrite bool_decide_false by (cbn [take List.length]; congruence). by rewrite IH.
Qed.
Lemma scan_from_none c p a : c ∉ a → scan_from (c :: p) a = None.
Proof.
  induction a as [|x a IH]; intros Ha; cbn [scan_from]; [done|]. apply not_elem_of_cons in Ha as [Hx Ha].
  rewrite bool_decide_false by (cbn [take List.length]; congruence). by rewrite IH.
Qed.
Lemma string_find_at c p pre a b :
  c ∉ a → string_find (c :: p) (pre ++ a ++ c :: p ++ b) (List.length pre) = Some (List.length pre + List.length a)%nat.
Proof.
  intros Ha. unfold string_find. rewrite drop_app_length, scan_from_app by done.
  destruct (Nat.ltb_spec (List.length (pre ++ a ++ c :: p ++ b)) (List.length pre)) as [H|_]; [|done].
  rewrite length_app in H. lia.
Qed.
Lemma string_find_none c p pre a : c ∉ a → string_find (c :: p) (pre ++ a) (List.length pre) = None.
Proof.
  intros Ha. unfold string_find. rewrite drop_app_length, scan_from_none by done. by destruct (Nat.ltb _ _).
Qed.
Lemma slice_mid (pre a b : bytes) : slice (pre ++ a ++ b) (List.length pre) (List.length pre + List.length a) = a.
Proof.
  unfold slice. rewrite drop_app_length. replace (_ - _)%nat with (List.length a) by lia. by rewrite take_app_length.
Qed.

(** ** Addresses and their parts *)
Lemma atoi_digits s :
  Forall (λ c, is_digit c = true) s → s ≠ [] → atoi s = i32 (Z.min (dec_value s) (2 ^ 63 - 1)).
Proof.
  intros Hs Hne. destruct s as [|c s]; [done|]. assert (span_digits (c :: s) = (c :: s, [])) as E.
  { clear Hne. induction Hs as [|x l Hx _ IH]; [done|]. cbn [span_digits]. by rewrite Hx, IH. }
  apply Forall_cons in Hs as [Hc _]. unfold atoi. cbn [skip_ws].
  unfold is_digit in Hc. assert (is_space c = false) as -> by (unfold is_space; lia).
  assert (code c =? 45 = false) as -> by lia. assert (code c =? 43 = false) as -> by lia. by rewrite E.
Qed.

(** An address is taken apart as it is put together: protocol, host, port and path. *)
Lemma url_end_point_parts proto ip port base :
  chr 58 ∉ proto → chr 58 ∉ ip → 0 <= port < 2 ^ 31 → base = [] ∨ (∃ b, base = chr 47 :: b) →
  get_url_end_point (proto ++ str "://" ++ ip ++ str ":" ++ to_string port ++ base) = UrlEnd ip base port.
Proof.
  intros Hproto Hip Hport Hbase. set (digits := to_string port).
  assert (Forall (λ c, is_digit c = true) digits ∧ digits ≠ [] ∧ dec_value digits = port) as (Hd & Hne & Hv).
  { unfold digits, to_string. destruct (Z.ltb_spec port 0); [lia|]. apply to_string_u_spec. lia. }
  assert (chr 47 ∉ digits) as Hslash.
  { intros Hin. rewrite Forall_forall in Hd. by specialize (Hd _ Hin). }
  set (pre := proto ++ str "://"). set (pre2 := pre ++ ip ++ str ":").
  set (url := proto ++ _).
  assert (url = pre ++ ip ++ chr 58 :: [] ++ digits ++ base) as E1 by (unfold url, pre; by rewrite <- app_assoc).
  assert (url = pre2 ++ digits ++ base) as E2 by (unfold url, pre2, pre; by rewrite <- !app_assoc).
  assert (List.length pre = (List.length proto + 3)%nat) as L1 by (unfold pre; rewrite length_app; reflexivity).
  assert (List.length pre2 = S (List.length pre + List.length ip)) as L2.
  { unfold pre2. rewrite !length_app. change (List.length (str ":")) with 1%nat. lia. }
  assert (string_find (str "://") url 0 = Some (List.length proto)) as F1.
  { apply (string_find_at (chr 58) (str "//") [] proto). done. }
  assert (string_find (str ":") url (List.length pre) = Some (List.length pre + List.length ip)%nat) as F2.
  { rewrite E1. by apply (string_find_at (chr 58) []). }
  unfold get_url_end_point. rewrite F1, <- L1, F2. cbv zeta. rewrite <- L2.
  assert (slice url (List.length pre) (List.length pre + List.length ip) = ip) as ->.
  { rewrite E1. apply slice_mid. }
  assert (atoi digits = port) as Hatoi.
  { rewrite atoi_digits, Hv by done. rewrite Z.min_l, i32_small by lia. done. }
  destruct Hbase as [->|(b & ->)].
  - rewrite app_nil_r in E2. rewrite E2. rewrite (string_find_none (chr 47) []) by done. rewrite drop_app_length.
    by rewrite Hatoi.
  - assert (string_find (str "/") url (List.length pre2) = Some (List.length pre2 + List.length digits)%nat) as ->.
    { rewrite E2. by apply (string_find_at (chr 47) [] pre2 digits b). }
    rewrite E2, slice_mid, Hatoi, app_assoc. rewrite <- length_app, drop_app_length. done.
Qed.

(** ** What a tree is sent to the enclave as *)

(** Values that have no hashes and whose strings carry no mark for line breaks *)
Inductive app_value : json → Prop :=
| av_null : app_value JNull
| av_object m : Forall (λ p, app_value p.2) m → app_value (JObject m)
| av_array l : Forall app_value l → app_value (JArray l)
| av_string s : app_json_escape s = json_escape s → app_value (JString s)
| av_floating d : app_value (JFloating d)
| av_integral z : app_value (JIntegral z)
| av_boolean b : app_value (JBoolean b).

Lemma app_strip_strip s : app_strip s = strip s.
Proof.
  unfold app_strip, strip, remove_char. rewrite !list_filter_filter. apply list_filter_iff. intros x. naive_solver.
Qed.
(** Stripped, the two printers print the same. *)
Lemma strip_app_dump j : ∀ d, app_value j → strip (app_dump_at d j) = strip (dump_at d j).
Proof.
  induction j as [|m IH|l IH|h|s|f|z|b] using json_nested_ind; intros d Hj;
    inversion Hj as [|? Hm|? Hl|? Hs| | |]; subst; try done; cbn [app_dump_at dump_at].
  - rewrite !strip_app, !strip_join, !map_map. do 3 f_equal. apply map_ext_in. intros p Hp%list_elem_of_In.
    rewrite Forall_forall in IH, Hm. by rewrite !strip_app, IH by auto.
  - assert (∀ X, strip ([chr 91; chr 10] ++ pad d ++ X ++ [chr 10] ++ drop 2 (pad d) ++ [chr 93])
            = strip ([chr 91] ++ X ++ [chr 93])) as ->.
    { intros X. by rewrite !strip_app, strip_pad, strip_pad_drop. }
    rewrite !strip_app, !strip_join, !map_map, strip_app, strip_pad.
    change (strip [chr 44; chr 32; chr 10] ++ []) with (strip [chr 44; chr 32]).
    do 3 f_equal. apply map_ext_in. intros x Hx%list_elem_of_In. rewrite Forall_forall in IH, Hl. auto.
  - by rewrite Hs.
Qed.
(** What a request for sealing sends to the enclave is read there as it was sent. *)
Lemma seal_text j :
  app_value j → text_ok Text j → plain_text j → not_number j → Load Text (app_strip (app_dump j)) = Ok j.
Proof.
  intros Hv Ht Hp Hn. rewrite app_strip_strip. unfold app_dump. rewrite strip_app_dump by done.
  by apply load_strip_dump_ok.
Qed.

(** A tree whose hashes are plain text *)
Inductive app_tree : MerkleTree → Prop :=
| at_node hash links : c_str hash = hash → app_json_escape hash = hash → zlen links < 2 ^ 63 →
    Forall app_tree links → app_tree (MTree hash 0 links).
Fixpoint tree_height (t : MerkleTree) : nat :=
  let 'MTree _ _ links := t in S (foldr (λ l n, Nat.max (tree_height l) n) 0%nat links).

Lemma deser_links_all (des : json → option MerkleTree) l ts :
  Forall2 (λ x t, des x = Some t) l ts → deser_links des (zlen l) l = Some ts.
Proof.
  induction 1 as [|x t l ts Hx _ IH]; [done|]. pose proof (zlen_nonneg l). rewrite zlen_cons. cbn [deser_links].
  destruct (Z.eqb_spec (1 + zlen l) 0); [lia|]. rewrite Hx. replace (1 + zlen l - 1) with (zlen l) by lia.
  cbn [mbind option_bind]. by rewrite IH.
Qed.
Lemma merkletree_json_roundtrip fuel t :
  app_tree t → (tree_height t <= fuel)%nat →
  deserialize_merkle_tree_from_json fuel (serialize_merkletree_to_json t) = Some t.
Proof.
  revert t. induction fuel as [|fuel IH]; intros [hash size links] Ht Hf; [cbn in Hf; lia|].
  inversion Ht as [? ? Hc He Hlen Hl]; subst. cbn [tree_height] in Hf.
  assert (Forall2 (λ x t, deserialize_merkle_tree_from_json fuel x = Some t)
            (map serialize_merkletree_to_json links) links) as H2.
  { apply Forall2_fmap_l, Forall_Forall2_diag, Forall_forall. intros t Hin. rewrite Forall_forall in Hl.
    apply IH; [auto|]. assert (tree_height t <= foldr (λ l n, Nat.max (tree_height l) n) 0%nat links)%nat; [|lia].
    clear -Hin. induction Hin as [|x l Hin IH]; cbn; [lia|]. lia. }
  apply deser_links_all in H2. rewrite zlen_map in H2. pose proof (zlen_nonneg links).
  destruct links as [|l0 links].
  - cbn [deserialize_merkle_tree_from_json].
    change (app_ToString (jkey (str "hash") (serialize_merkletree_to_json (MTree hash 0 [])))) with (app_json_escape hash).
    by rewrite He, Hc.
  - set (ls := l0 :: links) in *. cbn [deserialize_merkle_tree_from_json].
    assert (serialize_merkletree_to_json (MTree hash 0 ls)
            = JObject [(str "hash", JString hash); (str "links", JArray (map serialize_merkletree_to_json ls));
                       (str "links_num", jint (zlen ls))]) as -> by done.
    set (j := JObject _). change (is_object j) with true. cbn [negb].
    change (app_ToString (jkey (str "hash") j)) with (app_json_escape hash).
    change (ToInt (jkey (str "links_num") j)) with (i64 (zlen ls)).
    change (as_array (jkey (str "links") j)) with (map serialize_merkletree_to_json ls).
    rewrite He, Hc, i64_small, u64_small, H2 by lia. done.
Qed.

(** ** Evaluated *)
Example api_address :
  get_url_end_point (str "http://127.0.0.1:12222/api/v0") = UrlEnd (str "127.0.0.1") (str "/api/v0") 12222 ∧
  get_url_end_point (str "https://crust.network/api") = UrlEnd (str "crust.network") (str "/api") 443.
Proof. by vm_compute. Qed.
Example request_parameters :
  get_params (str "/x?b=2&a=1&c") = [(str "a", str "1"); (str "b", str "2")].
Proof. by vm_compute. Qed.
(** A text without an escape overruns the buffer it is decoded into. *)
Example flat_urlformat_overruns :
  flat_urlformat (str "abc") = UB ∧ flat_urlformat (str "a%20b%20c") = Ok (str "a b c" ++ [chr 0]).
Proof. by vm_compute. Qed.
Example letters_are_numbers : is_number (str "beef") = true.
Proof. done. Qed.
