(* ===== verification/AppChain.v ===== *)
(** * Configuration and chain (app/config/Config.cpp, app/chain/Chain.cpp, the calls of
    app/ocalls/OCalls.cpp that reach the chain)

    What the application reads from its configuration file, what it asks the chain
    over HTTP, and how a work report and an identity get there.  The HTTP client
    answers with a status and a body; 404 stands for every failure to connect. *)
From S2P Require Import Prelude StdMap Status Hex Json JsonParse JsonText Host.
From S2P Require Import State Demo Attest AppJson AppData AppSrd AppText.

Class HttpClient (W : Type) := {
  (* address, body, headers *)
  Get : bytes → bytes → list (bytes * bytes) → W → (Z * bytes) * W;
  (* address, body, content type, headers *)
  Post : bytes → bytes → bytes → list (bytes * bytes) → W → (Z * bytes) * W
}.

(** ** The configuration *)
Record Config := ConfigOf {
  base_path : bytes;
  c_srd : srd_config;
  db_path : bytes;
  c_srd_capacity : Z;
  base_url : bytes;
  karst_url : bytes;
  chain_api_base_url : bytes;
  chain_address : bytes;
  chain_account_id : bytes;
  chain_password : bytes;
  chain_backup : bytes
}.

(** A text field, [""] if it is missing *)
Definition field (k : String.string) (j : json) : bytes := app_ToString (jkey (str k) j).
Definition Config_new (config_value : json) : Config :=
  let chain := jkey (str "chain") config_value in
  let base := field "base_path" config_value in
  let srd_paths :=
    if hasKey (str "srd_paths") config_value && is_array (jkey (str "srd_paths") config_value)
    then jkey (str "srd_paths") config_value else jarray in
  let capacity := ToInt (jkey (str "srd_init_capacity") config_value) in
  let account := field "account_id" chain in
  {| base_path := base;
     c_srd := SrdConfig srd_paths (base ++ str "/srd_path");
     db_path := base ++ str "/db";
     c_srd_capacity := if capacity <? 0 then 0 else capacity;
     base_url := field "base_url" config_value;
     karst_url := field "karst_url" config_value;
     chain_api_base_url := field "base_url" chain;
     chain_address := field "address" chain;
     chain_account_id := match string_find (str "0x") account 0 with
                         | Some _ => drop 2 account | None => account end;
     chain_password := field "password" chain;
     chain_backup := remove_chars_from_string (field "backup" chain) [chr 92] |}.
Definition load_config (config_str : bytes) : res Config :=
  config_value ← app_Load config_str; Ok (Config_new config_value).

(** ** The chain *)
Record BlockHeader := Block { number : Z; hash : bytes }.

Section chain.
Context {W : Type} `{!HttpClient W}.
Abbreviation M := (Host.M W).
Variable cfg : Config.

Definition get (path : bytes) : M (Z * bytes) := λ w, Ok (Get (chain_api_base_url cfg ++ path) [] [] w).

Definition get_block_header : M (option BlockHeader) :=
  r ← get (str "/block/header");
  if r.1 =? 200 then
    block_header_json ← of_res (app_Load r.2);
    mret (Some (Block (u64 (ToInt (jkey (str "number") block_header_json)))
                      (drop 2 (field "hash" block_header_json))))
  else mret None.
(** 64 characters of the body from the fourth on *)
Definition get_block_hash (block_number : Z) : M bytes :=
  r ← get (str "/block/hash?blockNumber=" ++ to_string block_number);
  if r.1 =? 200 then of_res (substr r.2 3 64) else mret [].
Definition is_online : M bool :=
  r ← get (str "/block/header"); mret (r.1 =? 200).
Definition is_syncing : M bool :=
  r ← get (str "/system/health");
  if r.1 =? 200 then
    system_health_json ← of_res (app_Load r.2);
    mret (ToBool (jkey (str "isSyncing") system_health_json))
  else mret true.

(** The three loops of [wait_for_running]; each turn sleeps.  The header is used
    without looking whether there is one. *)
Fixpoint wait_online (fuel : nat) : M unit :=
  match fuel with
  | O => of_res NoFuel
  | S fuel => online ← is_online; if online : bool then mret tt else wait_online fuel
  end.
Fixpoint wait_height (fuel : nat) : M unit :=
  match fuel with
  | O => of_res NoFuel
  | S fuel =>
      block_header ← get_block_header;
      match block_header with
      | None => undefined
      | Some b => if 10 <=? number b then mret tt else wait_height fuel
      end
  end.
Fixpoint wait_synced (fuel : nat) : M unit :=
  match fuel with
  | O => of_res NoFuel
  | S fuel =>
      syncing ← is_syncing;
      if negb syncing then mret tt
      else
        block_header ← get_block_header;
        match block_header with None => undefined | Some _ => wait_synced fuel end
  end.
Definition wait_for_running (fuel : nat) : M bool :=
  wait_online fuel;; wait_height fuel;; wait_synced fuel;; mret true.

(** Twenty attempts to post [text] with the backup *)
Fixpoint post_tries (n : nat) (path text : bytes) : M bool :=
  match n with
  | O => mret false
  | S n =>
      obj ← of_res (app_Load text);
      r ← (λ w, Ok (Post (chain_api_base_url cfg ++ path)
                      (app_dump (jkey_set (str "backup") (JString (chain_backup cfg)) obj))
                      (str "application/json")
                      [(str "password", chain_password cfg); (str "Content-Type", str "application/json")] w));
      if r.1 =? 200 then mret true else post_tries n path text
  end.
Definition post_sworker_identity (identity : bytes) : M bool := post_tries 20 (str "/swork/identity") identity.
Definition post_sworker_work_report (work_report : bytes) : M bool :=
  post_tries 20 (str "/swork/workreport") work_report.

(** ** The calls of the enclave *)
Variable offline_chain_mode : bool.

(** [hash_size] characters are copied, however many there are. *)
Definition app_get_block_hash (block_height hash_size : Z) : M (crust_status * bytes) :=
  hash ← get_block_hash block_height;
  if bool_decide (hash = []) then mret (CRUST_UPGRADE_GET_BLOCK_HASH_FAILED, [])
  else if zlen hash + 1 <? hash_size then undefined
  else mret (CRUST_SUCCESS, take (Z.to_nat hash_size) (hash ++ [chr 0])).
Definition app_upload_workreport (work_report : bytes) : M crust_status :=
  let work_str := app_strip work_report in
  if offline_chain_mode then mret CRUST_SUCCESS
  else
    ok ← post_sworker_work_report work_str;
    mret (if ok : bool then CRUST_SUCCESS else CRUST_UPGRADE_SEND_WORKREPORT_FAILED).
Definition app_upload_identity (fuel : nat) (id : bytes) : M crust_status :=
  id_json ← of_res (app_Load id);
  let sworker_identity := app_dump (jkey_set (str "account_id") (JString (chain_address cfg)) id_json) in
  running ← wait_for_running fuel;
  if negb running then mret CRUST_UNEXPECTED_ERROR
  else
    ok ← post_sworker_identity sworker_identity;
    mret (if ok : bool then CRUST_SUCCESS else CRUST_UNEXPECTED_ERROR).
End chain.
