(* ===== verification/AppReport.v ===== *)
(** * Reporting work (app/process/WorkReport.cpp)

    The loop that asks the enclave for a report in every era, and what becomes of
    the text of a report on its way to the chain. *)
From Stdlib Require Import Sorting.Sorted.
From S2P Require Import Prelude StdMap Status Hex Json JsonParse JsonText Host.
From S2P Require Import State Demo Merkle Persist Workload Report Srd Identity Upgrade Attest.
From S2P Require Import Ecalls AppTask AppEcalls AppJson AppData AppSrd AppText AppChain.

Definition REPORT_BLOCK_HEIGHT_BASE : Z := 300.
Definition BLOCK_INTERVAL : Z := 6.
Definition REPORT_INTERVAL_BLCOK_NUMBER_UPPER_LIMIT : Z := 200.
Definition REPORT_INTERVAL_BLCOK_NUMBER_LOWER_LIMIT : Z := 10.

(** The clock, and the number [rand] gives right after [srand] *)
Class Clock (W : Type) := { time_now : W → Z; rand_after : Z → Z }.
Class ClockLaws (W : Type) `{!Clock W} : Prop := { rand_range seed : 0 <= rand_after seed < 2 ^ 31 }.

(** In seconds *)
Definition get_random_wait_time {W} `{!Clock W} (seed : bytes) (w : W) : Z :=
  (rand_after (srand_string seed (time_now w))
     mod (REPORT_INTERVAL_BLCOK_NUMBER_UPPER_LIMIT - REPORT_INTERVAL_BLCOK_NUMBER_LOWER_LIMIT + 1)
   + REPORT_INTERVAL_BLCOK_NUMBER_LOWER_LIMIT - 1) * BLOCK_INTERVAL.
(** The height at which the era of [number] began *)
Definition era_start (number : Z) : Z := number / REPORT_BLOCK_HEIGHT_BASE * REPORT_BLOCK_HEIGHT_BASE.
Definition report_wait {W} `{!Clock W} (seed : bytes) (number : Z) (w : W) : Z :=
  let cut_wait_time := (number - era_start number) * BLOCK_INTERVAL in
  let wait_time := get_random_wait_time seed w in
  let wait_time := if wait_time <=? cut_wait_time then 0 else wait_time - cut_wait_time in
  Z.max wait_time REPORT_INTERVAL_BLCOK_NUMBER_LOWER_LIMIT.

(** The variables of the loop *)
Record report_loop := ReportLoop { offline_base_height : Z; target_block_height : Z; stop_tryout : Z }.
Definition stop_timeout : Z := 10 * BLOCK_INTERVAL.
Definition wr_wait_time : Z := BLOCK_INTERVAL / 2.
Definition no_hash : bytes := replicate 64 (chr 48).
Definition offline_hash : bytes := str "1" ++ replicate 62 (chr 48) ++ str "1".

Section loop.
Context {W : Type} `{!LevelDb W} `{!DiskOs W} `{!HttpClient W} `{!Clock W}.
Context `{!Host (node W)} `{!IdHost (node W)} `{!UpgradeHost (node W)} `{!AttestHost (node W)}.
Context `{!Threads (node W)} `{!AppThreads (node W)}.
Abbreviation M := (Host.M (srd_node W)).

(** A call of the world below *)
Definition on_os {A} (m : Host.M W A) : M A := λ s,
  match m (os s) with
  | Ok (x, w) => Ok (x, with_os w s)
  | UB => UB | Throw => Throw | NoFuel => NoFuel
  end.
Definition node_data (s : srd_node W) : EnclaveData := n_data (world (a_enclave (s_app s))).
Definition get_app_upgrade_status (s : srd_node W) : upgrade_status_t := app_upgrade_status (node_data s).
(** While the thread sleeps the others act, however long it is. *)
Definition sleep (seconds : Z) : M unit := on_app (modify app_others).

Variable cfg : Config.
Variable offline_chain_mode : bool.
Variable fuel tid : nat.

(** Before the loop: the public key, which seeds the waiting, and the target *)
Definition report_start : M (bytes * report_loop) :=
  on_app (Ecall_id_get_info fuel tid);;
  id_json ← gets (λ s, app_Load (enclave_id_info (node_data s)));
  id_json ← of_res id_json;
  target ← (if offline_chain_mode then mret REPORT_BLOCK_HEIGHT_BASE
            else
              b ← on_os (get_block_header cfg);
              mret (match b with
                    | None => REPORT_BLOCK_HEIGHT_BASE
                    | Some b => u64 (era_start (number b) + REPORT_BLOCK_HEIGHT_BASE)
                    end));
  mret (field "pub_key" id_json, ReportLoop REPORT_BLOCK_HEIGHT_BASE target (stop_timeout / wr_wait_time)).

Definition upload (block_hash : bytes) (height : Z) : M unit :=
  on_app (Ecall_gen_and_upload_work_report fuel tid block_hash height);; mret tt.

(** The part of a turn behind the test of the upgrade: the variables afterwards and
    what was reported *)
Definition report_once (seed : bytes) (l : report_loop) : M (report_loop * option (Z * bytes)) :=
  if offline_chain_mode then
    let h := offline_base_height l in
    sleep 60;;
    upload offline_hash h;;
    mret (ReportLoop (u64 (h + REPORT_BLOCK_HEIGHT_BASE)) (target_block_height l) (stop_tryout l),
          Some (h, offline_hash))
  else
    block_header ← on_os (get_block_header cfg);
    match block_header with
    | None => mret (l, None)
    | Some b =>
        if number b <? target_block_height l then mret (l, None)
        else
          let h := era_start (number b) in
          wait_time ← gets (λ s, report_wait seed (number b) (os s));
          sleep wait_time;;
          block_hash ← on_os (get_block_hash cfg h);
          if bool_decide (block_hash = [] ∨ block_hash = no_hash) then mret (l, None)
          else
            upload block_hash h;;
            mret (ReportLoop (offline_base_height l) (u64 (h + REPORT_BLOCK_HEIGHT_BASE)) (stop_tryout l),
                  Some (h, block_hash))
    end.
(** One turn; [None] ends the loop. *)
Definition report_turn (seed : bytes) (l : report_loop) : M (option (report_loop * option (Z * bytes))) :=
  status ← gets get_app_upgrade_status;
  match status with
  | UPGRADE_STATUS_EXIT => mret None
  | UPGRADE_STATUS_STOP_WORKREPORT =>
      let tryout := stop_tryout l - 1 in
      if tryout <? 0 then
        r ← report_once seed (ReportLoop (offline_base_height l) (target_block_height l) (stop_timeout / wr_wait_time));
        sleep wr_wait_time;; mret (Some r)
      else
        sleep wr_wait_time;; mret (Some (ReportLoop (offline_base_height l) (target_block_height l) tryout, None))
  | _ => r ← report_once seed l; sleep wr_wait_time;; mret (Some r)
  end.
(** Any number of turns, with what was reported *)
Fixpoint report_turns (n : nat) (seed : bytes) (l : report_loop) : M (list (Z * bytes)) :=
  match n with
  | O => mret []
  | S n =>
      r ← report_turn seed l;
      match r with
      | None => mret []
      | Some (l, o) =>
          rest ← report_turns n seed l;
          mret (match o with Some x => x :: rest | None => rest end)
      end
  end.
End loop.

(** ** Lemmas *)
Lemma era_start_spec n : 0 <= n → 0 <= era_start n <= n ∧ n < era_start n + 300 ∧ era_start n mod 300 = 0.
Proof.
  intros Hn. unfold era_start, REPORT_BLOCK_HEIGHT_BASE. pose proof (Z.div_mod n 300 ltac:(lia)).
  pose proof (Z.mod_pos_bound n 300 ltac:(lia)). pose proof (Z.div_pos n 300 Hn ltac:(lia)).
  rewrite Z.mod_mul by lia. lia.
Qed.
Lemma era_start_mono t n : t mod 300 = 0 → t <= n → t <= era_start n.
Proof.
  intros Ht Hn. unfold era_start, REPORT_BLOCK_HEIGHT_BASE.
  rewrite (Z.div_mod t 300), Ht by lia. pose proof (Z.div_le_mono t n 300 ltac:(lia) Hn). lia.
Qed.

(** The wait before a report is between ten seconds and 1194, and it ends within
    the first 199 blocks of the era unless the era was already further, and then
    after ten seconds. *)
Theorem report_wait_bounds {W} `{!Clock W} `{!ClockLaws W} seed n (w : W) :
  0 <= n →
  10 <= report_wait seed n w <= 199 * BLOCK_INTERVAL ∧
  ((n - era_start n) * BLOCK_INTERVAL + report_wait seed n w <= 199 * BLOCK_INTERVAL ∨ report_wait seed n w = 10).
Proof.
  intros Hn. unfold report_wait, get_random_wait_time. pose proof (era_start_spec n Hn).
  unfold REPORT_INTERVAL_BLCOK_NUMBER_UPPER_LIMIT, REPORT_INTERVAL_BLCOK_NUMBER_LOWER_LIMIT, BLOCK_INTERVAL.
  pose proof (rand_range (srand_string seed (time_now w))).
  pose proof (Z.mod_pos_bound (rand_after (srand_string seed (time_now w))) (200 - 10 + 1) ltac:(lia)).
  destruct (Z.leb_spec ((rand_after (srand_string seed (time_now w)) mod (200 - 10 + 1) + 10 - 1) * 6) ((n - era_start n) * 6)); lia.
Qed.

Section reports.
Context {W : Type} `{!LevelDb W} `{!DiskOs W} `{!HttpClient W} `{!Clock W}.
Context `{!Host (node W)} `{!IdHost (node W)} `{!UpgradeHost (node W)} `{!AttestHost (node W)}.
Context `{!Threads (node W)} `{!AppThreads (node W)}.
Implicit Types (s : srd_node W).

(** The chain is younger than 2^63 blocks. *)
Definition heights_fit (cfg : Config) : Prop :=
  ∀ (w : W) b w', get_block_header cfg w = Ok (Some b, w') → 0 <= number b < 2 ^ 63.

Lemma report_once_online cfg fuel tid seed l s l' o s' :
  heights_fit cfg → target_block_height l mod 300 = 0 →
  report_once cfg false fuel tid seed l s = Ok ((l', o), s') →
  match o with
  | None => l' = l
  | Some (h, _) => target_block_height l <= h ∧ h mod 300 = 0 ∧ target_block_height l' = h + 300
  end.
Proof.
  intros Hf Ht H. unfold report_once in H. apply bind_Ok in H as (b & s1 & Hb & H).
  destruct b as [b|]; [|by apply ret_Ok in H as [[= -> ->] _]].
  destruct (Z.ltb_spec (number b) (target_block_height l)) as [|Hn]; [by apply ret_Ok in H as [[= -> ->] _]|].
  apply bind_Ok in H as (wt & s1' & _ & H). apply bind_Ok in H as (? & s2 & _ & H).
  apply bind_Ok in H as (bh & s3 & _ & H).
  destruct (bool_decide _); [by apply ret_Ok in H as [[= -> ->] _]|].
  apply bind_Ok in H as (? & s4 & _ & H). apply ret_Ok in H as [[= -> ->] _]. cbn [target_block_height].
  assert (0 <= number b < 2 ^ 63) as Hr.
  { unfold on_os in Hb. destruct (get_block_header cfg (os s)) as [[b' w']| | |] eqn:E; try done.
    injection Hb as -> _. by eapply Hf. }
  pose proof (era_start_spec (number b) ltac:(lia)). pose proof (era_start_mono _ _ Ht Hn).
  unfold REPORT_BLOCK_HEIGHT_BASE. rewrite u64_small by lia. lia.
Qed.
Lemma report_turn_online cfg fuel tid seed l s l' o s' :
  heights_fit cfg → target_block_height l mod 300 = 0 →
  report_turn cfg false fuel tid seed l s = Ok (Some (l', o), s') →
  match o with
  | None => target_block_height l' = target_block_height l
  | Some (h, _) => target_block_height l <= h ∧ h mod 300 = 0 ∧ target_block_height l' = h + 300
  end.
Proof.
  intros Hf Ht H. unfold report_turn in H. apply bind_Ok in H as (st & s1 & _ & H).
  assert (∀ l0, target_block_height l0 = target_block_height l →
    (r ← report_once cfg false fuel tid seed l0; sleep wr_wait_time;; mret (Some r)) s1 = Ok (Some (l', o), s') →
    match o with
    | None => target_block_height l' = target_block_height l
    | Some (h, _) => target_block_height l <= h ∧ h mod 300 = 0 ∧ target_block_height l' = h + 300
    end) as Honce.
  { intros l0 E0 H0. apply bind_Ok in H0 as ([l1 o1] & s2 & H0 & H1). apply bind_Ok in H1 as (? & s3 & _ & H1).
    apply ret_Ok in H1 as [[= -> ->] _]. rewrite <- E0 in *.
    pose proof (report_once_online _ _ _ _ _ _ _ _ _ Hf Ht H0) as Hr. destruct o1 as [[h bh]|]; [exact Hr|congruence]. }
  destruct st; try (by apply (Honce l)).
  destruct (stop_tryout l - 1 <? 0); [by apply Honce in H|].
  apply bind_Ok in H as (? & s2 & _ & H). by apply ret_Ok in H as [[= -> ->] _].
Qed.

(** At most one report per era.  However long the loop runs, whatever the chain
    answers and whatever the other threads do, the heights it asks the enclave to
    report are multiples of 300, each later than the one before and none before the
    target the loop started with. *)
Theorem reports_once_per_era cfg fuel tid n seed l s hs s' :
  heights_fit cfg → target_block_height l mod 300 = 0 →
  report_turns cfg false fuel tid n seed l s = Ok (hs, s') →
  Forall (λ h, target_block_height l <= h ∧ h mod 300 = 0) (map fst hs) ∧ StronglySorted Z.lt (map fst hs).
Proof.
  intros Hf. revert l s hs. induction n as [|n IH]; intros l s hs Ht H.
  { apply ret_Ok in H as [-> _]. split; constructor. }
  cbn [report_turns] in H. apply bind_Ok in H as ([[l1 o]|] & s1 & H1 & H); [|apply ret_Ok in H as [-> _]; split; constructor].
  apply bind_Ok in H as (rest & s2 & H2 & H). apply ret_Ok in H as [-> ->].
  pose proof (report_turn_online _ _ _ _ _ _ _ _ _ Hf Ht H1) as Ho. destruct o as [[h bh]|].
  - destruct Ho as (Hle & Hm & Ht'). destruct (IH l1 s1 rest) as [Ha Hs]; [|exact H2|].
    + rewrite Ht', Z.add_mod, Hm by lia. done.
    + cbn [map fst]. split; constructor; try done.
      * eapply Forall_impl; [exact Ha|]. intros x [? ?]. split; [lia|done].
      * eapply Forall_impl; [exact Ha|]. intros x [? ?]. cbn. lia.
  - destruct (IH l1 s1 rest) as [Ha Hs]; [by rewrite Ho|exact H2|]. rewrite Ho in Ha. done.
Qed.
End reports.

(** ** The text of a report *)

(** What a changed file and a report say *)
Definition file_value (f : json) : json :=
  JObject [(FILE_HASH, JString (ToString (jkey FILE_OLD_HASH f))); (FILE_SIZE, JIntegral (old_size f))].
Definition report_fields (d : report_data) (sig : bytes) (added deleted : list json) : list (bytes * json) :=
  [(WORKREPORT_PUB_KEY, JString (hexstring_safe (rd_pub_key d)));
   (WORKREPORT_PRE_PUB_KEY, JString (hexstring_safe (rd_pre_pub_key d)));
   (WORKREPORT_BLOCK_HEIGHT, JString (rd_height d));
   (WORKREPORT_BLOCK_HASH, JString (take 64 (rd_block_hash d)));
   (WORKREPORT_RESERVED, JIntegral (rd_reserved d));
   (WORKREPORT_FILES_SIZE, JIntegral (rd_files_size d));
   (WORKREPORT_RESERVED_ROOT, JString (hexstring_safe (rd_srd_root d)));
   (WORKREPORT_FILES_ROOT, JString (hexstring_safe (rd_files_root d)));
   (WORKREPORT_FILES_ADDED, JArray (map file_value added));
   (WORKREPORT_FILES_DELETED, JArray (map file_value deleted));
   (WORKREPORT_SIG, JString (hexstring_safe sig))].

(** What the enclave puts into a report: digits, hexadecimal digits, numbers of 64
    bits, and the lists of the changed files *)
Record report_data_ok (d : report_data) (added deleted : list json) : Prop := {
  rk_height : ∃ h, rd_height d = to_string h;
  rk_hash : Forall is_hex (rd_block_hash d);
  rk_reserved : - 2 ^ 63 <= rd_reserved d < 2 ^ 63;
  rk_files_size : - 2 ^ 63 <= rd_files_size d < 2 ^ 63;
  rk_added : rd_added d = str "[" ++ join (str ",") (map file_str added) ++ str "]";
  rk_deleted : rd_deleted d = str "[" ++ join (str ",") (map file_str deleted) ++ str "]";
  rk_files : Forall (λ f, Forall is_hex (ToString (jkey FILE_OLD_HASH f)) ∧ - 2 ^ 63 <= old_size f < 2 ^ 63)
               (added ++ deleted)
}.

(** Hexadecimal or decimal text *)
Definition word (s : bytes) : Prop := plain s ∧ Forall (λ c, escape_char c = [c]) s ∧ take 6 s ≠ HASH_TAG.
Lemma hex_word s : Forall is_hex s → word s.
Proof.
  intros Hs. split_and!; [by eapply Forall_impl; [exact Hs|apply hex_plain]|
    by eapply Forall_impl; [exact Hs|apply hex_escape_id]|].
  destruct Hs as [|c s Hc _]; [done|]. intros E. injection E as -> _.
  unfold is_hex in Hc. cbn in Hc. rewrite !elem_of_cons, elem_of_nil in Hc. naive_solver.
Qed.
Lemma number_word z : word (to_string z).
Proof.
  pose proof (to_string_chars z) as Hc. split_and!; [apply to_string_plain| |].
  - eapply Forall_impl; [exact Hc|]. intros c [H _]. unfold is_num_char, is_digit in H. unfold escape_char.
    repeat (match goal with |- context [code c =? ?n] => destruct (Z.eqb_spec (code c) n); [lia|] end).
    done.
  - destruct (to_string_head z) as (c & r & E & Hh). rewrite E. intros F. injection F as -> _.
    by destruct Hh.
Qed.
Lemma word_value raw s : word s → text_ok raw (JString s) ∧ plain_text (JString s) ∧ json_escape s = s.
Proof. intros (Hp & He & Ht). pose proof (escape_id s He) as E. split_and!; [by apply tx_string|apply pl_string; by rewrite E|done]. Qed.

Lemma strip_render j d : plain_text j → strip (render compact d j) = render compact d j.
Proof.
  intros Hj. rewrite <- (strip_dump j Hj d d). unfold strip, remove_char. rewrite !list_filter_filter.
  apply list_filter_iff. intros x. naive_solver.
Qed.
Lemma file_str_render f d :
  Forall is_hex (ToString (jkey FILE_OLD_HASH f)) → file_str f = render compact d (file_value f).
Proof.
  intros Hf. destruct (word_value Text _ (hex_word _ Hf)) as (_ & _ & E).
  unfold file_str, file_value. cbn [render map fst snd lo_field lo_colon lo_close lo_empty compact].
  rewrite join_cons. cbn [join]. rewrite E. unfold quote. rewrite <- !app_assoc. done.
Qed.

Lemma files_render d fs text :
  Forall (λ f, Forall is_hex (ToString (jkey FILE_OLD_HASH f)) ∧ - 2 ^ 63 <= old_size f < 2 ^ 63) fs →
  text = str "[" ++ join (str ",") (map file_str fs) ++ str "]" → text = render compact d (JArray (map file_value fs)).
Proof.
  intros Hf ->. cbn [render lo_comma compact]. do 3 f_equal. rewrite map_map. apply map_ext_in. intros f Hin%list_elem_of_In.
  rewrite Forall_forall in Hf. by apply file_str_render, Hf.
Qed.
Lemma report_text_render d sig added deleted :
  report_data_ok d added deleted →
  report_text d sig = render compact 0 (JObject (report_fields d sig added deleted)).
Proof.
  intros [[h Hh] Hbh _ _ Ha Hd [Hfa Hfd]%Forall_app].
  assert (∀ s, word s → json_escape s = s) as Hw by (intros s Hs; apply (word_value Text s Hs)).
  pose proof (λ b, Hw _ (hex_word _ (hexstring_safe_hex b))) as Hhex.
  pose proof (Hw _ (hex_word _ (Forall_take _ 64 _ Hbh))) as Ebh. pose proof (Hw _ (number_word h)) as Eh.
  rewrite <- Hh in Eh.
  apply (files_render 1 _ _ Hfa) in Ha. apply (files_render 1 _ _ Hfd) in Hd.
  assert (∀ k s, json_escape s = s →
    JsonText.field compact 0 (k, render compact 1 (JString s)) = text_field k s) as Ft.
  { intros k s Hs. cbn [render]. by rewrite Hs. }
  assert (∀ k s, JsonText.field compact 0 (k, s) = raw_field k s) as Fr by done.
  rewrite render_object. unfold report_fields. cbn [map fst snd lo_close compact]. rewrite !join_cons. cbn [join].
  rewrite !Ft by done. cbn [render] in *. rewrite <- Ha, <- Hd, !Fr. unfold report_text. rewrite <- !app_assoc. done.
Qed.

(** The names in a report are read as they are. *)
Definition report_keys : list bytes :=
  [FILE_HASH; FILE_SIZE; WORKREPORT_PUB_KEY; WORKREPORT_PRE_PUB_KEY; WORKREPORT_BLOCK_HEIGHT; WORKREPORT_BLOCK_HASH;
   WORKREPORT_RESERVED; WORKREPORT_FILES_SIZE; WORKREPORT_RESERVED_ROOT; WORKREPORT_FILES_ROOT;
   WORKREPORT_FILES_ADDED; WORKREPORT_FILES_DELETED; WORKREPORT_SIG].
Lemma report_keys_ok : Forall (λ k, key_reads AppText k ∧ plain k) report_keys.
Proof.
  unfold report_keys.
  repeat (apply List.Forall_cons; [split; [split; [key_ok|by vm_compute]|
    repeat (apply List.Forall_cons; [by split_and!|]); apply List.Forall_nil]|]).
  apply List.Forall_nil.
Qed.

(** The application reads the text as what the enclave meant. *)
Lemma report_values d sig added deleted :
  report_data_ok d added deleted →
  Forall (λ p, key_reads AppText p.1 ∧ text_ok AppText p.2) (report_fields d sig added deleted) ∧
  plain_text (JObject (report_fields d sig added deleted)).
Proof.
  intros [[h Hh] Hbh Hr Hs _ _ [Hfa Hfd]%Forall_app].
  assert (∀ k, k ∈ report_keys → key_reads AppText k ∧ plain k) as Hk.
  { pose proof report_keys_ok as H. rewrite Forall_forall in H. done. }
  assert (∀ s, word s → text_ok AppText (JString s) ∧ plain_text (JString s)) as Hw.
  { intros s Hs'. by destruct (word_value AppText s Hs') as (? & ? & _). }
  pose proof (λ b, Hw _ (hex_word _ (hexstring_safe_hex b))) as Hhex.
  pose proof (Hw _ (hex_word _ (Forall_take _ 64 _ Hbh))) as Ebh. pose proof (Hw _ (number_word h)) as Eh.
  rewrite <- Hh in Eh.
  assert (∀ f, Forall is_hex (ToString (jkey FILE_OLD_HASH f)) ∧ - 2 ^ 63 <= old_size f < 2 ^ 63 →
    text_ok AppText (file_value f) ∧ plain_text (file_value f)) as Hfv.
  { intros f [Hhx Hsz]. destruct (Hw _ (hex_word _ Hhx)).
    destruct (Hk FILE_HASH) as [? ?]; [by left|]. destruct (Hk FILE_SIZE) as [? ?]; [by right; left|].
    split; (constructor; [try (repeat constructor; done)..|]).
    all: repeat (apply List.Forall_cons; [cbn [fst snd]; try done; by constructor|]); apply List.Forall_nil. }
  assert (∀ fs, Forall (λ f, Forall is_hex (ToString (jkey FILE_OLD_HASH f)) ∧ - 2 ^ 63 <= old_size f < 2 ^ 63) fs →
    text_ok AppText (JArray (map file_value fs)) ∧ plain_text (JArray (map file_value fs))) as Hfs.
  { intros fs Hf. split; constructor; apply Forall_fmap; (eapply Forall_impl; [exact Hf|]); intros f Hx; by apply Hfv. }
  destruct (Hfs _ Hfa), (Hfs _ Hfd).
  assert (Forall (λ p, p.1 ∈ report_keys ∧ text_ok AppText p.2 ∧ plain_text p.2) (report_fields d sig added deleted)) as Hall.
  { unfold report_fields. repeat (apply List.Forall_cons; [cbn [fst snd]; split; [unfold report_keys; set_solver|]|]);
      try apply List.Forall_nil; try done; try (split; by constructor); apply Hhex. }
  split; [|constructor].
  all: eapply Forall_impl; [exact Hall|]; intros p (Hin & ? & ?); by destruct (Hk _ Hin).
Qed.
Lemma report_loads d sig added deleted :
  report_data_ok d added deleted →
  app_Load (app_strip (report_text d sig)) = Ok (JObject (map_build [] (report_fields d sig added deleted))).
Proof.
  intros Hd. destruct (report_values d sig added deleted Hd) as [Hv Hp].
  rewrite app_strip_strip, (report_text_render d sig added deleted Hd), strip_render by done.
  by apply load_fields; [apply _|].
Qed.
Lemma map_build_other m acc k : k ∉ map fst m → map_find k (map_build acc m) = map_find k acc.
Proof.
  revert acc. induction m as [|[k' v] m IH]; intros acc Hk; [done|]. cbn [map fst] in Hk.
  apply not_elem_of_cons in Hk as [Hne Hk].
  change (map_build acc ((k', v) :: m)) with (map_build (map_set k' v acc) m).
  by rewrite IH, map_find_set_ne by done.
Qed.
Lemma map_build_find m acc k v : NoDup (map fst m) → (k, v) ∈ m → map_find k (map_build acc m) = Some v.
Proof.
  revert acc. induction m as [|[k' v'] m IH]; intros acc Hn Hin; [by apply elem_of_nil in Hin|]. cbn [map fst] in Hn.
  apply NoDup_cons in Hn as [Hk Hn]. change (map_build acc ((k', v') :: m)) with (map_build (map_set k' v' acc) m).
  apply elem_of_cons in Hin as [[= -> ->]|Hin]; [|by apply IH].
  by rewrite map_build_other, map_find_set_eq.
Qed.
Lemma report_fields_once d sig added deleted : NoDup (map fst (report_fields d sig added deleted)).
Proof. apply (bool_decide_unpack (NoDup _)). by vm_compute. Qed.

Section posting.
Context {W : Type} `{!HttpClient W}.
Variable cfg : Config.

(** The same text is posted until it is accepted, at most [n] times. *)
Fixpoint post_until (n : nat) (path body : bytes) (w : W) : bool * W :=
  match n with
  | O => (false, w)
  | S n =>
      let '(r, w) := Post (chain_api_base_url cfg ++ path) body (str "application/json")
                       [(str "password", chain_password cfg); (str "Content-Type", str "application/json")] w in
      if r.1 =? 200 then (true, w) else post_until n path body w
  end.
Lemma post_tries_loaded n path text j w :
  app_Load text = Ok j →
  post_tries cfg n path text w =
  Ok (post_until n path (app_dump (jkey_set (str "backup") (JString (chain_backup cfg)) j)) w).
Proof.
  intros Hj. revert w. induction n as [|n IH]; intros w; [done|]. cbn [post_tries post_until].
  rewrite Hj. unfold mbind, m_bind, of_res. destruct (Post _ _ _ _ w) as [[st b] w1]. cbn [fst].
  destruct (st =? 200); [done|]. apply IH.
Qed.

(** The chain is told what the enclave signed.  Uploading the text of a report
    posts an object, the same at most twenty times until it is accepted, in which
    every field of the report, the two lists of files included, has the value the
    enclave put there, and the backup of the account is added; the status says
    whether it was accepted. *)
Theorem report_posted d sig added deleted (w : W) :
  report_data_ok d added deleted →
  ∃ m,
    (∀ k v, (k, v) ∈ report_fields d sig added deleted → map_find k m = Some v) ∧
    map_find (str "backup") m = Some (JString (chain_backup cfg)) ∧
    app_upload_workreport cfg false (report_text d sig) w =
      (let '(ok, w') := post_until 20 (str "/swork/workreport") (app_dump (JObject m)) w in
       Ok (if ok : bool then CRUST_SUCCESS else CRUST_UPGRADE_SEND_WORKREPORT_FAILED, w')).
Proof.
  intros Hd. set (fields := report_fields d sig added deleted).
  exists (map_set (str "backup") (JString (chain_backup cfg)) (map_build [] fields)). split_and!.
  - intros k v Hin. rewrite map_find_set_ne.
    + apply map_build_find; [apply report_fields_once|done].
    + intros <-. assert (str "backup" ∉ map fst fields) as Hn by (apply (bool_decide_unpack (_ ∉ _)); by vm_compute).
      apply Hn, list_elem_of_fmap. by eexists (_, _).
  - apply map_find_set_eq.
  - unfold app_upload_workreport, post_sworker_work_report. unfold mbind, m_bind.
    rewrite (post_tries_loaded _ _ _ _ w (report_loads d sig added deleted Hd)).
    change (jkey_set ?k ?v (JObject ?m)) with (JObject (map_set k v m)).
    by destruct (post_until _ _ _ w).
Qed.
End posting.

(** ** Evaluated *)

(** A chain at height 350, later at 700, that accepts what is posted; requests are
    recorded. *)
Definition demo_record (t : bytes) (w : demo) : demo := DemoW (d_db w) (d_files w) (d_rand w) (t :: d_uploaded w).
Definition demo_header (w : demo) : bytes :=
  if zlen (d_uploaded w) <? 1 then dump (JObject [(str "hash", JString (str "0xab")); (str "number", JIntegral 350)])
  else dump (JObject [(str "hash", JString (str "0xcd")); (str "number", JIntegral 700)]).
#[global] Instance demo_http : HttpClient demo := {
  Get url body _ w :=
    if bool_decide (url = str "http://chain/block/header") then ((200, demo_header w), demo_record url w)
    else ((200, str "'0x" ++ replicate 64 "a"%char ++ str "'"), demo_record url w);
  Post url body _ _ w := ((if zlen (d_uploaded w) <? 1 then 500 else 200, []), demo_record body w)
}.
#[global] Instance demo_clock : Clock demo := { time_now _ := 1600000000; rand_after seed := seed mod 2 ^ 31 }.
#[global] Instance demo_clock_laws : ClockLaws demo.
Proof. split. intros seed. apply Z.mod_pos_bound. lia. Qed.
Definition demo_cfg : Config :=
  {| base_path := str "/c"; c_srd := demo_config; db_path := str "/c/db"; c_srd_capacity := 0;
     base_url := str "http://127.0.0.1:12222/api/v0"; karst_url := []; chain_api_base_url := str "http://chain";
     chain_address := str "cT"; chain_account_id := str "ab"; chain_password := str "pw";
     chain_backup := str "{'address':'cT'}" |}.

Lemma report_wait_bounds_witness : 10 <= report_wait (str "key") 350 (world demo_enclave) <= 199 * BLOCK_INTERVAL.
Proof. apply (report_wait_bounds (str "key") 350 (world demo_enclave)). lia. Defined.

Section demo_reports.
#[local] Existing Instance node_host.
#[local] Existing Instance node_upgrade_host.
#[local] Existing Instance node_id_host.
#[local] Existing Instance node_attest_host.
#[local] Existing Instance demo_node_threads.
#[local] Existing Instance demo_node_app.

Lemma demo_heights_fit : heights_fit demo_cfg.
Proof.
  intros w b w' H. unfold get_block_header, AppChain.get, mbind, m_bind in H.
  change (chain_api_base_url demo_cfg ++ str "/block/header") with (str "http://chain/block/header") in H.
  cbn [Get demo_http] in H. rewrite bool_decide_true in H by done. cbn [fst snd] in H. change (200 =? 200) with true in H.
  unfold demo_header in H. destruct (zlen (d_uploaded w) <? 1); vm_compute in H; injection H as <- _; cbn; lia.
Qed.
Definition demo_loop : report_loop := ReportLoop 300 300 20.
Definition demo_reports : list (Z * bytes) :=
  match report_turns demo_cfg false 4 7 3 (str "key") demo_loop demo_srd_node with Ok (hs, _) => hs | _ => [] end.
Definition demo_reported : srd_node demo :=
  match report_turns demo_cfg false 4 7 3 (str "key") demo_loop demo_srd_node with Ok (_, s) => s | _ => demo_srd_node end.
Example demo_reported_heights : map fst demo_reports = [300; 600].
Proof. by vm_compute. Qed.
Lemma demo_reports_ok :
  report_turns demo_cfg false 4 7 3 (str "key") demo_loop demo_srd_node = Ok (demo_reports, demo_reported).
Proof.
  assert (did_return (report_turns demo_cfg false 4 7 3 (str "key") demo_loop demo_srd_node) = true) as H by (vm_compute; reflexivity).
  unfold demo_reports, demo_reported.
  by destruct (report_turns demo_cfg false 4 7 3 (str "key") demo_loop demo_srd_node) as [[hs s]| | |].
Qed.
Lemma reports_once_per_era_witness : StronglySorted Z.lt (map fst demo_reports).
Proof.
  apply (reports_once_per_era demo_cfg 4 7 3 (str "key") demo_loop demo_srd_node demo_reports demo_reported);
    [apply demo_heights_fit|reflexivity|apply demo_reports_ok].
Defined.
End demo_reports.

Definition demo_report_data : report_data :=
  RData (replicate 64 (chr 1)) [] (to_string 300) (replicate 64 "a"%char) (2 ^ 30) 7 (replicate 32 (chr 2))
    (replicate 32 (chr 3)) (str "[" ++ join (str ",") (map file_str demo_files) ++ str "]") (str "[]").
Lemma demo_report_ok : report_data_ok demo_report_data demo_files [].
Proof.
  split; try done.
  - by exists 300.
  - unfold is_hex. apply (bool_decide_unpack (Forall _ _)). by vm_compute.
  - unfold is_hex. apply (bool_decide_unpack (Forall _ _)). by vm_compute.
Qed.
Lemma report_posted_witness :
  ∃ m, map_find WORKREPORT_RESERVED m = Some (JIntegral (2 ^ 30)) ∧
       app_upload_workreport demo_cfg false (report_text demo_report_data (replicate 64 (chr 9))) (world demo_enclave)
       = (let '(ok, w') := post_until demo_cfg 20 (str "/swork/workreport") (app_dump (JObject m)) (world demo_enclave) in
          Ok (if ok : bool then CRUST_SUCCESS else CRUST_UPGRADE_SEND_WORKREPORT_FAILED, w')).
Proof.
  destruct (report_posted demo_cfg demo_report_data (replicate 64 (chr 9)) demo_files [] (world demo_enclave) demo_report_ok)
    as (m & H1 & _ & H3).
  exists m. split; [|exact H3]. apply H1. do 4 right. by left.
Defined.
(** The first attempt is refused, the second accepted. *)
Example demo_posted :
  match app_upload_workreport demo_cfg false (report_text demo_report_data (replicate 64 (chr 9))) (world demo_enclave) with
  | Ok (st, w) => st = CRUST_SUCCESS ∧ List.length (d_uploaded w) = 2%nat
  | _ => False
  end.
Proof. by vm_compute. Qed.
