(* ===== verification/AppApi.v ===== *)
(** * The HTTP interface (app/http/ApiHandler.h)

    [http_handler]: one request to the application, from the checks of its address
    to the answer, with everything a route does on the way.  A request carries its
    method, target, body and the header "backup", the others do not matter; of a
    response the status and the body are kept. *)
From stdpp Require Import gmap.
From S2P Require Import Prelude StdMap Status Hex Json JsonParse JsonText Host.
From S2P Require Import State Demo Merkle Persist Storage Identity Upgrade Attest Ecalls.
From S2P Require Import AppTask AppEcalls AppJson AppData AppSrd AppText AppChain AppReport.

Inductive verb := GET | POST | HEAD | OTHER.
#[global] Instance verb_eq_dec : EqDecision verb.
Proof. solve_decision. Defined.
Record request := Request { method : verb; target : bytes; req_backup : option bytes; req_body : bytes }.
Record response := Response { result : Z; body : bytes }.

(** The application behind the interface, with the two globals only routes use *)
Record api (W : Type) := Api { a_node : srd_node W; debug_flag : bool; change_srd_num : Z }.
Arguments Api {W}.
Arguments a_node {W}.
Arguments debug_flag {W}.
Arguments change_srd_num {W}.

(** The contents of a directory *)
Class Directory (W : Type) := { get_sub_folders_and_files : bytes → W → list bytes }.

Definition VERSION : bytes := str "0.6.0".
Definition SWORKER_VERSION : bytes := str "0.6.0".
Definition ID_METADATA : bytes := str "metadata".
Definition ID_METADATA_OLD : bytes := str "metadata_old".

(** [show_enclave_thread_info]: how often each task is in the enclave *)
Definition show_enclave_thread_info (t : tasks) : bytes :=
  let counts := concat (map (λ p, map_to_list p.2) (map_to_list (g_running_task_um t))) in
  app_dump (fold_left (λ j (p : name * Z), jkey_update (str p.1) (λ v, jint (ToInt v + p.2)) j) counts JNull).

(** The routes that are closed while an upgrade is under way *)
Definition upgrade_block_s : list bytes :=
  [str "/workload"; str "/srd/change"; str "/storage/confirm"; str "/storage/delete"; str "/storage/seal";
   str "/storage/unseal"].

(** [memcmp] stops at the first difference, the NUL of the path at the latest. *)
Definition starts_with (pre s : bytes) : bool := bool_decide (take (List.length pre) s = pre).

(** ** The text of the workload *)

(** A disk in the answer: space added, printed in one line and kept as text *)
Definition disk_item (disks : list (bytes * disk)) (p : bytes * json) : bytes * json :=
  let space f := match map_find p.1 disks with Some d => JIntegral (f d) | None => JNull end in
  let item := jkey_set (str "total") (space d_total) (jkey_set (str "available") (space d_available) p.2) in
  (p.1, JString (replace (remove_char (app_dump item) (chr 10)) (str "}") (str "  }"))).
(** A line of the file statistics; the buffer has 128 bytes. *)
Definition file_item (space_num : nat) (p : bytes * json) : res (bytes * json) :=
  let num := to_string (ToInt (jkey (str "num") p.2)) in
  let text := replicate (space_num - List.length p.1) (chr 32) ++ str "{  " ++ quote (str "num") ++ str " : "
                ++ num ++ replicate (6 - List.length num) (chr 32) ++ str ", " ++ quote (str "size") ++ str " : "
                ++ to_string (ToInt (jkey (str "size") p.2)) ++ str "  }" in
  if 128 <=? zlen text then UB else Ok (p.1, JString text).
Fixpoint file_items (space_num : nat) (m : list (bytes * json)) : res (list (bytes * json)) :=
  match m with
  | [] => Ok []
  | p :: m => p ← file_item space_num p; m ← file_items space_num m; Ok (p :: m)
  end.
Definition workload_text (wl_json : json) (reserved : Z) (disks : list (bytes * disk)) : res bytes :=
  let detail := jkey (str "detail") (jkey (str "srd") wl_json) in
  let items := ObjectRange detail in
  let srd_space := fold_left (λ n p, u64 (n + ToInt (jkey (str "assigned") p.2))) items 0 in
  let srd := jkey_set (str "disk_reserved") (jint reserved) (jkey (str "srd") wl_json) in
  let srd := jkey_set (str "detail") (if is_object detail then JObject (map (disk_item disks) items) else detail) srd in
  let srd := jkey_set (str "space") (jint srd_space) srd in
  let files := ObjectRange (jkey (str "files") wl_json) in
  let space_num := fold_left (λ n p, Nat.max n (List.length p.1)) files 0%nat in
  items ← file_items space_num files;
  let n_file_info := match items with [] => JNull | _ => JObject items end in
  let wl_json := jkey_set (str "files") n_file_info (jkey_set (str "srd") srd wl_json) in
  let wl_str := replace (app_dump wl_json) (chr 34 :: str "{") (str "{") in
  let wl_str := replace wl_str (str ": " ++ chr 34 :: str " ") (str ":  ") in
  let wl_str := replace wl_str (str "}" ++ [chr 34]) (str "}") in
  Ok (remove_char wl_str (chr 92)).

(** ** The routes *)
Section routes.
Context {W : Type} `{!LevelDb W} `{!DiskOs W} `{!HttpClient W} `{!Directory W}.
Context `{!Host (node W)} `{!IdHost (node W)} `{!UpgradeHost (node W)} `{!AttestHost (node W)}.
Context `{!Threads (node W)} `{!AppThreads (node W)}.
Abbreviation M := (Host.M (api W)).

Definition on_node {A} (m : Host.M (srd_node W) A) : M A := λ a,
  match m (a_node a) with
  | Ok (x, s) => Ok (x, Api s (debug_flag a) (change_srd_num a))
  | UB => UB | Throw => Throw | NoFuel => NoFuel
  end.
Definition call {A} (m : Host.M (app (node W)) A) : M A := on_node (on_app m).
Definition api_data (a : api W) : EnclaveData := node_data (a_node a).
Definition api_os (a : api W) : W := os (a_node a).
Definition api_status (a : api W) : upgrade_status_t := get_app_upgrade_status (a_node a).

Variable cfg : Config.
Variable fuel : nat.
(** The thread that serves the request, and the one a task is given to *)
Variables tid pool : nat.

Definition with_app_status (st : upgrade_status_t) (s : srd_node W) : srd_node W :=
  let e := a_enclave (s_app s) in
  let n := world e in
  let d := n_data n in
  SrdNode (App (a_tasks (s_app s))
             (with_world (Node (n_os n) (EnclaveDataC (enclave_id_info d) (enclave_workload d) (upgrade_data d) st)
                               (sealed_tree_map n)) e) (a_buffer (s_app s)))
    (g_srd_reserved_space s) (srd_capacity s).
(** [EnclaveData::set_upgrade_status]: going back to no upgrade opens the enclave
    again. *)
Definition set_upgrade_status (st : upgrade_status_t) : Host.M (srd_node W) unit :=
  cur ← gets get_app_upgrade_status;
  if bool_decide (cur = st) then mret tt
  else
    modify (with_app_status st);;
    if bool_decide (st = UPGRADE_STATUS_NONE) then on_app (Ecall_disable_upgrade fuel tid);; mret tt else mret tt.

(** Is the request from the owner? *)
Definition refuse_backup (req : request) : option response :=
  match req_backup req with
  | None => Some (Response 400 (str "Validate MerkleTree failed!Error: Empty backup!"))
  | Some b =>
      if bool_decide (chain_backup cfg = b) then None
      else Some (Response 401 (str "Validate MerkleTree failed!Error: Invalid backup!"))
  end.
Definition owner (req : request) (m : M response) : M response :=
  match refuse_backup req with Some r => mret r | None => m end.

Definition get_workload_route : M response :=
  call (Ecall_get_workload fuel tid);;
  wl_json ← gets (λ a, app_Load (enclave_workload (api_data a)));
  wl_json ← of_res wl_json;
  if json_size wl_json =? -1 then mret (Response 200 (str "Get workload failed!"))
  else
    reserved ← gets (λ a, get_reserved_space (a_node a));
    r ← on_node (zoom os with_os (get_increase_srd_info (c_srd cfg) reserved 0));
    r ← on_node (ends r);
    text ← of_res (workload_text wl_json reserved r.1);
    mret (Response 200 text).
Definition thread_info_route : M response :=
  text ← gets (λ a, show_enclave_thread_info (a_tasks (s_app (a_node a))));
  mret (Response 200 text).
Definition id_info_route : M response :=
  call (Ecall_id_get_info fuel tid);;
  id_json ← gets (λ a, app_Load (enclave_id_info (api_data a)));
  id_json ← of_res id_json;
  mret (Response 200 (app_dump
    (jkey_set (str "sworker_version") (JString SWORKER_VERSION)
      (jkey_set (str "version") (JString VERSION)
        (jkey_set (str "account") (JString (chain_address cfg)) id_json))))).

(** What an upgrade that cannot start is answered *)
Definition start_answer (st : crust_status) : response :=
  match st with
  | CRUST_UPGRADE_BLOCK_EXPIRE => Response 405 (str "Block expired!Wait for next era.")
  | CRUST_UPGRADE_NO_VALIDATE => Response 406 (str "Necessary validation not completed!")
  | CRUST_UPGRADE_RESTART => Response 407 (str "Cannot report due to restart!Wait for next era.")
  | CRUST_UPGRADE_NO_FILE => Response 408 (str "Cannot get files for check!Please check karst!")
  | _ => Response 409 (str "Unknown error.")
  end.
Definition upgrade_start_route (req : request) : M response :=
  status ← gets api_status;
  if bool_decide (status ≠ UPGRADE_STATUS_NONE ∧ status ≠ UPGRADE_STATUS_STOP_WORKREPORT)
  then mret (Response 300 (str "Another upgrading is still running!"))
  else owner req (
    on_node (set_upgrade_status UPGRADE_STATUS_STOP_WORKREPORT);;
    block_header ← on_node (on_os (get_block_header cfg));
    match block_header with
    | None => mret (Response 402 (str "Chain is not running!Get block header failed!"))
    | Some b =>
        r ← call (Ecall_enable_upgrade fuel tid (number b));
        if negb (sgx_ok r.1) then mret (Response 403 (str "Invoke SGX API failed!"))
        else if is_success (default CRUST_SUCCESS r.2) then
          on_node (set_upgrade_status UPGRADE_STATUS_PROCESS);;
          on_node (sleep 10);;
          mret (Response 200 (str "Receive upgrade inform successfully!"))
        else mret (start_answer (default CRUST_SUCCESS r.2))
    end).
Definition upgrade_metadata_route (req : request) : M response :=
  status ← gets api_status;
  if bool_decide (status ≠ UPGRADE_STATUS_COMPLETE) then mret (Response 300 (str "Metadata is still collecting!"))
  else owner req (data ← gets (λ a, upgrade_data (api_data a)); mret (Response 200 data)).
(** The metadata of the old version is kept under another key. *)
Definition retire_metadata (w : W) : unit * W :=
  let w := match DataBase_get ID_METADATA w with
           | (CRUST_SUCCESS, metadata_old) => (DataBase_set ID_METADATA_OLD metadata_old w).2
           | _ => w
           end in
  (tt, (DataBase_del ID_METADATA w).2).
Definition upgrade_complete_route (req : request) : M response :=
  owner req (
    req_json ← of_res (app_Load (req_body req));
    (if negb (ToBool (jkey (str "success") req_json))
     then on_node (set_upgrade_status UPGRADE_STATUS_NONE)
     else
       on_node (zoom os with_os retire_metadata);;
       on_node (set_upgrade_status UPGRADE_STATUS_EXIT));;
    mret (Response 200 (str "crust return"))).

Definition debug_route (req : request) : M response :=
  req_json ← of_res (app_Load (req_body req));
  match jkey (str "debug") req_json with
  | JBoolean b =>
      modify (λ a, Api (a_node a) b (change_srd_num a));;
      mret (Response 200 (str "Set debug flag successfully!"))
  | _ => mret (Response 400 (str "Wrong request body!"))
  end.
Definition srd_change_route (req : request) : M response :=
  owner req (
    req_json ← of_res (app_Load (req_body req));
    let change := ToInt (jkey (str "change") req_json) in
    modify (λ a, Api (a_node a) (debug_flag a) change);;
    if change =? 0 then mret (Response 402 (str "Invalid change"))
    else
      call (Ecall_srd_set_change fuel tid change);;
      mret (Response 200 (str "Change srd file success, the srd workload will change in next validation loop!"))).
(** The tasks of [storage_add_confirm] and [storage_add_delete] run in a thread of
    their own, and the future they are given to waits for them. *)
Definition storage_add_confirm (hash : bytes) : M unit := call (Ecall_confirm_file fuel pool hash);; mret tt.
Definition storage_add_delete (hash : bytes) : M unit := call (Ecall_delete_file fuel pool hash);; mret tt.
Definition storage_confirm_route (req : request) : M response :=
  owner req (
    req_json ← of_res (app_Load (req_body req));
    let hash := field "hash" req_json in
    if negb (zlen hash =? HASH_LENGTH * 2) then mret (Response 402 (str "Confirm new file failed!Invalid hash!"))
    else storage_add_confirm hash;; mret (Response 200 (str "Confirming new file task has beening added!"))).
Definition storage_delete_route (req : request) : M response :=
  owner req (
    req_json ← of_res (app_Load (req_body req));
    let hash := field "hash" req_json in
    if negb (zlen hash =? HASH_LENGTH * 2) then mret (Response 402 (str "Delete file failed!Invalid hash!"))
    else storage_add_delete hash;; mret (Response 200 (str "Deleting file task has beening added!"))).

Definition seal_answer (st : crust_status) : bytes :=
  match st with
  | CRUST_SUCCESS => str "Invoke SGX api failed!"
  | CRUST_SEAL_DATA_FAILED => str "Internal error: seal data failed!"
  | CRUST_STORAGE_FILE_NOTFOUND => str "Given file cannot be found!"
  | CRUST_FILE_NUMBER_EXCEED => str "No more file can be sealed!File number reachs the upper limit!"
  | _ => str "Unexpected error!"
  end.
Definition unseal_answer (st : crust_status) : bytes :=
  match st with
  | CRUST_SUCCESS => str "Invoke SGX api failed!"
  | CRUST_UNSEAL_DATA_FAILED => str "Internal error: unseal data failed!"
  | CRUST_STORAGE_UPDATE_FILE_FAILED => str "Update new file failed!"
  | CRUST_STORAGE_FILE_NOTFOUND => str "Given file cannot be found!"
  | _ => str "Unexpected error!"
  end.
(** The new path comes back in a buffer as long as the old one. *)
Definition path_buffer (dir_path new_path : bytes) : bytes :=
  take (List.length dir_path) (new_path ++ replicate (List.length dir_path) (chr 0)).
Definition with_sealed_tree_map (m : list (bytes * bytes)) (a : api W) : api W :=
  let s := a_node a in
  let e := a_enclave (s_app s) in
  let n := world e in
  Api (SrdNode (App (a_tasks (s_app s)) (with_world (Node (n_os n) (n_data n) m) e) (a_buffer (s_app s)))
         (g_srd_reserved_space s) (srd_capacity s)) (debug_flag a) (change_srd_num a).
Definition storage_seal_route (req : request) : M response :=
  owner req (
    req_json ← of_res (app_Load (req_body req));
    let tree_json := jkey (str "body") req_json in
    let dir_path := field "path" req_json in
    if (json_size tree_json =? 0) || (json_size tree_json =? -1)
    then mret (Response 402 (str "Validate MerkleTree failed!Error: Empty body!"))
    else
      let org_root_hash_str := field "hash" tree_json in
      r ← call (Ecall_seal_file fuel tid (app_strip (app_dump tree_json)) dir_path);
      let '(crust_status, new_path) := default (CRUST_SUCCESS, []) r.2 in
      if negb (sgx_ok r.1) || negb (is_success crust_status) then mret (Response 403 (seal_answer crust_status))
      else
        m ← gets (λ a, sealed_tree_map (world (a_enclave (s_app (a_node a)))));
        modify (with_sealed_tree_map (map_erase org_root_hash_str m));;
        mret (Response 200 (app_dump
          (JObject [(str "body", JString (app_strip (map_get [] org_root_hash_str m)));
                    (str "path", JString (path_buffer dir_path new_path))])))).
Definition storage_unseal_route (req : request) : M response :=
  owner req (
    req_json ← of_res (app_Load (req_body req));
    let dir_path := field "path" req_json in
    files_str ← gets (λ a, get_sub_folders_and_files dir_path (api_os a));
    if bool_decide (files_str = []) then mret (Response 402 (str "Empty data directory!"))
    else
      r ← call (Ecall_unseal_file fuel tid files_str dir_path);
      let '(crust_status, new_path) := default (CRUST_SUCCESS, []) r.2 in
      if negb (sgx_ok r.1) || negb (is_success crust_status) then mret (Response 403 (unseal_answer crust_status))
      else mret (Response 200 (path_buffer dir_path new_path))).

(** ** One request *)
Definition get_routes (route : bytes → bool) (req : request) : M response :=
  if route (str "/workload") then get_workload_route
  else if route (str "/enclave/thread_info") then thread_info_route
  else if route (str "/enclave/id_info") then id_info_route
  else if route (str "/upgrade/start") then upgrade_start_route req
  else if route (str "/upgrade/metadata") then upgrade_metadata_route req
  else if route (str "/upgrade/complete") then upgrade_complete_route req
  else mret (Response 200 (str "crust return")).
(** Sealing and unsealing answer every path that begins like theirs. *)
Definition post_routes (route prefix : bytes → bool) (req : request) : M response :=
  if route (str "/debug") then debug_route req
  else if route (str "/srd/change") then srd_change_route req
  else if route (str "/storage/confirm") then storage_confirm_route req
  else if route (str "/storage/delete") then storage_delete_route req
  else if prefix (str "/storage/seal") then storage_seal_route req
  else if prefix (str "/storage/unseal") then storage_unseal_route req
  else mret (Response 400 (str "Unknown request!")).

Definition request_path (req : request) : bytes :=
  match string_find (str "?") (target req) 0 with Some epos => take epos (target req) | None => target req end.
Definition http_handler (req : request) : M response :=
  let base := ue_base (get_url_end_point (base_url cfg)) in
  if bool_decide (method req = OTHER) then mret (Response 400 (str "Unknown HTTP-method"))
  else if negb (starts_with (str "/") (target req)) || match string_find (str "..") (target req) 0 with Some _ => true | None => false end
  then mret (Response 400 (str "Illegal request-target"))
  else
    let path := request_path req in
    route_tag ← of_res (substr path (u64 (pos_of (string_find base path 0) + zlen base)) (zlen path));
    status ← gets api_status;
    if bool_decide (status = UPGRADE_STATUS_EXIT)
    then mret (Response 503 (str "No service will be provided because of upgrade!"))
    else if bool_decide (status ≠ UPGRADE_STATUS_NONE ∧ status ≠ UPGRADE_STATUS_STOP_WORKREPORT ∧
                         route_tag ∈ upgrade_block_s)
    then mret (Response 503 (str "Current service is closed due to upgrade!"))
    else
      let route r := bool_decide (path = base ++ r) in
      match method req with
      | GET => get_routes route req
      | POST => post_routes route (λ r, starts_with (base ++ r) path) req
      | _ => mret (Response 200 [])
      end.
End routes.

(** ** Who may do what *)
Section requests.
Context {W : Type} `{!LevelDb W} `{!DiskOs W} `{!HttpClient W} `{!Directory W}.
Context `{!Host (node W)} `{!IdHost (node W)} `{!UpgradeHost (node W)} `{!AttestHost (node W)}.
Context `{!Threads (node W)} `{!AppThreads (node W)}.
Variable cfg : Config.
Variables fuel tid pool : nat.
Abbreviation handle := (http_handler (W := W) cfg fuel tid pool).
Definition api_base : bytes := ue_base (get_url_end_point (base_url cfg)).
Definition at_route (req : request) (r : bytes) : bool := bool_decide (request_path req = api_base ++ r).
Definition in_route (req : request) (r : bytes) : bool := starts_with (api_base ++ r) (request_path req).

(** Every request has one of these fates. *)
Inductive fate (req : request) (a : api W) : res (response * api W) → Prop :=
| fate_bad why : fate req a (Ok (Response 400 why, a))
| fate_throw : string_find api_base (request_path req) 0 = None → fate req a Throw
| fate_closed why : fate req a (Ok (Response 503 why, a))
| fate_head : method req = HEAD → fate req a (Ok (Response 200 [], a))
| fate_get : method req = GET → fate req a (get_routes cfg fuel tid (at_route req) req a)
| fate_post : method req = POST → fate req a (post_routes cfg fuel tid pool (at_route req) (in_route req) req a).

Lemma scan_from_bound pat s n : scan_from pat s = Some n → (n + List.length pat <= List.length s)%nat.
Proof.
  revert n. induction s as [|c s IH]; intros n; cbn [scan_from]; case_bool_decide as H; intros E.
  - injection E as <-. rewrite <- H at 1. cbn. rewrite take_nil. cbn. lia.
  - done.
  - injection E as <-. apply (f_equal List.length) in H. rewrite length_take in H. lia.
  - destruct (scan_from pat s) as [m|]; [|done]. injection E as <-. specialize (IH m eq_refl). cbn. lia.
Qed.
Lemma string_find_bound pat s n : string_find pat s 0 = Some n → (n + List.length pat <= List.length s)%nat.
Proof.
  unfold string_find. cbn [Nat.ltb Nat.leb]. change (drop 0 s) with s.
  destruct (scan_from pat s) as [m|] eqn:E; [|done]. intros [= <-]. by apply scan_from_bound in E.
Qed.
Lemma scan_from_start pat s : scan_from pat (pat ++ s) = Some 0%nat.
Proof. destruct pat; [by destruct s|]. cbn [scan_from Datatypes.app]. 
  rewrite bool_decide_true; [done|]. 
 change (a :: pat ++ s) with ((a::pat) ++ s). by rewrite take_app_length. Qed.

(** The checks every request goes through *)
Lemma handle_fate req a : zlen (target req) < 2 ^ 64 → fate req a (handle req a).
Proof.
  intros Hlen. unfold http_handler. fold api_base. cbv zeta.
  case_bool_decide as Hother; [apply fate_bad|].
  destruct (negb _ || _); [apply fate_bad|].
  set (route_tag := substr _ _ _).
  assert (route_tag = Throw ∧ string_find api_base (request_path req) 0 = None ∨ ∃ t, route_tag = Ok t) as [[-> Hn]|[t ->]].
  { unfold route_tag, substr. destruct (Z.ltb_spec (zlen (request_path req))
      (u64 (pos_of (string_find api_base (request_path req) 0) + zlen api_base))) as [Hlt|]; [|by eauto].
    left. split; [done|]. destruct (string_find _ _ _) as [n|] eqn:E; [|done]. exfalso.
    apply string_find_bound in E. unfold zlen in *. cbn [pos_of] in Hlt.
    assert (List.length (request_path req) <= List.length (target req))%nat.
    { unfold request_path. destruct (string_find _ _ _); [rewrite length_take|]; lia. }
    rewrite u64_small in Hlt by lia. lia. }
  { by apply fate_throw. }
  change ((of_res (Ok t) ≫= ?f) a) with (f t a). cbv beta.
  change ((gets api_status ≫= ?f) a) with (f (api_status a) a). cbv beta.
  case_bool_decide; [apply fate_closed|]. case_bool_decide; [apply fate_closed|].
  destruct (method req) eqn:E; [by apply fate_get|by apply fate_post|by apply fate_head|done].
Qed.

(** ** The owner *)
Lemma owner_refuses req m (a : api W) :
  req_backup req ≠ Some (chain_backup cfg) → ∃ rsp, owner cfg req m a = Ok (rsp, a).
Proof.
  intros Hb. unfold owner, refuse_backup. destruct (req_backup req) as [b|]; [|by eexists].
  rewrite bool_decide_false by congruence. by eexists.
Qed.
Definition open_routes : list bytes := [str "/workload"; str "/enclave/id_info"; str "/debug"].
(** The answer, if there is one, comes without any change. *)
Definition unchanged (a : api W) (r : res (response * api W)) : Prop := ∃ rsp, r = Ok (rsp, a).

Lemma unchanged_ret rsp a : unchanged a (Ok (rsp, a)).
Proof. by eexists. Qed.
Lemma unchanged_owner req m a : req_backup req ≠ Some (chain_backup cfg) → unchanged a (owner cfg req m a).
Proof. apply owner_refuses. Qed.
Lemma unchanged_if (b : bool) (m1 m2 : Host.M (api W) response) a :
  unchanged a (m1 a) → unchanged a (m2 a) → unchanged a ((if b then m1 else m2) a).
Proof. by destruct b. Qed.

Lemma stranger_unchanged req (a : api W) :
  zlen (target req) < 2 ^ 64 → req_backup req ≠ Some (chain_backup cfg) →
  (∀ r, r ∈ open_routes → request_path req ≠ api_base ++ r) →
  (string_find api_base (request_path req) 0 = None ∧ handle req a = Throw) ∨ ∃ rsp, handle req a = Ok (rsp, a).
Proof.
  intros Hlen Hb Hopen.
  assert (∀ r, r ∈ open_routes → at_route req r = false) as Hshut.
  { intros r Hr. apply bool_decide_false. auto. }
  destruct (handle_fate req a Hlen) as [why|Hn|why|Hm|Hm|Hm];
    [right; by eexists|by left|right; by eexists|right; by eexists| |]; right; fold (unchanged a).
  - unfold get_routes. rewrite (Hshut (str "/workload")), (Hshut (str "/enclave/id_info")) by (unfold open_routes; set_solver).
    repeat apply unchanged_if; try apply unchanged_ret; by apply unchanged_owner.
  - unfold post_routes. rewrite (Hshut (str "/debug")) by (unfold open_routes; set_solver).
    repeat apply unchanged_if; try apply unchanged_ret; by apply unchanged_owner.
Qed.

(** C14: only the owner gets anything done.  Without the owner's backup, and except for
    three routes that report or set the debug flag, every request is answered
    without any change of the node and its world; it throws only when its address
    does not contain the base. *)
Theorem only_the_owner req (a : api W) :
  zlen (target req) < 2 ^ 64 → req_backup req ≠ Some (chain_backup cfg) →
  (∀ r, r ∈ open_routes → request_path req ≠ api_base ++ r) →
  (string_find api_base (request_path req) 0 = None ∧ handle req a = Throw) ∨ ∃ rsp, handle req a = Ok (rsp, a).
Proof. apply stranger_unchanged. Qed.

(** ** The gate of an upgrade *)
Lemma handle_checked req (a : api W) :
  (∃ rsp, handle req a = Ok (rsp, a) ∧ result rsp = 400) ∨
  handle req a = (route_tag ← of_res (substr (request_path req)
                    (u64 (pos_of (string_find api_base (request_path req) 0) + zlen api_base)) (zlen (request_path req)));
                  status ← gets api_status;
                  if bool_decide (status = UPGRADE_STATUS_EXIT)
                  then mret (Response 503 (str "No service will be provided because of upgrade!"))
                  else if bool_decide (status ≠ UPGRADE_STATUS_NONE ∧ status ≠ UPGRADE_STATUS_STOP_WORKREPORT ∧
                                       route_tag ∈ upgrade_block_s)
                  then mret (Response 503 (str "Current service is closed due to upgrade!"))
                  else match method req with
                       | GET => get_routes cfg fuel tid (at_route req) req
                       | POST => post_routes cfg fuel tid pool (at_route req) (in_route req) req
                       | _ => mret (Response 200 [])
                       end) a.
Proof.
  unfold http_handler. fold api_base. cbv zeta. case_bool_decide; [left; by eexists|].
  destruct (negb _ || _); [left; by eexists|by right].
Qed.
Lemma route_tag_of req r :
  zlen (target req) < 2 ^ 64 → request_path req = api_base ++ r →
  substr (request_path req) (u64 (pos_of (string_find api_base (request_path req) 0) + zlen api_base))
    (zlen (request_path req)) = Ok r.
Proof.
  intros Hlen Hp. assert (string_find api_base (request_path req) 0 = Some 0%nat) as ->.
  { rewrite Hp. unfold string_find. cbn [Nat.ltb Nat.leb]. change (drop 0 ?s) with s. by rewrite scan_from_start. }
  assert (zlen (request_path req) <= zlen (target req)) as Hle.
  { unfold zlen, request_path. destruct (string_find _ _ _); [rewrite length_take|]; lia. }
  rewrite Hp in Hle |- *. rewrite zlen_app in Hle. pose proof (zlen_nonneg r). pose proof (zlen_nonneg api_base).
  cbn [pos_of]. rewrite u64_small by lia. unfold substr. rewrite zlen_app.
  destruct (Z.ltb_spec (zlen api_base + zlen r) (Z.of_nat 0 + zlen api_base)); [lia|].
  unfold zlen. rewrite Z.add_0_l, Nat2Z.id, drop_app_length, take_ge by lia. done.
Qed.

(** C26: while an upgrade collects its data the node takes no work, and when it has
    decided to exit it does nothing at all: the request is refused and nothing
    changes. *)
Theorem upgrade_gate req r (a : api W) :
  zlen (target req) < 2 ^ 64 → request_path req = api_base ++ r →
  api_status a = UPGRADE_STATUS_EXIT ∨
    (api_status a ≠ UPGRADE_STATUS_NONE ∧ api_status a ≠ UPGRADE_STATUS_STOP_WORKREPORT ∧ r ∈ upgrade_block_s) →
  ∃ rsp, handle req a = Ok (rsp, a) ∧ (result rsp = 400 ∨ result rsp = 503).
Proof.
  intros Hlen Hp Hst. destruct (handle_checked req a) as [(rsp & -> & Hr)| ->]; [by eauto|].
  rewrite (route_tag_of req r) by done. change ((of_res (Ok r) ≫= ?f) a) with (f r a). cbv beta.
  rewrite (bind_run (gets api_status) _ a (api_status a) a eq_refl).
  destruct Hst as [->|Hst]; [by eauto|]. case_bool_decide; [by eauto|]. rewrite bool_decide_true by done. by eauto.
Qed.

(** ** Sealing *)
(** A request that passes the checks reaches its route. *)
Lemma handle_route req r (a : api W) :
  starts_with (str "/") (target req) = true → string_find (str "..") (target req) 0 = None →
  zlen (target req) < 2 ^ 64 → request_path req = api_base ++ r → api_status a ≠ UPGRADE_STATUS_EXIT →
  api_status a = UPGRADE_STATUS_NONE ∨ api_status a = UPGRADE_STATUS_STOP_WORKREPORT ∨ r ∉ upgrade_block_s →
  handle req a = match method req with
                 | GET => get_routes cfg fuel tid (at_route req) req a
                 | POST => post_routes cfg fuel tid pool (at_route req) (in_route req) req a
                 | HEAD => Ok (Response 200 [], a)
                 | OTHER => Ok (Response 400 (str "Unknown HTTP-method"), a)
                 end.
Proof.
  intros Ht Hd Hlen Hp He Hst. unfold http_handler. fold api_base. cbv zeta. rewrite Ht, Hd. cbn [negb orb].
  case_bool_decide as Hm; [by rewrite Hm|]. rewrite (route_tag_of req r) by done.
  change ((of_res (Ok r) ≫= ?f) a) with (f r a). cbv beta.
  rewrite (bind_run (gets api_status) _ a (api_status a) a eq_refl).
  rewrite bool_decide_false by done.
  rewrite bool_decide_false by (intros (? & ? & ?); destruct Hst as [|[|]]; congruence). by destruct (method req).
Qed.

Lemma app_inj_false (base r r' p : bytes) : p = base ++ r → r ≠ r' → bool_decide (p = base ++ r') = false.
Proof. intros -> Hne. apply bool_decide_false. by intros ?%app_inv_head. Qed.

(** What the answer to a sealing request is, given what the enclave said *)
Definition seal_outcome (root dir : bytes) (r : (sgx_status * option (crust_status * bytes)) * api W)
    : response * api W :=
  let '(ret, new_path) := default (CRUST_SUCCESS, []) r.1.2 in
  if sgx_ok r.1.1 && is_success ret then
    let m := sealed_tree_map (world (a_enclave (s_app (a_node r.2)))) in
    (Response 200 (app_dump (JObject [(str "body", JString (app_strip (map_get [] root m)));
                                      (str "path", JString (path_buffer dir new_path))])),
     with_sealed_tree_map (map_erase root m) r.2)
  else (Response 403 (seal_answer ret), r.2).

End requests.

(** ** Evaluated *)
Section demo_requests.
#[local] Existing Instance node_host.
#[local] Existing Instance node_upgrade_host.
#[local] Existing Instance node_id_host.
#[local] Existing Instance node_attest_host.
#[local] Existing Instance demo_node_threads.
#[local] Existing Instance demo_node_app.
#[local] Instance demo_directory : Directory demo := { get_sub_folders_and_files p _ := [] }.

Definition demo_api : api demo := Api demo_srd_node false 0.
Definition demo_api_at (st : upgrade_status_t) : api demo := Api (with_app_status st demo_srd_node) false 0.
Definition demo_request (route : String.string) (backup : option bytes) (text : bytes) : request :=
  Request POST (str "/api/v0" ++ str route) backup text.

Lemma only_the_owner_witness :
  ∃ rsp, http_handler demo_cfg 4 7 8 (demo_request "/srd/change" (Some (str "x")) []) demo_api = Ok (rsp, demo_api).
Proof.
  destruct (only_the_owner demo_cfg 4 7 8 (demo_request "/srd/change" (Some (str "x")) []) demo_api)
    as [[H _]|H]; [done|discriminate| |by vm_compute in H|exact H].
  intros r Hr. unfold open_routes in Hr. repeat (apply elem_of_cons in Hr as [->|Hr]; [by vm_compute|]). by apply elem_of_nil in Hr.
Defined.
Lemma upgrade_gate_witness :
  ∃ rsp, http_handler demo_cfg 4 7 8 (demo_request "/storage/delete" None []) (demo_api_at UPGRADE_STATUS_END)
           = Ok (rsp, demo_api_at UPGRADE_STATUS_END) ∧ (result rsp = 400 ∨ result rsp = 503).
Proof.
  apply (upgrade_gate demo_cfg 4 7 8 (demo_request "/storage/delete" None []) (str "/storage/delete")); [done|done|].
  right. split_and!; [done|done|]. apply (bool_decide_unpack (_ ∈ upgrade_block_s)). by vm_compute.
Defined.

(** A request to seal a file of one block *)
Definition demo_seal_tree : json :=
  JObject [(str "hash", JString demo_root); (str "links_num", JIntegral 0); (str "size", JIntegral 40)].
Definition demo_seal_body : json := JObject [(str "body", demo_seal_tree); (str "path", JString (str "/d"))].
Definition demo_seal_request : request :=
  demo_request "/storage/seal" (Some (chain_backup demo_cfg)) (app_dump demo_seal_body).

(** A short address without the base ends in an exception. *)
Example demo_outside_base : http_handler demo_cfg 4 7 8 (Request GET (str "/x") None []) demo_api = Throw.
Proof. by vm_compute. Qed.
(** The gate compares the whole route, the sealing route only its beginning. *)
Example demo_gate_prefix :
  let status r := match http_handler demo_cfg 4 7 8 (demo_request r None []) (demo_api_at UPGRADE_STATUS_END) with
                  | Ok (rsp, _) => result rsp | _ => 0 end in
  status "/storage/seal"%string = 503 ∧ status "/storage/sealed"%string = 400.
Proof. by vm_compute. Qed.
End demo_requests.
