(* ===== verification/AppNetwork.v ===== *)
(** * Entering the network (app/process/EntryNetwork.cpp, app/utils/FormatUtils.cpp)

    [entry_network] shows the chain what enclave runs here: a report of the enclave
    becomes a quote, the attestation service of Intel answers with a signed report
    on it, and the enclave verifies that and uploads the identity.  The quoting
    functions of SGX, base64 and the service are a class. *)
From S2P Require Import Prelude StdMap Status Hex Json JsonParse JsonText Host.
From S2P Require Import State Demo Identity Upgrade Attest Ecalls AppTask AppEcalls.
From S2P Require Import AppJson AppData AppSrd AppText AppChain AppReport.

Class QuoteHost (W : Type) := {
  (* the instruction rdrand: a number, if one is ready *)
  rdrand64_step : W → option Z * W;
  SGX_ERROR_BUSY : sgx_status;
  (* the target information *)
  sgx_init_quote : W → (sgx_status * bytes) * W;
  (* [None] when the library has no such function *)
  get_quote_size : W → option (sgx_status * Z);
  (* report, linkable, provider, nonce, size *)
  sgx_get_quote : bytes → bool → bytes → bytes → Z → W → (sgx_status * bytes) * W;
  quote_malloc : Z → W → bool;
  base64_encode : bytes → option bytes;
  (* address, body, content type, headers; the answer's status, header fields and body *)
  SSLPost : bytes → bytes → bytes → list (bytes * bytes) → W → (Z * (bytes → bytes) * bytes) * W
}.

Definition IAS_SPID : bytes := str "FEF23C7E73A379823CE71FF289CFBC07".
Definition IAS_PRIMARY_SUBSCRIPTION_KEY : bytes := str "e2e08166ca0f41ef88af2797f007c7cd".
Definition IAS_BASE_URL : bytes := str "https://api.trustedservices.intel.com".
Definition IAS_REPORT_PATH : bytes := str "/sgx/dev/attestation/v3/report".
Definition IAS_FLAGS : Z := 4.
Definition OPT_LINK : Z := 4.
Definition IAS_TRYOUT : nat := 6.
Definition SPID_SIZE : Z := 16.

(** [sscanf] with %2x: white space, then one or two hexadecimal digits (a text with a
    sign or the prefix 0x does not occur).  At the end of the text EOF is returned and
    the variable not set; [None] is the result 0. *)
Definition scan_hex2 (s : bytes) : option (option Z) :=
  match skip_ws s with
  | [] => Some None
  | c :: l =>
      if is_hexdigit c then
        match l with
        | d :: _ => if is_hexdigit d then Some (Some (char_to_int c * 16 + char_to_int d)) else Some (Some (char_to_int c))
        | [] => Some (Some (char_to_int c))
        end
      else None
  end.
(** [from_hexstring] into a buffer of [room] bytes: [len] bytes are written, each from
    two characters of the source with its terminator; [None] is a refusal. *)
Fixpoint from_hexstring_at (n : nat) (room : Z) (src dest : bytes) : res (option bytes) :=
  match n with
  | O => Ok (Some dest)
  | S n =>
      match src with
      | [] => UB
      | _ =>
          match scan_hex2 (c_str src) with
          | None => Ok None
          | Some None => UB
          | Some (Some v) =>
              if room <=? zlen dest then UB else from_hexstring_at n room (drop 2 src) (dest ++ [chr v])
          end
      end
  end.
Definition from_hexstring (room : Z) (src : bytes) (len : Z) : res (option bytes) :=
  from_hexstring_at (Z.to_nat len) room (src ++ [chr 0]) [].

Section network.
Context {W : Type} `{!QuoteHost W}.
Context `{!Host (node W)} `{!IdHost (node W)} `{!UpgradeHost (node W)} `{!AttestHost (node W)}.
Context `{!Threads (node W)} `{!AppThreads (node W)}.
Abbreviation M := (Host.M (srd_node W)).
Variable hw_sim : bool.
Variable fuel tid : nat.

Definition os_step {A} (f : W → A * W) : M A := zoom os with_os f.

(** A number of the nonce; the bound on the attempts is never counted down. *)
Fixpoint read_rdrand (fuel : nat) : M Z :=
  match fuel with
  | O => of_res NoFuel
  | S fuel => r ← os_step rdrand64_step; match r with Some n => mret n | None => read_rdrand fuel end
  end.
Definition read_nonce : M bytes :=
  a ← read_rdrand fuel;
  b ← read_rdrand fuel;
  mret (map (λ i, chr (Z.shiftr a (8 * Z.of_nat i) mod 256)) (seq 0 8) ++
        map (λ i, chr (Z.shiftr b (8 * Z.of_nat i) mod 256)) (seq 0 8)).
(** A busy device is asked again, three times. *)
Fixpoint init_quote (tryout : nat) : M (option bytes) :=
  r ← os_step sgx_init_quote;
  if sgx_ok r.1 then mret (Some r.2)
  else if bool_decide (r.1 = SGX_ERROR_BUSY (W := W)) then
    match tryout with
    | O => mret None
    | S tryout => sleep 60;; init_quote tryout
    end
  else mret None.
(** The answer of the attestation service, which is asked [more] times again *)
Fixpoint post_ias (more : nat) (body : bytes) : M (Z * (bytes → bytes) * bytes) :=
  r ← os_step (SSLPost (IAS_BASE_URL ++ IAS_REPORT_PATH) body (str "application/json")
                 [(str "Ocp-Apim-Subscription-Key", IAS_PRIMARY_SUBSCRIPTION_KEY)]);
  if r.1.1 =? 200 then mret r
  else
    sleep 3;;
    match more with O => mret r | S more => post_ias more body end.
(** The quote in the answer is decoded and its fields are read, for the log. *)
Definition log_quote (ias_body_json : json) : res unit :=
  match BIO_read_base64 (W := node W) (c_str (field "isvEnclaveQuoteBody" ias_body_json)) with
  | None => UB
  | Some q => if zlen q <? sizeof_quote (W := node W) then UB else Ok tt
  end.

(** The quote of the enclave, in base64 *)
Definition enclave_quote (spid : bytes) : M (crust_status + bytes) :=
  nonce ← read_nonce;
  target_info ← init_quote 3;
  match target_info with
  | None => mret (inl CRUST_INIT_QUOTE_FAILED)
  | Some target_info =>
      r ← on_app (Ecall_get_quote_report fuel tid hw_sim target_info);
      match r with
      | (SGX_SUCCESS, Some (SGX_SUCCESS, report)) =>
          size ← gets (λ s, get_quote_size (os s));
          match size with
          | Some (SGX_SUCCESS, sz) =>
              ok ← gets (λ s, quote_malloc sz (os s));
              if negb ok then mret (inl CRUST_MALLOC_FAILED)
              else
                q ← os_step (sgx_get_quote report (negb (Z.land IAS_FLAGS OPT_LINK =? 0)) spid nonce sz);
                mret (if negb (sgx_ok q.1) then inl CRUST_UNEXPECTED_ERROR
                      else match base64_encode (W := W) q.2 with
                           | Some b64 => inr b64 | None => inl CRUST_UNEXPECTED_ERROR end)
          | _ => mret (inl CRUST_UNEXPECTED_ERROR)
          end
      | _ => mret (inl CRUST_UNEXPECTED_ERROR)
      end
  end.
Definition ias_body (b64quote : bytes) : bytes :=
  str "{" ++ [chr 10] ++ quote (str "isvEnclaveQuote") ++ str ":" ++ quote b64quote ++ [chr 10] ++ str "}".
(** What follows once the provider's id is in place *)
Definition entry_with (spid : bytes) : M crust_status :=
  q ← enclave_quote spid;
  match q with
  | inl st => mret st
  | inr b64quote =>
      ias_res ← post_ias (IAS_TRYOUT - 1) (ias_body b64quote);
      if negb (ias_res.1.1 =? 200) then mret CRUST_UNEXPECTED_ERROR
      else
        let header k := c_str (ias_res.1.2 (str k)) in
        ias_body_json ← of_res (app_Load ias_res.2);
        of_res (log_quote ias_body_json);;
        r ← on_app (Ecall_verify_and_upload_identity fuel tid
                      [header "X-IASReport-Signing-Certificate"%string; header "X-IASReport-Signature"%string; c_str ias_res.2]);
        mret (match r with (SGX_SUCCESS, Some st) => st | _ => CRUST_UNEXPECTED_ERROR end)
  end.
Definition entry_network : M crust_status :=
  r ← of_res (from_hexstring SPID_SIZE IAS_SPID (zlen IAS_SPID));
  entry_with (default (replicate 16 (chr 0)) r).

(** The id has 16 bytes, but is written from as many pairs as it has characters: entering
    the network always runs past its buffer. *)
Lemma entry_network_overruns s : entry_network s = UB.
Proof. by unfold entry_network, mbind, m_bind, of_res. Qed.
End network.
