(* ===== verification/AppProcess.v ===== *)
(** * The process (app/App.cpp, app/process/Process.cpp)

    How the application starts: from the command line, with a new enclave, with the
    one it saved, or as the next version of a running node, whose state it takes
    over by HTTP; and the loop that watches an upgrade from the other side. *)
From stdpp Require Import gmap.
From S2P Require Import Prelude StdMap Status Hex Json JsonParse JsonText Host.
From S2P Require Import State Demo Workload Persist Storage Identity Upgrade Attest Ecalls.
From S2P Require Import AppTask AppEcalls AppJson AppData AppSrd AppText AppChain AppReport.
From S2P Require Import AppApi AppNetwork.

(** ** The command line *)
Record options := Options { opt_config : option bytes; g_upgrade_flag : bool; offline : bool; opt_debug : bool }.
(** What the program does with its arguments *)
Inductive command := ShowHelp | ShowVersion | NoConfigPath | Run (o : options).
Fixpoint parse_args (args : list bytes) (o : options) : command :=
  match args with
  | [] => match opt_config o with Some _ => Run o | None => ShowHelp end
  | arg :: args =>
      let given (s : String.string) := bool_decide (arg = str s) in
      if given "-h"%string || given "--help"%string then ShowHelp
      else if given "-c"%string || given "--config"%string then
        match args with
        | [] => NoConfigPath
        | path :: args => parse_args args (Options (Some path) (g_upgrade_flag o) (offline o) (opt_debug o))
        end
      else if given "--upgrade"%string then
        parse_args (match args with [] => args | _ :: rest => rest end) (Options (opt_config o) true (offline o) (opt_debug o))
      else if given "-v"%string || given "--version"%string then ShowVersion
      else if given "--offline"%string then parse_args args (Options (opt_config o) (g_upgrade_flag o) true (opt_debug o))
      else if given "--debug"%string then parse_args args (Options (opt_config o) (g_upgrade_flag o) (offline o) true)
      else ShowHelp
  end.
Definition main_args (args : list bytes) : command := parse_args args (Options None false false false).

(** ** The world of the process *)
Class ProcessOs (W : Type) := {
  (* bits of SgxSupport.h *)
  get_sgx_support : W → Z;
  (* the status, and the memory the workload object is constructed in *)
  sgx_create_enclave : W → (sgx_status * (bytes * ecc_key_pair * bytes)) * W;
  leveldb_Open : bytes → W → bool * W;
  (* the web service starts in a thread of its own; has it come up? *)
  start_webservice : W → bool * W;
  stop_webservice : W → W
}.
Definition SGX_SUPPORT_NO : Z := 0x08000000.
Definition SGX_SUPPORT_ENABLED : Z := 2.
Definition SGX_SUPPORT_REBOOT_REQUIRED : Z := 4.
Definition SGX_SUPPORT_ENABLE_REQUIRED : Z := 8.

Definition UPGRADE_START_TRYOUT : Z := BLOCK_INTERVAL * REPORT_BLOCK_HEIGHT_BASE * 2.
Definition UPGRADE_META_TRYOUT : Z := BLOCK_INTERVAL * REPORT_BLOCK_HEIGHT_BASE / 5.
Definition UPGRADE_COMPLETE_TRYOUT : Z := BLOCK_INTERVAL * 10.

(** The threads the process starts, and what the check loop sees of them: whether one
    has ended, and what happens until one that is started again ends *)
Inductive worker := WebService | WorkReportLoop | SrdCheckReserved | MainLoopThread.
Class Workers (S : Type) := { has_ended : worker → S → bool; run_again : worker → S → res (unit * S) }.

Section process.
Context {W : Type} `{!LevelDb W} `{!DiskOs W} `{!HttpClient W} `{!QuoteHost W} `{!ProcessOs W}.
Context `{!Host (node W)} `{!IdHost (node W)} `{!UpgradeHost (node W)} `{!AttestHost (node W)}.
Context `{!Threads (node W)} `{!AppThreads (node W)} `{!Workers (srd_node W)}.
Abbreviation M := (Host.M (srd_node W)).
Variable cfg : Config.
Variables (hw_sim offline_chain_mode : bool).
Variables fuel tid : nat.

(** A new enclave in place of the one before *)
Definition with_enclave (garbage : bytes * ecc_key_pair * bytes) (s : srd_node W) : srd_node W :=
  SrdNode (App (a_tasks (s_app s)) (Enclave (workload_new garbage) (λ _, 0) 0 None [] (world (a_enclave (s_app s))))
             no_upgrade_buffer) (g_srd_reserved_space s) (srd_capacity s).
Definition initialize_enclave : M bool :=
  sgx_support ← gets (λ s, get_sgx_support (os s));
  let has bit := negb (Z.land sgx_support bit =? 0) in
  if has SGX_SUPPORT_NO || has SGX_SUPPORT_ENABLE_REQUIRED || has SGX_SUPPORT_REBOOT_REQUIRED
     || negb (has SGX_SUPPORT_ENABLED)
  then mret false
  else
    r ← os_step sgx_create_enclave;
    if negb (sgx_ok r.1) then mret false
    else
      modify (with_enclave r.2);;
      r ← on_app (Ecall_gen_sgx_measurement fuel tid);
      mret (sgx_ok r.1).
(** [DataBase::get_instance], the first time *)
Definition database_get_instance : M bool :=
  ok ← os_step (create_directory (db_path cfg));
  if negb ok then mret false else os_step (leveldb_Open (db_path cfg)).
Definition initialize_components : M bool :=
  ok ← os_step (create_directory (base_path cfg));
  if negb ok then mret false
  else
    ok ← os_step start_webservice;
    if negb ok then mret false else database_get_instance.

(** ** The new version *)
Definition headers : list (bytes * bytes) := [(str "backup", chain_backup cfg)].
Definition ask_old (route : String.string) (text : bytes) : M (Z * bytes) :=
  os_step (Get (base_url cfg ++ str route) text headers).

(** The old version is asked until it is ready, [tryout] times more. *)
Fixpoint try_start (tryout : nat) : M bool :=
  res_inform ← ask_old "/upgrade/start" [];
  if res_inform.1 =? 200 then mret true
  else if res_inform.1 =? 404 then mret false
  else match tryout with O => mret false | S tryout => sleep 16;; try_start tryout end.
Definition upgrade_try_start : M bool := try_start (Z.to_nat (UPGRADE_START_TRYOUT / 16)).

(** The metadata of the old version, once it has been collected *)
Fixpoint try_metadata (tryout : nat) : M (option bytes) :=
  res_meta ← ask_old "/upgrade/metadata" [];
  if res_meta.1 =? 200 then mret (Some res_meta.2)
  else if res_meta.1 =? 404 then mret None
  else match tryout with O => mret None | S tryout => sleep 10;; try_metadata tryout end.

Inductive restored := Restored | RestoreAgain | RestoreFailed.
(** The metadata goes to the enclave in pieces. *)
Fixpoint restore_loop (n : nat) (meta : bytes) (meta_offset : Z) : M restored :=
  let meta_size := zlen meta in
  if negb (meta_offset <? meta_size) then mret Restored
  else
    match n with
    | O => of_res NoFuel
    | S n =>
        let partial_size := Z.min (meta_size - meta_offset) OCALL_STORE_THRESHOLD in
        let transfer_end := meta_size <=? meta_offset + partial_size in
        r ← on_app (Ecall_restore_from_upgrade fuel tid
                      (take (Z.to_nat partial_size) (drop (Z.to_nat meta_offset) meta)) meta_size transfer_end);
        match r with
        | (SGX_SUCCESS, Some CRUST_SUCCESS) => mret Restored
        | (SGX_SUCCESS, Some CRUST_INIT_QUOTE_FAILED) => mret RestoreAgain
        | (SGX_SUCCESS, Some CRUST_UPGRADE_NEED_LEFT_DATA) => restore_loop n meta (meta_offset + partial_size)
        | _ => mret RestoreFailed
        end
    end.
(** A fresh enclave with a key pair takes the metadata; when it gets no quote, another
    one tries, [restore_tryout] in all. *)
Fixpoint restore_again (restore_tryout : nat) (meta : bytes) : M bool :=
  match restore_tryout with
  | O => mret false
  | S more =>
      ok ← initialize_enclave;
      if negb (ok : bool) then mret false
      else
        r ← on_app (Ecall_gen_key_pair fuel tid (Some (chain_account_id cfg)));
        match r with
        | (SGX_SUCCESS, Some SGX_SUCCESS) =>
            o ← restore_loop (S (List.length meta)) meta 0;
            match o with
            | Restored => mret true
            | RestoreFailed => mret false
            | RestoreAgain =>
                match more with O => mret false | S _ => sleep 10;; restore_again more meta end
            end
        | _ => mret false
        end
  end.
Definition upgrade_try_restore : M bool :=
  meta ← try_metadata (Z.to_nat (UPGRADE_META_TRYOUT / 10));
  match meta with None => mret false | Some meta => restore_again 3 meta end.

Definition upgrade_ret (restore_res : bool) : bytes := app_dump (JObject [(str "success", JBoolean restore_res)]).
(** The old version is told, [tryout] times until it answers. *)
Fixpoint inform_complete (tryout : nat) (restore_res : bool) : M unit :=
  match tryout with
  | O => mret tt
  | S tryout =>
      res_complete ← ask_old "/upgrade/complete" (upgrade_ret restore_res);
      if (res_complete.1 =? 200) || (res_complete.1 =? 404) then mret tt
      else match tryout with O => mret tt | S _ => sleep 1;; inform_complete tryout restore_res end
  end.
Definition upgrade_try_complete (restore_res : bool) : M bool :=
  inform_complete (Z.to_nat UPGRADE_COMPLETE_TRYOUT) restore_res;;
  if restore_res then sleep 20;; initialize_components else mret false.
Definition do_upgrade : M bool :=
  ok ← upgrade_try_start;
  if negb (ok : bool) then mret false else res ← upgrade_try_restore; upgrade_try_complete res.

(** ** The start *)

(** [None]: the process goes on to its loops; otherwise the status it returns. *)
Definition process_start (upgrade : bool) : M (option Z) :=
  if upgrade then ok ← do_upgrade; mret (if ok : bool then None else Some (-1))
  else
    ok ← initialize_components;
    if negb (ok : bool) then mret (Some (-1))
    else
      ok ← initialize_enclave;
      if negb (ok : bool) then mret (Some (-1))
      else
        r ← on_app (Ecall_restore_metadata fuel tid);
        match r with
        | (SGX_SUCCESS, Some CRUST_SUCCESS) =>
            r ← on_app (Ecall_cmp_chain_account_id fuel tid (chain_account_id cfg));
            mret (match r with (SGX_SUCCESS, Some CRUST_SUCCESS) => None | _ => Some (-1) end)
        | _ =>
            r ← on_app (Ecall_gen_key_pair fuel tid (Some (chain_account_id cfg)));
            match r with
            | (SGX_SUCCESS, Some SGX_SUCCESS) =>
                st ← (if offline_chain_mode then mret CRUST_SUCCESS else entry_network hw_sim fuel tid);
                if negb (is_success st) then mret (Some 1)
                else on_app (Ecall_srd_set_change fuel tid (c_srd_capacity cfg));; mret None
            | _ => mret (Some (-1))
            end
        end.

(** ** The check loop *)
Definition upgrade_timeout : Z := 2 * REPORT_BLOCK_HEIGHT_BASE * BLOCK_INTERVAL.
Definition check_interval : Z := 15.
Definition full_tryout : Z := upgrade_timeout / check_interval.
Definition turn_to (st : upgrade_status_t) : M unit := set_upgrade_status fuel tid st.

(** A thread that has ended is started again, and waited for: its future is held by a
    copy of the list entry only. *)
Definition check_worker (w : worker) : M unit :=
  ended ← gets (has_ended w);
  if ended : bool then run_again w else mret tt.
Definition check_process : M unit :=
  status ← gets get_app_upgrade_status;
  if bool_decide (status = UPGRADE_STATUS_PROCESS) then
    num ← gets (λ s, get_upgrade_ecalls_num (a_tasks (s_app s)));
    if num =? 0 then turn_to UPGRADE_STATUS_END else mret tt
  else mret tt.
Definition check_end : M unit :=
  status ← gets get_app_upgrade_status;
  if bool_decide (status = UPGRADE_STATUS_END) then
    block_header ← on_os (get_block_header cfg);
    match block_header with
    | None => mret tt
    | Some b =>
        r ← on_app (Ecall_gen_upgrade_data fuel tid (number b));
        match r with
        | (SGX_SUCCESS, Some CRUST_SUCCESS) => turn_to UPGRADE_STATUS_COMPLETE
        | _ => mret tt
        end
    end
  else mret tt.
(** The countdown while an upgrade is under way *)
Definition check_timeout (upgrade_tryout : Z) : M Z :=
  status ← gets get_app_upgrade_status;
  if bool_decide (status ≠ UPGRADE_STATUS_NONE) then
    let upgrade_tryout := upgrade_tryout - 1 in
    if upgrade_tryout <? 0 then turn_to UPGRADE_STATUS_NONE;; mret full_tryout else mret upgrade_tryout
  else mret upgrade_tryout.
(** One turn, up to its sleep; [None] ends the process. *)
Definition check_turn (tasks : list worker) (upgrade_tryout : Z) : M (option Z) :=
  status ← gets get_app_upgrade_status;
  (if bool_decide (status = UPGRADE_STATUS_EXIT) then mret tt else for_each tasks check_worker);;
  check_process;;
  check_end;;
  status ← gets get_app_upgrade_status;
  if bool_decide (status = UPGRADE_STATUS_EXIT) then
    os_step (λ w, (tt, stop_webservice w));; mret None
  else
    t ← check_timeout upgrade_tryout;
    mret (Some t).
(** Any number of turns: the status after each, and the countdown *)
Fixpoint check_turns (n : nat) (tasks : list worker) (upgrade_tryout : Z) : M (list upgrade_status_t * option Z) :=
  match n with
  | O => mret ([], Some upgrade_tryout)
  | S n =>
      o ← check_turn tasks upgrade_tryout;
      match o with
      | None => mret ([], None)
      | Some t =>
          status ← gets get_app_upgrade_status;
          sleep check_interval;;
          r ← check_turns n tasks t;
          mret (status :: r.1, r.2)
      end
  end.
Definition all_tasks : list worker := [WebService; WorkReportLoop; SrdCheckReserved; MainLoopThread].
End process.

(** ** Alone with the enclave *)

(** Before the web service has started no other thread is there. *)
Class Alone (W : Type) `{!AppThreads W} : Prop := {
  alone_others (a : app W) : app_others a = a;
  alone_lock (a : app W) : try_lock a = true
}.
(** Nothing is waiting, in flight or running; slots may have been given back too often. *)
Definition idle (t : tasks) : Prop :=
  g_waiting_task_sum_v t = [0; 0; 0; 0] ∧ g_running_task_um t = ∅ ∧ g_running_task_num t <= 0 ∧
  ∀ n, counter n (g_invoked_ecalls_um t) = 0.
Lemma idle_given_back k t t' : 0 <= k → idle t → given_back k t t' → idle t'.
Proof.
  intros Hk (A1 & B1 & C1 & D1) (A2 & B2 & C2 & D2). split_and!; [congruence|congruence|lia|].
  intros n. by rewrite D2, D1.
Qed.

(** At most one call is inside, and nothing that another has to wait for. *)
Definition blocking : list name :=
  ["Ecall_seal_file"; "Ecall_unseal_file"; "Ecall_gen_and_upload_work_report"; "Ecall_confirm_file"]%string.
Definition quiet (t : tasks) : Prop :=
  g_waiting_task_sum_v t = [0; 0; 0; 0] ∧ g_running_task_num t <= 1 ∧
  ∀ b, b ∈ blocking → counter b (g_invoked_ecalls_um t) = 0.
Lemma blocks_other tname b : b ∈ default [] (g_block_tasks_um !! tname) → b ≠ tname ∧ b ∈ blocking.
Proof.
  assert (map_Forall (λ n bs, Forall (λ b, b ≠ n ∧ b ∈ blocking) bs) g_block_tasks_um) as H
    by (apply (bool_decide_unpack _); vm_compute; exact I).
  destruct (g_block_tasks_um !! tname) as [bs|] eqn:E; cbn; [|by intros ?%elem_of_nil].
  specialize (H tname bs E). rewrite Forall_forall in H. apply H.
Qed.
Lemma waiting_round tname (v : list Z) : alter (Z.add (-1)) (priority tname) (alter (Z.add 1) (priority tname) v) = v.
Proof.
  apply list_eq. intros i. destruct (decide (i = priority tname)) as [->|Hi].
  - rewrite !list_lookup_alter_eq. destruct (v !! priority tname); [|done]. cbn. f_equal. lia.
  - by rewrite !list_lookup_alter_ne.
Qed.
Lemma quiet_back tid n t : quiet t → quiet (back tid n t).
Proof.
  intros (Hw & Hn & Hc). unfold back, entered, leave, acquire, free_enclave, quiet. cbn [enter g_running_task_um].
  destruct (g_running_task_um t !! tid);
    cbn [enter g_waiting_task_sum_v g_invoked_ecalls_um g_running_task_um g_running_task_num];
    rewrite waiting_round; (split_and!; [done|lia|]); intros b Hb; rewrite decide_True by done;
    rewrite !counter_add, (Hc b Hb); case_decide; lia.
Qed.
Lemma idle_entered tid tname t : idle t → tname ∉ blocking → quiet (entered tid tname t).
Proof.
  intros (Hw & Hr & Hn & Hc) Hb. unfold entered, leave, acquire, quiet. cbn [enter g_running_task_um].
  rewrite Hr, lookup_empty. cbn [enter g_waiting_task_sum_v g_invoked_ecalls_um g_running_task_um g_running_task_num].
  rewrite waiting_round. split_and!; [done|lia|]. intros b Hin. rewrite decide_True by done.
  rewrite counter_add, Hc, decide_False by congruence. done.
Qed.

Section alone.
Context {W : Type} `{!Host W} `{!IdHost W} `{!UpgradeHost W} `{!AttestHost W} `{!Threads W} `{!AppThreads W} `{!Alone W}.

Lemma quiet_open tname (a : app W) : quiet (a_tasks a) → way_open tname a.
Proof.
  intros (Hw & Hn & Hc). split; [| |apply alone_lock].
  - unfold task_blocked. apply not_true_iff_false. intros (b & Hin & Hlt)%existsb_exists.
    apply list_elem_of_In, blocks_other in Hin as [Hne Hb]. cbn [enter g_invoked_ecalls_um] in Hlt.
    rewrite counter_add, (Hc _ Hb), decide_False in Hlt by congruence. done.
  - unfold refused. cbn [enter g_running_task_num].
    assert (get_higher_prio_waiting_task_num (priority tname) (enter tname (a_tasks a)) = 0) as ->.
    { unfold get_higher_prio_waiting_task_num. cbn [enter g_waiting_task_sum_v]. rewrite Hw.
      pose proof (priority_lt tname). destruct (priority tname) as [|[|[|[|?]]]]; [done..|lia]. }
    unfold ENC_MAX_THREAD_NUM, ENC_RESERVED_THREAD_NUM, ENC_PERMANENT_TASK_NUM, ENC_HIGHEST_PRIORITY. lia.
Qed.
Lemma quiet_ways tid ns (a : app W) : quiet (a_tasks a) → ways_open tid ns a.
Proof.
  revert a. induction ns as [|n ns IH]; intros a Ha; cbn [ways_open]; [done|].
  split; [by apply quiet_open|]. apply IH. by apply quiet_back.
Qed.
Lemma idle_way_free tid tname (a : app W) : idle (a_tasks a) → way_free tid tname a.
Proof.
  intros Hi. pose proof Hi as (Hw & Hr & Hn & Hc). split; [|by rewrite Hr, lookup_empty].
  apply quiet_open. split_and!; [done|lia|done].
Qed.
(** From idle to idle: a call through the queue is the call of the enclave. *)
Lemma idle_call {A} fuel tid tname (m : Host.M (enclave W) A) (a : app W) :
  idle (a_tasks a) → (4 <= fuel)%nat →
  match m (a_enclave a) with
  | Ok (x, e) => ∃ t, wrapped fuel tid tname (in_enclave m) a = Ok ((SGX_SUCCESS, Some x), App t e (a_buffer a)) ∧ idle t
  | UB => wrapped fuel tid tname (in_enclave m) a = UB
  | Throw => wrapped fuel tid tname (in_enclave m) a = Throw
  | NoFuel => wrapped fuel tid tname (in_enclave m) a = NoFuel
  end.
Proof.
  intros Hi Hf. destruct (idle_way_free tid tname a Hi) as [Hw Ht].
  rewrite wrapped_open by done. unfold in_enclave, mbind, m_bind. cbn [with_tasks a_enclave a_tasks a_buffer].
  destruct (m (a_enclave a)) as [[x e]| | |]; [|done..]. eexists. split; [done|].
  by apply (idle_given_back 0 (a_tasks a)); [|exact Hi|apply (round_trip_back tid tname [])].
Qed.
Lemma idle_restore fuel tid meta size fin (a : app W) :
  idle (a_tasks a) → (4 <= fuel)%nat → get_upgrade_status (wl (a_enclave a)) ≠ ENC_UPGRADE_STATUS_PROCESS →
  match id_restore_from_upgrade (a_buffer a) meta size fin (a_enclave a) with
  | Ok ((b, st), e) => ∃ t, Ecall_restore_from_upgrade fuel tid meta size fin a = Ok ((SGX_SUCCESS, Some st), App t e b) ∧ idle t
  | UB => Ecall_restore_from_upgrade fuel tid meta size fin a = UB
  | Throw => Ecall_restore_from_upgrade fuel tid meta size fin a = Throw
  | NoFuel => Ecall_restore_from_upgrade fuel tid meta size fin a = NoFuel
  end.
Proof.
  intros Hi Hf Hu. destruct (idle_way_free tid "Ecall_restore_from_upgrade" a Hi) as [Hw Ht].
  unfold Ecall_restore_from_upgrade. rewrite wrapped_open by done. unfold mbind, m_bind, Host.get, modify.
  cbn [a_buffer with_tasks]. rewrite in_enclave_back_open; [|done|].
  2: { intros x e _. apply quiet_ways. cbn [a_tasks with_tasks]. apply idle_entered; [done|].
       apply (bool_decide_unpack (_ ∉ blocking)). by vm_compute. }
  unfold ecall_restore_from_upgrade, gated, get_wl, gets, mbind, m_bind.
  cbn [a_enclave a_tasks a_buffer with_tasks]. rewrite bool_decide_false by congruence.
  destruct (id_restore_from_upgrade _ _ _ _ _) as [[[b st] e]| | |]; [|done..]. eexists. split; [done|].
  eapply (idle_given_back _ (a_tasks a)); [|exact Hi|by apply round_trip_back]. case_decide; lia.
Qed.
End alone.

(** ** Taking over *)
Section takeover.
Context {W : Type} `{!LevelDb W} `{!DiskOs W} `{!HttpClient W} `{!QuoteHost W} `{!ProcessOs W}.
Context `{!Host (node W)} `{!IdHost (node W)} `{!UpgradeHost (node W)} `{!AttestHost (node W)}.
Context `{!Threads (node W)} `{!AppThreads (node W)} `{!Alone (node W)} `{!DbLaws (node W)}.
Variable cfg : Config.
Variables fuel tid : nat.
Hypothesis fuel_enough : (4 <= fuel)%nat.
Implicit Types (s : srd_node W).

Definition with_app (a : app (node W)) s : srd_node W := SrdNode a (g_srd_reserved_space s) (srd_capacity s).
(** What the new version makes of the status of the enclave *)
Definition restored_of (st : crust_status) : restored :=
  match st with
  | CRUST_SUCCESS | CRUST_UPGRADE_NEED_LEFT_DATA => Restored
  | CRUST_INIT_QUOTE_FAILED => RestoreAgain
  | _ => RestoreFailed
  end.
(** What has arrived in the enclave after so many bytes *)
Definition arrived (meta : bytes) (off : Z) : upgrade_buffer :=
  if off =? 0 then no_upgrade_buffer else UpgradeBuffer (zlen meta) (take (Z.to_nat off) meta).

Lemma restore_loop_end n meta off s : zlen meta <= off → restore_loop fuel tid n meta off s = Ok (Restored, s).
Proof. intros H. destruct n; cbn [restore_loop]; by destruct (Z.ltb_spec off (zlen meta)); [lia|]. Qed.

Lemma receive_arrived meta off piece fin (e : enclave (node W)) :
  0 <= off → piece ≠ [] → off + zlen piece <= zlen meta → take (Z.to_nat off) meta ++ piece = take (Z.to_nat (off + zlen piece)) meta →
  zlen meta < 2 ^ 63 →
  receive_upgrade (arrived meta off) piece (zlen meta) fin e =
  Ok (if fin then (no_upgrade_buffer, inr (take (Z.to_nat (off + zlen piece)) meta ++
                                          replicate (Z.to_nat (zlen meta - (off + zlen piece))) (chr 0)))
      else (arrived meta (off + zlen piece), inl CRUST_UPGRADE_NEED_LEFT_DATA), e).
Proof.
  intros Ho Hne Hle Happ Hmax. assert (0 < zlen piece) as Hp by (destruct piece; [done|]; len).
  unfold arrived. destruct (Z.eqb_spec (off + zlen piece) 0); [lia|].
  destruct (Z.eqb_spec off 0) as [->|Hoff].
  - rewrite receive_first by (lia || done). change (take (Z.to_nat 0) meta) with (@nil ascii) in Happ.
    change ([] ++ piece) with piece in Happ. by rewrite <- Happ, Z.add_0_l.
  - assert (zlen (take (Z.to_nat off) meta) = off) as Hl.
    { unfold zlen in *. rewrite length_take. lia. }
    pose proof (zlen_nil (A:=ascii)). rewrite receive_some; [|intros E; rewrite E in Hl; lia|lia].
    assert (zlen (take (Z.to_nat off) meta ++ piece) = off + zlen piece) as -> by (rewrite zlen_app; lia). by rewrite Happ.
Qed.

(** Handing over the metadata in pieces has the effect of handing it over at once. *)
Lemma restore_loop_spec n meta off s :
  idle (a_tasks (s_app s)) → get_upgrade_status (wl (a_enclave (s_app s))) ≠ ENC_UPGRADE_STATUS_PROCESS →
  0 <= off < zlen meta → zlen meta < 2 ^ 63 → a_buffer (s_app s) = arrived meta off →
  (Z.to_nat (zlen meta - off) <= n)%nat →
  match id_restore_from_upgrade no_upgrade_buffer meta (zlen meta) true (a_enclave (s_app s)) with
  | Ok ((b, st), e) => ∃ t, restore_loop fuel tid n meta off s = Ok (restored_of st, with_app (App t e b) s) ∧ idle t
  | UB => restore_loop fuel tid n meta off s = UB
  | Throw => restore_loop fuel tid n meta off s = Throw
  | NoFuel => restore_loop fuel tid n meta off s = NoFuel
  end.
Proof using All.
  revert off s. induction n as [|n IH]; intros off s Hi Hu Hoff Hmax Hbuf Hn; [lia|].
  cbn [restore_loop]. destruct (Z.ltb_spec off (zlen meta)) as [_|]; [|lia]. cbn [negb].
  set (part := Z.min (zlen meta - off) OCALL_STORE_THRESHOLD).
  set (piece := take (Z.to_nat part) (drop (Z.to_nat off) meta)).
  assert (0 < part <= zlen meta - off) as Hpart by (unfold part, OCALL_STORE_THRESHOLD; lia).
  assert (zlen piece = part) as Hlen.
  { clearbody part. unfold piece, zlen in *. rewrite length_take, length_drop. lia. }
  assert (take (Z.to_nat off) meta ++ piece = take (Z.to_nat (off + zlen piece)) meta) as Happ.
  { rewrite Hlen. unfold piece. rewrite take_take_drop. f_equal. lia. }
  assert (meta ≠ []) as Hmeta by (intros E; rewrite E in Hoff; change (zlen []) with 0 in Hoff; lia).
  assert (piece ≠ []) as Hne by (intros E; rewrite E, zlen_nil in Hlen; lia).
  pose proof (idle_restore fuel tid piece (zlen meta) (zlen meta <=? off + part) (s_app s) Hi fuel_enough Hu) as H.
  rewrite Hbuf in H. set (c := Ecall_restore_from_upgrade _ _ _ _ _) in *.
  clearbody c. unfold on_app, mbind, m_bind.
  destruct (Z.leb_spec (zlen meta) (off + part)) as [Hlast|Hmore].
  - assert (id_restore_from_upgrade (arrived meta off) piece (zlen meta) true (a_enclave (s_app s))
            = id_restore_from_upgrade no_upgrade_buffer meta (zlen meta) true (a_enclave (s_app s))) as E.
    { apply restore_same. rewrite receive_arrived, receive_first by (done || lia).
      rewrite Hlen. replace (off + part) with (zlen meta) by lia. unfold zlen. rewrite Nat2Z.id, firstn_all. done. }
    rewrite E in H. destruct (id_restore_from_upgrade _ _ _ _ _) as [[[b st] e]| | |]; [|by rewrite H..].
    destruct H as (t & -> & Ht). exists t. split; [|done]. cbn [fst snd].
    destruct st; try done. by rewrite restore_loop_end by lia.
  - rewrite (restore_more _ (arrived meta (off + part)) piece (zlen meta) CRUST_UPGRADE_NEED_LEFT_DATA (a_enclave (s_app s))) in H.
    2: { by rewrite receive_arrived, Hlen by (done || lia). }
    destruct H as (t & -> & Ht). cbv beta iota.
    pose proof (IH (off + part) (with_app (App t (a_enclave (s_app s)) (arrived meta (off + part))) s)) as H.
    apply H; cbn [with_app s_app a_tasks a_enclave a_buffer]; done || lia.
Qed.

(** A call of an idle process that returned *)
Lemma on_app_idle {A} tname (m : Host.M (enclave (node W)) A) s r s' :
  idle (a_tasks (s_app s)) →
  on_app (wrapped fuel tid tname (in_enclave m)) s = Ok (r, s') →
  ∃ x e t, m (a_enclave (s_app s)) = Ok (x, e) ∧ r = (SGX_SUCCESS, Some x) ∧ idle t ∧
    s' = with_app (App t e (a_buffer (s_app s))) s.
Proof using All.
  intros Hi H. pose proof (idle_call fuel tid tname m (s_app s) Hi fuel_enough) as Hc. unfold on_app in H.
  destruct (m (a_enclave (s_app s))) as [[x e]| | |]; [|by rewrite Hc in H..].
  destruct Hc as (t & E & Ht). rewrite E in H. injection H as <- <-. exists x, e, t. done.
Qed.
Lemma initialize_enclave_true s s' :
  idle (a_tasks (s_app s)) → initialize_enclave fuel tid s = Ok (true, s') →
  ∃ garbage n r e t, ecall_gen_sgx_measurement (Enclave (workload_new garbage) (λ _, 0) 0 None [] n) = Ok (r, e) ∧
    idle t ∧ s_app s' = App t e no_upgrade_buffer.
Proof using All.
  intros Hi H. unfold initialize_enclave in H. apply bind_Ok in H as (sup & s1 & [-> ->]%gets_Ok & H).
  cbv zeta in H. destruct (_ || negb (negb _)) in H; [by apply ret_Ok in H as [? _]|].
  apply bind_Ok in H as (c & s2 & [-> ->]%zoom_Ok & H). set (s2 := with_os _ s) in *.
  destruct (sgx_ok _) in H; [|by apply ret_Ok in H as [? _]]. cbn [negb] in H.
  apply bind_Ok in H as ([] & s3 & ->%modify_Ok & H). apply bind_Ok in H as (r & s4 & H1 & H).
  apply ret_Ok in H as [_ ->]. apply on_app_idle in H1; [|exact Hi].
  destruct H1 as (x & e & t & Hm & _ & Ht & ->). do 5 eexists. split_and!; [exact Hm|done..].
Qed.

Lemma measured_status garbage n r (e : enclave (node W)) :
  ecall_gen_sgx_measurement (Enclave (workload_new garbage) (λ _, 0) 0 None [] n) = Ok (r, e) →
  get_upgrade_status (wl e) = ENC_UPGRADE_STATUS_NONE.
Proof.
  destruct garbage as [[pre keys] mr]. unfold ecall_gen_sgx_measurement, id_gen_sgx_measurement. intros H.
  inv_step H. destruct (sgx_ok _) in H; cbn [negb] in H; repeat inv_step H; done.
Qed.
Lemma keyed_status account (e e' : enclave (node W)) r :
  ecall_gen_key_pair account e = Ok (r, e') → get_upgrade_status (wl e') = get_upgrade_status (wl e).
Proof.
  unfold ecall_gen_key_pair, id_gen_key_pair. intros H. inv_step H. destruct (try_get_key_pair _); [by inv_step H|].
  destruct account as [[|]|]; try by inv_step H. inv_step H. destruct (sgx_ok _) in H; cbn [negb] in H; [|by inv_step H].
  inv_step H. destruct (sgx_ecc256_create_key_pair _) as [[st [pri pub]] w]. cbn [fst snd] in H.
  destruct (sgx_ok st) in H; cbn [negb] in H; repeat inv_step H; done.
Qed.

Lemma restored_whole k meta s s' :
  idle (a_tasks (s_app s)) → meta ≠ [] → zlen meta < 2 ^ 63 →
  restore_again cfg fuel tid k meta s = Ok (true, s') →
  ∃ garbage n e b st,
    run_ecalls [GenSgxMeasurement; GenKeyPair (Some (chain_account_id cfg))] no_upgrade_buffer
      (Enclave (workload_new garbage) (λ _, 0) 0 None [] n) = Ok ((no_upgrade_buffer, [None; None]), e) ∧
    id_restore_from_upgrade no_upgrade_buffer meta (zlen meta) true e = Ok ((b, st), a_enclave (s_app s')) ∧
    (st = CRUST_SUCCESS ∨ st = CRUST_UPGRADE_NEED_LEFT_DATA).
Proof using All.
  intros Hi Hne Hmax. revert s Hi. induction k as [|k IH]; intros s Hi H; [by apply ret_Ok in H as [? _]|].
  cbn [restore_again] in H. apply bind_Ok in H as (ok & s1 & H1 & H).
  destruct ok; cbn [negb] in H; [|by apply ret_Ok in H as [? _]].
  destruct (initialize_enclave_true s s1 Hi H1) as (garbage & n & rm & em & t & Hm & Ht & E1).
  apply bind_Ok in H as (r & s2 & H2 & H).
  apply on_app_idle in H2; [|by rewrite E1].
  destruct H2 as (x & e & t2 & Hk & -> & Ht2 & ->). rewrite E1 in Hk. cbn [a_enclave] in Hk.
  destruct x; try (by apply ret_Ok in H as [? _]).
  apply bind_Ok in H as (o & s3 & H3 & H).
  pose proof (restore_loop_spec (S (List.length meta)) meta 0 (with_app (App t2 e (a_buffer (s_app s1))) s1)) as Hl.
  cbn [with_app s_app a_tasks a_enclave a_buffer] in Hl.
  assert (0 < zlen meta) by (destruct meta; [done|]; len).
  specialize (Hl Ht2). rewrite (keyed_status _ _ _ _ Hk), (measured_status _ _ _ _ Hm) in Hl.
  specialize (Hl ltac:(done) ltac:(lia) Hmax ltac:(by rewrite E1) ltac:(unfold zlen; lia)).
  destruct (id_restore_from_upgrade _ _ _ _ e) as [[[b st] e']| | |] eqn:Er;
    [destruct Hl as (t3 & El & Ht3)|by rewrite Hl in H3..].
  rewrite El in H3. injection H3 as <- <-.
  destruct (restored_of st) eqn:Est; [|destruct k; [by apply ret_Ok in H as [? _]|]|by apply ret_Ok in H as [? _]].
  - apply ret_Ok in H as [_ ->]. exists garbage, n, e, b, st. split_and!.
    + cbn [run_ecalls run_ecall]. unfold mbind, m_bind. rewrite Hm. cbn [fst snd]. cbv beta iota. cbn. by rewrite Hk.
    + rewrite Er. done.
    + destruct st; try done; [by left|by right].
  - apply bind_Ok in H as ([] & s4 & H4 & H). unfold sleep, on_app, modify in H4. rewrite alone_others in H4.
    injection H4 as <-. eapply IH; [|exact H]. exact Ht3.
Qed.

(** C12: nothing is taken over in part.  When the new version counts the metadata as
    restored, a fresh enclave, measured and with a key pair for the account, has been
    handed the whole text: its state is that after a single call with all of it,
    however many pieces of four megabytes there were and however often a quote had
    to be waited for, and the status of that call was success (or, were the host to
    answer so, that more is needed). *)
Theorem takes_over_whole k meta s s' :
  idle (a_tasks (s_app s)) → meta ≠ [] → zlen meta < 2 ^ 63 →
  restore_again cfg fuel tid k meta s = Ok (true, s') →
  ∃ garbage n e b st,
    run_ecalls [GenSgxMeasurement; GenKeyPair (Some (chain_account_id cfg))] no_upgrade_buffer
      (Enclave (workload_new garbage) (λ _, 0) 0 None [] n) = Ok ((no_upgrade_buffer, [None; None]), e) ∧
    id_restore_from_upgrade no_upgrade_buffer meta (zlen meta) true e = Ok ((b, st), a_enclave (s_app s')) ∧
    (st = CRUST_SUCCESS ∨ st = CRUST_UPGRADE_NEED_LEFT_DATA).
Proof using All. by apply restored_whole. Qed.
End takeover.

(** ** The old version *)
Section old_version.
Context {W : Type} `{!LevelDb W} `{!LevelDbLaws W} `{!DiskOs W} `{!HttpClient W} `{!Directory W}.
Context `{!Host (node W)} `{!IdHost (node W)} `{!UpgradeHost (node W)} `{!AttestHost (node W)}.
Context `{!Threads (node W)} `{!AppThreads (node W)}.
Variable cfg : Config.
Variables fuel tid pool : nat.
Hypothesis fuel_enough : (4 <= fuel)%nat.

(** What the new version sends at the end, and what becomes of the database *)
Definition complete_request (b : bool) : request :=
  Request GET (api_base cfg ++ str "/upgrade/complete") (Some (chain_backup cfg)) (upgrade_ret b).
Definition retired (w w' : W) : Prop := ∀ k,
  content w' k = if decide (k = ID_METADATA) then None
                 else if decide (k = ID_METADATA_OLD)
                      then match content w ID_METADATA with Some v => Some v | None => content w k end
                      else content w k.
(** Whatever the database does, only these two keys are concerned. *)
Lemma retire_others w k : k ≠ ID_METADATA → k ≠ ID_METADATA_OLD → content (retire_metadata w).2 k = content w k.
Proof.
  intros H1 H2. unfold retire_metadata, DataBase_get. rewrite get_content. unfold DataBase_del, DataBase_set.
  assert (∀ w, content (let '(ok, w) := leveldb_Delete ID_METADATA w in
    (if ok : bool then CRUST_SUCCESS else CRUST_PERSIST_DEL_FAILED, w)).2 k = content w k) as Hdel.
  { intros w1. destruct (delete_content ID_METADATA w1) as [_ H]. destruct (leveldb_Delete ID_METADATA w1). cbn in *. auto. }
  cbn [snd]. rewrite Hdel. destruct (content w ID_METADATA) as [v|]; [|done].
  destruct (put_content ID_METADATA_OLD v w) as [_ H]. destruct (leveldb_Put ID_METADATA_OLD v w). cbn in *. auto.
Qed.
Lemma retire_retired `{!LevelDbHealthy W} w : retired w (retire_metadata w).2.
Proof.
  intros k. unfold retire_metadata, DataBase_get. rewrite get_content. unfold DataBase_del, DataBase_set.
  assert (∀ w k, content (let '(ok, w) := leveldb_Delete ID_METADATA w in
    (if ok : bool then CRUST_SUCCESS else CRUST_PERSIST_DEL_FAILED, w)).2 k
    = if decide (k = ID_METADATA) then None else content w k) as Hdel.
  { intros w1 k1. destruct (delete_content ID_METADATA w1) as [H1 H2]. specialize (H1 (delete_healthy _ _)).
    destruct (leveldb_Delete ID_METADATA w1). cbn in *. case_decide; [by subst|auto]. }
  cbn [snd]. rewrite Hdel. destruct (content w ID_METADATA) as [v|]; [|by repeat case_decide].
  destruct (put_content ID_METADATA_OLD v w) as [H1 H2]. specialize (H1 (put_healthy _ _ _)).
  destruct (leveldb_Put ID_METADATA_OLD v w). cbn in *. repeat case_decide; subst; auto.
Qed.

(** The status is set; with none, the enclave is opened again. *)
Lemma set_status_open st (s : srd_node W) :
  (st = UPGRADE_STATUS_NONE → way_free tid "Ecall_disable_upgrade" (s_app (with_app_status st s))) →
  ∃ s', set_upgrade_status fuel tid st s = Ok (tt, s') ∧ get_app_upgrade_status s' = st ∧ os s' = os s ∧
    (st = UPGRADE_STATUS_NONE → get_app_upgrade_status s ≠ UPGRADE_STATUS_NONE →
     get_upgrade_status (wl (a_enclave (s_app s'))) = ENC_UPGRADE_STATUS_NONE).
Proof using All.
  intros Hw. unfold set_upgrade_status. rewrite (bind_run (gets _) _ s _ s eq_refl).
  case_bool_decide as Hc; [exists s; split_and!; [done|done|done|congruence]|].
  rewrite (bind_run (modify _) _ s tt (with_app_status st s) eq_refl).
  case_bool_decide as Hn; [|eexists; split_and!; [reflexivity|done..]].
  destruct (Hw Hn) as [Hw' _].
  unfold on_app, Ecall_disable_upgrade, mbind, m_bind. rewrite wrapped_open by done.
  unfold in_enclave, ecall_disable_upgrade, on_wl, modify, mbind, m_bind.
  eexists. split_and!; [reflexivity|done..].
Qed.

(** C25: both versions agree on the outcome of an upgrade.  What the new version sends at
    the end is understood by the old one, whatever else runs in it: told of success
    it will exit, having touched nothing in the database but its metadata, which, as
    long as no write or deletion fails, is kept under the old key only, so that it is
    not restored again; told of failure it works on, its database as it was, and, when
    a slot of the enclave is free for the call that does it, with its enclave open. *)
Theorem complete_understood b (a : api W) :
  let req := complete_request b in
  starts_with (str "/") (target req) = true → string_find (str "..") (target req) 0 = None →
  zlen (target req) < 2 ^ 64 → request_path req = api_base cfg ++ str "/upgrade/complete" →
  api_status a ≠ UPGRADE_STATUS_EXIT →
  (b = false → way_free tid "Ecall_disable_upgrade" (s_app (with_app_status UPGRADE_STATUS_NONE (a_node a)))) →
  ∃ a', http_handler cfg fuel tid pool req a = Ok (Response 200 (str "crust return"), a') ∧
    if b then api_status a' = UPGRADE_STATUS_EXIT ∧
              (∀ k, k ≠ ID_METADATA → k ≠ ID_METADATA_OLD → content (api_os a') k = content (api_os a) k) ∧
              (LevelDbHealthy W → retired (api_os a) (api_os a'))
    else api_status a' = UPGRADE_STATUS_NONE ∧ api_os a' = api_os a ∧
         (api_status a ≠ UPGRADE_STATUS_NONE →
          get_upgrade_status (wl (a_enclave (s_app (a_node a')))) = ENC_UPGRADE_STATUS_NONE).
Proof using All.
  intros req Ht Hd Hlen Hp He Hi.
  rewrite (handle_route cfg fuel tid pool req (str "/upgrade/complete")); [|done..|].
  2: { right. right. apply (bool_decide_unpack (_ ∉ upgrade_block_s)). by vm_compute. }
  unfold req at 1, complete_request at 1. cbn [method]. unfold get_routes, at_route.
  rewrite !(app_inj_false _ _ _ _ Hp) by done. rewrite bool_decide_true by done.
  unfold upgrade_complete_route, owner, refuse_backup. cbn [req complete_request req_backup req_body].
  rewrite bool_decide_true by done.
  assert (app_Load (upgrade_ret b) = Ok (JObject [(str "success", JBoolean b)])) as -> by (by destruct b; vm_compute).
  change ((of_res (Ok ?j) ≫= ?f) a) with (f j a). cbv beta.
  change (ToBool (jkey (str "success") (JObject [(str "success", JBoolean b)]))) with b.
  destruct b; cbn [negb].
  - destruct (set_status_open UPGRADE_STATUS_EXIT (with_os (retire_metadata (os (a_node a))).2 (a_node a))) as (s' & E & Hs & Ho & _); [done|].
    exists (Api s' (debug_flag a) (change_srd_num a)). split; [|split; [done|]].
    + unfold on_node, zoom, mbind, m_bind. destruct (retire_metadata _) as [[] w]. cbn [fst snd a_node] in *. by rewrite E.
    + unfold api_os. cbn [a_node]. rewrite Ho. split; [intros; by apply retire_others|intros ?; apply retire_retired].
  - destruct (set_status_open UPGRADE_STATUS_NONE (a_node a)) as (s' & E & Hs & Ho & He'); [by intros _; apply Hi|].
    exists (Api s' (debug_flag a) (change_srd_num a)). split; [|split_and!; [done|done|]].
    + unfold on_node, mbind, m_bind. by rewrite E.
    + by apply He'.
Qed.

(** ** The countdown *)
Definition app_status (a : app (node W)) : upgrade_status_t := app_upgrade_status (n_data (world (a_enclave a))).
End old_version.

Section countdown.
Context {W : Type} `{!LevelDb W} `{!DiskOs W} `{!HttpClient W} `{!QuoteHost W} `{!ProcessOs W}.
Context `{!Host (node W)} `{!IdHost (node W)} `{!UpgradeHost (node W)} `{!AttestHost (node W)}.
Context `{!Threads (node W)} `{!AppThreads (node W)} `{!Workers (srd_node W)}.
Variable cfg : Config.
Variables fuel tid : nat.
(** No request about an upgrade is answered while the loop waits for the enclave. *)
Hypothesis others_status : ∀ a : app (node W), app_status (app_others a) = app_status a.

Lemma wait_loop_status n th a st a' : wait_loop n tid th a = Ok (st, a') → app_status a' = app_status a.
Proof using All.
  revert th a. induction n as [|n IH]; intros th a; [done|]. cbn [wait_loop].
  unfold Host.get, mbind, m_bind, on_tasks, modify. destruct (thread_step _ _ _ _) as [t r].
  destruct r as [th'|]; [|by intros [_ ->]%ret_Ok]. destruct (th_phase th');
    try (by intros ->%IH); try (by intros [_ ->]%ret_Ok). intros ->%IH. by rewrite others_status.
Qed.
Lemma set_none_status s s' :
  set_upgrade_status fuel tid UPGRADE_STATUS_NONE s = Ok (tt, s') → get_app_upgrade_status s' = UPGRADE_STATUS_NONE.
Proof using All.
  unfold set_upgrade_status. rewrite (bind_run (gets _) _ s _ s eq_refl).
  case_bool_decide as Hc; [by intros [_ ->]%ret_Ok|].
  rewrite (bind_run (modify _) _ s tt (with_app_status UPGRADE_STATUS_NONE s) eq_refl).
  rewrite bool_decide_true by done. intros H. apply bind_Ok in H as (r & s1 & H & [_ ->]%ret_Ok).
  unfold on_app in H. destruct (Ecall_disable_upgrade _ _ _) as [[r1 a1]| | |] eqn:E; try done. injection H as <- <-.
  unfold Ecall_disable_upgrade, wrapped in E. apply bind_Ok in E as (st & a2 & H1 & E).
  unfold try_get_enclave in H1. apply bind_Ok in H1 as ([] & a3 & ->%modify_Ok & H1).
  apply wait_loop_status in H1. change (get_app_upgrade_status (SrdNode a1 _ _)) with (app_status a1).
  destruct (negb (sgx_ok st)); [by apply ret_Ok in E as [_ ->]|].
  apply bind_Ok in E as (u & a4 & H2 & E). apply bind_Ok in E as ([] & a5 & ->%modify_Ok & E). apply ret_Ok in E as [_ ->].
  unfold in_enclave, ecall_disable_upgrade, on_wl, modify in H2. injection H2 as _ <-. exact H1.
Qed.

(** An upgrade does not hold a node for ever.  As long as every turn of the check
    loop ends within an upgrade, the countdown goes down: no more turns than it had
    left can do so, 240 from the start, which is an hour. *)
Theorem upgrade_times_out n tasks t s sts t' s' :
  0 <= t → check_turns cfg fuel tid n tasks t s = Ok ((sts, Some t'), s') →
  Forall (λ st, st ≠ UPGRADE_STATUS_NONE) sts → Z.of_nat n <= t.
Proof using All.
  revert t s sts s'. induction n as [|n IH]; intros t s sts s' Ht H Hs; [lia|].
  cbn [check_turns] in H. apply bind_Ok in H as (o & s1 & H1 & H). destruct o as [t1|]; [|by apply ret_Ok in H as [? _]].
  apply bind_Ok in H as (st & s2 & [-> ->]%gets_Ok & H). apply bind_Ok in H as ([] & s3 & _ & H).
  apply bind_Ok in H as ([sts' o'] & s4 & H & E). apply ret_Ok in E as [[= -> <-] ->].
  apply Forall_cons in Hs as [Hst Hs].
  unfold check_turn in H1. repeat (apply bind_Ok in H1 as (? & ? & ? & H1)). case_bool_decide.
  { apply bind_Ok in H1 as (? & ? & _ & H1). by apply ret_Ok in H1 as [? _]. }
  apply bind_Ok in H1 as (t2 & s5 & H1 & E). apply ret_Ok in E as [[= ->] ->].
  unfold check_timeout in H1. apply bind_Ok in H1 as (st & s6 & [-> ->]%gets_Ok & H1).
  case_bool_decide as Hn; [|apply ret_Ok in H1 as [_ ->]; tauto]. cbv zeta in H1.
  destruct (Z.ltb_spec (t - 1) 0).
  - apply bind_Ok in H1 as ([] & s7 & H1 & E). apply ret_Ok in E as [_ ->]. by apply set_none_status in H1.
  - apply ret_Ok in H1 as [-> ->]. apply IH in H; [lia|lia|done].
Qed.
End countdown.

(** ** Evaluated *)
#[global] Instance demo_quote_host : QuoteHost demo := {
  rdrand64_step w := (Some 1, w);
  SGX_ERROR_BUSY := SGX_ERROR_OTHER 0x400a;
  sgx_init_quote w := ((SGX_SUCCESS, []), w);
  get_quote_size w := Some (SGX_SUCCESS, 1116);
  sgx_get_quote report linkable spid nonce sz w := ((SGX_SUCCESS, report), w);
  quote_malloc sz w := true;
  base64_encode t := Some t;
  SSLPost url body type hs w := ((404, λ _, [], []), w)
}.
#[global] Instance demo_process_os : ProcessOs demo := {
  get_sgx_support w := 3;
  sgx_create_enclave w := ((SGX_SUCCESS, ([], demo_keys, [])), w);
  leveldb_Open p w := (true, w);
  start_webservice w := (true, w);
  stop_webservice w := w
}.

Section demo_process.
#[local] Existing Instance node_host.
#[local] Existing Instance node_upgrade_host.
#[local] Existing Instance node_id_host.
#[local] Existing Instance node_attest_host.
#[local] Existing Instance demo_node_threads.
#[local] Existing Instance demo_node_app.
#[local] Existing Instance demo_directory.
#[local] Instance demo_alone : Alone (node demo).
Proof. by split. Qed.
#[local] Instance demo_workers : Workers (srd_node demo) := { has_ended w s := false; run_again w s := Ok (tt, s) }.

Lemma demo_idle : idle no_tasks.
Proof. by split_and!. Qed.
(** The metadata of [demo_old] restored by a new process *)
Lemma demo_restored : ∃ s', restore_again demo_cfg 4 7 3 demo_text demo_srd_node = Ok (true, s').
Proof.
  assert (match restore_again demo_cfg 4 7 3 demo_text demo_srd_node with Ok (b, _) => b | _ => false end = true) as H
    by (vm_compute; reflexivity).
  destruct (restore_again demo_cfg 4 7 3 demo_text demo_srd_node) as [[[] s']| | |]; try discriminate. by eexists.
Qed.
Lemma takes_over_whole_witness :
  ∃ e b st e', id_restore_from_upgrade (W := node demo) no_upgrade_buffer demo_text (zlen demo_text) true e = Ok ((b, st), e') ∧
    (st = CRUST_SUCCESS ∨ st = CRUST_UPGRADE_NEED_LEFT_DATA).
Proof.
  destruct demo_restored as (s' & H).
  destruct (takes_over_whole demo_cfg 4 7 ltac:(lia) 3 demo_text demo_srd_node s' demo_idle ltac:(by vm_compute)
              ltac:(by vm_compute) H) as (garbage & n & e & b & st & _ & H2 & H3).
  exists e, b, st, (a_enclave (s_app s')). split; [exact H2|exact H3].
Defined.
(** The old version, its main loop in the enclave *)
Definition demo_serving : api demo :=
  let s := with_app_status UPGRADE_STATUS_COMPLETE demo_srd_node in
  Api (SrdNode (with_tasks (entered 1 "Ecall_main_loop" no_tasks) (s_app s)) (g_srd_reserved_space s) (srd_capacity s)) false 0.
Lemma demo_serving_open :
  way_free 7 "Ecall_disable_upgrade" (s_app (with_app_status UPGRADE_STATUS_NONE (a_node demo_serving))).
Proof. split; [split|]; vm_compute; reflexivity. Qed.
Lemma complete_understood_witness :
  (∃ a', http_handler demo_cfg 4 7 8 (complete_request demo_cfg true) demo_serving
          = Ok (Response 200 (str "crust return"), a') ∧ api_status a' = UPGRADE_STATUS_EXIT) ∧
  (∃ a', http_handler demo_cfg 4 7 8 (complete_request demo_cfg false) demo_serving
          = Ok (Response 200 (str "crust return"), a') ∧ api_status a' = UPGRADE_STATUS_NONE).
Proof.
  split.
  - destruct (complete_understood demo_cfg 4 7 8 ltac:(lia) true demo_serving) as (a' & H1 & H2 & _);
      [by vm_compute..|discriminate|].
    exists a'. split; [exact H1|exact H2].
  - destruct (complete_understood demo_cfg 4 7 8 ltac:(lia) false demo_serving) as (a' & H1 & H2 & _);
      [by vm_compute..|intros _; exact demo_serving_open|].
    exists a'. split; [exact H1|exact H2].
Defined.
Lemma upgrade_times_out_witness :
  ∃ sts t' s', check_turns demo_cfg 4 7 2 [] 240 (a_node (demo_api_at UPGRADE_STATUS_STOP_WORKREPORT)) = Ok ((sts, Some t'), s')
    ∧ Z.of_nat 2 <= 240.
Proof.
  destruct (check_turns demo_cfg 4 7 2 [] 240 (a_node (demo_api_at UPGRADE_STATUS_STOP_WORKREPORT)))
    as [[[sts [t'|]] s']| | |] eqn:E; try (vm_compute in E; discriminate E).
  exists sts, t', s'. split; [reflexivity|].
  apply (upgrade_times_out demo_cfg 4 7 ltac:(done) 2 [] 240 _ sts t' s' ltac:(done) E).
  vm_compute in E. injection E as <- _ _. by repeat constructor.
Defined.
(** After 240 turns the upgrade is given up. *)
Example demo_given_up :
  match check_turns demo_cfg 4 7 241 [] full_tryout (a_node (demo_api_at UPGRADE_STATUS_STOP_WORKREPORT)) with
  | Ok ((sts, _), s) => get_app_upgrade_status s = UPGRADE_STATUS_NONE | _ => False end.
Proof. by vm_compute. Qed.
(** The countdown of one upgrade is not reset for the next. *)
Example demo_countdown_kept :
  match check_turn demo_cfg 4 7 [] 17 demo_srd_node with Ok (o, _) => o = Some 17 | _ => False end.
Proof. by vm_compute. Qed.
(** No metadata at all counts as restored. *)
Example demo_nothing_restored :
  match restore_again demo_cfg 4 7 3 [] demo_srd_node with Ok (b, _) => b = true | _ => False end.
Proof. by vm_compute. Qed.
End demo_process.

(** The argument after --upgrade is lost. *)
Example upgrade_eats_argument :
  main_args [str "-c"; str "p"; str "--upgrade"; str "--offline"] = Run (Options (Some (str "p")) true false false).
Proof. by vm_compute. Qed.
