(* ===== verification/AppSgx.v ===== *)
(** * The platform (app/utils/SgxSupport.c)

    Whether the host can run an enclave, and what size a quote has: the platform
    software is a pair of shared libraries that are looked for once, and the answer is
    kept.  The dynamic linker, the state of the device and the functions found in the
    libraries are a class. *)
From S2P Require Import Prelude StdMap Status Hex Json JsonParse Host.
From S2P Require Import State Demo Workload Persist Storage Identity Upgrade Attest Ecalls.
From S2P Require Import AppTask AppEcalls AppJson AppData AppSrd AppText AppChain AppReport.
From S2P Require Import AppApi AppNetwork AppProcess.

Inductive sgx_device_status := SGX_ENABLED | SGX_DISABLED_REBOOT_REQUIRED | SGX_DISABLED_OTHER (n : Z).
#[global] Instance sgx_device_status_eq_dec : EqDecision sgx_device_status.
Proof. solve_decision. Defined.

(** A library is a handle, a function an address; 0 is NULL, and as a handle the
    libraries of the process itself. *)
Class Platform (W : Type) := {
  dlopen : bytes → W → Z;
  (* an address, or the text of an error *)
  dlsym : Z → bytes → W → Z + bytes;
  sgx_cap_get_status : W → sgx_status * sgx_device_status;
  (* the functions at an address: with the revocation list and its size, and without *)
  fp_sgx_calc_quote_size : Z → W → sgx_status * Z;
  fp_sgx_get_quote_size : Z → W → sgx_status * Z
}.

Definition SGX_SUPPORT_UNKNOWN : Z := 0x00000000.
Definition SGX_SUPPORT_YES : Z := 0x00000001.

(** The variables of the file, and the error [dlerror] has in store *)
Record sgx_vars := SgxVars {
  sgx_support : Z; dlerr : option bytes; h_libsgx_uae_service : Z; h_libsgx_urts : Z;
  l_libsgx_uae_service : Z; l_libsgx_urts : Z; dl_pending : option bytes
}.
Definition sgx_vars_init : sgx_vars := SgxVars SGX_SUPPORT_UNKNOWN None 0 0 0 0 None.
Definition with_support (n : Z) (v : sgx_vars) : sgx_vars :=
  SgxVars n (dlerr v) (h_libsgx_uae_service v) (h_libsgx_urts v) (l_libsgx_uae_service v) (l_libsgx_urts v) (dl_pending v).
Definition with_uae (h : Z) (v : sgx_vars) : sgx_vars :=
  SgxVars (sgx_support v) (dlerr v) h (h_libsgx_urts v) (if h =? 0 then -1 else 1) (l_libsgx_urts v) (dl_pending v).
Definition with_urts (h : Z) (v : sgx_vars) : sgx_vars :=
  SgxVars (sgx_support v) (dlerr v) (h_libsgx_uae_service v) h (l_libsgx_uae_service v) (if h =? 0 then -1 else 1) (dl_pending v).
Definition with_dl (err pending : option bytes) (v : sgx_vars) : sgx_vars :=
  SgxVars (sgx_support v) err (h_libsgx_uae_service v) (h_libsgx_urts v) (l_libsgx_uae_service v) (l_libsgx_urts v) pending.

Section sgx.
Context {W : Type} `{!Platform W}.
Abbreviation M := (Host.M sgx_vars).
Variable w : W.
(** SGX_HW_SIM *)
Variable hw_sim : bool.

(** [dlerror] gives the last error away. *)
Definition dlerror : M unit := modify (λ v, with_dl (dl_pending v) None v).
Definition look_up (handle : Z) (symbol : bytes) : M Z :=
  match dlsym handle symbol w with
  | inl p => mret p
  | inr e => modify (λ v, with_dl (dlerr v) (Some e) v);; mret 0
  end.
(** The function found, and the status *)
Definition _load_symbol (handle : Z) (symbol : bytes) : M (Z * Z) :=
  dlerror;; hsym ← look_up handle symbol; dlerror;;
  err ← gets dlerr; mret (hsym, match err with None => 1 | Some _ => -1 end).
Definition _load_libsgx_uae_service : M Z :=
  l ← gets l_libsgx_uae_service;
  (if l =? 0 then modify (with_uae (dlopen (str "libsgx_uae_service.so") w)) else mret tt);;
  gets h_libsgx_uae_service.
Definition _load_libsgx_urts : M Z :=
  l ← gets l_libsgx_urts;
  (if l =? 0 then modify (with_urts (dlopen (str "libsgx_urts.so") w)) else mret tt);;
  gets h_libsgx_urts.
Definition have_sgx_psw : M bool :=
  h ← _load_libsgx_uae_service;
  if h =? 0 then mret false else h ← _load_libsgx_urts; mret (negb (h =? 0)).

Definition get_sgx_support : M Z :=
  if hw_sim then mret (Z.lor SGX_SUPPORT_YES SGX_SUPPORT_ENABLED)
  else
    known ← gets sgx_support;
    if negb (known =? SGX_SUPPORT_UNKNOWN) then mret known
    else
      modify (with_support SGX_SUPPORT_NO);;
      psw ← have_sgx_psw;
      if negb psw then gets sgx_support
      else
        modify (with_support SGX_SUPPORT_YES);;
        let '(status, device) := sgx_cap_get_status w in
        if negb (sgx_ok status) then gets sgx_support
        else if bool_decide (device ≠ SGX_ENABLED) then
          (if bool_decide (device = SGX_DISABLED_REBOOT_REQUIRED)
           then modify (λ v, with_support (Z.lor (sgx_support v) SGX_SUPPORT_REBOOT_REQUIRED) v)
           else if bool_decide (device = SGX_DISABLED_REBOOT_REQUIRED)
           then modify (λ v, with_support (Z.lor (sgx_support v) SGX_SUPPORT_ENABLE_REQUIRED) v)
           else mret tt);;
          gets sgx_support
        else
          modify (λ v, with_support (Z.lor (sgx_support v) SGX_SUPPORT_ENABLED) v);; gets sgx_support.

Definition get_sgx_ufunction (name : bytes) : M Z :=
  uae ← gets h_libsgx_uae_service;
  '(hsym, status) ← _load_symbol uae name;
  if status =? 1 then mret hsym
  else
    urts ← gets h_libsgx_urts;
    '(_, status) ← _load_symbol urts name;
    mret (if status =? 1 then hsym else 0).
(** [None] is the answer 0 *)
Definition get_quote_size : M (option (sgx_status * Z)) :=
  calc ← get_sgx_ufunction (str "sgx_calc_quote_size");
  if negb (calc =? 0) then mret (Some (fp_sgx_calc_quote_size calc w))
  else
    get ← get_sgx_ufunction (str "sgx_get_quote_size");
    if get =? 0 then mret None else mret (Some (fp_sgx_get_quote_size get w)).

(** ** What is found *)
Definition psw_found : bool :=
  negb (dlopen (str "libsgx_uae_service.so") w =? 0) && negb (dlopen (str "libsgx_urts.so") w =? 0).
Definition device_support : Z :=
  if hw_sim then 3
  else if negb psw_found then SGX_SUPPORT_NO
  else match sgx_cap_get_status w with
       | (SGX_SUCCESS, SGX_ENABLED) => 3 | (SGX_SUCCESS, SGX_DISABLED_REBOOT_REQUIRED) => 5 | _ => 1
       end.
(** What the variables hold once the question was asked *)
Definition asked (v : sgx_vars) : Prop :=
  sgx_support v = device_support ∧
  (psw_found = true → h_libsgx_uae_service v = dlopen (str "libsgx_uae_service.so") w ∧ h_libsgx_urts v = dlopen (str "libsgx_urts.so") w).

Lemma support_first : hw_sim = false → ∃ v, get_sgx_support sgx_vars_init = Ok (device_support, v) ∧ asked v.
Proof.
  intros Hs. unfold asked, get_sgx_support, device_support, psw_found, have_sgx_psw, _load_libsgx_uae_service, _load_libsgx_urts.
  rewrite Hs. unfold gets, modify, mbind, m_bind, mret, m_ret.
  generalize (dlopen (str "libsgx_uae_service.so") w) (dlopen (str "libsgx_urts.so") w). intros u t. cbn.
  destruct (u =? 0) eqn:E1; cbn; rewrite ?E1; cbn; [eexists; split; [reflexivity|]; by split|].
  destruct (t =? 0) eqn:E2; cbn; rewrite ?E2; cbn; [eexists; split; [reflexivity|]; by split|].
  destruct (sgx_cap_get_status w) as [[] []]; cbn; eexists; (split; [reflexivity|]); by split.
Qed.
(** Once asked, the answer is kept, and nothing is looked for again. *)
Lemma support_again v : hw_sim = false → sgx_support v ≠ SGX_SUPPORT_UNKNOWN → get_sgx_support v = Ok (sgx_support v, v).
Proof.
  intros Hs Hv. unfold get_sgx_support. rewrite Hs. unfold gets, mbind, m_bind. cbn. by rewrite (proj2 (Z.eqb_neq _ _) Hv).
Qed.
Lemma device_support_cases : device_support ∈ [1; 3; 5; SGX_SUPPORT_NO].
Proof.
  unfold device_support. destruct hw_sim; [set_solver|]. destruct psw_found; [|set_solver].
  destruct (sgx_cap_get_status w) as [[] []]; set_solver.
Qed.

(** The function found under [name], when only one library is asked *)
Definition exported (handle : Z) (name : bytes) : Z := match dlsym handle name w with inl p => p | inr _ => 0 end.
Lemma load_symbol_ok handle name v :
  ∃ v', _load_symbol handle name v = Ok ((exported handle name, match dlsym handle name w with inl _ => 1 | inr _ => -1 end), v') ∧
    h_libsgx_uae_service v' = h_libsgx_uae_service v ∧ h_libsgx_urts v' = h_libsgx_urts v.
Proof.
  unfold _load_symbol, dlerror, look_up, exported, gets, modify, mbind, m_bind, mret, m_ret.
  destruct (dlsym handle name w) as [p|e]; cbn; eexists; (split; [reflexivity|]); by split.
Qed.
(** A function that only the second library has is looked up there, and not returned. *)
Lemma ufunction_spec name v :
  ∃ v', get_sgx_ufunction name v = Ok (exported (h_libsgx_uae_service v) name, v') ∧
    h_libsgx_uae_service v' = h_libsgx_uae_service v ∧ h_libsgx_urts v' = h_libsgx_urts v.
Proof.
  unfold get_sgx_ufunction. destruct (load_symbol_ok (h_libsgx_uae_service v) name v) as (v1 & E1 & Hu1 & Ht1).
  unfold gets, mbind, m_bind. cbn -[_load_symbol]. rewrite E1. unfold exported in *. destruct (dlsym (h_libsgx_uae_service v) name w) as [p|e]; cbn.
  { exists v1. done. }
  destruct (load_symbol_ok (h_libsgx_urts v1) name v1) as (v2 & E2 & Hu2 & Ht2). rewrite E2.
  exists v2. split; [|split; congruence]. cbn. by destruct (dlsym _ _ _).
Qed.
Definition quote_size_of (uae : Z) : option (sgx_status * Z) :=
  if negb (exported uae (str "sgx_calc_quote_size") =? 0) then Some (fp_sgx_calc_quote_size (exported uae (str "sgx_calc_quote_size")) w)
  else if negb (exported uae (str "sgx_get_quote_size") =? 0) then Some (fp_sgx_get_quote_size (exported uae (str "sgx_get_quote_size")) w)
  else None.
Lemma quote_size_spec v :
  ∃ v', get_quote_size v = Ok (quote_size_of (h_libsgx_uae_service v), v') ∧
    h_libsgx_uae_service v' = h_libsgx_uae_service v ∧ h_libsgx_urts v' = h_libsgx_urts v.
Proof.
  unfold get_quote_size, quote_size_of. destruct (ufunction_spec (str "sgx_calc_quote_size") v) as (v1 & E1 & Hu1 & Ht1).
  unfold mbind, m_bind. cbn -[get_sgx_ufunction exported str]. rewrite E1. destruct (negb (exported _ (str "sgx_calc_quote_size") =? 0)) eqn:Ec; [by exists v1|].
  destruct (ufunction_spec (str "sgx_get_quote_size") v1) as (v2 & E2 & Hu2 & Ht2). rewrite E2, Hu1. exists v2.
  split; [|split; congruence]. by destruct (exported _ (str "sgx_get_quote_size") =? 0).
Qed.
End sgx.

Lemma enabled_iff {W} `{!Platform W} (w : W) hw_sim :
  Z.land (device_support w hw_sim) SGX_SUPPORT_ENABLED ≠ 0 ↔
  hw_sim = true ∨ (psw_found w = true ∧ sgx_cap_get_status w = (SGX_SUCCESS, SGX_ENABLED)).
Proof.
  unfold device_support. destruct hw_sim; [split; [by left|done]|]. destruct (psw_found w).
  - destruct (sgx_cap_get_status w) as [[] []]; cbn; (split; [intros H; right; try done; by destruct H|intros [|[_ [=]]]; done]).
  - split; [intros H; by destruct H|intros [|[? _]]; done].
Qed.

(** The first question decides: whatever becomes of the platform afterwards, the
    answer is what was found then.  And of the ways a device can be disabled only one is
    told apart: the bit for one that has to be enabled first is never set, its test
    repeating the one before, so that the message for it is never printed. *)
Theorem support_kept {W} `{!Platform W} (w : W) :
  ∃ v, get_sgx_support w false sgx_vars_init = Ok (device_support w false, v) ∧
    (∀ w' : W, get_sgx_support w' false v = Ok (device_support w false, v)) ∧
    Z.land (device_support w false) SGX_SUPPORT_ENABLE_REQUIRED = 0.
Proof.
  destruct (support_first w false eq_refl) as (v & E & Ha & _). exists v. split; [exact E|].
  pose proof (device_support_cases w false) as Hc. rewrite <- Ha in *. split.
  - intros w'. apply support_again; [done|]. intros H. rewrite H in Hc. by apply (bool_decide_eq_false_1 (SGX_SUPPORT_UNKNOWN ∈ [1; 3; 5; SGX_SUPPORT_NO])) in Hc.
  - repeat (apply elem_of_cons in Hc as [->|Hc]; [reflexivity|]). by apply not_elem_of_nil in Hc.
Qed.

(** Of the two libraries only the first counts: after the platform was asked for, the
    size of a quote comes from [libsgx_uae_service], and when that has neither of the
    functions there is none, even though [libsgx_urts] is searched next and may
    have them: what is found there is dropped. *)
Theorem quote_size_first_library {W} `{!Platform W} (w : W) :
  psw_found w = true →
  ∃ v v', get_sgx_support w false sgx_vars_init = Ok (device_support w false, v) ∧
    get_quote_size w v = Ok (quote_size_of w (dlopen (str "libsgx_uae_service.so") w), v') ∧
    (exported w (dlopen (str "libsgx_uae_service.so") w) (str "sgx_calc_quote_size") = 0 →
     exported w (dlopen (str "libsgx_uae_service.so") w) (str "sgx_get_quote_size") = 0 →
     quote_size_of w (dlopen (str "libsgx_uae_service.so") w) = None).
Proof.
  intros Hp. destruct (support_first w false eq_refl) as (v & E & _ & Hh). destruct (Hh Hp) as [Hu _].
  destruct (quote_size_spec w v) as (v' & E' & _). rewrite Hu in E'. exists v, v'. split; [exact E|]. split; [exact E'|].
  intros H1 H2. unfold quote_size_of. by rewrite H1, H2.
Qed.

Section process.
Context {W : Type} `{!LevelDb W} `{!DiskOs W} `{!HttpClient W} `{!QuoteHost W} `{!ProcessOs W} `{!Platform W}.
Context `{!Host (node W)} `{!IdHost (node W)} `{!UpgradeHost (node W)} `{!AttestHost (node W)}.
Context `{!Threads (node W)} `{!AppThreads (node W)} `{!Workers (srd_node W)}.
Variables (hw_sim : bool) (fuel tid : nat).
(** What the process is told is what this file finds out. *)
Hypothesis told : ∀ w : W, AppProcess.get_sgx_support w = device_support w hw_sim.

(** An enclave is created only where there is a device for it: both libraries of the
    platform software are there and the device says that it is enabled (or the build
    simulates one). *)
Theorem enclave_needs_device s s' :
  initialize_enclave fuel tid s = Ok (true, s') →
  hw_sim = true ∨ (psw_found (os s) = true ∧ sgx_cap_get_status (os s) = (SGX_SUCCESS, SGX_ENABLED)).
Proof using All.
  intros H. unfold initialize_enclave in H. apply bind_Ok in H as (sup & s1 & [-> ->]%gets_Ok & H). cbv zeta in H.
  apply enabled_iff. intros He. rewrite told, He in H. rewrite !orb_true_r in H. by apply ret_Ok in H as [? _].
Qed.
End process.

(** ** Evaluated: a platform whose quote functions are all in the second library *)
#[global] Instance demo_platform : Platform demo := {
  dlopen name w := if bool_decide (name = str "libsgx_uae_service.so") then 1 else 2;
  dlsym handle name w := if handle =? 2 then inl 77 else inr (str "undefined symbol");
  sgx_cap_get_status w := (SGX_SUCCESS, SGX_ENABLED);
  fp_sgx_calc_quote_size p w := (SGX_SUCCESS, 1116);
  fp_sgx_get_quote_size p w := (SGX_SUCCESS, 1116)
}.
Definition demo_w : demo := os demo_srd_node.
Lemma quote_size_first_library_witness :
  exported demo_w 2 (str "sgx_calc_quote_size") = 77 ∧
  ∃ v v', get_sgx_support demo_w false sgx_vars_init = Ok (3, v) ∧ get_quote_size demo_w v = Ok (None, v').
Proof.
  split; [vm_compute; reflexivity|].
  assert (psw_found demo_w = true) as Hp by (vm_compute; reflexivity).
  destruct (quote_size_first_library demo_w Hp) as (v & v' & E1 & E2 & _). exists v, v'.
  split; [rewrite E1; vm_compute; reflexivity|rewrite E2; vm_compute; reflexivity].
Defined.

Section demo_sgx.
#[local] Existing Instance node_host.
#[local] Existing Instance node_upgrade_host.
#[local] Existing Instance node_id_host.
#[local] Existing Instance node_attest_host.
#[local] Existing Instance demo_node_threads.
#[local] Existing Instance demo_node_app.
#[local] Existing Instance demo_directory.
#[local] Instance demo_sgx_workers : Workers (srd_node demo) := { has_ended w s := false; run_again w s := Ok (tt, s) }.
Lemma enclave_needs_device_witness :
  false = true ∨ (psw_found (os demo_srd_node) = true ∧ sgx_cap_get_status (os demo_srd_node) = (SGX_SUCCESS, SGX_ENABLED)).
Proof.
  assert (match initialize_enclave 4 7 demo_srd_node with Ok (b, _) => b | _ => false end = true) as H by (vm_compute; reflexivity).
  destruct (initialize_enclave 4 7 demo_srd_node) as [[b s']| | |] eqn:E; [|discriminate H..]. cbn in H. subst b.
  assert (∀ w : demo, AppProcess.get_sgx_support w = device_support w false) as Ht by (intros w; vm_compute; reflexivity).
  apply (enclave_needs_device false 4 7 Ht demo_srd_node s'). exact E.
Defined.
End demo_sgx.
