(* ===== verification/AppLog.v ===== *)
(** * Logging (app/log/Log.cpp, enclave/utils/EUtils.cpp, app/ocalls/OCalls.cpp)

    A line is formatted into a buffer, in the enclave into one on the stack and handed
    out, in the application into one that all threads share under a mutex, and
    printed.  What a format and its arguments come to is a parameter of each call: a
    text, or nothing when it cannot be formatted. *)
From S2P Require Import Prelude StdMap Status Hex Json JsonParse Host.
From S2P Require Import State Demo Identity Attest.

Definition LOG_BUF_SIZE : Z := 32768.
Definition CRUST_LOG_BUF_SIZE : Z := 33554432.
Definition CRUST_LOG_INFO_TAG : bytes := str "INFO".
Definition CRUST_LOG_WARN_TAG : bytes := str "WARN".
Definition CRUST_LOG_ERR_TAG : bytes := str "ERROR".
Definition CRUST_LOG_DEBUG_TAG : bytes := str "DEBUG".

(** [vsnprintf] into a buffer of [room] bytes: the text as far as it fits, and a NUL; the
    length the whole text has, or -1 *)
Definition vsnprintf (room : Z) (text : option bytes) (buf : bytes) : Z * bytes :=
  match text with
  | None => (-1, buf)
  | Some t =>
      if 2 ^ 31 <=? zlen t then (-1, buf)
      else let shown := take (Z.to_nat (room - 1)) t in (zlen t, shown ++ [chr 0] ++ drop (S (List.length shown)) buf)
  end.
(** [std::string(p, n)] *)
Definition string_of (buf : bytes) (n : Z) : res bytes :=
  if 2 ^ 63 <=? u64 n then Throw else if zlen buf <? u64 n then UB else Ok (take (Z.to_nat n) buf).
(** %03d of a number that is not negative *)
Definition pad3 (z : Z) : bytes := let t := to_string z in replicate (3 - List.length t) (chr 48) ++ t.

(** ** The application's log *)
Record Log := { debug_flag : bool; log_buf : bytes; log_mutex : bool; stdout : bytes }.
(** [new Log]; what is in the buffer at first is open *)
Definition Log_new (buf : bytes) : Log := {| debug_flag := false; log_buf := buf; log_mutex := false; stdout := [] |}.
(** The one log there is; it is made at the first call. *)
Definition Log_get_instance (buf : bytes) (log : option Log) : Log := match log with Some l => l | None => Log_new buf end.
Definition set_debug (flag : bool) (l : Log) : Log :=
  {| debug_flag := flag; log_buf := log_buf l; log_mutex := log_mutex l; stdout := stdout l |}.
Definition set_buf (buf : bytes) (l : Log) : Log :=
  {| debug_flag := debug_flag l; log_buf := buf; log_mutex := log_mutex l; stdout := stdout l |}.
Definition set_mutex (locked : bool) (l : Log) : Log :=
  {| debug_flag := debug_flag l; log_buf := log_buf l; log_mutex := locked; stdout := stdout l |}.
Definition printf (text : bytes) (l : Log) : Log :=
  {| debug_flag := debug_flag l; log_buf := log_buf l; log_mutex := log_mutex l; stdout := stdout l ++ text |}.
Definition get_debug_flag (l : Log) : bool := debug_flag l.

(** The time as [strftime] writes it, when it does, and the microseconds *)
Record stamp := { time_text : option bytes; tv_usec : Z }.
(** How a call ends: it returns; it waits for the mutex, for ever if nobody gives it
    back; the string is made of more than the buffer; an exception leaves it *)
Inductive ending := Returns | Waits | Overread | Throws.

Definition base_log (now : stamp) (log_str tag : bytes) (l : Log) : Log :=
  printf (str "[" ++ default [] (time_text now) ++ str "." ++ pad3 (tv_usec now / 1000) ++ str "] [" ++ c_str tag ++ str "] " ++ c_str log_str) l.
Definition print_log (tag : bytes) (now : stamp) (text : option bytes) (l : Log) : ending * Log :=
  if log_mutex l then (Waits, l)
  else
    let l := set_mutex true l in
    let '(n, buf) := vsnprintf CRUST_LOG_BUF_SIZE text (log_buf l) in
    let l := set_buf buf l in
    match string_of buf n with
    | Ok log_str => (Returns, set_mutex false (base_log now log_str tag l))
    | Throw => (Throws, l)
    | _ => (Overread, l)
    end.
Definition Log_info : stamp → option bytes → Log → ending * Log := print_log CRUST_LOG_INFO_TAG.
Definition Log_warn : stamp → option bytes → Log → ending * Log := print_log CRUST_LOG_WARN_TAG.
Definition Log_err : stamp → option bytes → Log → ending * Log := print_log CRUST_LOG_ERR_TAG.
Definition Log_debug (now : stamp) (text : option bytes) (l : Log) : ending * Log :=
  if debug_flag l then print_log CRUST_LOG_DEBUG_TAG now text l else (Returns, l).

(** ** The ocalls *)
Definition from_enclave (s : bytes) : option bytes := Some (str "[Enclave] " ++ c_str s).
Definition ocall_print_info (s : bytes) (l : Log) : ending * Log := (Returns, printf (c_str s) l).
Definition ocall_print_debug (s : bytes) (l : Log) : ending * Log :=
  (Returns, if get_debug_flag l then printf (c_str s) l else l).
Definition ocall_log_info (now : stamp) (s : bytes) (l : Log) : ending * Log := Log_info now (from_enclave s) l.
Definition ocall_log_warn (now : stamp) (s : bytes) (l : Log) : ending * Log := Log_warn now (from_enclave s) l.
Definition ocall_log_err (now : stamp) (s : bytes) (l : Log) : ending * Log := Log_err now (from_enclave s) l.
Definition ocall_log_debug (now : stamp) (s : bytes) (l : Log) : ending * Log := Log_debug now (from_enclave s) l.

(** [print_hexstring] of FormatUtils.cpp *)
Definition print_hexstring (src : bytes) (l : Log) : Log := printf (hexstring_safe src) l.

(** ** The enclave's log *)
Definition enclave_buf (text : option bytes) : bytes :=
  (vsnprintf LOG_BUF_SIZE text (replicate (Z.to_nat LOG_BUF_SIZE) (chr 0))).2.
Definition printed_length (buf : bytes) : Z := Z.min (zlen (c_str buf)) (LOG_BUF_SIZE - 1) + 1.
(** An ocall in between, and the length *)
Definition through (ocall : bytes → Log → ending * Log) (text : option bytes) (l : Log) : (ending * Z) * Log :=
  let buf := enclave_buf text in let r := ocall buf l in ((r.1, printed_length buf), r.2).
Definition eprint_base (buf : bytes) (flag : Z) (l : Log) : (ending * Z) * Log :=
  let r := if flag =? 0 then ocall_print_info buf l else if flag =? 1 then ocall_print_debug buf l else (Returns, l) in
  ((r.1, printed_length buf), r.2).
Definition eprint_info (text : option bytes) (l : Log) : (ending * Z) * Log := eprint_base (enclave_buf text) 0 l.
Definition eprint_debug (text : option bytes) (l : Log) : (ending * Z) * Log := eprint_base (enclave_buf text) 1 l.
Definition log_info (now : stamp) : option bytes → Log → (ending * Z) * Log := through (ocall_log_info now).
Definition log_warn (now : stamp) : option bytes → Log → (ending * Z) * Log := through (ocall_log_warn now).
Definition log_err (now : stamp) : option bytes → Log → (ending * Z) * Log := through (ocall_log_err now).
Definition log_debug (now : stamp) : option bytes → Log → (ending * Z) * Log := through (ocall_log_debug now).

(** ** What is printed *)
Definition no_nul (s : bytes) : Prop := Forall (λ c, code c ≠ 0) s.
Definition log_ok (l : Log) : Prop := zlen (log_buf l) = CRUST_LOG_BUF_SIZE ∧ log_mutex l = false.
(** The line *)
Definition line (now : stamp) (tag text : bytes) : bytes :=
  str "[" ++ default [] (time_text now) ++ str "." ++ pad3 (tv_usec now / 1000) ++ str "] [" ++ tag ++ str "] " ++ text.

Lemma c_str_take s n : no_nul s → c_str (take n s) = take n s.
Proof.
  intros H. revert n. induction H as [|c s Hc _ IH]; intros [|n]; [done..|]. cbn. rewrite (proj2 (Z.eqb_neq _ _) Hc). by rewrite IH.
Qed.
Lemma c_str_end s t : c_str (s ++ chr 0 :: t) = c_str s.
Proof. induction s as [|c s IH]; [done|]. cbn. destruct (code c =? 0); [done|]. by rewrite IH. Qed.
Lemma c_str_no_nul s : no_nul (c_str s).
Proof. induction s as [|c s IH]; cbn; [constructor|]. destruct (Z.eqb_spec (code c) 0); constructor; [done|exact IH]. Qed.
Lemma c_str_length s : zlen (c_str s) <= zlen s.
Proof. induction s as [|c s IH]; cbn; [done|]. destruct (code c =? 0); rewrite ?zlen_cons; [pose proof (zlen_nonneg s); change (zlen []) with 0; lia|lia]. Qed.
Lemma vsnprintf_length room t buf : 0 < room → zlen buf = room → zlen (vsnprintf room t buf).2 = room.
Proof.
  intros Hr Hb. unfold vsnprintf. destruct t as [t|]; [|done]. destruct (_ <=? _); [done|]. cbn [snd].
  unfold zlen in *. rewrite !length_app, length_take, length_drop. cbn [length]. lia.
Qed.
Lemma string_of_text buf n : 0 <= n < 2 ^ 63 → string_of buf n = if zlen buf <? n then UB else Ok (take (Z.to_nat n) buf).
Proof.
  intros Hn. unfold string_of. rewrite u64_small by lia. by rewrite (proj2 (Z.leb_gt _ _)) by lia.
Qed.

(** What the string is made of depends on the length of the text. *)
Lemma string_of_printed room text buf :
  0 < room < 2 ^ 31 → zlen buf = room →
  string_of (vsnprintf room text buf).2 (vsnprintf room text buf).1 =
    match text with
    | Some t => if 2 ^ 31 <=? zlen t then Throw
                else if room <? zlen t then UB else Ok (take (List.length t) (vsnprintf room text buf).2)
    | None => Throw
    end.
Proof.
  intros Hr Hb. pose proof (vsnprintf_length room) as Hl. destruct text as [t|]; [|done]. specialize (Hl (Some t) buf (proj1 Hr) Hb).
  pose proof (zlen_nonneg t). unfold vsnprintf in *. destruct (Z.leb_spec (2 ^ 31) (zlen t)); [done|].
  cbn [fst snd] in *. rewrite string_of_text by lia. rewrite Hl. unfold zlen at 2. by rewrite Nat2Z.id.
Qed.
Lemma print_log_cases tag now text l :
  log_ok l →
  print_log tag now text l =
    let buf := (vsnprintf CRUST_LOG_BUF_SIZE text (log_buf l)).2 in
    let held := set_buf buf (set_mutex true l) in
    match text with
    | Some t => if 2 ^ 31 <=? zlen t then (Throws, held)
                else if CRUST_LOG_BUF_SIZE <? zlen t then (Overread, held)
                else (Returns, set_mutex false (base_log now (take (List.length t) buf) tag held))
    | None => (Throws, held)
    end.
Proof.
  intros [Hb Hm]. unfold print_log. rewrite Hm. cbn [log_buf set_mutex].
  pose proof (string_of_printed CRUST_LOG_BUF_SIZE text (log_buf l) ltac:(by vm_compute) Hb) as Hs.
  destruct (vsnprintf _ text (log_buf l)) as [n buf]. cbn [fst snd] in *. cbv zeta. rewrite Hs.
  destruct text as [t|]; [|done]. destruct (_ <=? _); [done|]. by destruct (_ <? _).
Qed.
Lemma base_log_line now text tag l : no_nul tag → base_log now text tag l = printf (line now tag (c_str text)) l.
Proof.
  intros Ht. unfold base_log, line. assert (c_str tag = tag) as ->; [|done].
  rewrite <- (firstn_all tag). by apply c_str_take.
Qed.
Lemma shown_text t buf : no_nul t → zlen t <= CRUST_LOG_BUF_SIZE → zlen t < 2 ^ 31 →
  c_str (take (List.length t) (vsnprintf CRUST_LOG_BUF_SIZE (Some t) buf).2) = take (Z.to_nat (CRUST_LOG_BUF_SIZE - 1)) t.
Proof.
  intros Hn Ht H31. unfold vsnprintf. rewrite (proj2 (Z.leb_gt _ _)) by lia. cbn [snd].
  set (n := Z.to_nat (CRUST_LOG_BUF_SIZE - 1)). assert (Z.of_nat n = CRUST_LOG_BUF_SIZE - 1) as En by (subst n; rewrite Z2Nat.id; [done|by vm_compute]).
  unfold zlen in *. rewrite take_app, length_take.
  destruct (Nat.le_gt_cases (List.length t) n) as [Hle|Hgt].
  - rewrite (take_ge t n) by lia. rewrite firstn_all. replace (_ - _)%nat with O by lia. cbn [take]. rewrite app_nil_r.
    rewrite <- (firstn_all t). by apply c_str_take.
  - replace (List.length t - n `min` List.length t)%nat with 1%nat by lia. cbn [take app].
    rewrite (take_ge (take n t)) by (rewrite length_take; lia). rewrite (c_str_end _ []). by apply c_str_take.
Qed.
Lemma say_spec tag now t l :
  no_nul tag → no_nul t → log_ok l → zlen t <= CRUST_LOG_BUF_SIZE →
  ∃ l', print_log tag now (Some t) l = (Returns, l') ∧ log_ok l' ∧ debug_flag l' = debug_flag l ∧
    stdout l' = stdout l ++ line now tag (take (Z.to_nat (CRUST_LOG_BUF_SIZE - 1)) t).
Proof.
  intros Htag Ht Hl Hn. assert (CRUST_LOG_BUF_SIZE < 2 ^ 31) as Hs by reflexivity.
  rewrite print_log_cases by done. cbv zeta. rewrite (proj2 (Z.leb_gt _ _)) by lia. rewrite (proj2 (Z.ltb_ge _ _)) by lia.
  eexists. split; [reflexivity|]. rewrite base_log_line by done. rewrite shown_text by (done || lia).
  split; [|by split]. split; [|done]. exact (vsnprintf_length CRUST_LOG_BUF_SIZE (Some t) (log_buf l) ltac:(reflexivity) (proj1 Hl)).
Qed.

(** C37: A text that fits into the buffer of the log, of 32 MB, is printed, with the time and
    the level in front, and the mutex is given back.  A longer one is read beyond the
    buffer: [vsnprintf] answers with the length the text would have, and that many bytes
    are taken. *)
Theorem log_bounds tag now t l :
  no_nul tag → no_nul t → log_ok l → zlen t < 2 ^ 31 →
  if zlen t <? CRUST_LOG_BUF_SIZE
  then ∃ l', print_log tag now (Some t) l = (Returns, l') ∧ log_ok l' ∧ stdout l' = stdout l ++ line now tag t
  else if CRUST_LOG_BUF_SIZE <? zlen t then (print_log tag now (Some t) l).1 = Overread
  else (print_log tag now (Some t) l).1 = Returns.
Proof.
  intros Htag Ht Hl H31. destruct (Z.ltb_spec (zlen t) CRUST_LOG_BUF_SIZE) as [Hlt|Hge].
  - destruct (say_spec tag now t l Htag Ht Hl ltac:(lia)) as (l' & E & Hl' & _ & Ho). exists l'. split; [exact E|]. split; [exact Hl'|].
    rewrite Ho. rewrite take_ge; [done|]. unfold zlen in Hlt. lia.
  - rewrite print_log_cases by done. cbv zeta. rewrite (proj2 (Z.leb_gt _ _)) by lia. by destruct (_ <? _).
Qed.

Lemma enclave_text t : zlen t < 2 ^ 31 → c_str (enclave_buf (Some t)) = c_str (take (Z.to_nat (LOG_BUF_SIZE - 1)) t).
Proof.
  intros H. unfold enclave_buf, vsnprintf. rewrite (proj2 (Z.leb_gt _ _)) by lia. cbn [snd].
  apply c_str_end.
Qed.
Lemma enclave_buf_short text : zlen (c_str (enclave_buf text)) <= LOG_BUF_SIZE.
Proof.
  etrans; [apply c_str_length|]. unfold enclave_buf. rewrite vsnprintf_length; [done|reflexivity|].
  unfold zlen. rewrite length_replicate, Z2Nat.id; [done|by vm_compute].
Qed.

(** Whatever the enclave logs, of whatever length, reaches the output in one line of at
    most 32767 characters, and the application's log, which longer lines would break, stays
    as it should. *)
Theorem enclave_log_safe now text l :
  log_ok l →
  ∃ l', log_info now text l = ((Returns, printed_length (enclave_buf text)), l') ∧ log_ok l' ∧
    stdout l' = stdout l ++ line now CRUST_LOG_INFO_TAG (str "[Enclave] " ++ c_str (enclave_buf text)) ∧
    zlen (c_str (enclave_buf text)) <= LOG_BUF_SIZE ∧
    (∀ t, text = Some t → zlen t < 2 ^ 31 → c_str (enclave_buf text) = c_str (take (Z.to_nat (LOG_BUF_SIZE - 1)) t)).
Proof.
  intros Hl. pose proof (enclave_buf_short text) as Hs.
  assert (no_nul (str "[Enclave] " ++ c_str (enclave_buf text))) as Hn.
  { apply Forall_app. split; [|apply c_str_no_nul]. apply (bool_decide_unpack (Forall _ _)). by vm_compute. }
  assert (zlen (str "[Enclave] " ++ c_str (enclave_buf text)) <= LOG_BUF_SIZE + 10) as Hz.
  { rewrite zlen_app. change (zlen (str "[Enclave] ")) with 10. lia. }
  destruct (say_spec CRUST_LOG_INFO_TAG now _ l ltac:(apply (bool_decide_unpack (Forall _ _)); by vm_compute) Hn Hl) as (l' & E & Hl' & _ & Ho).
  { etrans; [exact Hz|]. by vm_compute. }
  exists l'. unfold log_info, through, ocall_log_info, Log_info, from_enclave. rewrite E. cbn [fst snd]. split; [done|]. split; [done|]. split.
  - rewrite Ho. rewrite take_ge; [done|]. unfold zlen in Hz. assert (LOG_BUF_SIZE + 10 <= CRUST_LOG_BUF_SIZE - 1) by by vm_compute. lia.
  - split; [done|]. intros t -> Ht. by apply enclave_text.
Qed.

(** A text that cannot be formatted, or one of 2 GB, ends the call by an exception while the
    mutex is held: from then on every call of the log waits for ever. *)
Theorem failed_log_blocks tag now text l tag' now' text' :
  log_ok l → (∀ t, text = Some t → 2 ^ 31 <= zlen t) →
  ∃ l', print_log tag now text l = (Throws, l') ∧ print_log tag' now' text' l' = (Waits, l').
Proof.
  intros Hl Ht. rewrite print_log_cases by done. cbv zeta. destruct text as [t|].
  - rewrite (proj2 (Z.leb_le _ _)) by (by apply Ht). eexists. split; [reflexivity|]. done.
  - eexists. split; [reflexivity|]. done.
Qed.

(** ** Evaluated *)
Definition demo_log : Log :=
  Log_get_instance (replicate (Z.to_nat CRUST_LOG_BUF_SIZE) (chr 0)) None.
Definition demo_stamp : stamp := {| time_text := Some (str "Feb 27 2021 10:00:00"); tv_usec := 7123 |}.
Lemma demo_log_ok : log_ok demo_log.
Proof. split; [|done]. unfold demo_log. cbn [Log_get_instance Log_new log_buf]. unfold zlen. rewrite length_replicate, Z2Nat.id; [done|by vm_compute]. Qed.
Example demo_line : line demo_stamp CRUST_LOG_INFO_TAG (str "ok") = str "[Feb 27 2021 10:00:00.007] [INFO] ok".
Proof. reflexivity. Qed.
Lemma log_bounds_witness :
  (∃ l', print_log CRUST_LOG_WARN_TAG demo_stamp (Some (str "low space")) demo_log = (Returns, l') ∧ log_ok l' ∧
     stdout l' = line demo_stamp CRUST_LOG_WARN_TAG (str "low space")) ∧
  (print_log CRUST_LOG_INFO_TAG demo_stamp (Some (replicate (Z.to_nat (CRUST_LOG_BUF_SIZE + 1)) (chr 97))) demo_log).1 = Overread.
Proof.
  split.
  - apply (log_bounds CRUST_LOG_WARN_TAG demo_stamp (str "low space") demo_log);
      [apply (bool_decide_unpack (Forall _ _)); by vm_compute|apply (bool_decide_unpack (Forall _ _)); by vm_compute|exact demo_log_ok|by vm_compute].
  - set (t := replicate (Z.to_nat (CRUST_LOG_BUF_SIZE + 1)) (chr 97)).
    assert (zlen t = CRUST_LOG_BUF_SIZE + 1) as Hz by (unfold t, zlen; rewrite length_replicate, Z2Nat.id; [done|by vm_compute]).
    pose proof (log_bounds CRUST_LOG_INFO_TAG demo_stamp t demo_log ltac:(apply (bool_decide_unpack (Forall _ _)); by vm_compute)
      ltac:(apply Forall_replicate; by vm_compute) demo_log_ok ltac:(rewrite Hz; by vm_compute)) as H.
    rewrite Hz in H. exact H.
Defined.
Lemma enclave_log_safe_witness :
  ∃ l', log_info demo_stamp (Some (str "Seal complete")) demo_log = ((Returns, printed_length (enclave_buf (Some (str "Seal complete")))), l') ∧ log_ok l'.
Proof. destruct (enclave_log_safe demo_stamp (Some (str "Seal complete")) demo_log demo_log_ok) as (l' & E & Hl & _). exists l'. split; [exact E|exact Hl]. Defined.
Lemma failed_log_blocks_witness :
  ∃ l', print_log CRUST_LOG_ERR_TAG demo_stamp None demo_log = (Throws, l') ∧ print_log CRUST_LOG_INFO_TAG demo_stamp (Some (str "on")) l' = (Waits, l').
Proof. apply (failed_log_blocks CRUST_LOG_ERR_TAG demo_stamp None demo_log); [exact demo_log_ok|discriminate]. Defined.

(** The length that is answered counts one more than is printed. *)
Example printed_one_more : printed_length (str "ok" ++ [chr 0]) = zlen (str "ok") + 1.
Proof. reflexivity. Qed.
