(* ===== verification/AppFiles.v ===== *)
(** * Files of the enclave (app/utils/FileUtils.cpp, the file and peer calls of
    app/ocalls/OCalls.cpp)

    Directories are made and renamed, files written, read, replaced and deleted for
    the enclave; blocks of files that are checked come from the storage peer over a
    websocket.  Files are read into buffers that stay allocated between calls. *)
From stdpp Require Import gmap.
From S2P Require Import Prelude StdMap Status Hex Json JsonParse JsonText Host.
From S2P Require Import State Demo Attest AppJson AppData AppSrd AppText AppChain.

Inductive file_kind := Regular | Dir | OtherKind.
#[global] Instance file_kind_eq_dec : EqDecision file_kind.
Proof. solve_decision. Defined.

(** The calls of the operating system; [access] is that of [DiskOs]. *)
Class FileOs (W : Type) := {
  lstat : bytes → W → option file_kind;
  (* the names in a directory and their d_type; [None] when it cannot be opened *)
  opendir : bytes → W → option (list (bytes * Z));
  mkdir : bytes → W → bool * W;
  rename : bytes → bytes → W → bool * W;
  unlink : bytes → W → bool * W;
  rmdir : bytes → W → bool * W;
  (* an output stream is opened, which empties the file, and written to *)
  ofstream_open : bytes → W → bool * W;
  ofstream_write : bytes → bytes → W → W;
  (* the contents of a file that can be opened *)
  ifstream_read : bytes → W → option bytes;
  (* does stat see the bits of a directory? *)
  stat_dir : bytes → W → bool;
  realloc : Z → W → bool
}.
(** The websocket client *)
Class WebSocket (W : Type) := {
  websocket_connect : bytes → bytes → bytes → W → bool * W;
  (* content; the answer, unless sending or receiving failed *)
  websocket_exchange : bytes → W → option bytes * W;
  websocket_shut : W → W
}.

(** ** Paths *)
(** [boost::split] at a character: one part more than there are separators *)
Fixpoint split_on (c : ascii) (s : bytes) : list bytes :=
  match s with
  | [] => [[]]
  | x :: s =>
      if bool_decide (x = c) then [] :: split_on c s
      else match split_on c s with p :: ps => (x :: p) :: ps | [] => [[x]] end
  end.
Definition is_dot (d_name : bytes) : bool := bool_decide (d_name = str "." ∨ d_name = str "..").

(** A buffer that is kept between calls: is it NULL, and its length as the code
    remembers it *)
Record kept := Kept { kp_null : bool; kp_len : Z }.
Definition no_buffer : kept := Kept true 0.
(** The globals of OCalls.cpp for files and peers; the websocket client is NULL, or
    connected or not. *)
Record ocall_state (W : Type) := OcallState {
  oc_os : W;
  ocall_file_data : kept;
  storage_buffer : kept;
  sealed_data_buf : kept;
  wssclient : option bool
}.
Arguments OcallState {W}.
Arguments oc_os {W}.
Arguments ocall_file_data {W}.
Arguments storage_buffer {W}.
Arguments sealed_data_buf {W}.
Arguments wssclient {W}.

Section files.
Context {W : Type} `{!DiskOs W} `{!FileOs W}.

(** ** Deleting *)

(** The entries of a directory that is deleted, [rm] being the deletion of a
    subdirectory *)
Fixpoint rm_entries (rm : bytes → W → res (Z * W)) (dir : bytes) (entries : list (bytes * Z)) (w : W) : res (Z * W) :=
  match entries with
  | [] => Ok (0, w)
  | (d_name, _) :: entries =>
      if is_dot d_name then rm_entries rm dir entries w
      else
        let sub_path := dir ++ str "/" ++ d_name in
        match lstat sub_path w with
        | Some Dir =>
            r ← rm sub_path w;
            if r.1 =? -1 then Ok (-1, r.2) else rm_entries rm dir entries (rmdir sub_path r.2).2
        | Some Regular => rm_entries rm dir entries (unlink sub_path w).2
        | _ => rm_entries rm dir entries w
        end
  end.
Fixpoint rm_dir (fuel : nat) (dir_full_path : bytes) (w : W) : res (Z * W) :=
  match fuel with
  | O => NoFuel
  | S fuel =>
      match opendir dir_full_path w with
      | None => Ok (-1, w)
      | Some entries =>
          r ← rm_entries (rm_dir fuel) dir_full_path entries w;
          if r.1 =? -1 then Ok (-1, r.2)
          else let '(ok, w) := rmdir dir_full_path r.2 in Ok (if ok then 0 else -1, w)
      end
  end.
Definition rm (fuel : nat) (path : bytes) (w : W) : res (Z * W) :=
  match lstat path w with
  | None => Ok (-1, w)
  | Some Regular => let '(ok, w) := unlink path w in Ok (if ok then 0 else -1, w)
  | Some Dir =>
      if is_dot path then Ok (-1, w)
      else r ← rm_dir fuel path w; Ok (if r.1 =? -1 then -1 else 0, r.2)
  | Some OtherKind => Ok (0, w)
  end.

(** Names of the entries of one kind; a directory that cannot be opened ends the process. *)
Definition entries_of (d_type : Z) (path : bytes) (w : W) : res (list bytes) :=
  match opendir path w with
  | None => Throw
  | Some entries => Ok (map fst (filter (λ p, negb (is_dot p.1) && (p.2 =? d_type)) entries))
  end.
Definition get_files_under_path : bytes → W → res (list bytes) := entries_of 8.
Definition get_folders_under_path : bytes → W → res (list bytes) := entries_of 4.
Definition sub_folders_and_files (path : bytes) (w : W) : list bytes :=
  match opendir path w with
  | None => []
  | Some entries => filter (λ n, negb (is_dot n)) (map fst entries)
  end.

(** ** The calls of the enclave *)
Fixpoint create_entries (entries : list bytes) (cur_path : bytes) (w : W) : crust_status * W :=
  match entries with
  | [] => (CRUST_SUCCESS, w)
  | entry :: entries =>
      if bool_decide (entry = []) then create_entries entries cur_path w
      else
        let cur_path := cur_path ++ entry ++ str "/" in
        if access cur_path w then create_entries entries cur_path w
        else let '(ok, w) := mkdir cur_path w in
             if ok : bool then create_entries entries cur_path w else (CRUST_MKDIR_FAILED, w)
  end.
Definition app_create_dir (path : bytes) (w : W) : crust_status * W :=
  let root := match path with c :: _ => if bool_decide (c = chr 47) then str "/" else [] | [] => [] end in
  create_entries (split_on (chr 47) path) root w.
(** Only the last part of a path may be renamed. *)
Definition app_rename_dir (old_path new_path : bytes) (w : W) : crust_status * W :=
  if negb (access old_path w) then (CRUST_RENAME_FILE_FAILED, w)
  else
    let old_path_entry := split_on (chr 47) old_path in
    let new_path_entry := split_on (chr 47) new_path in
    if negb (zlen old_path_entry =? zlen new_path_entry) then (CRUST_RENAME_FILE_FAILED, w)
    else if bool_decide (removelast old_path_entry = removelast new_path_entry) then
      let '(ok, w) := rename old_path new_path w in
      (if ok then CRUST_SUCCESS else CRUST_RENAME_FILE_FAILED, w)
    else (CRUST_RENAME_FILE_FAILED, w).
(** The stream does not throw: a failed write is not noticed. *)
Definition app_save_file (file_path data : bytes) (w : W) : crust_status * W :=
  let '(ok, w) := ofstream_open file_path w in
  if ok : bool then (CRUST_SUCCESS, ofstream_write file_path data w) else (CRUST_OPEN_FILE_FAILED, w).
Definition app_get_folders_number_under_path (path : bytes) (w : W) : res Z :=
  if access path w then folders ← get_folders_under_path path w; Ok (zlen folders) else Ok 0.
Definition app_delete_folder_or_file (fuel : nat) (path : bytes) (w : W) : res (crust_status * W) :=
  if access path w then
    r ← rm fuel path w; Ok (if r.1 =? -1 then CRUST_DELETE_FILE_FAILED else CRUST_SUCCESS, r.2)
  else Ok (CRUST_SUCCESS, w).
Definition app_replace_file (fuel : nat) (old_path new_path data : bytes) (w : W) : res (crust_status * W) :=
  match app_save_file new_path data w with
  | (CRUST_SUCCESS, w) => app_delete_folder_or_file fuel old_path w
  | (st, w) => Ok (st, w)
  end.

(** A file is read into a kept buffer, which grows by kilobytes; its length is
    remembered even when it could not grow. *)
Definition kilobytes (len : Z) : Z := 1024 * (len / 1024) + (if len mod 1024 =? 0 then 0 else 1024).
Definition fill (k : kept) (d : bytes) (w : W) : res ((crust_status * option bytes) * kept) :=
  let len := zlen d in
  let grow := kp_len k <? len in
  let k := if grow then Kept (negb (realloc (kilobytes len) w)) (kilobytes len) else k in
  if grow && kp_null k then Ok ((CRUST_MALLOC_FAILED, None), k)
  else if kp_null k && (0 <? len) then UB
  else Ok ((CRUST_SUCCESS, Some d), k).
Definition read_into (k : kept) (file_path : bytes) (w : W) : res ((crust_status * option bytes) * kept) :=
  if negb (access file_path w) then Ok ((CRUST_ACCESS_FILE_FAILED, None), k)
  else if stat_dir file_path w then Ok ((CRUST_OPEN_FILE_FAILED, None), k)
  else
    match ifstream_read file_path w with
    | None => Ok ((CRUST_OPEN_FILE_FAILED, None), k)
    | Some d => fill k d w
    end.
End files.

Section ocalls.
Context {W : Type} `{!DiskOs W} `{!FileOs W} `{!WebSocket W}.
Implicit Types (s : ocall_state W).

Definition app_get_file (file_path : bytes) s : res ((crust_status * option bytes) * ocall_state W) :=
  r ← read_into (ocall_file_data s) file_path (oc_os s);
  Ok (r.1, OcallState (oc_os s) r.2 (storage_buffer s) (sealed_data_buf s) (wssclient s)).
Definition app_get_storage_file (file_path : bytes) s : res ((crust_status * option bytes) * ocall_state W) :=
  r ← read_into (storage_buffer s) file_path (oc_os s);
  Ok (r.1, OcallState (oc_os s) (ocall_file_data s) r.2 (sealed_data_buf s) (wssclient s)).

(** ** The storage peer *)
Definition with_peer (w : W) (wss : option bool) s : ocall_state W :=
  OcallState w (ocall_file_data s) (storage_buffer s) (sealed_data_buf s) wss.
(** A request on a client that is not connected fails. *)
Definition websocket_request (content : bytes) s : res (option bytes * ocall_state W) :=
  match wssclient s with
  | None => UB
  | Some false => Ok (None, s)
  | Some true => let '(r, w) := websocket_exchange content (oc_os s) in Ok (r, with_peer w (Some true) s)
  end.
Definition app_validate_init (cfg : Config) s : res (crust_status * ocall_state W) :=
  let urlendpoint := get_url_end_point (karst_url cfg) in
  let '(ok, w) := websocket_connect (ue_ip urlendpoint) (to_string (ue_port urlendpoint)) (ue_base urlendpoint) (oc_os s) in
  let s := with_peer w (Some ok) s in
  if negb ok then Ok (CRUST_VALIDATE_INIT_WSS_FAILED, s)
  else
    let backup_json := JObject [(str "backup", JString (chain_backup cfg)); (str "password", JString (chain_password cfg))] in
    r ← websocket_request (app_dump backup_json) s;
    match r with
    | (None, s) => Ok (CRUST_VALIDATE_KARST_OFFLINE, s)
    | (Some res, s) =>
        res_json ← app_Load res;
        Ok (if ToInt (jkey (str "status") res_json) =? 200 then CRUST_SUCCESS else CRUST_VALIDATE_WSS_REQUEST_FAILED, s)
    end.

(** The question for a block: the leaf names its index and its hash. *)
Definition block_request (root_hash : bytes) (node_index : Z) (node_hash : bytes) : json :=
  JObject [(str "file_hash", JString root_hash); (str "node_hash", JString node_hash); (str "node_index", JIntegral node_index)].
Definition app_validate_get_file (root_hash leaf_hash : bytes) s : res ((crust_status * option bytes) * ocall_state W) :=
  match string_find (str "_") leaf_hash 0 with
  | None => Ok ((CRUST_INVALID_MERKLETREE, None), s)
  | Some spos =>
      let node_index := atoi (take spos leaf_hash) in
      let leaf_hash_r := drop (S spos) leaf_hash in
      r ← websocket_request (app_dump (block_request root_hash node_index leaf_hash_r)) s;
      match r with
      | (None, s) => Ok ((CRUST_VALIDATE_WSS_REQUEST_FAILED, None), s)
      | (Some res, s) =>
          let k := sealed_data_buf s in
          let data_size := zlen res in
          let with_buf k := OcallState (oc_os s) (ocall_file_data s) (storage_buffer s) k (wssclient s) in
          if kp_len k <? data_size then
            if realloc data_size (oc_os s) then Ok ((CRUST_SUCCESS, Some res), with_buf (Kept false data_size))
            else Ok ((CRUST_MALLOC_FAILED, None), with_buf (Kept true (kp_len k)))
          else if kp_null k && (0 <? kp_len k) then UB
          else Ok ((CRUST_SUCCESS, Some res), s)
      end
  end.
Definition app_validate_close s : ocall_state W :=
  let w := match wssclient s with Some true => websocket_shut (oc_os s) | _ => oc_os s end in
  let k := sealed_data_buf s in
  OcallState w (ocall_file_data s) (storage_buffer s) (if kp_null k then k else no_buffer) None.
End ocalls.

(** ** A file system

    Paths lead to places, lists of names; symbolic links aside.  [node_at] is what is
    at a place.  A write may be cut short, as on a full disk. *)
Inductive file_node := FFile (d : bytes) | FDir | FOther.
#[global] Instance file_node_eq_dec : EqDecision file_node.
Proof. solve_decision. Defined.
Definition kind_of (n : file_node) : file_kind := match n with FFile _ => Regular | FDir => Dir | FOther => OtherKind end.

Class FsLaws (W : Type) `{!DiskOs W} `{!FileOs W} := {
  resolve : bytes → list bytes;
  node_at : W → list bytes → option file_node;
  written : bytes → bytes → W → nat;
  resolve_sub p n : n ≠ [] → chr 47 ∉ n → is_dot n = false → resolve (p ++ str "/" ++ n) = resolve p ++ [n];
  access_node p w : access p w = bool_decide (node_at w (resolve p) ≠ None);
  lstat_node p w : lstat p w = kind_of <$> node_at w (resolve p);
  stat_dir_node p w :
    node_at w (resolve p) ≠ Some FOther → stat_dir p w = bool_decide (node_at w (resolve p) = Some FDir);
  opendir_names p w es n t : opendir p w = Some es → (n, t) ∈ es → n ≠ [] ∧ chr 47 ∉ n;
  mkdir_node p w q :
    node_at (mkdir p w).2 q = if (mkdir p w).1 && bool_decide (q = resolve p) then Some FDir else node_at w q;
  unlink_node p w q :
    node_at (unlink p w).2 q = if (unlink p w).1 && bool_decide (q = resolve p) then None else node_at w q;
  rmdir_node p w q :
    node_at (rmdir p w).2 q = if (rmdir p w).1 && bool_decide (q = resolve p) then None else node_at w q;
  open_node p w q :
    node_at (ofstream_open p w).2 q =
    if (ofstream_open p w).1 && bool_decide (q = resolve p) then Some (FFile []) else node_at w q;
  write_node p d w q :
    node_at (ofstream_write p d w) q = if bool_decide (q = resolve p) then Some (FFile (take (written p d w) d)) else node_at w q;
  read_node p w d : node_at w (resolve p) = Some (FFile d) → ifstream_read p w = Some d
}.

Section deleting.
Context {W : Type} `{!DiskOs W} `{!FileOs W} `{!FsLaws W}.
Implicit Types (w : W) (q : list bytes).

(** Nothing appears, and nothing outside a place changes. *)
Definition shrinks (place : list bytes) w w' : Prop :=
  ∀ q, node_at w' q = node_at w q ∨ (place `prefix_of` q ∧ node_at w' q = None).
#[local] Instance shrinks_preorder place : PreOrder (shrinks place).
Proof.
  split; [intros w q; by left|]. intros w1 w2 w3 H1 H2 q.
  destruct (H2 q) as [->|[Hp ->]]; [apply H1|by right].
Qed.
Lemma shrinks_sub place place' w w' : place `prefix_of` place' → shrinks place' w w' → shrinks place w w'.
Proof. intros Hp H q. destruct (H q) as [?|[Hq ?]]; [by left|]. right. split; [by etrans|done]. Qed.
Lemma shrinks_rmdir p w : shrinks (resolve p) w (rmdir p w).2.
Proof. intros q. rewrite rmdir_node. destruct ((rmdir p w).1); [|by left]. case_bool_decide as E; [right|by left]. by subst. Qed.
Lemma shrinks_unlink p w : shrinks (resolve p) w (unlink p w).2.
Proof. intros q. rewrite unlink_node. destruct ((unlink p w).1); [|by left]. case_bool_decide as E; [right|by left]. by subst. Qed.

(** No place is deeper than that. *)
Definition shallow (depth : nat) w : Prop := ∀ q, node_at w q ≠ None → (List.length q <= depth)%nat.
Lemma shrinks_shallow place depth w w' : shrinks place w w' → shallow depth w → shallow depth w'.
Proof. intros H Hs q Hq. apply Hs. destruct (H q) as [<-|[_ ?]]; [done|congruence]. Qed.

Lemma rm_entries_shrinks rm depth dir entries w :
  (∀ n t, (n, t) ∈ entries → n ≠ [] ∧ chr 47 ∉ n) → shallow depth w →
  (∀ sub w, (List.length (resolve dir) < List.length (resolve sub))%nat → shallow depth w → lstat sub w = Some Dir →
     ∃ r w', rm sub w = Ok (r, w') ∧ shrinks (resolve sub) w w') →
  ∃ r w', rm_entries rm dir entries w = Ok (r, w') ∧ shrinks (resolve dir) w w'.
Proof.
  intros Hn Hs Hrm. revert w Hs. induction entries as [|[n t] entries IH]; intros w Hs; [exists 0, w; split; [done|reflexivity]|].
  assert (∀ n t, (n, t) ∈ entries → n ≠ [] ∧ chr 47 ∉ n) as Hn' by (intros; eapply Hn; by right).
  specialize (IH Hn'). destruct (Hn n t ltac:(left)) as [Hne Hslash]. cbn [rm_entries].
  destruct (is_dot n) eqn:Hdot; [by apply IH|].
  pose proof (resolve_sub dir n Hne Hslash Hdot) as Hr.
  assert (resolve dir `prefix_of` resolve (dir ++ str "/" ++ n)) as Hpre by (rewrite Hr; by eexists).
  set (sub := dir ++ str "/" ++ n) in *.
  assert (∀ w1, shrinks (resolve dir) w w1 → ∃ r w', rm_entries rm dir entries w1 = Ok (r, w') ∧ shrinks (resolve dir) w w') as Hrest.
  { intros w1 H1. destruct (IH w1) as (r & w' & E & H2); [by eapply shrinks_shallow|]. exists r, w'. split; [done|by etrans]. }
  destruct (lstat sub w) as [[]|] eqn:El; [| |by apply Hrest|by apply Hrest].
  - apply Hrest. eapply shrinks_sub; [exact Hpre|apply shrinks_unlink].
  - destruct (Hrm sub w) as (r & w1 & E & H1); [rewrite Hr, length_app; cbn; lia|done|done|].
    rewrite E. cbn [mbind res_bind fst snd]. apply (shrinks_sub _ _ _ _ Hpre) in H1.
    destruct (r =? -1); [by exists (-1), w1|]. apply Hrest. etrans; [exact H1|].
    eapply shrinks_sub; [exact Hpre|apply shrinks_rmdir].
Qed.
Lemma rm_dir_shrinks depth fuel dir w :
  shallow depth w → lstat dir w = Some Dir → (depth < fuel + List.length (resolve dir))%nat →
  ∃ r w', rm_dir fuel dir w = Ok (r, w') ∧ shrinks (resolve dir) w w' ∧ (r = -1 ∨ r = 0 ∧ node_at w' (resolve dir) = None).
Proof.
  revert dir w. induction fuel as [|fuel IH]; intros dir w Hs Hl Hf.
  { exfalso. rewrite lstat_node in Hl. assert (node_at w (resolve dir) ≠ None) as H%Hs by (intros E; by rewrite E in Hl). lia. }
  cbn [rm_dir]. destruct (opendir dir w) as [entries|] eqn:Eo; [|exists (-1), w; split_and!; [done|reflexivity|by left]].
  destruct (rm_entries_shrinks (rm_dir fuel) depth dir entries w) as (r & w1 & E & H1).
  - intros n t Hin. by eapply opendir_names.
  - done.
  - intros sub w1 Hlen Hs1 Hl1. destruct (IH sub w1 Hs1 Hl1) as (r & w' & E & H & _); [lia|by exists r, w'].
  - rewrite E. cbn [mbind res_bind fst snd]. destruct (r =? -1); [exists (-1), w1; split_and!; [done|done|by left]|].
    pose proof (shrinks_rmdir dir w1) as H2. pose proof (rmdir_node dir w1 (resolve dir)) as H3.
    destruct (rmdir dir w1) as [ok w2]. cbn [fst snd] in *. exists (if ok then 0 else -1), w2.
    split_and!; [done|by etrans|]. destruct ok; [right|by left]. split; [done|]. by rewrite bool_decide_true in H3.
Qed.
Lemma delete_shrinks depth fuel path w :
  shallow depth w → (depth < fuel)%nat →
  ∃ st w', app_delete_folder_or_file fuel path w = Ok (st, w') ∧ shrinks (resolve path) w w' ∧
    (st = CRUST_SUCCESS → node_at w (resolve path) ≠ Some FOther → node_at w' (resolve path) = None).
Proof.
  intros Hs Hf. unfold app_delete_folder_or_file. rewrite access_node. case_bool_decide as Ha; [|eexists _, w; split_and!;
    [done|reflexivity|intros _ _; destruct (node_at w (resolve path)); [|done]; destruct Ha; done]].
  unfold rm. rewrite lstat_node. destruct (node_at w (resolve path)) as [[d| |]|] eqn:En; cbn [fmap option_fmap option_map kind_of]; [| | |done].
  - pose proof (shrinks_unlink path w) as H1. pose proof (unlink_node path w (resolve path)) as H2.
    destruct (unlink path w) as [ok w1]. cbn [fst snd mbind res_bind] in *. eexists _, w1. split_and!; [done|done|].
    destruct ok; [|done]. intros _ _. by rewrite bool_decide_true in H2.
  - case_match; [eexists _, w; split_and!; [done|reflexivity|done]|].
    destruct (rm_dir_shrinks depth fuel path w Hs) as (r & w1 & E & H1 & H2); [by rewrite lstat_node, En|lia|].
    rewrite E. cbn [mbind res_bind fst snd]. eexists _, w1. split_and!; [done|done|].
    destruct H2 as [->|[-> H2]]; done.
  - eexists _, w. split_and!; [done|reflexivity|done].
Qed.

(** C40: deleting stays where it is told to: it ends, nothing outside the path changes,
    nothing is created, and on success nothing is left at the path, unless what is
    there is neither a file nor a directory (that is reported deleted and stays). *)
Theorem delete_confined depth fuel path w :
  shallow depth w → (depth < fuel)%nat →
  ∃ st w', app_delete_folder_or_file fuel path w = Ok (st, w') ∧
    (∀ q, ¬ resolve path `prefix_of` q → node_at w' q = node_at w q) ∧
    (∀ q, node_at w' q ≠ None → node_at w' q = node_at w q) ∧
    (st = CRUST_SUCCESS → node_at w (resolve path) ≠ Some FOther → node_at w' (resolve path) = None).
Proof.
  intros Hs Hf. destruct (delete_shrinks depth fuel path w Hs Hf) as (st & w' & E & H & Hg). exists st, w'.
  split_and!; [done| | |done]; intros q Hq; by destruct (H q) as [?|[? ?]].
Qed.

(** C28: replacing a file.  If the new file cannot be opened nothing changes, the old
    one stays.  Otherwise the new path holds what the disk took of the data, all of
    them if it took them all; and only then the old one is deleted, and is gone when
    success is reported (kinds other than files and directories stay).  Nothing else
    is touched.  How much was taken is not tested: on a full disk the old file is
    deleted for a new one that is cut. *)
Theorem replace_file_replaces depth fuel old_path new_path data w :
  shallow depth w → (List.length (resolve new_path) <= depth < fuel)%nat →
  ¬ resolve old_path `prefix_of` resolve new_path →
  let opened := ofstream_open new_path w in
  let taken := written new_path data opened.2 in
  ∃ st w', app_replace_file fuel old_path new_path data w = Ok (st, w') ∧
    (st = CRUST_SUCCESS → node_at w (resolve old_path) ≠ Some FOther → node_at w' (resolve old_path) = None) ∧
    (if opened.1 then
       node_at w' (resolve new_path) = Some (FFile (firstn taken data)) ∧
       ((List.length data <= taken)%nat → node_at w' (resolve new_path) = Some (FFile data))
     else st = CRUST_OPEN_FILE_FAILED ∧ ∀ q, node_at w' q = node_at w q) ∧
    (∀ q, ¬ resolve old_path `prefix_of` q → q ≠ resolve new_path → node_at w' q = node_at w q).
Proof.
  intros Hs [Hl Hf] Hp opened taken. subst taken opened. unfold app_replace_file, app_save_file.
  pose proof (open_node new_path w) as Ho. destruct (ofstream_open new_path w) as [[] w1]; cbn [fst snd andb] in *; cycle 1.
  { exists CRUST_OPEN_FILE_FAILED, w1. by split_and!. }
  pose proof (write_node new_path data w1) as Hw. set (w2 := ofstream_write _ _ _) in *.
  set (kept_data := firstn (written new_path data w1) data) in *.
  assert (∀ q, node_at w2 q = if bool_decide (q = resolve new_path) then Some (FFile kept_data) else node_at w q) as H2.
  { intros q. rewrite Hw, Ho. by case_bool_decide. }
  destruct (delete_shrinks depth fuel old_path w2) as (st & w' & E & H & Hg); [|done|].
  { intros q. rewrite H2. case_bool_decide; [by subst|apply Hs]. }
  exists st, w'. cbn beta. split; [done|split; [|split]].
  - intros -> Hn. apply Hg; [done|]. rewrite H2. rewrite bool_decide_false; [done|]. intros E'. by rewrite E' in Hp.
  - destruct (H (resolve new_path)) as [->|[? _]]; [|done]. rewrite H2, bool_decide_true by done.
    split; [done|]. intros Hle. unfold kept_data. by rewrite firstn_all2.
  - intros q Hq Hne. destruct (H q) as [->|[? _]]; [|done]. by rewrite H2, bool_decide_false.
Qed.

(** ** Reading *)

(** What was kept is there, and as long as it says. *)
Definition kept_ok (k : kept) : Prop := kp_null k = true → kp_len k = 0.

Lemma kilobytes_bounds n : 0 <= n → n <= kilobytes n < n + 1024 ∧ kilobytes n mod 1024 = 0.
Proof.
  intros Hn. unfold kilobytes. pose proof (Z.div_mod n 1024). pose proof (Z.mod_pos_bound n 1024).
  split; [destruct (_ =? _) eqn:E; lia|]. rewrite Z.mul_comm, Z.add_comm, Z_mod_plus_full. by destruct (_ =? _).
Qed.

Lemma fill_fits k d w :
  kept_ok k → (∀ n, realloc n w = true) →
  ∃ k', fill k d w = Ok ((CRUST_SUCCESS, Some d), k') ∧
    kept_ok k' ∧ kp_len k <= kp_len k' ∧ zlen d <= kp_len k' ∧ (d ≠ [] → kp_null k' = false).
Proof.
  intros Hk Hm. unfold fill. destruct (kp_len k <? zlen d) eqn:El; cbn [andb].
  - rewrite Hm. cbn [negb kp_null andb]. pose proof (kilobytes_bounds (zlen d)).
    eexists. split; [done|]. cbn. unfold zlen in *. split_and!; [done|lia..|done].
  - destruct (kp_null k) eqn:E; cbn [andb].
    + pose proof (Hk E) as H0. assert (d = []) as -> by (destruct d; [done|]; exfalso; apply Z.ltb_ge in El; unfold zlen in El; cbn [List.length] in El; lia).
      exists k. split_and!; [done..|lia|lia|done].
    + exists k. split_and!; [done..|lia|lia|done].
Qed.

(** While memory lasts, a file there is is read whole, into a buffer at least as
    long, which never shrinks; nothing else is read. *)
Theorem file_fits file_path k w :
  kept_ok k → (∀ n, realloc n w = true) →
  ∃ r k', read_into k file_path w = Ok (r, k') ∧ kept_ok k' ∧ kp_len k <= kp_len k' ∧
    match node_at w (resolve file_path) with
    | Some (FFile d) => r = (CRUST_SUCCESS, Some d) ∧ zlen d <= kp_len k' ∧ (d ≠ [] → kp_null k' = false)
    | Some FDir => r = (CRUST_OPEN_FILE_FAILED, None) ∧ k' = k
    | Some FOther => True
    | None => r = (CRUST_ACCESS_FILE_FAILED, None) ∧ k' = k
    end.
Proof.
  intros Hk Hm. unfold read_into. rewrite access_node.
  destruct (node_at w (resolve file_path)) as [n|] eqn:En; [|eexists _, k; by split_and!].
  rewrite bool_decide_true by done. cbn [negb].
  pose proof (stat_dir_node file_path w) as Hd. pose proof (read_node file_path w) as Hr. rewrite En in Hd, Hr. destruct n as [d| |].
  - rewrite Hd, (Hr _ eq_refl) by done. rewrite bool_decide_false by done.
    destruct (fill_fits k d w Hk Hm) as (k' & E & ? & ? & ? & ?). eexists _, k'. by split_and!.
  - rewrite Hd, bool_decide_true by done. eexists _, k. by split_and!.
  - destruct (stat_dir file_path w); [eexists _, k; by split_and!|].
    destruct (ifstream_read file_path w) as [d|]; [|eexists _, k; by split_and!].
    destruct (fill_fits k d w Hk Hm) as (k' & E & ? & ? & ? & ?). eexists _, k'. by split_and!.
Qed.
End deleting.

Section peer.
Context {W : Type} `{!DiskOs W} `{!FileOs W} `{!WebSocket W}.
Implicit Types (s : ocall_state W).

(** Text with nothing to escape that does not look like a hash of the enclave *)
Definition plain_word (b : bytes) : Prop := app_json_escape b = b ∧ json_escape b = b ∧ take 6 b ≠ HASH_TAG.
Lemma block_request_reads root_hash i node_hash :
  plain_word root_hash → plain_word node_hash → - 2 ^ 63 <= i < 2 ^ 63 →
  app_Load (app_dump (block_request root_hash i node_hash)) = Ok (block_request root_hash i node_hash).
Proof.
  intros (Hr & Hr' & Ht) (Hh & Hh' & Ht') Hi.
  assert (app_dump (block_request root_hash i node_hash) = dump (block_request root_hash i node_hash)) as ->.
  { unfold app_dump, dump, block_request. cbn [app_dump_at dump_at map fst snd]. by rewrite Hr, Hr', Hh, Hh'. }
  apply load_dump_ok; [|done]. constructor.
  - repeat constructor.
  - repeat (apply List.Forall_cons; [split; [key_ok|by vm_compute]|]). apply List.Forall_nil.
  - repeat (apply List.Forall_cons; [cbn [snd]; by constructor|]). apply List.Forall_nil.
Qed.
Lemma leaf_parts i node_hash :
  0 <= i < 2 ^ 31 →
  let leaf := to_string i ++ str "_" ++ node_hash in
  ∃ n, string_find (str "_") leaf 0 = Some n ∧ atoi (take n leaf) = i ∧ drop (S n) leaf = node_hash.
Proof.
  intros Hi leaf.
  assert (to_string i = to_string_u i) as E by (unfold to_string; by destruct (Z.ltb_spec i 0); [lia|]).
  destruct (to_string_u_spec i ltac:(lia)) as (Hd & Hne & Hv). rewrite <- E in *.
  exists (List.length (to_string i)). split_and!.
  - apply (string_find_at (chr 95) [] []). intros Hin. rewrite Forall_forall in Hd. by specialize (Hd _ Hin).
  - unfold leaf. rewrite take_app_length, atoi_digits, Hv by done. rewrite Z.min_l, i32_small by lia. done.
  - unfold leaf. change (str "_" ++ node_hash) with ([chr 95] ++ node_hash). rewrite app_assoc.
    replace (S (List.length (to_string i))) with (List.length (to_string i ++ [chr 95])) by (rewrite length_app; cbn; lia).
    apply drop_app_length.
Qed.

(** A block is asked of the peer by file, number and hash, in a text the peer
    reads as just that; its answer is what the enclave gets. *)
Theorem block_asked root_hash i node_hash s :
  wssclient s = Some true → 0 <= i < 2 ^ 31 → plain_word root_hash → plain_word node_hash →
  kept_ok (sealed_data_buf s) → (∀ n text, realloc n (websocket_exchange text (oc_os s)).2 = true) →
  ∃ text s', app_Load text = Ok (block_request root_hash i node_hash) ∧
    app_validate_get_file root_hash (to_string i ++ str "_" ++ node_hash) s =
      Ok (match (websocket_exchange text (oc_os s)).1 with
          | Some block => (CRUST_SUCCESS, Some block) | None => (CRUST_VALIDATE_WSS_REQUEST_FAILED, None)
          end, s') ∧
    oc_os s' = (websocket_exchange text (oc_os s)).2 ∧ kept_ok (sealed_data_buf s').
Proof.
  intros Hw Hi Hr Hh Hk Hm. exists (app_dump (block_request root_hash i node_hash)).
  unfold app_validate_get_file. destruct (leaf_parts i node_hash Hi) as (n & -> & -> & ->).
  unfold websocket_request. rewrite Hw. set (text := app_dump _). pose proof (λ n, Hm n text) as Hmem. clear Hm.
  destruct (websocket_exchange _ _) as [[res|] w].
  2: { eexists. split_and!; [apply block_request_reads; [done..|lia]|done|done|done]. }
  cbn [mbind res_bind fst snd]. cbv zeta. cbn [with_peer sealed_data_buf oc_os].
  destruct (kp_len (sealed_data_buf s) <? zlen res).
  - cbn [snd] in Hmem. rewrite Hmem. eexists. split_and!; [apply block_request_reads; [done..|lia]|done|done|done].
  - assert (kp_null (sealed_data_buf s) && (0 <? kp_len (sealed_data_buf s)) = false) as ->.
    { destruct (kp_null _) eqn:E; [|done]. by rewrite (Hk E). }
    eexists. split_and!; [apply block_request_reads; [done..|lia]|done|done|done].
Qed.
End peer.

(** ** Evaluated *)

(** A disk in memory, with or without room for buffers; a peer that answers every
    question with a block. *)
Record ramdisk := RamDisk { d_nodes : gmap (list bytes) file_node; d_memory : bool; d_asked : list bytes }.
Definition ram_place (p : bytes) : list bytes := filter (λ n, n ≠ []) (split_on (chr 47) p).
Definition set_node (p : bytes) (n : option file_node) (w : ramdisk) : ramdisk :=
  RamDisk (partial_alter (λ _, n) (ram_place p) (d_nodes w)) (d_memory w) (d_asked w).
Definition ram_names (p : bytes) (w : ramdisk) : list (bytes * Z) :=
  omap (λ x : list bytes * file_node,
    match last x.1 with
    | Some n => if bool_decide (x.1 = ram_place p ++ [n] ∧ n ≠ [] ∧ chr 47 ∉ n)
                then Some (n, match x.2 with FFile _ => 8 | FDir => 4 | FOther => 1 end) else None
    | None => None
    end) (map_to_list (d_nodes w)).
#[global] Instance ram_access : DiskOs ramdisk := {
  access p w := bool_decide (d_nodes w !! ram_place p ≠ None);
  system _ w := (256, w);
  statfs _ _ := None
}.
#[global] Instance ram_files : FileOs ramdisk := {
  lstat p w := kind_of <$> d_nodes w !! ram_place p;
  opendir p w := if bool_decide (d_nodes w !! ram_place p = Some FDir) then Some (ram_names p w) else None;
  mkdir p w := (true, set_node p (Some FDir) w);
  rename _ _ w := (false, w);
  unlink p w := (true, set_node p None w);
  rmdir p w := if bool_decide (ram_names p w = []) then (true, set_node p None w) else (false, w);
  ofstream_open p w := (true, set_node p (Some (FFile [])) w);
  ofstream_write p d w := set_node p (Some (FFile d)) w;
  ifstream_read p w := match d_nodes w !! ram_place p with Some (FFile d) => Some d | _ => None end;
  stat_dir p w := bool_decide (d_nodes w !! ram_place p = Some FDir);
  realloc _ w := d_memory w
}.
#[global] Instance ram_peer : WebSocket ramdisk := {
  websocket_connect _ _ _ w := (true, w);
  websocket_exchange c w := (Some (str "block"), RamDisk (d_nodes w) (d_memory w) (d_asked w ++ [c]));
  websocket_shut w := w
}.
Lemma split_on_ne c s : split_on c s ≠ [].
Proof. destruct s as [|x s]; [done|]. cbn. case_bool_decide; [done|]. by destruct (split_on c s). Qed.
Lemma split_on_last c p n : c ∉ n → split_on c (p ++ c :: n) = split_on c p ++ [n].
Proof.
  intros Hn. assert (split_on c n = [n]) as En.
  { induction n as [|x n IH]; [done|]. apply not_elem_of_cons in Hn as [Hx Hn]. cbn [split_on].
    rewrite bool_decide_false by congruence. by rewrite IH. }
  induction p as [|x p IH]; cbn [app split_on]; [by rewrite bool_decide_true, En|].
  case_bool_decide; rewrite IH; [done|]. pose proof (split_on_ne c p). by destruct (split_on c p).
Qed.
#[global, refine] Instance ram_laws : FsLaws ramdisk := {
  resolve := ram_place;
  node_at w q := d_nodes w !! q;
  written _ d _ := List.length d;
  resolve_sub := _; access_node := _; lstat_node := _; stat_dir_node := _; opendir_names := _; mkdir_node := _; unlink_node := _;
  rmdir_node := _; open_node := _; write_node := _; read_node := _
}.
Proof.
  - intros p n Hne Hslash _. unfold ram_place. change (str "/" ++ n) with (chr 47 :: n).
    rewrite split_on_last, filter_app by done. f_equal. by rewrite filter_cons_True.
  - done.
  - done.
  - by intros p w _.
  - intros p w es n t. cbn. case_bool_decide; [intros [= <-]|done]. intros Hin.
    apply list_elem_of_omap in Hin as ([q nd] & _ & Hq). cbn [fst snd] in Hq. destruct (last q); [|done].
    case_bool_decide as H1; [|done]. injection Hq as <- _. apply H1.
  - intros p w q. cbn. case_bool_decide; subst; [by rewrite lookup_partial_alter_eq|by rewrite lookup_partial_alter_ne].
  - intros p w q. cbn. case_bool_decide; subst; [by rewrite lookup_partial_alter_eq|by rewrite lookup_partial_alter_ne].
  - intros p w q. cbn. case_bool_decide; [|done]. cbn.
    case_bool_decide; subst; [by rewrite lookup_partial_alter_eq|by rewrite lookup_partial_alter_ne].
  - intros p w q. cbn. case_bool_decide; subst; [by rewrite lookup_partial_alter_eq|by rewrite lookup_partial_alter_ne].
  - intros p d w q. cbn. rewrite firstn_all.
    case_bool_decide; subst; [by rewrite lookup_partial_alter_eq|by rewrite lookup_partial_alter_ne].
  - intros p w d E. cbn in *. by rewrite E.
Defined.
Definition demo_disk : ramdisk := RamDisk (list_to_map [
  ([str "mnt"], FDir); ([str "mnt"; str "b"], FFile (str "b")); ([str "mnt"; str "a"], FDir);
  ([str "mnt"; str "a"; str "x"], FFile (str "x")); ([str "mnt"; str "a"; str "sub"], FDir);
  ([str "mnt"; str "a"; str "sub"; str "y"], FFile (str "y"))]) true [].
Lemma demo_disk_shallow : shallow 8 demo_disk.
Proof.
  assert (map_Forall (λ q (_ : file_node), (List.length q <= 8)%nat) (d_nodes demo_disk)) as H
    by (apply (bool_decide_unpack _); by vm_compute).
  intros q Hq. change (d_nodes demo_disk !! q ≠ None) in Hq. destruct (d_nodes demo_disk !! q) eqn:E; [by apply (H q f)|by destruct Hq].
Qed.

Lemma delete_confined_witness :
  ∃ w', app_delete_folder_or_file 9 (str "/mnt/a") demo_disk = Ok (CRUST_SUCCESS, w') ∧
    d_nodes w' !! [str "mnt"; str "b"] = Some (FFile (str "b")) ∧ d_nodes w' !! [str "mnt"; str "a"] = None.
Proof.
  destruct (delete_confined 8 9 (str "/mnt/a") demo_disk demo_disk_shallow) as (st & w' & E & H1 & _ & H2); [lia|].
  exists w'. assert (match app_delete_folder_or_file 9 (str "/mnt/a") demo_disk with Ok (CRUST_SUCCESS, _) => True | _ => False end) as Es
    by (vm_compute; exact I).
  rewrite E in Es. destruct st; try (exfalso; exact Es). split; [exact E|split]; clear E Es.
  - etransitivity; [apply (H1 [str "mnt"; str "b"])|by vm_compute].
    intros Hp. assert (bool_decide (resolve (str "/mnt/a") `prefix_of` [str "mnt"; str "b"]) = false) as Hf by (by vm_compute).
    by apply bool_decide_eq_false in Hf.
  - apply H2; [done|]. by vm_compute.
Defined.
Lemma replace_file_replaces_witness :
  ∃ st w', app_replace_file 9 (str "/mnt/a/x") (str "/mnt/new") (str "sealed") demo_disk = Ok (st, w') ∧
    d_nodes w' !! [str "mnt"; str "new"] = Some (FFile (str "sealed")).
Proof.
  destruct (replace_file_replaces 8 9 (str "/mnt/a/x") (str "/mnt/new") (str "sealed") demo_disk demo_disk_shallow)
    as (st & w' & E & _ & H & _);
    [split; [apply Nat.leb_le; by vm_compute|lia]| |exists st, w'; split; [exact E|apply H; reflexivity]].
  intros Hp. assert (bool_decide (resolve (str "/mnt/a/x") `prefix_of` resolve (str "/mnt/new")) = false) as Hf by (by vm_compute).
  by apply bool_decide_eq_false in Hf.
Defined.
Lemma file_fits_witness :
  ∃ k, read_into no_buffer (str "/mnt/b") demo_disk = Ok ((CRUST_SUCCESS, Some (str "b")), k) ∧ 1 <= kp_len k.
Proof.
  destruct (file_fits (str "/mnt/b") no_buffer demo_disk) as (r & k & E & _ & _ & H); [done|done|].
  assert (node_at demo_disk (resolve (str "/mnt/b")) = Some (FFile (str "b"))) as Hb by (by vm_compute).
  rewrite Hb in H. destruct H as (-> & H & _). by exists k.
Defined.

Definition demo_ocalls : ocall_state ramdisk := OcallState demo_disk no_buffer no_buffer no_buffer (Some true).
Lemma block_asked_witness :
  ∃ text s', app_Load text = Ok (block_request (str "cf36") 3 (str "ab")) ∧
    app_validate_get_file (str "cf36") (str "3_ab") demo_ocalls = Ok ((CRUST_SUCCESS, Some (str "block")), s') ∧
    d_asked (oc_os s') = [text].
Proof.
  destruct (block_asked (str "cf36") 3 (str "ab") demo_ocalls) as (text & s' & E & H & Ho & _);
    [done|lia|split_and!; by vm_compute|split_and!; by vm_compute|done|done|].
  exists text, s'. split; [exact E|split; [exact H|rewrite Ho; reflexivity]].
Defined.

(** The length of a buffer is remembered even if memory for it could not be had: the
    next file that would fit is read into it. *)
Example read_after_failure :
  let w := RamDisk (d_nodes demo_disk) false [] in
  match read_into no_buffer (str "/mnt/b") w with
  | Ok ((CRUST_MALLOC_FAILED, None), k) => kp_null k = true ∧ kp_len k = 1024 ∧ read_into k (str "/mnt/b") w = UB
  | _ => False
  end.
Proof. by vm_compute. Qed.
(** What is neither a file nor a directory is reported deleted and stays. *)
Example delete_other :
  let w := set_node (str "/p") (Some FOther) demo_disk in
  app_delete_folder_or_file 9 (str "/p") w = Ok (CRUST_SUCCESS, w).
Proof. by vm_compute. Qed.
