(* ===== verification/AppPieces.v ===== *)
(** * Requests in pieces (app/http/ApiHandler.h, read for several threads)

    [AppApi.http_handler] is one request from its first check to its answer.  The web
    server runs requests on several threads, and nothing excludes the handlers from
    each other: between two accesses of one handler to what the node shares, another
    handler or thread of the node may act.  Here the same handler is written as the
    sequence of its accesses: each read of the upgrade status, each ecall, each global,
    each database operation is a piece of its own.  Run without interruption it is
    [http_handler]. *)
From stdpp Require Import gmap.
From S2P Require Import Prelude StdMap Status Hex Json JsonParse JsonText Host.
From S2P Require Import State Demo Merkle Persist Storage Identity Upgrade Attest Ecalls.
From S2P Require Import AppTask AppEcalls AppJson AppData AppSrd AppText AppChain AppReport AppApi.

(** ** Handlers as sequences of accesses *)

(** A handler is done with its answer, or accesses the shared state and goes on. *)
Inductive handling (A R : Type) : Type :=
| Answer (r : R)
| Access {B : Type} (m : Host.M A B) (rest : B → handling A R).
Arguments Answer {A R}.
Arguments Access {A R B}.

Fixpoint then_ {A X Y} (p : handling A X) (k : X → handling A Y) : handling A Y :=
  match p with
  | Answer x => k x
  | Access m rest => Access m (λ b, then_ (rest b) k)
  end.
Definition piece {A B} (m : Host.M A B) : handling A B := Access m Answer.

(** Nobody interrupts. *)
Fixpoint handling_run {A R} (p : handling A R) : Host.M A R :=
  match p with
  | Answer r => mret r
  | Access m rest => b ← m; handling_run (rest b)
  end.

(** One access: [None] when the handler is done. *)
Definition access {A R} (p : handling A R) (a : A) : option (res (handling A R * A)) :=
  match p with
  | Answer _ => None
  | Access m rest => Some (r ← m a; Ok (rest r.1, r.2))
  end.
(** [p] may become [p'] in the course of its accesses, whatever state each one finds. *)
Inductive becomes {A R} : handling A R → handling A R → Prop :=
| becomes_refl p : becomes p p
| becomes_step p a p1 a1 p2 : access p a = Some (Ok (p1, a1)) → becomes p1 p2 → becomes p p2.
Lemma becomes_snoc {A R} (p p1 p2 : handling A R) a a2 :
  becomes p p1 → access p1 a = Some (Ok (p2, a2)) → becomes p p2.
Proof. induction 1; intros E; eapply becomes_step; eauto. constructor. Qed.

Declare Scope piece_scope.
Notation "x ⇠ p ; q" := (then_ p (λ x, q)) (at level 20, p at level 100, q at level 200, right associativity) : piece_scope.
#[local] Open Scope piece_scope.

(** ** The routes *)
Section pieces.
Context {W : Type} `{!LevelDb W} `{!DiskOs W} `{!HttpClient W} `{!Directory W}.
Context `{!Host (node W)} `{!IdHost (node W)} `{!UpgradeHost (node W)} `{!AttestHost (node W)}.
Context `{!Threads (node W)} `{!AppThreads (node W)}.
Abbreviation P := (handling (api W)).

Variable cfg : Config.
Variable fuel : nat.
Variables tid pool : nat.

Definition owner_pieces (req : request) (p : P response) : P response :=
  match refuse_backup cfg req with Some r => Answer r | None => p end.

(** The status is set under its mutex; whether the enclave is to be opened is asked
    again. *)
Definition set_status_pieces (st : upgrade_status_t) : P unit :=
  changed ⇠ piece (on_node (cur ← gets get_app_upgrade_status;
                            if bool_decide (cur = st) then mret false
                            else modify (with_app_status st);; mret true));
  if negb changed then Answer tt
  else
    cur ⇠ piece (gets api_status);
    if bool_decide (cur = UPGRADE_STATUS_NONE)
    then _ ⇠ piece (call (Ecall_disable_upgrade fuel tid)); Answer tt
    else Answer tt.

Definition workload_pieces : P response :=
  _ ⇠ piece (call (Ecall_get_workload fuel tid));
  wl_json ⇠ piece (gets (λ a, app_Load (enclave_workload (api_data a))));
  wl_json ⇠ piece (of_res wl_json);
  if json_size wl_json =? -1 then Answer (Response 200 (str "Get workload failed!"))
  else
    reserved ⇠ piece (gets (λ a, get_reserved_space (a_node a)));
    r ⇠ piece (on_node (zoom os with_os (get_increase_srd_info (c_srd cfg) reserved 0)));
    r ⇠ piece (on_node (ends r));
    text ⇠ piece (of_res (workload_text wl_json reserved r.1));
    Answer (Response 200 text).
Definition thread_info_pieces : P response :=
  text ⇠ piece (gets (λ a, show_enclave_thread_info (a_tasks (s_app (a_node a)))));
  Answer (Response 200 text).
Definition id_info_pieces : P response :=
  _ ⇠ piece (call (Ecall_id_get_info fuel tid));
  id_json ⇠ piece (gets (λ a, app_Load (enclave_id_info (api_data a))));
  id_json ⇠ piece (of_res id_json);
  Answer (Response 200 (app_dump
    (jkey_set (str "sworker_version") (JString SWORKER_VERSION)
      (jkey_set (str "version") (JString VERSION)
        (jkey_set (str "account") (JString (chain_address cfg)) id_json))))).

Definition upgrade_start_pieces (req : request) : P response :=
  status ⇠ piece (gets api_status);
  status' ⇠ (if bool_decide (status ≠ UPGRADE_STATUS_NONE) then piece (gets api_status) else Answer status);
  if bool_decide (status ≠ UPGRADE_STATUS_NONE ∧ status' ≠ UPGRADE_STATUS_STOP_WORKREPORT)
  then Answer (Response 300 (str "Another upgrading is still running!"))
  else owner_pieces req (
    _ ⇠ set_status_pieces UPGRADE_STATUS_STOP_WORKREPORT;
    block_header ⇠ piece (on_node (on_os (get_block_header cfg)));
    match block_header with
    | None => Answer (Response 402 (str "Chain is not running!Get block header failed!"))
    | Some b =>
        r ⇠ piece (call (Ecall_enable_upgrade fuel tid (number b)));
        if negb (sgx_ok r.1) then Answer (Response 403 (str "Invoke SGX API failed!"))
        else if is_success (default CRUST_SUCCESS r.2) then
          _ ⇠ set_status_pieces UPGRADE_STATUS_PROCESS;
          _ ⇠ piece (on_node (sleep 10));
          Answer (Response 200 (str "Receive upgrade inform successfully!"))
        else Answer (start_answer (default CRUST_SUCCESS r.2))
    end).
Definition upgrade_metadata_pieces (req : request) : P response :=
  status ⇠ piece (gets api_status);
  if bool_decide (status ≠ UPGRADE_STATUS_COMPLETE) then Answer (Response 300 (str "Metadata is still collecting!"))
  else owner_pieces req (
    data ⇠ piece (gets (λ a, upgrade_data (api_data a)));
    Answer (Response 200 data)).
Definition on_disk {B} (f : W → B * W) : P B := piece (on_node (zoom os with_os f)).
Definition retire_pieces : P unit :=
  r ⇠ on_disk (λ w, (DataBase_get ID_METADATA w, w));
  _ ⇠ (match r with
       | (CRUST_SUCCESS, metadata_old) => _ ⇠ on_disk (DataBase_set ID_METADATA_OLD metadata_old); Answer tt
       | _ => Answer tt
       end);
  _ ⇠ on_disk (DataBase_del ID_METADATA);
  Answer tt.
Definition upgrade_complete_pieces (req : request) : P response :=
  owner_pieces req (
    req_json ⇠ piece (of_res (app_Load (req_body req)));
    _ ⇠ (if negb (ToBool (jkey (str "success") req_json))
         then set_status_pieces UPGRADE_STATUS_NONE
         else _ ⇠ retire_pieces; set_status_pieces UPGRADE_STATUS_EXIT);
    Answer (Response 200 (str "crust return"))).

Definition debug_pieces (req : request) : P response :=
  req_json ⇠ piece (of_res (app_Load (req_body req)));
  match jkey (str "debug") req_json with
  | JBoolean b =>
      _ ⇠ piece (modify (λ a, Api (a_node a) b (change_srd_num a)));
      Answer (Response 200 (str "Set debug flag successfully!"))
  | _ => Answer (Response 400 (str "Wrong request body!"))
  end.
(** The change asked for is kept in a global, which is read again each time. *)
Definition srd_change_pieces (req : request) : P response :=
  owner_pieces req (
    req_json ⇠ piece (of_res (app_Load (req_body req)));
    _ ⇠ piece (modify (λ a, Api (a_node a) (debug_flag a) (ToInt (jkey (str "change") req_json))));
    change ⇠ piece (gets change_srd_num);
    if change =? 0 then Answer (Response 402 (str "Invalid change"))
    else
      change ⇠ piece (gets change_srd_num);
      _ ⇠ piece (call (Ecall_srd_set_change fuel tid change));
      Answer (Response 200 (str "Change srd file success, the srd workload will change in next validation loop!"))).
Definition storage_confirm_pieces (req : request) : P response :=
  owner_pieces req (
    req_json ⇠ piece (of_res (app_Load (req_body req)));
    let hash := field "hash" req_json in
    if negb (zlen hash =? HASH_LENGTH * 2) then Answer (Response 402 (str "Confirm new file failed!Invalid hash!"))
    else
      _ ⇠ piece (storage_add_confirm fuel pool hash);
      Answer (Response 200 (str "Confirming new file task has beening added!"))).
Definition storage_delete_pieces (req : request) : P response :=
  owner_pieces req (
    req_json ⇠ piece (of_res (app_Load (req_body req)));
    let hash := field "hash" req_json in
    if negb (zlen hash =? HASH_LENGTH * 2) then Answer (Response 402 (str "Delete file failed!Invalid hash!"))
    else
      _ ⇠ piece (storage_add_delete fuel pool hash);
      Answer (Response 200 (str "Deleting file task has beening added!"))).
(** The sealed trees; looking one up with [operator[]] leaves an entry, the end of
    the route erases it. *)
Definition trees_of (a : api W) : list (bytes * bytes) := sealed_tree_map (world (a_enclave (s_app (a_node a)))).
Definition storage_seal_pieces (req : request) : P response :=
  owner_pieces req (
    req_json ⇠ piece (of_res (app_Load (req_body req)));
    let tree_json := jkey (str "body") req_json in
    let dir_path := field "path" req_json in
    if (json_size tree_json =? 0) || (json_size tree_json =? -1)
    then Answer (Response 402 (str "Validate MerkleTree failed!Error: Empty body!"))
    else
      let org_root_hash_str := field "hash" tree_json in
      r ⇠ piece (call (Ecall_seal_file fuel tid (app_strip (app_dump tree_json)) dir_path));
      let '(crust_status, new_path) := default (CRUST_SUCCESS, []) r.2 in
      if negb (sgx_ok r.1) || negb (is_success crust_status) then Answer (Response 403 (seal_answer crust_status))
      else
        tree ⇠ piece (m ← gets trees_of;
                      modify (with_sealed_tree_map (map_touch [] org_root_hash_str m));;
                      mret (map_get [] org_root_hash_str m));
        _ ⇠ piece (m ← gets trees_of; modify (with_sealed_tree_map (map_erase org_root_hash_str m)));
        Answer (Response 200 (app_dump
          (JObject [(str "body", JString (app_strip tree));
                    (str "path", JString (path_buffer dir_path new_path))])))).
Definition storage_unseal_pieces (req : request) : P response :=
  owner_pieces req (
    req_json ⇠ piece (of_res (app_Load (req_body req)));
    let dir_path := field "path" req_json in
    files_str ⇠ piece (gets (λ a, get_sub_folders_and_files dir_path (api_os a)));
    if bool_decide (files_str = []) then Answer (Response 402 (str "Empty data directory!"))
    else
      r ⇠ piece (call (Ecall_unseal_file fuel tid files_str dir_path));
      let '(crust_status, new_path) := default (CRUST_SUCCESS, []) r.2 in
      if negb (sgx_ok r.1) || negb (is_success crust_status) then Answer (Response 403 (unseal_answer crust_status))
      else Answer (Response 200 (path_buffer dir_path new_path))).

(** ** One request *)
Definition get_pieces (route : bytes → bool) (req : request) : P response :=
  if route (str "/workload") then workload_pieces
  else if route (str "/enclave/thread_info") then thread_info_pieces
  else if route (str "/enclave/id_info") then id_info_pieces
  else if route (str "/upgrade/start") then upgrade_start_pieces req
  else if route (str "/upgrade/metadata") then upgrade_metadata_pieces req
  else if route (str "/upgrade/complete") then upgrade_complete_pieces req
  else Answer (Response 200 (str "crust return")).
Definition post_pieces (route prefix : bytes → bool) (req : request) : P response :=
  if route (str "/debug") then debug_pieces req
  else if route (str "/srd/change") then srd_change_pieces req
  else if route (str "/storage/confirm") then storage_confirm_pieces req
  else if route (str "/storage/delete") then storage_delete_pieces req
  else if prefix (str "/storage/seal") then storage_seal_pieces req
  else if prefix (str "/storage/unseal") then storage_unseal_pieces req
  else Answer (Response 400 (str "Unknown request!")).

(** The status is asked for at every comparison. *)
Definition http_pieces (req : request) : P response :=
  let base := ue_base (get_url_end_point (base_url cfg)) in
  if bool_decide (method req = OTHER) then Answer (Response 400 (str "Unknown HTTP-method"))
  else if negb (starts_with (str "/") (target req)) || match string_find (str "..") (target req) 0 with Some _ => true | None => false end
  then Answer (Response 400 (str "Illegal request-target"))
  else
    let path := request_path req in
    route_tag ⇠ piece (of_res (substr path (u64 (pos_of (string_find base path 0) + zlen base)) (zlen path)));
    status ⇠ piece (gets api_status);
    if bool_decide (status = UPGRADE_STATUS_EXIT)
    then Answer (Response 503 (str "No service will be provided because of upgrade!"))
    else
      status1 ⇠ piece (gets api_status);
      status2 ⇠ (if bool_decide (status1 ≠ UPGRADE_STATUS_NONE) then piece (gets api_status) else Answer status1);
      if bool_decide (status1 ≠ UPGRADE_STATUS_NONE ∧ status2 ≠ UPGRADE_STATUS_STOP_WORKREPORT ∧
                      route_tag ∈ upgrade_block_s)
      then Answer (Response 503 (str "Current service is closed due to upgrade!"))
      else
        let route r := bool_decide (path = base ++ r) in
        match method req with
        | GET => get_pieces route req
        | POST => post_pieces route (λ r, starts_with (base ++ r) path) req
        | _ => Answer (Response 200 [])
        end.
End pieces.

(** ** Uninterrupted *)
Lemma run_then {A X Y} (p : handling A X) (k : X → handling A Y) a :
  handling_run (then_ p k) a = (x ← handling_run p; handling_run (k x)) a.
Proof.
  revert a. induction p as [x|B m rest IH]; intros a; [done|]. cbn [then_ handling_run].
  unfold mbind, m_bind in *. destruct (m a) as [[b a']| | |]; [|done..]. apply IH.
Qed.
Lemma run_piece {A B} (m : Host.M A B) a : handling_run (piece m) a = m a.
Proof. cbn. unfold mbind, m_bind. by destruct (m a) as [[]| | |]. Qed.
(** A first access, and what is left *)
Lemma run_access {A X Y} (m : Host.M A X) (k : X → handling A Y) (k' : X → Host.M A Y) a :
  (∀ x a', handling_run (k x) a' = k' x a') → handling_run (then_ (piece m) k) a = (x ← m; k' x) a.
Proof. intros H. rewrite run_then. unfold mbind, m_bind. rewrite run_piece. by destruct (m a) as [[]| | |]. Qed.
Lemma run_part {A X Y} (p : handling A X) (m : Host.M A X) (k : X → handling A Y) (k' : X → Host.M A Y) a :
  handling_run p a = m a → (∀ x a', handling_run (k x) a' = k' x a') →
  handling_run (then_ p k) a = (x ← m; k' x) a.
Proof. intros E H. rewrite run_then. unfold mbind, m_bind. rewrite E. by destruct (m a) as [[]| | |]. Qed.
Lemma bind_assoc {A X Y Z} (m : Host.M A X) (k : X → Host.M A Y) (l : Y → Host.M A Z) a :
  (y ← (x ← m; k x); l y) a = (x ← m; y ← k x; l y) a.
Proof. unfold mbind, m_bind. by destruct (m a) as [[]| | |]. Qed.
Lemma map_erase_touch {V} (d : V) k m : map_erase k (map_touch d k m) = map_erase k m.
Proof.
  unfold map_touch, map_has. destruct (map_find k m) eqn:E; [done|].
  assert (map_erase k (map_set k d m) = m ∧ map_erase k m = m) as [-> ->]; [|done].
  induction m as [|[k' v] m IH]; cbn [map_set map_find map_erase] in *; [by rewrite decide_True|].
  destruct (decide (k = k')) as [|Hne]; [done|]. destruct (IH E) as [IH1 IH2].
  destruct (bytes_cmp k k') eqn:Ec; cbn [map_erase].
  - by apply bytes_cmp_eq in Ec.
  - by rewrite decide_True, IH2 by done.
  - by rewrite decide_False, IH1, IH2 by done.
Qed.

Lemma run_if {A X} (b : bool) (p q : handling A X) (m n : Host.M A X) a :
  handling_run p a = m a → handling_run q a = n a →
  handling_run (if b then p else q) a = (if b then m else n) a.
Proof. by destruct b. Qed.
(** One access after the other, on both sides *)
Ltac alone :=
  repeat first
    [ reflexivity
    | apply run_access; intros
    | apply run_if
    | case_match
    | progress cbn [then_] ].

Section alone.
Context {W : Type} `{!LevelDb W} `{!DiskOs W} `{!HttpClient W} `{!Directory W}.
Context `{!Host (node W)} `{!IdHost (node W)} `{!UpgradeHost (node W)} `{!AttestHost (node W)}.
Context `{!Threads (node W)} `{!AppThreads (node W)}.
Variable cfg : Config.
Variables fuel tid pool : nat.
Implicit Types (a : api W) (req : request).

Lemma owner_alone req (p : handling (api W) response) m a :
  handling_run p a = m a → handling_run (owner_pieces cfg req p) a = owner cfg req m a.
Proof. intros E. unfold owner_pieces, owner. by case_match. Qed.
Lemma workload_alone a : handling_run (workload_pieces cfg fuel tid) a = get_workload_route cfg fuel tid a.
Proof. unfold workload_pieces, get_workload_route. alone. Qed.
Lemma thread_info_alone a : handling_run thread_info_pieces a = thread_info_route a.
Proof. unfold thread_info_pieces, thread_info_route. alone. Qed.
Lemma id_info_alone a : handling_run (id_info_pieces cfg fuel tid) a = id_info_route cfg fuel tid a.
Proof. unfold id_info_pieces, id_info_route. alone. Qed.
Lemma debug_alone req a : handling_run (debug_pieces req) a = debug_route req a.
Proof. unfold debug_pieces, debug_route. alone. Qed.
Lemma upgrade_metadata_alone req a : handling_run (upgrade_metadata_pieces cfg req) a = upgrade_metadata_route cfg req a.
Proof. unfold upgrade_metadata_pieces, upgrade_metadata_route. alone. apply owner_alone. alone. Qed.
Lemma storage_confirm_alone req a : handling_run (storage_confirm_pieces cfg fuel pool req) a = storage_confirm_route cfg fuel pool req a.
Proof. apply owner_alone. alone. Qed.
Lemma storage_delete_alone req a : handling_run (storage_delete_pieces cfg fuel pool req) a = storage_delete_route cfg fuel pool req a.
Proof. apply owner_alone. alone. Qed.
Lemma storage_unseal_alone req a : handling_run (storage_unseal_pieces cfg fuel tid req) a = storage_unseal_route cfg fuel tid req a.
Proof. apply owner_alone. alone. Qed.
Lemma tree_taken (h : bytes) (f : bytes → response) a :
  handling_run (
    tree ⇠ piece (m ← gets trees_of; modify (with_sealed_tree_map (map_touch [] h m));; mret (map_get [] h m));
    _ ⇠ piece (m ← gets trees_of; modify (with_sealed_tree_map (map_erase h m)));
    Answer (f tree)) a
  = (m ← gets trees_of; modify (with_sealed_tree_map (map_erase h m));; mret (f (map_get [] h m))) a.
Proof.
  transitivity (Ok (f (map_get [] h (trees_of a)), with_sealed_tree_map (map_erase h (map_touch [] h (trees_of a))) a));
    [done|]. by rewrite map_erase_touch.
Qed.
Lemma storage_seal_alone req a : handling_run (storage_seal_pieces cfg fuel tid req) a = storage_seal_route cfg fuel tid req a.
Proof.
  apply owner_alone. alone. apply (tree_taken (field "hash" _) (λ tree, Response 200 _)).
Qed.
Lemma srd_change_alone req a : handling_run (srd_change_pieces cfg fuel tid req) a = srd_change_route cfg fuel tid req a.
Proof.
  apply owner_alone, run_access. intros j a1. set (n := ToInt _).
  transitivity (handling_run (if n =? 0 then Answer (Response 402 (str "Invalid change")) else
    _ ⇠ piece (call (Ecall_srd_set_change fuel tid n));
    Answer (Response 200 (str "Change srd file success, the srd workload will change in next validation loop!")))
    (Api (a_node a1) (debug_flag a1) n)).
  - cbn [then_ piece handling_run]. unfold modify, gets, mbind, m_bind. cbn [change_srd_num].
    fold n. by destruct (n =? 0).
  - apply run_if; [done|]. alone.
Qed.
Lemma set_status_alone st a : handling_run (set_status_pieces fuel tid st) a = on_node (set_upgrade_status fuel tid st) a.
Proof.
  unfold set_status_pieces. rewrite run_then. unfold mbind at 1, m_bind at 1. rewrite run_piece.
  unfold on_node, set_upgrade_status, gets, modify, mbind, m_bind, mret, m_ret.
  destruct (bool_decide _); [by destruct a|]. cbn [negb handling_run then_ piece].
  unfold gets, mbind, m_bind, mret, m_ret, api_status. cbn [a_node].
  change (get_app_upgrade_status (with_app_status st (a_node a))) with st.
  destruct (bool_decide (st = UPGRADE_STATUS_NONE)); [|done]. cbn [handling_run then_ piece].
  unfold call, on_node, mbind, m_bind, mret, m_ret. cbn [a_node debug_flag change_srd_num].
  by destruct (on_app _ _) as [[]| | |].
Qed.
Lemma with_os_os (s : srd_node W) : with_os (os s) s = s.
Proof. destruct s as [[t [? ? ? ? ? []] b] r c]. done. Qed.
Lemma on_disk_run {X} (f : W → X * W) a :
  handling_run (on_disk f) a = let '(x, w) := f (os (a_node a)) in Ok (x, Api (with_os w (a_node a)) (debug_flag a) (change_srd_num a)).
Proof. unfold on_disk. rewrite run_piece. unfold on_node, zoom. by destruct (f _). Qed.
Lemma retire_alone a : handling_run retire_pieces a = on_node (zoom os with_os retire_metadata) a.
Proof.
  destruct a as [s d n]. unfold retire_pieces, retire_metadata.
  rewrite run_then. unfold mbind, m_bind. rewrite on_disk_run. cbn [a_node debug_flag change_srd_num].
  rewrite with_os_os. unfold on_node, zoom. cbn [a_node debug_flag change_srd_num].
  destruct (DataBase_get ID_METADATA (os s)) as [st old].
  assert (∀ w, handling_run (_ ⇠ on_disk (DataBase_del ID_METADATA); Answer tt) (Api (with_os w s) d n)
    = Ok (tt, Api (with_os (DataBase_del ID_METADATA w).2 s) d n)) as Hd.
  { intros w. rewrite run_then. unfold mbind, m_bind. rewrite on_disk_run. cbn [a_node debug_flag change_srd_num].
    change (os (with_os w s)) with w. by destruct (DataBase_del ID_METADATA w). }
  pose proof (Hd (os s)) as H0. rewrite with_os_os in H0.
  destruct st; cbn [then_]; try exact H0.
  change (handling_run (then_ (on_disk (DataBase_set ID_METADATA_OLD old)) (λ _, _ ⇠ on_disk (DataBase_del ID_METADATA); Answer tt))
    (Api s d n) = Ok (tt, Api (with_os (DataBase_del ID_METADATA (DataBase_set ID_METADATA_OLD old (os s)).2).2 s) d n)).
  rewrite run_then. unfold mbind, m_bind. rewrite on_disk_run. cbn [a_node debug_flag change_srd_num].
  destruct (DataBase_set _ _ _) as [st' w]. apply Hd.
Qed.
Lemma upgrade_complete_alone req a : handling_run (upgrade_complete_pieces cfg fuel tid req) a = upgrade_complete_route cfg fuel tid req a.
Proof.
  apply owner_alone, run_access. intros j a1. apply run_part; [|done]. apply run_if; [apply set_status_alone|].
  apply run_part; [apply retire_alone|]. intros. apply set_status_alone.
Qed.
(** Reading twice is reading once. *)
Lemma read_once {X Y} (f : api W → X) (k : X → handling (api W) Y) a :
  handling_run (x ⇠ piece (gets f); k x) a = handling_run (k (f a)) a.
Proof. done. Qed.
Lemma read_again {X Y} (f : api W → X) (b : bool) (k : X → handling (api W) Y) a :
  handling_run (x ⇠ (if b then piece (gets f) else Answer (f a)); k x) a = handling_run (k (f a)) a.
Proof. by destruct b. Qed.
Lemma read_here {X Y} (f : api W → X) (p : handling (api W) Y) (k : X → Host.M (api W) Y) a :
  handling_run p a = k (f a) a → handling_run p a = (x ← gets f; k x) a.
Proof. done. Qed.
Lemma upgrade_start_alone req a : handling_run (upgrade_start_pieces cfg fuel tid req) a = upgrade_start_route cfg fuel tid req a.
Proof.
  unfold upgrade_start_pieces, upgrade_start_route. rewrite read_once, read_again.
  apply read_here, run_if; [done|]. apply owner_alone.
  apply run_part; [apply set_status_alone|]. intros _ a1. apply run_access. intros [b|] a2; [|done].
  apply run_access. intros r a3. apply run_if; [done|]. apply run_if; [|done].
  apply run_part; [apply set_status_alone|]. intros _ a4. alone.
Qed.
Lemma get_alone route req a : handling_run (get_pieces cfg fuel tid route req) a = get_routes cfg fuel tid route req a.
Proof.
  apply run_if; [apply workload_alone|].
  apply run_if; [apply thread_info_alone|].
  apply run_if; [apply id_info_alone|].
  apply run_if; [apply upgrade_start_alone|].
  apply run_if; [apply upgrade_metadata_alone|].
  apply run_if; [apply upgrade_complete_alone|].
  done.
Qed.
Lemma post_alone route prefix req a :
  handling_run (post_pieces cfg fuel tid pool route prefix req) a = post_routes cfg fuel tid pool route prefix req a.
Proof.
  apply run_if; [apply debug_alone|].
  apply run_if; [apply srd_change_alone|].
  apply run_if; [apply storage_confirm_alone|].
  apply run_if; [apply storage_delete_alone|].
  apply run_if; [apply storage_seal_alone|].
  apply run_if; [apply storage_unseal_alone|].
  done.
Qed.
(** A request that nobody interrupts is [http_handler]. *)
Lemma http_alone req a : handling_run (http_pieces cfg fuel tid pool req) a = http_handler cfg fuel tid pool req a.
Proof.
  unfold http_pieces, http_handler. apply run_if; [done|]. apply run_if; [done|].
  apply run_access. intros tag a1. rewrite read_once. apply read_here.
  apply run_if; [done|]. rewrite read_once, read_again. apply run_if; [done|].
  destruct (method req); [apply get_alone|apply post_alone|done..].
Qed.
End alone.

(** ** Strangers *)

(** At most [n] accesses to the answer, none of which changes anything; one may end in
    an exception only if [C]. *)
Fixpoint harmless {A R} (C : Prop) (n : nat) (p : handling A R) {struct p} : Prop :=
  match p with
  | Answer _ => True
  | Access m rest =>
      match n with
      | O => False
      | S n => ∀ a,
          match m a with
          | Ok (b, a') => a' = a ∧ harmless C n (rest b)
          | Throw => C
          | UB | NoFuel => False
          end
      end
  end.
Lemma harmless_le {A R} C n m (p : handling A R) : (n <= m)%nat → harmless C n p → harmless C m p.
Proof.
  revert n m. induction p as [r|B f rest IH]; intros n m Hle; [done|].
  destruct n as [|n]; [by intros []|]. destruct m as [|m]; [lia|]. cbn [harmless]. intros H a. specialize (H a).
  destruct (f a) as [[b a']| | |]; try done. split; [apply H|]. apply (IH b n); [lia|apply H].
Qed.
Lemma harmless_access {A R} C n (p : handling A R) a r :
  harmless C n p → access p a = Some r →
  match r with Ok (p', a') => a' = a ∧ harmless C (pred n) p' | Throw => C | UB | NoFuel => False end.
Proof.
  destruct p as [x|B m rest]; [done|]. destruct n as [|n]; [done|]. cbn [harmless access]. intros H [= <-].
  specialize (H a). by destruct (m a) as [[b a']| | |].
Qed.
Lemma harmless_becomes {A R} C n (p p' : handling A R) : harmless C n p → becomes p p' → harmless C n p'.
Proof.
  intros H Hb. induction Hb as [|p a p1 a1 p2 E _ IH]; [done|]. apply IH.
  pose proof (harmless_access C n p a _ H E) as [_ H']. apply (harmless_le _ (pred n)); [lia|done].
Qed.
Lemma harmless_read {A R X} C n (f : A → X) (k : X → handling A R) :
  (∀ x, harmless C n (k x)) → harmless C (S n) (x ⇠ piece (gets f); k x).
Proof. intros H a. split; [done|apply H]. Qed.
Lemma harmless_if {A R} C n (b : bool) (p q : handling A R) :
  harmless C n p → harmless C n q → harmless C n (if b then p else q).
Proof. by destruct b. Qed.
(** Where a read is skipped, the bound is not used up. *)
Lemma harmless_read_if {A R X} C n (b : bool) (f : A → X) x0 (k : X → handling A R) :
  (∀ x, harmless C n (k x)) → harmless C (S n) (x ⇠ (if b then piece (gets f) else Answer x0); k x).
Proof. intros H. destruct b; [by apply harmless_read|]. apply (harmless_le _ n); [lia|apply H]. Qed.

Section strangers.
Context {W : Type} `{!LevelDb W} `{!DiskOs W} `{!HttpClient W} `{!Directory W}.
Context `{!Host (node W)} `{!IdHost (node W)} `{!UpgradeHost (node W)} `{!AttestHost (node W)}.
Context `{!Threads (node W)} `{!AppThreads (node W)}.
Variable cfg : Config.
Variables fuel tid pool : nat.
Implicit Types (a : api W) (req : request).

(** Someone who does not know the backup and does not ask for an open route *)
Definition stranger req : Prop :=
  zlen (target req) < 2 ^ 64 ∧ req_backup req ≠ Some (chain_backup cfg) ∧
  ∀ r, r ∈ open_routes → request_path req ≠ api_base cfg ++ r.
(** An address without the base *)
Definition baseless req : Prop := string_find (api_base cfg) (request_path req) 0 = None.

Lemma harmless_owner C n req (p : handling (api W) response) :
  req_backup req ≠ Some (chain_backup cfg) → harmless C n (owner_pieces cfg req p).
Proof.
  intros Hb. unfold owner_pieces, refuse_backup. destruct (req_backup req); [|done].
  rewrite bool_decide_false by congruence. done.
Qed.
Lemma tag_of req :
  zlen (target req) < 2 ^ 64 →
  let base := ue_base (get_url_end_point (base_url cfg)) in
  let tag := substr (request_path req) (u64 (pos_of (string_find base (request_path req) 0) + zlen base)) (zlen (request_path req)) in
  tag = Throw ∧ baseless req ∨ ∃ t, tag = Ok t.
Proof.
  intros Hlen base tag. unfold tag, substr. destruct (Z.ltb_spec (zlen (request_path req))
    (u64 (pos_of (string_find base (request_path req) 0) + zlen base))) as [Hlt|]; [|by eauto].
  left. split; [done|]. unfold baseless, api_base. fold base. destruct (string_find _ _ _) as [n|] eqn:E; [|done]. exfalso.
  apply string_find_bound in E. unfold zlen in *. cbn [pos_of] in Hlt.
  assert (List.length (request_path req) <= List.length (target req))%nat.
  { unfold request_path. destruct (string_find _ _ _); [rewrite length_take|]; lia. }
  rewrite u64_small in Hlt by lia. lia.
Qed.
Lemma stranger_harmless req : stranger req → harmless (baseless req) 6 (http_pieces (W := W) cfg fuel tid pool req).
Proof.
  intros (Hlen & Hb & Hopen). unfold http_pieces. cbv zeta.
  apply harmless_if; [done|]. apply harmless_if; [done|].
  intros a. destruct (tag_of req Hlen) as [[-> Hn]|[t ->]]; [exact Hn|]. split; [done|].
  apply harmless_read. intros st. apply harmless_if; [done|].
  apply harmless_read. intros st1. apply harmless_read_if. intros st2. apply harmless_if; [done|].
  assert (∀ r, r ∈ open_routes → bool_decide (request_path req = api_base cfg ++ r) = false) as Hshut.
  { intros r Hr. apply bool_decide_false. auto. }
  unfold api_base in Hshut.
  destruct (method req); [| |done..].
  - unfold get_pieces. rewrite (Hshut (str "/workload")), (Hshut (str "/enclave/id_info")) by (unfold open_routes; set_solver).
    repeat apply harmless_if; try done.
    + apply harmless_read. intros s. apply harmless_read_if. intros s'. apply harmless_if; [done|]. by apply harmless_owner.
    + apply harmless_read. intros s. apply harmless_if; [done|]. by apply harmless_owner.
    + by apply harmless_owner.
  - unfold post_pieces. rewrite (Hshut (str "/debug")) by (unfold open_routes; set_solver).
    repeat apply harmless_if; try done; by apply harmless_owner.
Qed.
End strangers.
