(* ===== verification/AppWeb.v ===== *)
(** * The web server (app/http/WebServer.cpp)

    Connections are accepted, told apart by whether they speak TLS, and served: a
    session reads requests ahead while earlier answers are still being written,
    up to a limit.  Every operation on a stream is asynchronous; the model counts
    those that are under way, and a step of the server is one completion handler -
    except that of a request, which takes a step for every access it makes to the
    node ([AppPieces]).  The handlers of one session exclude each other (its strand);
    those of different sessions run on [WEBSOCKET_THREAD_NUM] threads and
    interleave, with each other and with the other threads of the node. *)
From stdpp Require Import gmap.
From S2P Require Import Prelude StdMap Status Hex Json JsonParse JsonText Host.
From S2P Require Import State Demo Merkle Persist Storage Identity Upgrade Attest Ecalls.
From S2P Require Import AppTask AppEcalls AppJson AppData AppSrd AppText AppChain AppReport AppApi AppPieces.

(** ** A session *)

(** An answer in the queue, and whether the connection ends with it *)
Record work (R : Type) := Work { msg : R; need_eof : bool }.
Arguments Work {R}.
Arguments msg {R}.
Arguments need_eof {R}.

(** What ends a session: [do_eof], [fail], or giving its stream to a websocket *)
Inductive ending := Eof | Failed | Released.

(** The queue; reads under way; writes under way, each with what [on_write] was bound
    to; the answers whose writing was started, in order; what ended the session; the
    request being handled, whether the connection closes behind it, and how far its
    handler is.  For the record: the requests read, in order, and those handled
    with their answers *)
Record session (A Q R : Type) := Session {
  items_ : list (work R);
  reads : nat;
  writes : list bool;
  wire : list R;
  ended : list ending;
  busy : option (Q * bool * handling A R);
  asked : list Q;
  given : list (Q * R)
}.
Arguments Session {A Q R}.
Arguments items_ {A Q R}.
Arguments reads {A Q R}.
Arguments writes {A Q R}.
Arguments wire {A Q R}.
Arguments ended {A Q R}.
Arguments busy {A Q R}.
Arguments asked {A Q R}.
Arguments given {A Q R}.

Definition limit : nat := 64.
Definition WEBSOCKET_THREAD_NUM : nat := 3.

(** What a read brings; of a message, whether it wants the connection closed behind
    the answer *)
Inductive incoming (Q : Type) := EndOfStream | ReadError | WsUpgrade | Message (q : Q) (close : bool).
Arguments EndOfStream {Q}.
Arguments ReadError {Q}.
Arguments WsUpgrade {Q}.
Arguments Message {Q}.
Inductive completion (Q : Type) := ReadDone (i : incoming Q) | WriteDone (ec : bool).
Arguments ReadDone {Q}.
Arguments WriteDone {Q}.

Section session_ops.
Context {A Q R : Type}.
(** What a request does, and what the other threads of the node may do meanwhile *)
Variable handler : Q → handling A R.
Variable others : A → A → Prop.
Implicit Types (s : session A Q R) (a : A) (p : handling A R).

Definition session_new : session A Q R := Session [] 0 [] [] [] None [] [].
Definition with_reads (n : nat) s : session A Q R :=
  Session (items_ s) n (writes s) (wire s) (ended s) (busy s) (asked s) (given s).
Definition with_items (l : list (work R)) s : session A Q R :=
  Session l (reads s) (writes s) (wire s) (ended s) (busy s) (asked s) (given s).
Definition with_writes (ws : list bool) s : session A Q R :=
  Session (items_ s) (reads s) ws (wire s) (ended s) (busy s) (asked s) (given s).
Definition with_busy (b : option (Q * bool * handling A R)) s : session A Q R :=
  Session (items_ s) (reads s) (writes s) (wire s) (ended s) b (asked s) (given s).
Definition do_read s : session A Q R := with_reads (S (reads s)) s.
Definition finish (e : ending) s : session A Q R :=
  Session (items_ s) (reads s) (writes s) (wire s) (ended s ++ [e]) (busy s) (asked s) (given s).

Definition is_full s : bool := (limit <=? List.length (items_ s))%nat.
(** The work item at the front of the queue, which there must be *)
Definition start_front s : res (session A Q R) :=
  match items_ s with
  | [] => UB
  | w :: _ => Ok (Session (items_ s) (reads s) (writes s ++ [need_eof w]) (wire s ++ [msg w]) (ended s)
                    (busy s) (asked s) (given s))
  end.
Definition queue_on_write s : res (bool * session A Q R) :=
  match items_ s with
  | [] => UB
  | _ :: rest =>
      let s' := with_items rest s in
      s' ← match rest with [] => Ok s' | _ => start_front s' end;
      Ok (is_full s, s')
  end.
Definition queue_send (w : work R) s : res (session A Q R) :=
  let s := with_items (items_ s ++ [w]) s in
  if (List.length (items_ s) =? 1)%nat then start_front s else Ok s.

(** A message starts the handler, within [on_read]. *)
Definition on_read (i : incoming Q) s : session A Q R :=
  match i with
  | EndOfStream => finish Eof s
  | ReadError => finish Failed s
  | WsUpgrade => finish Released s
  | Message q close =>
      Session (items_ s) (reads s) (writes s) (wire s) (ended s) (Some (q, close, handler q)) (asked s ++ [q]) (given s)
  end.
(** The rest of [on_read], when the handler has the answer *)
Definition on_answer (q : Q) (close : bool) (r : R) s : res (session A Q R) :=
  s ← queue_send (Work r close)
        (Session (items_ s) (reads s) (writes s) (wire s) (ended s) None (asked s) (given s ++ [(q, r)]));
  Ok (if is_full s then s else do_read s).
Definition on_write (close ec : bool) s : res (session A Q R) :=
  if ec then Ok (finish Failed s)
  else if close then Ok (finish Eof s)
  else r ← queue_on_write s; Ok (if r.1 : bool then do_read r.2 else r.2).

(** A completion, if its operation is under way *)
Definition complete (c : completion Q) s : option (res (session A Q R)) :=
  match c with
  | ReadDone i =>
      match reads s with
      | O => None
      | S n => Some (Ok (on_read i (with_reads n s)))
      end
  | WriteDone ec =>
      match writes s with
      | [] => None
      | close :: rest => Some (on_write close ec (with_writes rest s))
      end
  end.

(** ** The server *)

(** An accepted connection: TLS is detected, the handshake done, the first read
    started. *)
Definition open_session (ec : bool) (detected : option bool) (handshake_ec : bool) : option (session A Q R) :=
  if ec then None
  else
    match detected with
    | None => None
    | Some is_ssl => if is_ssl && handshake_ec then None else Some (do_read session_new)
    end.

(** The sessions there ever were; the state behind the handlers; whether a handler has
    ended the process, with an exception nobody catches *)
Record server := Server { sessions : list (session A Q R); behind : A; crashed : bool }.
Definition is_busy s : bool := bool_decide (is_Some (busy s)).
Definition handlers_running (st : server) : nat := List.length (List.filter is_busy (sessions st)).
Definition with_session (i : nat) s (st : server) : server := Server (<[i:=s]> (sessions st)) (behind st) (crashed st).

(** Who moves: a completion, the handler of a session, or another thread *)
Inductive actor := Completion | Handler (i : nat) | Other.
Inductive server_step : actor → server → server → Prop :=
| step_accept st ec detected handshake_ec :
    crashed st = false → (handlers_running st < WEBSOCKET_THREAD_NUM)%nat →
    server_step Completion st
      (Server (sessions st ++ option_list (open_session ec detected handshake_ec)) (behind st) (crashed st))
| step_complete st i s c s' :
    crashed st = false → (handlers_running st < WEBSOCKET_THREAD_NUM)%nat →
    sessions st !! i = Some s → busy s = None → complete c s = Some (Ok s') →
    server_step Completion st (with_session i s' st)
| step_access st i s q close p p' a' :
    crashed st = false → sessions st !! i = Some s → busy s = Some (q, close, p) →
    access p (behind st) = Some (Ok (p', a')) →
    server_step (Handler i) st (Server (<[i:=with_busy (Some (q, close, p')) s]> (sessions st)) a' (crashed st))
| step_answer st i s q close r s' :
    crashed st = false → sessions st !! i = Some s → busy s = Some (q, close, Answer r) →
    on_answer q close r s = Ok s' →
    server_step (Handler i) st (with_session i s' st)
| step_dies st i s q close p :
    crashed st = false → sessions st !! i = Some s → busy s = Some (q, close, p) →
    access p (behind st) = Some Throw ∨ access p (behind st) = Some UB →
    server_step (Handler i) st (Server (sessions st) (behind st) true)
| step_others st a' :
    crashed st = false → others (behind st) a' →
    server_step Other st (Server (sessions st) a' (crashed st)).
Inductive serves (a : A) : server → Prop :=
| serves_start : serves a (Server [] a false)
| serves_step st st' who : serves a st → server_step who st st' → serves a st'.

(** ** What always holds *)
Record session_ok s : Prop := {
  so_order : wire s ++ map msg (tail (items_ s)) = map snd (given s);
  so_asked : asked s = map fst (given s) ++ option_list (fst ∘ fst <$> busy s);
  so_given : ∀ q r, (q, r) ∈ given s → becomes (handler q) (Answer r);
  so_handled : ∀ q close p, busy s = Some (q, close, p) → becomes (handler q) p;
  so_limit : (List.length (items_ s) <= limit)%nat;
  so_reads : (reads s <= 1)%nat;
  so_writes : (List.length (writes s) <= 1)%nat;
  so_room : reads s = 1%nat ∨ busy s ≠ None → (List.length (items_ s) < limit)%nat;
  so_one : busy s ≠ None → reads s = 0%nat;
  so_idle : items_ s = [] → writes s = [];
  so_writing : ended s = [] → items_ s ≠ [] → writes s ≠ [];
  so_reading : ended s = [] → reads s = 1%nat ∨ List.length (items_ s) = limit ∨ busy s ≠ None
}.

Lemma session_new_ok : session_ok (do_read session_new).
Proof.
  split; cbn; unfold limit; try done; try lia; auto.
  by intros q r ?%elem_of_nil.
Qed.
Lemma ended_snoc (l : list ending) e : l ++ [e] ≠ [].
Proof. by destruct l. Qed.
Lemma finish_ok e s n ws :
  session_ok s → (n <= reads s)%nat → (List.length ws <= List.length (writes s))%nat →
  session_ok (finish e (with_reads n (with_writes ws s))).
Proof.
  intros [] Hn Hw. split; cbn; try done; try lia; try by intros []%ended_snoc.
  - intros [?|?]; apply so_room0; [left; lia|by right].
  - intros ?. rewrite so_one0 in Hn by done. lia.
  - intros H. rewrite so_idle0 in Hw by done. by destruct ws; [|cbn in Hw; lia].
Qed.
Lemma on_message_ok q close s n :
  session_ok s → reads s = S n → busy s = None → session_ok (on_read (Message q close) (with_reads n s)).
Proof.
  intros [] Hn Hb. rewrite Hb in *. assert (n = 0%nat) as -> by lia.
  split; cbn; try done; try lia.
  - cbn in so_asked0. by rewrite so_asked0, app_nil_r.
  - intros q' close' p [= <- <- <-]. constructor.
  - intros _. right. by right.
Qed.
Lemma on_answer_ok q close r s :
  session_ok s → busy s = Some (q, close, Answer r) →
  ∃ s', on_answer q close r s = Ok s' ∧ session_ok s' ∧ busy s' = None.
Proof.
  intros [] Hb. assert (List.length (items_ s) < limit)%nat as Hlt by (apply so_room0; right; by rewrite Hb).
  assert (reads s = 0%nat) as Hr by (apply so_one0; by rewrite Hb).
  assert (∀ q' r', (q', r') ∈ given s ++ [(q, r)] → becomes (handler q') (Answer r')) as Hg.
  { intros q' r' [?|Hin]%elem_of_app; [by apply so_given0|]. apply list_elem_of_singleton in Hin as [= -> ->].
    by eapply so_handled0. }
  unfold on_answer, queue_send. cbn [items_ with_items]. destruct (items_ s) as [|w ws] eqn:E;
    cbn [Datatypes.app List.length] in *.
  - cbn [Nat.eqb]. eexists. split; [reflexivity|]. split; [|done]. cbn. rewrite so_idle0 by done.
    split; cbn; unfold limit; rewrite ?Hr; try done; try lia; auto.
    + rewrite map_app. cbn. by rewrite <- so_order0, !app_nil_r.
    + rewrite so_asked0, Hb, map_app. cbn. by rewrite app_nil_r.
  - rewrite length_app. cbn [List.length]. destruct (S (List.length ws + 1) =? 1)%nat eqn:E1; [apply Nat.eqb_eq in E1; lia|].
    eexists. split; [reflexivity|]. unfold is_full. cbn [items_ with_items List.length Datatypes.app].
    assert (asked s = map fst (given s ++ [(q, r)]) ++ []) as Ha
      by (rewrite so_asked0, Hb, map_app; cbn; by rewrite app_nil_r).
    assert (wire s ++ map msg (ws ++ [Work r close]) = map snd (given s ++ [(q, r)])) as Ho
      by (rewrite !map_app, app_assoc; cbn in *; by rewrite so_order0).
    destruct (limit <=? _)%nat eqn:Ef; [apply Nat.leb_le in Ef|apply Nat.leb_gt in Ef]; split; try done;
      split; cbn; rewrite ?length_app, ?Hr in *; cbn in *; try done; try lia; auto;
      try (intros [?|?]; [lia|done]).
Qed.
(** Of a write under way the completion is handled without fault. *)
Lemma on_write_ok ec s :
  session_ok s → writes s ≠ [] → busy s = None →
  ∃ s', complete (WriteDone ec) s = Some (Ok s') ∧ session_ok s' ∧ busy s' = None.
Proof.
  intros Hs Hw Hb. cbn [complete]. destruct (writes s) as [|close rest] eqn:Ew; [done|].
  pose proof (so_writes _ Hs) as Hw1. rewrite Ew in Hw1. destruct rest; [|cbn in Hw1; lia]. clear Hw Hw1.
  assert (∀ e, session_ok (finish e (with_writes [] s))) as Hend
    by (intros e; apply (finish_ok e s (reads s) []); [done|done|cbn; lia]).
  destruct ec; cbn [on_write mbind res_bind]; [by eexists|].
  destruct close; cbn [mbind res_bind]; [by eexists|].
  destruct Hs. unfold queue_on_write. cbn [items_ with_writes].
  destruct (items_ s) as [|w ws] eqn:Ei; [by rewrite so_idle0 in Ew|]. cbn [List.length tail map] in *.
  assert (∀ s1, items_ s1 = ws → reads s1 = reads s → (ws = [] → writes s1 = []) → (ws ≠ [] → List.length (writes s1) = 1%nat) →
    wire s1 ++ map msg (tail ws) = map snd (given s) → ended s1 = ended s → busy s1 = None → asked s1 = asked s → given s1 = given s →
    session_ok (if is_full (with_writes [] s) then do_read s1 else s1)) as Hs1.
  { intros s1 E1 E2 E3 E4 E5 E6 E7 E8 E9. unfold is_full. cbn [items_ with_writes]. rewrite Ei. cbn [List.length].
    assert (List.length (writes s1) <= 1)%nat by (destruct ws; [rewrite E3 by done; cbn; lia|rewrite E4 by done; lia]).
    assert (ws ≠ [] → writes s1 ≠ []) by (intros Hne; specialize (E4 Hne); by intros E; rewrite E in E4).
    rewrite Hb in *. destruct (limit <=? _)%nat eqn:Ef; [apply Nat.leb_le in Ef|apply Nat.leb_gt in Ef].
    - assert (reads s = 0%nat) as Hr0.
      { destruct (decide (reads s = 1%nat)) as [Hr|]; [|lia]. specialize (so_room0 (or_introl Hr)). lia. }
      split; cbn; rewrite ?E1, ?E2, ?E6, ?E7, ?E8, ?E9, ?Hr0; try done; try lia; auto.
    - split; cbn; rewrite ?E1, ?E2, ?E6, ?E7, ?E8, ?E9; try done; try lia; auto.
      intros He. destruct (so_reading0 He) as [|[|]]; [by left|cbn in *; lia|done]. }
  destruct ws as [|w' ws].
  - cbn [mbind res_bind fst snd]. eexists. split; [reflexivity|].
    split; [by apply Hs1|]. destruct (is_full _); exact Hb.
  - cbn [start_front with_items items_ mbind res_bind fst snd reads writes wire ended Datatypes.app with_writes]. eexists.
    split; [reflexivity|]. split; [|destruct (is_full _); exact Hb]. apply Hs1; try done. cbn [wire tail]. by rewrite <- app_assoc.
Qed.

Lemma complete_ok c s s' :
  session_ok s → busy s = None → complete c s = Some (Ok s') → session_ok s'.
Proof.
  intros Hs Hb H. destruct c as [i|ec].
  - cbn [complete] in H. destruct (reads s) as [|n] eqn:En; [done|]. injection H as <-.
    assert (∀ e, session_ok (finish e (with_reads n s))) as Hend.
    { intros e. apply (finish_ok e s n (writes s)); [done|lia|done]. }
    destruct i; cbn [on_read]; try apply Hend. by apply on_message_ok.
  - destruct (on_write_ok ec s Hs) as (s1 & E & H1 & _); [|done|].
    + intros E. cbn [complete] in H. by rewrite E in H.
    + rewrite E in H. by injection H as <-.
Qed.

(** Putting a session in another's place *)
Lemma count_insert {X} (f : X → bool) (l : list X) i x y :
  l !! i = Some x →
  (List.length (List.filter f (<[i:=y]> l)) + Nat.b2n (f x) = List.length (List.filter f l) + Nat.b2n (f y))%nat.
Proof.
  revert i. induction l as [|z l IH]; intros [|i] Hi; cbn in Hi; try done.
  - injection Hi as ->. cbn. destruct (f x), (f y); cbn; lia.
  - cbn [insert list_insert]. change (list_insert i y l) with (<[i:=y]> l). specialize (IH i Hi).
    cbn [List.filter]. destruct (f z); [cbn; f_equal|]; exact IH.
Qed.

Definition server_ok (st : server) : Prop :=
  Forall session_ok (sessions st) ∧ (handlers_running st <= WEBSOCKET_THREAD_NUM)%nat.
Lemma step_ok who st st' : server_step who st st' → server_ok st → server_ok st'.
Proof.
  assert (∀ i s s' st, sessions st !! i = Some s → session_ok s' → server_ok st →
    (Nat.b2n (is_busy s') <= Nat.b2n (is_busy s) + (WEBSOCKET_THREAD_NUM - handlers_running st))%nat →
    Forall session_ok (<[i:=s']> (sessions st)) ∧
    (List.length (List.filter is_busy (<[i:=s']> (sessions st))) <= WEBSOCKET_THREAD_NUM)%nat) as Hput.
  { intros i s s' st0 Hi Hs' [Hf Hn] Hle. split; [by apply Forall_insert|].
    pose proof (count_insert is_busy _ i s s' Hi). unfold handlers_running in *.
    destruct (is_busy s), (is_busy s'); cbn [Nat.b2n] in *; lia. }
  assert (∀ st i s, server_ok st → sessions st !! i = Some s → session_ok s) as Hget
    by (intros st0 i s [Hf _] Hi; by apply (Forall_lookup_1 _ _ _ _ Hf Hi)).
  destruct 1 as [st ec detected hs _ Hlt|st i s c s' _ Hlt Hi Hb Hc|st i s q close p p' a' _ Hi Hb Ha
    |st i s q close r s' _ Hi Hb Ha|st i s q close p|st a']; intros Hok; try exact Hok.
  - destruct Hok as [Hf Hn]. unfold server_ok, handlers_running. cbn [sessions].
    unfold open_session. repeat case_match; cbn [option_list]; rewrite ?app_nil_r; try done.
    rewrite List.filter_app, length_app. split; [|cbn; unfold handlers_running in *; lia].
    apply Forall_app. split; [done|]. apply Forall_singleton, session_new_ok.
  - apply (Hput i s s'); [done| |done|].
    + eapply complete_ok; [by eapply Hget|done..].
    + destruct (is_busy s'), (is_busy s); cbn [Nat.b2n]; lia.
  - apply (Hput i s); [done| |done|].
    + destruct (Hget _ _ _ Hok Hi). rewrite Hb in *. split; cbn; try done.
      * intros q' c' p'' [= <- <- <-]. eapply becomes_snoc; [by apply (so_handled0 _ _ _ eq_refl)|done].
      * intros _. apply so_room0. by right.
      * intros _. by apply so_one0.
      * intros _. right. by right.
    + unfold is_busy. rewrite Hb. cbn -[handlers_running WEBSOCKET_THREAD_NUM]. lia.
  - destruct (on_answer_ok q close r s) as (s1 & E & Hs1 & Hb1); [by eapply Hget|done|].
    rewrite E in Ha. injection Ha as <-. apply (Hput i s s1); [done..|].
    unfold is_busy. rewrite Hb1. cbn -[handlers_running WEBSOCKET_THREAD_NUM]. lia.
Qed.
Lemma serves_ok a st : serves a st → server_ok st.
Proof.
  induction 1 as [|st st' who _ IH Hstep]; [|by eapply step_ok].
  split; [by apply List.Forall_nil|cbn; unfold WEBSOCKET_THREAD_NUM; lia].
Qed.
(** Requests are only ever added. *)
Lemma start_front_asked s s' : start_front s = Ok s' → asked s' = asked s.
Proof. unfold start_front. destruct (items_ s); [done|]. by intros [= <-]. Qed.
Lemma complete_asked c s s' : complete c s = Some (Ok s') → asked s `prefix_of` asked s'.
Proof.
  destruct c as [i|ec]; cbn [complete].
  - destruct (reads s); [done|]. intros [= <-]. destruct i; cbn; try done. by eexists.
  - destruct (writes s) as [|close rest]; [done|]. unfold on_write. destruct ec; [by intros [= <-]|].
    destruct close; [by intros [= <-]|]. intros [= H]. unfold queue_on_write in H.
    destruct (items_ _) as [|w [|w' ws]]; try done; cbn -[start_front is_full] in H.
    + injection H as <-. by case_match.
    + destruct (start_front _) as [s1| | |] eqn:E; try done. apply start_front_asked in E.
      cbn -[is_full] in H, E. injection H as <-. case_match; cbn; by rewrite E.
Qed.
Lemma on_answer_asked q close r s s' : on_answer q close r s = Ok s' → asked s' = asked s.
Proof.
  unfold on_answer, queue_send. destruct (_ =? 1)%nat.
  - destruct (start_front _) as [s1| | |] eqn:E; try done. apply start_front_asked in E. cbn -[is_full] in *.
    intros [= <-]. by case_match.
  - cbn -[is_full]. intros [= <-]. by case_match.
Qed.
Lemma step_asked who st st' i s :
  server_step who st st' → sessions st !! i = Some s →
  ∃ s', sessions st' !! i = Some s' ∧ asked s `prefix_of` asked s'.
Proof.
  assert (∀ j s1 s1' st, sessions st !! i = Some s → sessions st !! j = Some s1 → asked s1 `prefix_of` asked s1' →
    ∃ s', <[j:=s1']> (sessions st) !! i = Some s' ∧ asked s `prefix_of` asked s') as Hput.
  { intros j s1 s1' st0 Hi Hj Hp. destruct (decide (j = i)) as [->|Hne].
    - simplify_eq. exists s1'. split; [|done]. apply list_lookup_insert_eq. by eapply lookup_lt_Some.
    - exists s. by rewrite list_lookup_insert_ne. }
  destruct 1; intros Hi; cbn [sessions with_session]; eauto.
  - exists s. split; [by apply lookup_app_l_Some|done].
  - eapply Hput; [done..|]. by eapply complete_asked.
  - eapply Hput; [done..|]. match goal with E : on_answer _ _ _ _ = Ok _ |- _ => by rewrite (on_answer_asked _ _ _ _ _ E) end.
Qed.

(** A handler left to itself gets to its answer. *)
Lemma served_out a st i s q close p r a' :
  serves a st → crashed st = false → sessions st !! i = Some s → busy s = Some (q, close, p) →
  handling_run p (behind st) = Ok (r, a') →
  serves a (Server (<[i:=with_busy (Some (q, close, Answer r)) s]> (sessions st)) a' false).
Proof.
  intros Hs Hc Hi Hb. revert st s Hs Hc Hi Hb. induction p as [r'|B m rest IH]; intros st s Hs Hc Hi Hb H.
  - injection H as <- <-. destruct st as [l b c], s. cbn in *. subst. unfold with_busy. cbn.
    by rewrite list_insert_id.
  - cbn [handling_run] in H. unfold mbind, m_bind in H. destruct (m (behind st)) as [[x a1]| | |] eqn:Em; try done.
    pose proof (step_access st i s q close (Access m rest) (rest x) a1 Hc Hi Hb) as Hstep.
    specialize (IH x _ (with_busy (Some (q, close, rest x)) s) (serves_step _ _ _ _ Hs (Hstep ltac:(cbn; by rewrite Em)))).
    cbn [sessions behind crashed] in IH. rewrite list_insert_insert_eq in IH.
    apply IH; [done| |done|done]. apply list_lookup_insert_eq. by eapply lookup_lt_Some.
Qed.
Lemma served_answer a st i s q close p r a' s' :
  serves a st → crashed st = false → sessions st !! i = Some s → busy s = Some (q, close, p) →
  handling_run p (behind st) = Ok (r, a') →
  on_answer q close r (with_busy (Some (q, close, Answer r)) s) = Ok s' →
  serves a (Server (<[i:=s']> (sessions st)) a' false).
Proof.
  intros Hs Hc Hi Hb Hr Ha. pose proof (served_out a st i s q close p r a' Hs Hc Hi Hb Hr) as H.
  pose proof (list_lookup_insert_eq (sessions st) i (with_busy (Some (q, close, Answer r)) s) ltac:(by eapply lookup_lt_Some)) as Hi'.
  pose proof (serves_step _ _ _ _ H (step_answer (Server _ a' false) i _ q close r s' eq_refl Hi' eq_refl Ha)) as H'.
  unfold with_session in H'. cbn [sessions behind crashed] in H'. by rewrite list_insert_insert_eq in H'.
Qed.
Lemma served_message a st i s q close n :
  serves a st → crashed st = false → (handlers_running st <? WEBSOCKET_THREAD_NUM)%nat = true → sessions st !! i = Some s →
  busy s = None → reads s = S n →
  serves a (Server (<[i:=on_read (Message q close) (with_reads n s)]> (sessions st)) (behind st) (crashed st)).
Proof.
  intros Hs Hc Hn%Nat.ltb_lt Hi Hb Hr. eapply serves_step; [exact Hs|].
  apply (step_complete st i s (ReadDone (Message q close))); [done..|]. cbn [complete]. by rewrite Hr.
Qed.
End session_ops.

(** ** Serving the node *)
Section web_server.
Context {W : Type} `{!LevelDb W} `{!DiskOs W} `{!HttpClient W} `{!Directory W}.
Context `{!Host (node W)} `{!IdHost (node W)} `{!UpgradeHost (node W)} `{!AttestHost (node W)}.
Context `{!Threads (node W)} `{!AppThreads (node W)}.
Variable cfg : Config.
Variables fuel pool : nat.
(** What the other threads of the node may do to its state *)
Variable others : api W → api W → Prop.
Implicit Types (a : api W) (q : nat * request).

(** A request with the thread it is served by *)
Definition handle_on q : handling (api W) response := http_pieces cfg fuel q.1 pool q.2.

(** C16: requests are read ahead, and still a client gets its answers in the order of its
    requests.  Whatever the handlers of the connections, at most three at a time, and
    the other threads of the node do between each other's accesses: on a connection
    the requests handled are the first of those read, all but the one in hand; the
    answer noted for a request is one that its handler arrives at; what was written is a
    prefix of those answers, all of them when nothing is being written.  There is
    never more than one read and one write under way on a connection, nor more than
    the limit of answers in its queue; a completed write never finds the queue
    empty; and a connection that has not ended is always waiting for something. *)
Theorem pipelined_in_order a st :
  serves handle_on others a st →
  (handlers_running st <= WEBSOCKET_THREAD_NUM)%nat ∧
  ∀ i s, sessions st !! i = Some s →
    asked s = map fst (given s) ++ option_list (fst ∘ fst <$> busy s) ∧
    (∀ q r, (q, r) ∈ given s → becomes (handle_on q) (Answer r)) ∧
    wire s `prefix_of` map snd (given s) ∧
    (reads s <= 1)%nat ∧ (List.length (writes s) <= 1)%nat ∧ (List.length (items_ s) <= limit)%nat ∧
    (ended s = [] →
      (reads s = 1%nat ∨ writes s ≠ [] ∨ busy s ≠ None) ∧ (writes s = [] → wire s = map snd (given s))) ∧
    (∀ ec, busy s = None → writes s ≠ [] → ∃ s', complete handle_on (WriteDone ec) s = Some (Ok s')).
Proof.
  intros [Hs Hn]%serves_ok. split; [done|]. intros i s Hi.
  pose proof (Forall_lookup_1 _ _ _ _ Hs Hi) as Hok.
  pose proof (λ ec, on_write_ok handle_on ec s Hok) as Hw. destruct Hok.
  split_and!; [done|done|by eexists|done..| |].
  - intros He. specialize (so_reading0 He). specialize (so_writing0 He). split.
    + destruct so_reading0 as [|[Hl|]]; [by left| |by right; right]. right. left. apply so_writing0. by intros E; rewrite E in Hl.
    + intros E. destruct (items_ s); [|by destruct so_writing0]. by rewrite <- so_order0, app_nil_r.
  - intros ec Hb Hne. destruct (Hw ec Hne Hb) as (s' & E & _). by exists s'.
Qed.

(** The handler of a stranger's request has at most six accesses to make, all
    harmless. *)
Lemma stranger_in_hand a st i s q close p :
  serves handle_on others a st → sessions st !! i = Some s → busy s = Some (q, close, p) → stranger cfg q.2 →
  harmless (baseless cfg q.2) 6 p.
Proof.
  intros [Hs _]%serves_ok Hi Hb Hq. eapply harmless_becomes; [by apply (stranger_harmless cfg fuel q.1 pool)|].
  exact (so_handled _ _ (Forall_lookup_1 _ _ _ _ Hs Hi) _ _ _ Hb).
Qed.
Lemma stranger_step a st i s q close p st' :
  serves handle_on others a st → sessions st !! i = Some s → busy s = Some (q, close, p) → stranger cfg q.2 →
  server_step handle_on others (Handler i) st st' → behind st' = behind st ∧ (crashed st' = true → baseless cfg q.2).
Proof.
  intros H Hi Hb Hq Hstep. pose proof (stranger_in_hand a st i s q close p H Hi Hb Hq) as Hp.
  inversion Hstep as [| |? ? s1 q1 c1 p1 p' a' Hc Hi1 Hb1 Ha|? ? s1 q1 c1 r s1' Hc|? ? s1 q1 c1 p1 Hc Hi1 Hb1 Ha|]; subst.
  - rewrite Hi in Hi1. injection Hi1 as <-. rewrite Hb in Hb1. injection Hb1 as <- <- <-.
    destruct (harmless_access _ _ _ _ _ Hp Ha) as [-> _]. cbn. by rewrite Hc.
  - cbn. by rewrite Hc.
  - rewrite Hi in Hi1. injection Hi1 as <-. rewrite Hb in Hb1. injection Hb1 as <- <- <-. split; [done|]. intros _.
    destruct Ha as [Ha|Ha]; pose proof (harmless_access _ _ _ _ _ Hp Ha); done.
Qed.

(** C15: a request that is not the owner's changes nothing, whoever else is being
    served.  Of a request without the backup that does not ask for one of the three
    open routes ([stranger]: /workload, /enclave/id_info and /debug) the handler makes
    at most six accesses, and no step of it changes the node; it ends the process
    only when its address does not contain the base.  So while only such
    requests come, the node does what its other threads do. *)
Theorem strangers_change_nothing a st :
  serves handle_on others a st →
  (∀ i s q close p, sessions st !! i = Some s → busy s = Some (q, close, p) → stranger cfg q.2 →
     harmless (baseless cfg q.2) 6 p ∧
     ∀ st', server_step handle_on others (Handler i) st st' →
       behind st' = behind st ∧ (crashed st' = true → baseless cfg q.2)) ∧
  ((∀ i s q, sessions st !! i = Some s → q ∈ asked s → stranger cfg q.2) →
     rtc others a (behind st) ∧
     (crashed st = true → ∃ i s q, sessions st !! i = Some s ∧ q ∈ asked s ∧ baseless cfg q.2)).
Proof.
  intros H. split.
  { intros i s q close p Hi Hb Hq. split; [by eapply stranger_in_hand|]. intros st'. by eapply stranger_step. }
  induction H as [|st st' who Hserves IH Hstep]; [by intros _; split; [apply rtc_refl|]|]. intros Hall.
  destruct IH as [Hr Hc].
  { intros i s q Hi Hq. destruct (step_asked _ _ _ _ _ i s Hstep Hi) as (s' & Hi' & l & Hl).
    apply (Hall i s'); [done|]. rewrite Hl. apply elem_of_app. by left. }
  assert (crashed st = false) as Hst by (by destruct Hstep).
  assert (∀ i s q close p, sessions st !! i = Some s → busy s = Some (q, close, p) →
    q ∈ asked s ∧ ∃ s', sessions st' !! i = Some s' ∧ q ∈ asked s') as Hbusy.
  { intros i s q close p Hi Hb. pose proof Hserves as [Hs _]%serves_ok.
    assert (q ∈ asked s) as Hq.
    { rewrite (so_asked _ _ (Forall_lookup_1 _ _ _ _ Hs Hi)), Hb. cbn. apply elem_of_app. right. by left. }
    split; [done|]. destruct (step_asked _ _ _ _ _ i s Hstep Hi) as (s' & Hi' & l & Hl). exists s'. split; [done|].
    rewrite Hl. apply elem_of_app. by left. }
  assert (∀ i s q close p, who = Handler i → sessions st !! i = Some s → busy s = Some (q, close, p) →
    rtc others a (behind st') ∧
    (crashed st' = true → ∃ i s q, sessions st' !! i = Some s ∧ q ∈ asked s ∧ baseless cfg q.2)) as Hh.
  { intros i s q close p -> Hi Hb. destruct (Hbusy i s q close p Hi Hb) as (_ & s' & Hi' & Hq').
    destruct (stranger_step a st i s q close p st' Hserves Hi Hb ltac:(by eapply Hall) Hstep) as [-> Hb'].
    split; [done|]. intros Hcr. exists i, s', q. auto. }
  destruct Hstep as [st ec detected hs Hcr _|st i s c s' Hcr _ _ _ _|st i s q close p p' a' Hcr Hi Hb _
    |st i s q close r s' Hcr Hi Hb _|st i s q close p Hcr Hi Hb _|st a' Hcr Ho]; try by eapply Hh.
  - split; [done|]. cbn. by rewrite Hcr.
  - split; [done|]. cbn. by rewrite Hcr.
  - cbn. split; [by eapply rtc_r|]. by rewrite Hcr.
Qed.
End web_server.

(** ** Websocket sessions *)

(** The websocket interface answers every message the same. *)
Definition websocket_handler (path data : bytes) (close_connection : bool) : bytes * bool :=
  (app_dump (JObject [(str "body", JString (str "Websocket doesn't provide service now!")); (str "status", JIntegral 300)]),
   close_connection).
(** Reads and writes under way; the answers whose writing was started (from a buffer
    that is gone when [ws_on_read] returns) *)
Record ws_session := WsSession {
  ws_path : bytes; ws_buffer : bytes; ws_reads : nat; ws_writes : nat; close_connection_ : bool; ws_wire : list bytes }.
Definition ws_do_read (s : ws_session) : ws_session :=
  WsSession (ws_path s) (ws_buffer s) (S (ws_reads s)) (ws_writes s) (close_connection_ s) (ws_wire s).
Definition ws_on_accept (ec : bool) (s : ws_session) : ws_session := if ec then s else ws_do_read s.
(** A message is behind what the buffer held; [None] when the peer closed or the read
    failed. *)
Definition ws_on_read (message : option bytes) (s : ws_session) : ws_session :=
  match message with
  | None => s
  | Some m =>
      let buf := ws_buffer s ++ m in
      let '(r, close) := websocket_handler (ws_path s) buf false in
      WsSession (ws_path s) buf (ws_reads s) (S (ws_writes s)) close (ws_wire s ++ [r])
  end.
Definition ws_on_write (ec : bool) (s : ws_session) : ws_session :=
  if ec then s
  else
    let s := WsSession (ws_path s) [] (ws_reads s) (ws_writes s) (close_connection_ s) (ws_wire s) in
    if close_connection_ s then s else ws_do_read s.

(** ** Starting and stopping *)
Class ServerOs (W : Type) := {
  make_address : bytes → option bytes;
  bind : bytes → Z → W → bool * W;
  listen : W → bool * W;
  kill_sigint : Z → W → W;
  getpid : W → Z
}.
Record web (W : Type) := Web { web_os : W; g_start_server_success : Z; g_webservice_pid : Z; io_stopped : bool }.
Arguments Web {W}.
Arguments web_os {W}.
Arguments g_start_server_success {W}.
Arguments g_webservice_pid {W}.
Arguments io_stopped {W}.

Section starting.
Context {W : Type} `{!ServerOs W}.
(** [true] when connections are accepted *)
Definition WebServer_run (address : bytes) (port : Z) (w : W) : bool * W :=
  let '(ok, w) := bind address port w in
  if ok : bool then listen w else (false, w).
(** Up to the loop that serves; an address that is not numeric throws. *)
Definition start_webservice (cfg : Config) (s : web W) : res (web W) :=
  let url_end_point := get_url_end_point (base_url cfg) in
  match make_address (ue_ip url_end_point) with
  | None => Throw
  | Some address =>
      let '(ok, w) := WebServer_run address (ue_port url_end_point mod 2 ^ 16) (web_os s) in
      Ok (Web w (if ok then 1 else 0) (g_webservice_pid s) false)
  end.
(** What comes after the loop *)
Definition webservice_stopped (s : web W) : web W :=
  Web (web_os s) (g_start_server_success s) (getpid (web_os s)) (io_stopped s).
Definition stop_webservice (s : web W) : web W :=
  Web (kill_sigint (g_webservice_pid s) (web_os s)) (g_start_server_success s) (g_webservice_pid s) true.
End starting.

(** ** Types of files *)
Fixpoint rfind (c : ascii) (s : bytes) : option nat :=
  match s with
  | [] => None
  | x :: s =>
      match rfind c s with
      | Some n => Some (S n)
      | None => if bool_decide (x = c) then Some O else None
      end
  end.
Definition tolower (c : ascii) : ascii := if (65 <=? code c) && (code c <=? 90) then chr (code c + 32) else c.
Definition iequals (a b : bytes) : bool := bool_decide (map tolower a = map tolower b).
Definition mime_types : list (String.string * String.string) := [
  (".htm", "text/html"); (".html", "text/html"); (".php", "text/html"); (".css", "text/css"); (".txt", "text/plain");
  (".js", "application/javascript"); (".json", "application/json"); (".xml", "application/xml");
  (".swf", "application/x-shockwave-flash"); (".flv", "video/x-flv"); (".png", "image/png"); (".jpe", "image/jpeg");
  (".jpeg", "image/jpeg"); (".jpg", "image/jpeg"); (".gif", "image/gif"); (".bmp", "image/bmp");
  (".ico", "image/vnd.microsoft.icon"); (".tiff", "image/tiff"); (".tif", "image/tiff"); (".svg", "image/svg+xml");
  (".svgz", "image/svg+xml")]%string.
Definition mime_type (path : bytes) : bytes :=
  let ext := match rfind (chr 46) path with None => [] | Some pos => drop pos path end in
  match List.find (λ p, iequals ext (str p.1)) mime_types with
  | Some p => str p.2
  | None => str "application/text"
  end.
Example mime_type_examples :
  mime_type (str "a.b/page.HTML") = str "text/html" ∧ mime_type (str "page") = str "application/text".
Proof. by vm_compute. Qed.

(** ** Evaluated *)
Section demo_web.
#[local] Existing Instance node_host.
#[local] Existing Instance node_upgrade_host.
#[local] Existing Instance node_id_host.
#[local] Existing Instance node_attest_host.
#[local] Existing Instance demo_node_threads.
#[local] Existing Instance demo_node_app.
#[local] Existing Instance demo_directory.
Abbreviation demo_handle := (handle_on demo_cfg 4 8).
Abbreviation nothing := (λ _ _ : api demo, False).
Abbreviation demo_session := (session (api demo) (nat * request) response).

(** Two requests over one connection, the second read while the first answer is still
    being written *)
Definition demo_first q rsp : demo_session := Session [Work rsp false] 1 [false] [rsp] [] None [q] [(q, rsp)].
Definition demo_second q q' rsp rsp' : demo_session :=
  Session [Work rsp false; Work rsp' false] 1 [false] [rsp] [] None [q; q'] [(q, rsp); (q', rsp')].
Lemma demo_two_served q q' rsp rsp' :
  handling_run (demo_handle q) demo_api = Ok (rsp, demo_api) →
  handling_run (demo_handle q') demo_api = Ok (rsp', demo_api) →
  serves demo_handle nothing demo_api (Server [demo_second q q' rsp rsp'] demo_api false).
Proof.
  intros E E'.
  assert (serves demo_handle nothing demo_api (Server [do_read session_new] demo_api false)) as H0.
  { apply (serves_step _ _ _ (Server [] demo_api false) _ Completion); [apply serves_start|].
    apply (step_accept _ _ (Server [] demo_api false) false (Some false) false); [done|by apply Nat.ltb_lt]. }
  pose proof (served_message _ _ _ _ 0 _ q false 0 H0 eq_refl eq_refl eq_refl eq_refl eq_refl) as H1.
  pose proof (served_answer _ _ _ _ 0 _ q false _ rsp demo_api _ H1 eq_refl eq_refl eq_refl E eq_refl) as H2.
  pose proof (served_message _ _ _ _ 0 (demo_first q rsp) q' false 0 H2 eq_refl eq_refl eq_refl eq_refl eq_refl) as H3.
  exact (served_answer _ _ _ _ 0 _ q' false _ rsp' demo_api _ H3 eq_refl eq_refl eq_refl E' eq_refl).
Qed.
Definition demo_intruder : nat * request := (7%nat, demo_request "/srd/change" (Some (str "x")) []).
Lemma demo_intruder_stranger : stranger demo_cfg demo_intruder.2.
Proof.
  split_and!; [done|discriminate|]. intros r Hr. unfold open_routes in Hr.
  repeat (apply elem_of_cons in Hr as [->|Hr]; [by vm_compute|]). by apply elem_of_nil in Hr.
Qed.
Lemma demo_intruder_answered : ∃ rsp, handling_run (demo_handle demo_intruder) demo_api = Ok (rsp, demo_api).
Proof.
  unfold handle_on. rewrite http_alone. destruct demo_intruder_stranger as (Hlen & Hb & Ho).
  by destruct (stranger_unchanged demo_cfg 4 7 8 demo_intruder.2 demo_api Hlen Hb Ho) as [[H _]|H]; [discriminate H|].
Qed.
Lemma pipelined_in_order_witness :
  ∃ st s, serves demo_handle nothing demo_api st ∧ sessions st !! 0%nat = Some s ∧
    List.length (wire s) = 1%nat ∧ List.length (asked s) = 2%nat ∧ wire s `prefix_of` map snd (given s).
Proof.
  destruct demo_intruder_answered as [rsp E].
  pose proof (demo_two_served demo_intruder demo_intruder rsp rsp E E) as H.
  destruct (pipelined_in_order demo_cfg 4 8 nothing demo_api _ H) as [_ Hs].
  eexists _, _. split; [exact H|split; [reflexivity|split; [reflexivity|split; [reflexivity|apply (Hs 0%nat _ eq_refl)]]]].
Defined.
Lemma strangers_change_nothing_witness :
  ∃ st s, serves demo_handle nothing demo_api st ∧ sessions st !! 0%nat = Some s ∧ List.length (asked s) = 2%nat ∧
    rtc nothing demo_api (behind st).
Proof.
  destruct demo_intruder_answered as [rsp E].
  pose proof (demo_two_served demo_intruder demo_intruder rsp rsp E E) as H.
  eexists _, _. split; [exact H|split; [reflexivity|split; [reflexivity|]]].
  apply (strangers_change_nothing demo_cfg 4 8 nothing demo_api _ H). intros i s q Hi Hq.
  destruct i as [|i]; [|done]. injection Hi as <-. cbn [asked demo_second] in Hq.
  repeat (apply elem_of_cons in Hq as [->|Hq]; [exact demo_intruder_stranger|]). by apply elem_of_nil in Hq.
Defined.

(** Two owners ask for 5 and for 7 at once, and the number asked for is a global: the
    first has stored 5 when the second stores 7, and both pass 7 on. *)
Fixpoint interleave {A R} (sched : list bool) (p q : handling A R) (a : A) : res (handling A R * handling A R * A) :=
  match sched with
  | [] => Ok (p, q, a)
  | b :: sched =>
      match access (if b : bool then p else q) a with
      | None => interleave sched p q a
      | Some (Ok (p', a)) => if b then interleave sched p' q a else interleave sched p p' a
      | Some _ => UB
      end
  end.
Definition demo_change (tid : nat) (n : Z) : nat * request :=
  (tid, demo_request "/srd/change" (Some (chain_backup demo_cfg)) (app_dump (JObject [(str "change", JIntegral n)]))).
Definition change_of (sched : list bool) : option Z :=
  match interleave sched (demo_handle (demo_change 7 5)) (demo_handle (demo_change 9 7)) demo_api with
  | Ok (Answer _, Answer _, a) => Some (g_srd_change (a_enclave (s_app (a_node a))))
  | _ => None
  end.
Example changes_mixed_up :
  change_of (replicate 12 true ++ replicate 12 false) = Some 12 ∧
  change_of (replicate 6 true ++ replicate 6 false ++ replicate 12 true ++ replicate 12 false) = Some 14.
Proof. by vm_compute. Qed.
End demo_web.

(** An upgrade to a websocket takes the stream while an answer is still to be written
    to it: the next answer is written to a stream that is gone. *)
Example released_too_early :
  let handler (q : nat) : handling unit nat := Answer q in
  let s : session unit nat nat := Session [Work 1%nat false; Work 2%nat false] 1 [false] [1%nat] [] None [] [] in
  ∃ s1 s2, complete handler (ReadDone WsUpgrade) s = Some (Ok s1) ∧ ended s1 = [Released] ∧
    complete handler (WriteDone false) s1 = Some (Ok s2) ∧ wire s2 = [1; 2]%nat.
Proof. by eexists _, _. Qed.

(** The process id is only known when the server has stopped: stopping it interrupts
    the whole process group. *)
#[local] Instance demo_server_os : ServerOs (list Z) := {
  make_address p := Some p;
  bind _ _ w := (true, w);
  listen w := (true, w);
  kill_sigint pid w := w ++ [pid];
  getpid _ := 4242
}.
Example stop_interrupts_group :
  match start_webservice demo_cfg (Web [] (-1) 0 false) with
  | Ok s => g_start_server_success s = 1 ∧ web_os (stop_webservice s) = [0]
  | _ => False
  end.
Proof. by vm_compute. Qed.
