(* ===== verification/AppHttp.v ===== *)
(** * The HTTP client and IPFS (app/http/HttpClient.cpp, app/ipfs/Ipfs.cpp)

    A request is taken apart, sent over a connection of its own and its answer read.
    Connections and messages are those of boost, behind a class; this file is what
    the client makes of them, and makes it an [HttpClient] for the other files. *)
From S2P Require Import Prelude StdMap Status Hex Json JsonParse JsonText Host.
From S2P Require Import State Demo Attest AppJson AppData AppSrd AppText AppChain AppApi AppNetwork AppWeb.

Inductive request_type_t := HTTP_REQ_SECURE | HTTP_REQ_INSECURE.
#[global] Instance request_type_eq_dec : EqDecision request_type_t.
Proof. solve_decision. Defined.

(** A message: method, target, the fields in the order they are set, body *)
Record http_request := HttpRequest {
  hr_method : verb; hr_target : bytes; hr_sets : list (bytes * bytes); hr_body : bytes }.
Record http_response := HttpResponse { hs_result : Z; hs_field : bytes → bytes; hs_body : bytes }.
Class Transport (W : Type) := {
  BEAST_VERSION : bytes;
  (* what is read at a pointer into a string that is gone *)
  stale : bytes → W → bytes;
  (* resolve and connect; with the server name and the handshake, verified or not *)
  connect : bytes → bytes → W → bool * W;
  tls_connect : bool → bytes → bytes → W → bool * W;
  (* write, read and close; the answer as far as it was read, also if one of them threw *)
  exchange : http_request → W → (bool * http_response) * W
}.

(** ** Headers: a multimap whose order ignores case *)
Fixpoint ci_less (a b : bytes) : bool :=
  match a, b with
  | _, [] => false
  | [], _ => true
  | x :: a, y :: b =>
      if code (tolower x) <? code (tolower y) then true
      else if code (tolower y) <? code (tolower x) then false else ci_less a b
  end.
Fixpoint header_insert (h : bytes * bytes) (m : list (bytes * bytes)) : list (bytes * bytes) :=
  match m with
  | [] => [h]
  | x :: m' => if ci_less h.1 x.1 then h :: m else x :: header_insert h m'
  end.
Definition ApiHeaders (l : list (bytes * bytes)) : list (bytes * bytes) := fold_left (λ m h, header_insert h m) l [].

Section client.
Context {W : Type} `{!Transport W}.

(** A response is made with status 200 and nothing in it. *)
Definition no_response : http_response := HttpResponse 200 (λ _, []) [].
Definition not_found (r : http_response) : http_response := HttpResponse 404 (hs_field r) (hs_body r).
Definition message (method : verb) (host path body content_type : bytes) (headers : list (bytes * bytes)) : http_request :=
  HttpRequest method path
    ([(str "Host", host); (str "User-Agent", BEAST_VERSION); (str "Content-Type", content_type);
      (str "Content-Length", to_string (zlen body))] ++ ApiHeaders headers) body.
(** What follows the connection; an exception leaves 404. *)
Definition answered (connected : bool) (req : http_request) (w : W) : http_response * W :=
  if connected then
    let '((ok, res), w) := exchange req w in (if ok : bool then res else not_found res, w)
  else (not_found no_response, w).

(** The text of the port is a temporary, and gone when it is used. *)
Definition request_sync (method : verb) (url body content_type : bytes) (headers : list (bytes * bytes)) (w : W) : http_response * W :=
  let url_end_point := get_url_end_point url in
  let host := c_str (ue_ip url_end_point) in
  let port := stale (to_string (ue_port url_end_point)) w in
  let '(ok, w) := connect host port w in
  answered ok (message method host (c_str (ue_base url_end_point)) body content_type headers) w.
Definition request_sync_ssl (method : verb) (url body content_type : bytes) (headers : list (bytes * bytes))
    (type : request_type_t) (w : W) : http_response * W :=
  let url_end_point := get_url_end_point url in
  let host := c_str (ue_ip url_end_point) in
  let port := stale (to_string (ue_port url_end_point)) w in
  let port := if starts_with (str "-1") port then str "443" else port in
  let '(ok, w) := tls_connect (bool_decide (type = HTTP_REQ_SECURE)) host port w in
  answered ok (message method host (c_str (ue_base url_end_point)) body content_type headers) w.

(** The overloads; a content type that is not given is text/plain. *)
Definition status_and_body (r : http_response * W) : (Z * bytes) * W := ((hs_result r.1, hs_body r.1), r.2).
Definition http_get (url body : bytes) (headers : list (bytes * bytes)) (w : W) : (Z * bytes) * W :=
  status_and_body (request_sync GET url body (str "text/plain") headers w).
Definition http_post (url body content_type : bytes) (headers : list (bytes * bytes)) (w : W) : (Z * bytes) * W :=
  status_and_body (request_sync POST url body content_type headers w).
#[global] Instance http_client : HttpClient W := { Get := http_get; Post := http_post }.
Definition ssl_post (url body content_type : bytes) (headers : list (bytes * bytes)) (w : W) : (Z * (bytes → bytes) * bytes) * W :=
  let '(r, w) := request_sync_ssl POST url body content_type headers HTTP_REQ_SECURE w in
  ((hs_result r, hs_field r, hs_body r), w).
End client.

(** ** IPFS *)
Record Ipfs := IpfsOf { ipfs_url : bytes; form_boundary : bytes }.
Definition ipfs_get_instance (now : Z) : Ipfs :=
  IpfsOf (str "http://127.0.0.1:5001/api/v0") (str "sWorker" ++ to_string now ++ str "FormBoundary").
Definition crlf : bytes := [chr 13; chr 10].
Definition form_head (boundary : bytes) : bytes :=
  crlf ++ str "--" ++ boundary ++ crlf ++ str "Content-Disposition: form-data; name=" ++ quote [] ++ crlf ++ crlf.
Definition form_end (boundary : bytes) : bytes := crlf ++ str "--" ++ boundary ++ str "--" ++ crlf ++ crlf.
Definition form_data (boundary data : bytes) : bytes := form_head boundary ++ data ++ form_end boundary.

Section ipfs.
Context {W : Type} `{!HttpClient W}.
Variable ipfs : Ipfs.
Definition ipfs_online (w : W) : bool * W :=
  let '((code, _), w) := Post (ipfs_url ipfs ++ str "/version") [] (str "text/plain") [] w in (code =? 200, w).
Definition ipfs_post_cid (route cid : bytes) (w : W) : option bytes * W :=
  let '((code, body), w) := Post (ipfs_url ipfs ++ route ++ cid) [] (str "text/plain") [] w in
  (if code =? 200 then Some body else None, w).
(** The contents, and their size: 0 stands for an error *)
Definition block_get (cid : bytes) : W → option bytes * W := ipfs_post_cid (str "/block/get?arg=") cid.
Definition ipfs_cat (cid : bytes) : W → option bytes * W := ipfs_post_cid (str "/cat?arg=") cid.
Definition size_out (r : option bytes) : Z := match r with Some b => zlen b | None => 0 end.
Definition ipfs_add (data : bytes) (w : W) : res bytes * W :=
  let '((code, body), w) :=
    Post (ipfs_url ipfs ++ str "/add") (form_data (form_boundary ipfs) data)
      (str "multipart/form-data; boundary=" ++ form_boundary ipfs) [] w in
  (if code =? 200 then obj ← app_Load body; Ok (field "Hash" obj) else Ok [], w).
End ipfs.

(** ** Lemmas *)
Lemma header_insert_perm h m : header_insert h m ≡ₚ h :: m.
Proof.
  induction m as [|x m IH]; [done|]. cbn. destruct (ci_less h.1 x.1); [done|]. rewrite IH. apply Permutation_swap.
Qed.
Lemma ApiHeaders_perm l : ApiHeaders l ≡ₚ l.
Proof.
  unfold ApiHeaders. enough (∀ m, fold_left (λ m h, header_insert h m) l m ≡ₚ l ++ m) as H by (by rewrite H, app_nil_r).
  induction l as [|h l IH]; intros m; [done|]. cbn. rewrite IH, header_insert_perm. by rewrite Permutation_middle.
Qed.

(** The first place of a text whose first letter does not come again in it: behind
    anything that does not contain it. *)
Lemma scan_from_behind c p a r :
  c ∉ p → scan_from (c :: p) a = None → scan_from (c :: p) (a ++ (c :: p) ++ r) = Some (List.length a).
Proof.
  intros Hc. induction a as [|x a IH]; intros Hn.
  { cbn [Datatypes.app scan_from]. rewrite bool_decide_true; [done|]. change (c :: p ++ r) with ((c :: p) ++ r). by rewrite take_app_length. }
  cbn [scan_from Datatypes.app] in *. case_bool_decide as H1; [done|].
  rewrite bool_decide_false.
  - rewrite IH; [done|]. by destruct (scan_from _ a).
  - intros H2. cbn [List.length take] in H1, H2. injection H2 as -> H2.
    destruct (decide (List.length p <= List.length a)%nat) as [Hl|Hl].
    + rewrite take_app_le in H2 by done. by rewrite H2 in H1.
    + rewrite take_app_ge in H2 by lia. apply Hc. rewrite <- H2.
      destruct (List.length p - List.length a)%nat as [|n] eqn:E; [lia|]. cbn. apply elem_of_app. right. left.
Qed.

(** What a reader of the form makes of it: the text between the head and the next
    boundary *)
Definition form_read (boundary text : bytes) : option bytes :=
  if starts_with (form_head boundary) text then
    let rest := drop (List.length (form_head boundary)) text in
    match string_find (crlf ++ str "--" ++ boundary) rest 0 with
    | Some n => Some (take n rest)
    | None => None
    end
  else None.
(** A file is added to IPFS whole: read back from the form, it is what was put in,
    as long as the boundary does not occur in it. *)
Theorem form_roundtrip now data :
  let boundary := form_boundary (ipfs_get_instance now) in
  string_find (crlf ++ str "--" ++ boundary) data 0 = None → form_read boundary (form_data boundary data) = Some data.
Proof.
  intros boundary Hd. unfold form_read, form_data, starts_with. rewrite take_app_length, bool_decide_true by done.
  rewrite drop_app_length. unfold form_end. change (crlf ++ str "--" ++ boundary) with (chr 13 :: chr 10 :: str "--" ++ boundary) in *.
  assert (string_find (chr 13 :: chr 10 :: str "--" ++ boundary) (data ++ crlf ++ str "--" ++ boundary ++ str "--" ++ crlf ++ crlf) 0
          = Some (List.length data)) as ->; [|by rewrite take_app_length].
  unfold string_find in *. cbn [Nat.ltb Nat.leb] in *. change (drop 0 ?s) with s in *.
  replace (crlf ++ str "--" ++ boundary ++ str "--" ++ crlf ++ crlf)
    with ((chr 13 :: chr 10 :: str "--" ++ boundary) ++ str "--" ++ crlf ++ crlf) by (change (chr 13 :: chr 10 :: str "--" ++ boundary) with (crlf ++ str "--" ++ boundary); by rewrite <- !app_assoc).
  rewrite scan_from_behind; [done| |by destruct (scan_from _ data)].
  assert (Forall (λ c, c ≠ chr 13) (chr 10 :: str "--" ++ boundary)) as Hf.
  { repeat (apply List.Forall_cons; [done|]). unfold boundary, ipfs_get_instance, form_boundary.
    repeat (apply Forall_app; split); try (apply (bool_decide_unpack (Forall _ _)); by vm_compute).
    eapply Forall_impl; [apply (to_string_chars now)|]. cbn. intros c [Hc _] ->. done. }
  intros Hin. rewrite Forall_forall in Hf. by apply Hf in Hin.
Qed.
Lemma form_roundtrip_witness :
  form_read (str "sWorker12FormBoundary") (form_data (str "sWorker12FormBoundary") (str "block")) = Some (str "block").
Proof. apply (form_roundtrip 12 (str "block")). by vm_compute. Defined.

Section addressing.
Context {W : Type} `{!Transport W}.
(** A request goes where its address says.  To an address of protocol, host, port
    and path, each without NUL, the client connects to that host and port and sends
    the path, the body with its length, the given content type, and then exactly
    the given headers; without a connection, or if sending or receiving fails, the
    status is 404.  The text of the port must outlive its string. *)
Theorem request_addressed proto ip port base body content_type headers w :
  chr 58 ∉ proto → chr 58 ∉ ip → 0 <= port < 2 ^ 31 → base = [] ∨ (∃ b, base = chr 47 :: b) →
  c_str ip = ip → c_str base = base → stale (to_string port) w = to_string port →
  ∃ sets, hr_sets sets = [(str "Host", ip); (str "User-Agent", BEAST_VERSION); (str "Content-Type", content_type);
                          (str "Content-Length", to_string (zlen body))] ++ ApiHeaders headers ∧
    ApiHeaders headers ≡ₚ headers ∧ hr_method sets = POST ∧ hr_target sets = base ∧ hr_body sets = body ∧
    Post (proto ++ str "://" ++ ip ++ str ":" ++ to_string port ++ base) body content_type headers w =
      let '(ok, w1) := connect ip (to_string port) w in
      if ok : bool then
        let '((done, r), w2) := exchange sets w1 in ((if done : bool then hs_result r else 404, hs_body r), w2)
      else ((404, []), w1).
Proof.
  intros Hp Hi Hport Hb Eip Ebase Hst. exists (message POST ip base body content_type headers).
  split_and!; [done|apply ApiHeaders_perm|done..|].
  cbn [Post http_client]. unfold http_post, request_sync. rewrite url_end_point_parts by done. cbn [ue_ip ue_port ue_base].
  rewrite Eip, Ebase, Hst. destruct (connect ip (to_string port) w) as [[] w1]; [|done].
  unfold status_and_body, answered. destruct (exchange _ w1) as [[[] r] w2]; done.
Qed.
End addressing.

(** A server that answers with what it was asked *)
Definition demo_transport : Transport (list http_request) := {|
  BEAST_VERSION := str "Boost.Beast/248";
  stale t _ := t;
  connect _ _ w := (true, w);
  tls_connect _ _ _ w := (true, w);
  exchange r w := ((true, HttpResponse 200 (λ _, []) (hr_target r)), w ++ [r])
|}.
#[local] Existing Instance demo_transport.
Lemma request_addressed_witness :
  (Post (str "http://localhost:56666/api/v1/swork") (str "{}") (str "application/json") [] []).1 = (200, str "/api/v1/swork").
Proof.
  destruct (request_addressed (str "http") (str "localhost") 56666 (str "/api/v1/swork") (str "{}") (str "application/json") [] [])
    as (sets & _ & _ & _ & Ht & _ & E);
    [apply (bool_decide_unpack (_ ∉ _)); by vm_compute..|lia|right; by eexists|by vm_compute|by vm_compute|done|].
  change (str "http://localhost:56666/api/v1/swork") with (str "http" ++ str "://" ++ str "localhost" ++ str ":" ++ to_string 56666 ++ str "/api/v1/swork").
  rewrite E. cbn. by rewrite Ht.
Defined.
(** TLS without a port in the address *)
Example ssl_port :
  (ssl_post (str "https://api.trustedservices.intel.com/sgx") [] [] [] []).2
  = [message POST (str "api.trustedservices.intel.com") (str "/sgx") [] [] []].
Proof. by vm_compute. Qed.
