(* ===== verification/AppFormat.v ===== *)
(** * Hexadecimal text in shared buffers (app/utils/FormatUtils.cpp, and [hexstring] of
    enclave/utils/EUtils.cpp)

    Both processes print bytes into one buffer that grows and is kept; the text is
    good until the next call.  The application decodes into a buffer whose length it
    is told. *)
From S2P Require Import Prelude StdMap Status Hex Json JsonParse JsonText Host.
From S2P Require Import State Demo Attest AppJson AppData AppSrd AppText AppChain AppFiles.

Section buffers.
Variable available : Z → bool.

(** The buffer is made longer, in kilobytes; its size is remembered even when there is
    no memory for it. *)
Definition hex_buffer (len : Z) (k : kept) : bool * kept :=
  let bsz := len * 2 + 1 in
  if kp_len k <=? bsz then
    let newsz := kilobytes bsz in
    let k := Kept (negb (available newsz)) newsz in (negb (kp_null k), k)
  else (true, k).
(** [None] is the answer without memory: NULL in the enclave, a text that says so in
    the application.  Bytes written behind the buffer, or to NULL, are undefined. *)
Definition hexstring (src : bytes) (k : kept) : res (option bytes * kept) :=
  let '(ok, k) := hex_buffer (zlen src) k in
  if negb ok then Ok (None, k)
  else if kp_null k || (kp_len k <? zlen src * 2 + 1) then UB
  else Ok (Some (hexstring_safe src), k).
End buffers.

(** [enc_realloc] gives the old buffer back first, so nothing of it survives. *)
Definition enc_realloc (tries : nat → bool) (size : Z) (k : kept) : kept :=
  if existsb tries (seq 0 (Z.to_nat ENCLAVE_MALLOC_TRYOUT)) then Kept false size else Kept true 0.

(** [char_to_int], the application's copy *)
Definition app_char_to_int (input : ascii) : Z :=
  let c := code input in
  if (48 <=? c) && (c <=? 57) then c - 48
  else if (65 <=? c) && (c <=? 70) then c - 65 + 10
  else if (97 <=? c) && (c <=? 102) then c - 97 + 10
  else 0.
(** The loop runs to the end of the text, whatever length was announced; [room] is what
    is left of the buffer. *)
Fixpoint app_hex_loop (src : bytes) (room : nat) : res bytes :=
  match src with
  | a :: b :: src =>
      match room with
      | O => UB
      | S room => r ← app_hex_loop src room; Ok (chr (u8 (app_char_to_int a * 16 + app_char_to_int b)) :: r)
      end
  | _ => Ok (replicate room (chr 0))
  end.
Definition app_hex_string_to_bytes (src : bytes) (len : nat) : res (option bytes) :=
  if negb (len mod 2 =? 0)%nat then Ok None
  else r ← app_hex_loop (c_str src) (len / 2); Ok (Some r).

(** [replace], the application's copy *)
Definition app_replace : bytes → bytes → bytes → bytes := replace.

(** ** What holds *)
Lemma hex_buffer_ok available len k :
  0 <= len → (∀ n, available n = true) → kept_ok k →
  let '(ok, k') := hex_buffer available len k in
  ok = true ∧ kept_ok k' ∧ kp_null k' = false ∧ len * 2 + 1 <= kp_len k'.
Proof.
  intros Hl Ha Hk. unfold hex_buffer. destruct (Z.leb_spec (kp_len k) (len * 2 + 1)) as [H|H].
  - rewrite Ha. pose proof (kilobytes_bounds (len * 2 + 1)). cbn. split_and!; [done|done|done|lia].
  - assert (kp_null k = false) by (destruct (kp_null k) eqn:E; [|done]; specialize (Hk E); lia).
    split_and!; [done|done|done|lia].
Qed.
(** While memory lasts, printing stays inside the buffer, and what it prints is the text
    of the bytes. *)
Theorem hexstring_fits available src k :
  (∀ n, available n = true) → kept_ok k →
  ∃ k', hexstring available src k = Ok (Some (hexstring_safe src), k') ∧ kept_ok k' ∧
    zlen (hexstring_safe src) + 1 <= kp_len k'.
Proof.
  intros Ha Hk. unfold hexstring. pose proof (hex_buffer_ok available (zlen src) k) as H.
  destruct (hex_buffer _ _ _) as [ok k']. destruct H as (-> & Hk' & Hn & Hl); [unfold zlen; lia|done..|].
  cbn [negb]. rewrite Hn. cbn [orb]. destruct (Z.ltb_spec (kp_len k') (zlen src * 2 + 1)); [lia|].
  exists k'. rewrite hexstring_safe_length. split_and!; [done|done|lia].
Qed.

Lemma app_hex_loop_text s : app_hex_loop (hexstring_safe s) (List.length s) = Ok s.
Proof.
  induction s as [|c s IH]; [done|]. rewrite hexstring_safe_cons. cbn [app_hex_loop List.length]. rewrite IH. cbn [mbind res_bind].
  destruct (nibbles c) as (H1 & H2 & H3).
  change app_char_to_int with char_to_int. destruct (hex_at_hex _ H1) as [_ ->]. destruct (hex_at_hex _ H2) as [_ ->].
  rewrite H3. pose proof (code_range c). unfold u8. rewrite Z.mod_small by lia. by rewrite chr_code.
Qed.
(** The application decodes what either process printed. *)
Theorem app_hex_roundtrip s :
  app_hex_string_to_bytes (hexstring_safe s) (List.length (hexstring_safe s)) = Ok (Some s).
Proof.
  assert (c_str (hexstring_safe s) = hexstring_safe s) as E.
  { pose proof (hexstring_safe_hex s) as H. induction H as [|c l Hc _ IH]; [done|]. cbn [c_str].
    destruct (code c =? 0) eqn:E; [|by rewrite IH]. exfalso. apply Z.eqb_eq in E.
    assert (Forall (λ c, code c ≠ 0) _hextable) as Hf by (apply (bool_decide_unpack (Forall _ _)); by vm_compute).
    rewrite Forall_forall in Hf. by apply (Hf c Hc). }
  unfold app_hex_string_to_bytes. rewrite E.
  assert (List.length (hexstring_safe s) = (List.length s * 2)%nat) as ->.
  { pose proof (hexstring_safe_length s). unfold zlen in *. lia. }
  rewrite Nat.Div0.mod_mul, Nat.div_mul by done. cbn [Nat.eqb negb]. by rewrite app_hex_loop_text.
Qed.
(** A text longer than announced is decoded past the end of the buffer. *)
Example app_hex_overruns : app_hex_string_to_bytes (str "0011ff") 4 = UB.
Proof. by vm_compute. Qed.
(** The size of a buffer there was no memory for is remembered: the next text is printed
    to NULL. *)
Example hexstring_after_failure :
  match hexstring (λ _, false) (str "ab") no_buffer with
  | Ok (None, k) => hexstring (λ _, false) (str "ab") k = UB
  | _ => False
  end.
Proof. by vm_compute. Qed.
