(* ===== verification/AppHandover.v ===== *)
(** * From one version to the next

    What [Upgrade] proves of the enclaves and [AppProcess] of the processes around them,
    put together: the application of the old version keeps the data its enclave
    exports, the new version fetches them, and works with them. *)
From stdpp Require Import gmap.
From S2P Require Import Prelude StdMap Status Hex Json JsonParse JsonText Host.
From S2P Require Import State Demo Merkle Persist Workload Report Storage Identity Upgrade Attest Ecalls.
From S2P Require Import AppTask AppEcalls AppJson AppData AppSrd AppText AppChain AppReport.
From S2P Require Import AppApi AppNetwork AppProcess.

(** ** What a computation leaves alone *)
Section keeping.
Context {W T : Type} `{!Host W}.
Variable f : workload → T.
Definition keeps {A} (m : Host.M (enclave W) A) : Prop := ∀ e a e', m e = Ok (a, e') → f (wl e') = f (wl e).
Lemma keeps_ret {A} (a : A) : keeps (mret a).
Proof. by intros e a' e' [-> ->]%ret_Ok. Qed.
Lemma keeps_bind {A B} (m : Host.M (enclave W) A) (g : A → Host.M (enclave W) B) :
  keeps m → (∀ a, keeps (g a)) → keeps (m ≫= g).
Proof. intros Hm Hg e b e' (a & e1 & H1 & H2)%bind_Ok. by rewrite (Hg _ _ _ _ H2), (Hm _ _ _ H1). Qed.
Lemma keeps_gets {A} (g : enclave W → A) : keeps (gets g).
Proof. by intros e a e' [-> ->]%gets_Ok. Qed.
Lemma keeps_of_res {A} (r : res A) : keeps (of_res r).
Proof. by intros e a e' [_ ->]%of_res_Ok. Qed.
Lemma keeps_undefined {A} : keeps (undefined (A := A)).
Proof. by intros e a e' H. Qed.
Lemma keeps_host {A} (g : W → A * W) : keeps (host g).
Proof. intros e a e' H. unfold host in H. by apply zoom_Ok in H as [_ ->]. Qed.
Lemma keeps_modify g : (∀ e, f (wl (g e)) = f (wl e)) → keeps (modify g).
Proof. by intros H e a e' ->%modify_Ok. Qed.
Lemma keeps_on_wl g : (∀ w, f (g w) = f w) → keeps (on_wl g).
Proof. intros H. apply keeps_modify. intros e. apply H. Qed.
End keeping.

(** [keeps] goes through a computation step by step; changes of the workload are left. *)
Ltac keeps :=
  repeat first
    [ apply keeps_ret | apply keeps_gets | apply keeps_of_res | apply keeps_undefined | apply keeps_host
    | apply keeps_bind; [|intros ?] | apply keeps_on_wl | apply keeps_modify
    | case_match ].

(** What the entry into the network may not touch *)
Definition taken_over (w : workload) := (srd_path2hashs_m w, pre_pub_key w, id_key_pair w).
Section entering.
Context {W : Type} `{!Host W} `{!UpgradeHost W} `{!Threads W}.
Lemma enter_keeps pub hash height (e : enclave W) st e' :
  enter_upgrade pub hash height e = Ok (st, e') → taken_over (wl e') = (srd_path2hashs_m (wl e), pub, id_key_pair (wl e)).
Proof.
  intros H. unfold enter_upgrade in H. apply bind_Ok in H as ([] & e1 & H1 & H). unfold on_wl in H1. apply modify_Ok in H1. subst e1.
  set (e1 := with_wl _ e) in H. assert (taken_over (wl e') = taken_over (wl e1)) as ->; [|done].
  revert H. set (m := _ ≫= _). assert (keeps taken_over m) as Hm; [|by apply Hm].
  unfold m. keeps; done.
Qed.
End entering.

(** ** The application between the versions *)
Section application.
Context {W : Type} `{!LevelDb W} `{!Host W} `{!HostLaws W} `{!UpgradeHost W} `{!UpgradeLaws W}.
#[local] Existing Instance node_host.
#[local] Existing Instance node_upgrade_host.
#[global] Instance node_host_laws : @HostLaws (node W) node_host.
Proof. split; [intros m; apply (sha256_length (W := W))|intros n k Hk; by apply (malloc_huge (W := W))]. Qed.
(** The upgrade data of the application are what its enclave handed out. *)
#[global, refine] Instance node_upgrade_laws : @UpgradeLaws (node W) node_host node_upgrade_host := {|
  key_match := key_match (W := W);
  upgrade_stored n := upgrade_data (n_data n)
|}.
Proof.
  - intros pri pub m n sig n' Hk H. cbn [sgx_ecdsa_sign node_host] in H. unfold below in H.
    destruct (sgx_ecdsa_sign pri m (n_os n)) as [o w] eqn:E. injection H as -> _. exact (sign_verify (W := W) pri pub m (n_os n) sig w Hk E).
  - intros n. cbn [sgx_ecc256_open_context node_host]. unfold below. pose proof (context_opens (n_os n)) as H.
    by destruct (sgx_ecc256_open_context (n_os n)).
  - intros h n H. cbn [ocall_get_block_hash node_upgrade_host] in *. unfold below in *.
    pose proof (block_hash_text h (n_os n)) as Hb. destruct (ocall_get_block_hash h (n_os n)) as [r w]. by apply Hb.
  - intros p cover n. cbn [ocall_store_upgrade_data node_upgrade_host]. unfold app_store_upgrade_data, ocall_store. cbn [fst snd].
    by destruct cover.
Defined.
End application.

Section handover.
Context {W : Type} `{!LevelDb W} `{!LevelDbLaws W} `{!DiskOs W} `{!HttpClient W} `{!QuoteHost W} `{!ProcessOs W}.
Context `{!Host W} `{!HostLaws W} `{!BelowLaws} `{!IdHost W} `{!UpgradeHost W} `{!UpgradeLaws W} `{!AttestHost W}.
#[local] Existing Instance node_host.
#[local] Existing Instance node_upgrade_host.
#[local] Existing Instance node_id_host.
#[local] Existing Instance node_attest_host.
Context `{!Threads (node W)} `{!AppThreads (node W)} `{!Alone (node W)}.
Variable cfg : Config.
Variables fuel tid : nat.
Hypothesis fuel_enough : (4 <= fuel)%nat.

(** C4: the upgrade as a whole.  The enclave of the old version exports its state, and
    its application holds the text; the new version fetches that text, and counts it
    as restored.  Then the new enclave, with a key pair of its own, has every srd
    hash of the old one, and knows its public key as that of its predecessor; it had
    every file of the old one before it entered the network; and the report it
    entered with is of the last height below the block that is whole eras, at least
    one, above the last report of the old one. *)
Theorem handover h k (eA eA' : enclave (node W)) (s s' : srd_node W) :
  id_gen_upgrade_data h eA = Ok (CRUST_SUCCESS, eA') →
  0 <= report_height (wl eA) → h < 2 ^ 63 →
  let old := wl eA' in
  srd_ok (srd_path2hashs_m old) → Forall file_ok (checked_files old) →
  map_total (srd_path2hashs_m old) * HASH_LENGTH < 2 ^ 63 → zlen (checked_files old) * HASH_LENGTH < 2 ^ 63 →
  zlen (get_pub_key old) = 64 → key_match (W := W) (get_pri_key old) (get_pub_key old) →
  let meta := upgrade_data (n_data (world eA')) in
  meta ≠ [] → zlen meta < 2 ^ 63 →
  idle (a_tasks (s_app s)) → restore_again cfg fuel tid k meta s = Ok (true, s') →
  let new := wl (a_enclave (s_app s')) in
  srd_path2hashs_m new = srd_path2hashs_m old ∧ pre_pub_key new = get_pub_key old ∧
  ∃ e height hash st,
    srd_path2hashs_m (wl e) = srd_path2hashs_m old ∧ checked_files (wl e) = checked_files old ∧
    new_era (report_height (wl eA)) h height ∧
    enter_upgrade (get_pub_key old) hash (to_string height) e = Ok (st, a_enclave (s_app s')) ∧
    (st = CRUST_SUCCESS ∨ st = CRUST_UPGRADE_NEED_LEFT_DATA).
Proof using All.
  intros Hgen Hr Hh old Hs Hf Hn1 Hn2 Hpub Hkey meta Hne Hmax Hi Hgo new.
  destruct (restored_whole cfg fuel tid fuel_enough k meta s s' Hi Hne Hmax Hgo) as (garbage & n & e & b & st & _ & Hrest & Hst).
  destruct (export_imported (UpgradeLaws0 := node_upgrade_laws) h eA eA' e Hgen Hr Hh Hs Hf Hn1 Hn2 Hpub Hkey Hmax) as (e1 & height & hash & E & Hsrd & Hfiles & Hheight).
  change (upgrade_stored (world eA')) with meta in E. rewrite E in Hrest.
  apply bind_Ok in Hrest as (st' & e2 & He & Hrest). apply ret_Ok in Hrest as [Eb Ee].
  injection Eb as _ ->. rewrite <- Ee in He.
  pose proof (enter_keeps _ _ _ _ _ _ He) as Hk. unfold taken_over in Hk. injection Hk as Hk1 Hk2 _.
  split_and!; [exact (eq_trans Hk1 Hsrd)|exact Hk2|]. by exists e1, height, hash, st'.
Qed.
End handover.

(** ** Evaluated *)
Section demo_handover.
#[local] Existing Instance node_host.
#[local] Existing Instance node_upgrade_host.
#[local] Existing Instance node_id_host.
#[local] Existing Instance node_attest_host.
#[local] Existing Instance demo_node_threads.
#[local] Existing Instance demo_node_app.
#[local] Instance demo_node_alone : Alone (node demo).
Proof. by split. Qed.

(** The old enclave of [Upgrade], inside its application *)
Definition demo_old_node : enclave (node demo) :=
  Enclave (wl demo_old) (g_func_m demo_old) 0 None [] (Node (world demo_old) EnclaveData_new []).
Definition demo_exported_node : enclave (node demo) :=
  match id_gen_upgrade_data 1000 demo_old_node with Ok (_, e) => e | _ => demo_old_node end.
Lemma demo_node_export : id_gen_upgrade_data 1000 demo_old_node = Ok (CRUST_SUCCESS, demo_exported_node).
Proof. vm_compute. reflexivity. Qed.
Definition demo_meta : bytes := upgrade_data (n_data (world demo_exported_node)).
Lemma demo_meta_text : demo_meta = demo_text.
Proof. vm_compute. reflexivity. Qed.
Lemma demo_node_files : checked_files (wl demo_exported_node) = checked_files (wl demo_exported).
Proof. vm_compute. reflexivity. Qed.
Lemma demo_node_srd : srd_path2hashs_m (wl demo_exported_node) = srd_path2hashs_m (wl demo_exported).
Proof. vm_compute. reflexivity. Qed.
Lemma demo_node_keys : id_key_pair (wl demo_exported_node) = id_key_pair (wl demo_exported).
Proof. vm_compute. reflexivity. Qed.
Lemma handover_witness :
  ∃ s', restore_again demo_cfg 4 7 3 demo_meta demo_srd_node = Ok (true, s') ∧
    srd_path2hashs_m (wl (a_enclave (s_app s'))) = srd_path2hashs_m (wl demo_exported).
Proof.
  assert (match restore_again demo_cfg 4 7 3 demo_meta demo_srd_node with Ok (b, _) => b | _ => false end = true) as H
    by (vm_compute; reflexivity).
  destruct (restore_again demo_cfg 4 7 3 demo_meta demo_srd_node) as [[[] s']| | |] eqn:E; try discriminate H.
  exists s'. split; [reflexivity|]. rewrite <- demo_node_srd.
  destruct demo_exported_ok as [H1 H2]. destruct demo_exported_sizes as (H3 & H4 & H5 & H6 & H7).
  apply (handover demo_cfg 4 7 ltac:(lia) 1000 3 demo_old_node demo_exported_node demo_srd_node s' demo_node_export);
    rewrite ?demo_node_srd, ?demo_node_files; unfold get_pub_key, get_pri_key; rewrite ?demo_node_keys.
  - discriminate.
  - reflexivity.
  - exact H1.
  - exact H2.
  - exact H3.
  - exact H4.
  - exact H5.
  - exact H6.
  - change (demo_meta ≠ []). rewrite demo_meta_text. by vm_compute.
  - change (zlen demo_meta < 2 ^ 63). rewrite demo_meta_text. exact H7.
  - by split_and!.
  - exact E.
Defined.
End demo_handover.
